(** * Aave V3 (Base) subgraph: accrual, position ledger, aggregation, snapshots

    A shallow embedding of the AssemblyScript mappings [src/helpers.ts],
    [src/pricing.ts], [src/pool.ts] and [src/snapshots.ts], and the proofs of
    the properties stated for them.

    Modelling conventions.
    - [BigInt] is an arbitrary-precision signed integer: [Z].  [BigInt.div]
      truncates towards zero: [Z.quot].
    - [i32] values are [Z] with the wrap-around of [+] written out ([wrap32]).
    - [BigDecimal] values are rationals with a canonical representation: [Qc].
      The mappings never compute on them themselves: every [plus], [minus],
      [times] and [div] is a call into the indexing host, which computes the
      result and normalises it to its working precision (34 significant
      decimal digits in graph-node).  The normalisation is the parameter
      [norm] of Section [Host]; what is proved for every [norm] holds
      whatever the host's rounding mode is.  [exact] is the normalisation of
      an unbounded-precision host, [roundTo mode] rounds to 34 significant
      digits in the given mode and [round34] is [roundTo HalfUp].
    - An [Address] is represented by its [toHexString()].
    - Entities are records; the entity store is a record of finite maps keyed
      by entity id.  [load] copies an entity out of the store and [save]
      writes it back, so a function that mutates the entity object it was
      handed returns the mutated object next to the store.
    - Contract calls ([try_...]) read the chain at the block being indexed:
      the record [Chain], with [None] for a reverted call.
    - The host aborts a handler on a division by zero, and then commits none
      of its writes.  The model is total ([x / 0] is [0]): it describes the
      runs that complete.
    - [BigInt.toI32()] keeps the low 32 bits of the number, in two's
      complement, as the [i32] addition does: [wrap32].
    - [updateDailyRevenue] and [updateProtocolDailyRevenue] of snapshots.ts
      are imported by pool.ts and never called: no handler below uses them.
      The second one writes nothing, it only logs; it is left out. *)

From Stdlib Require Import ZArith QArith Qcanon Qabs Qcabs Qround Qpower Lia Lqa List.
From stdpp Require Import base numbers strings pretty gmap.

Local Open Scope Z_scope.

(** ** Numbers *)

Abbreviation BigInt := Z (only parsing).
Abbreviation BigDecimal := Qc (only parsing).
Abbreviation Address := string (only parsing).

Definition wrap32 (z : Z) : Z := (z + 2 ^ 31) mod 2 ^ 32 - 2 ^ 31.

(** [a + b] on [i32]. *)
Definition i32_add (a b : Z) : Z := wrap32 (a + b).

(** [BigInt.toI32()]: the number itself when it fits 32 bits, its low 32
    bits otherwise. *)
Definition toI32 (z : Z) : Z := wrap32 z.

(** [BigInt.fromI32]. *)
Definition fromI32 (z : Z) : Z := z.

(** Comparison of two [BigDecimal] values ([gt], [equals]). *)
Definition bd_gt (x y : Qc) : bool := bool_decide (y < x)%Qc.
Definition bd_equals (x y : Qc) : bool := bool_decide (x = y).

Definition toLowerChar (c : Ascii.ascii) : Ascii.ascii :=
  let n := Ascii.N_of_ascii c in
  if ((65 <=? n) && (n <=? 90))%N then Ascii.ascii_of_N (n + 32) else c.

Fixpoint toLowerCase (s : string) : string :=
  match s with
  | String.EmptyString => String.EmptyString
  | String.String c r => String.String (toLowerChar c) (toLowerCase r)
  end.

(** [i32.toString()] and [BigInt.toString()]: decimal digits. *)
Definition toString (z : Z) : string := pretty z.

(** ** Entities (generated/schema) *)

(** [Protocol]: singleton holding protocol-wide totals and cumulative revenue. *)
Module Protocol.
Record t : Type := mk {
  id : string;
  totalSupplyUSD : Qc;
  totalBorrowUSD : Qc;
  totalRevenueUSD : Qc;
  cumulativeSupplySideRevenueUSD : Qc;
  cumulativeProtocolSideRevenueUSD : Qc
}.
Definition set_totalSupplyUSD (v : Qc) (e : t) : t :=
  {| id := id e; totalSupplyUSD := v; totalBorrowUSD := totalBorrowUSD e;
     totalRevenueUSD := totalRevenueUSD e;
     cumulativeSupplySideRevenueUSD := cumulativeSupplySideRevenueUSD e;
     cumulativeProtocolSideRevenueUSD := cumulativeProtocolSideRevenueUSD e |}.
Definition set_totalBorrowUSD (v : Qc) (e : t) : t :=
  {| id := id e; totalSupplyUSD := totalSupplyUSD e; totalBorrowUSD := v;
     totalRevenueUSD := totalRevenueUSD e;
     cumulativeSupplySideRevenueUSD := cumulativeSupplySideRevenueUSD e;
     cumulativeProtocolSideRevenueUSD := cumulativeProtocolSideRevenueUSD e |}.
Definition set_totalRevenueUSD (v : Qc) (e : t) : t :=
  {| id := id e; totalSupplyUSD := totalSupplyUSD e;
     totalBorrowUSD := totalBorrowUSD e; totalRevenueUSD := v;
     cumulativeSupplySideRevenueUSD := cumulativeSupplySideRevenueUSD e;
     cumulativeProtocolSideRevenueUSD := cumulativeProtocolSideRevenueUSD e |}.
Definition set_cumulativeSupplySideRevenueUSD (v : Qc) (e : t) : t :=
  {| id := id e; totalSupplyUSD := totalSupplyUSD e;
     totalBorrowUSD := totalBorrowUSD e;
     totalRevenueUSD := totalRevenueUSD e;
     cumulativeSupplySideRevenueUSD := v;
     cumulativeProtocolSideRevenueUSD := cumulativeProtocolSideRevenueUSD e |}.
Definition set_cumulativeProtocolSideRevenueUSD (v : Qc) (e : t) : t :=
  {| id := id e; totalSupplyUSD := totalSupplyUSD e;
     totalBorrowUSD := totalBorrowUSD e;
     totalRevenueUSD := totalRevenueUSD e;
     cumulativeSupplySideRevenueUSD := cumulativeSupplySideRevenueUSD e;
     cumulativeProtocolSideRevenueUSD := v |}.
End Protocol.

(** [Token]: cached ERC20 metadata and last oracle price. *)
Module Token.
Record t : Type := mk {
  id : string;
  symbol : string;
  name : string;
  decimals : Z;
  totalSupply : Z;
  lastPriceUSD : Qc;
  lastPriceTimestamp : Z
}.
Definition set_lastPriceUSD (v : Qc) (e : t) : t :=
  {| id := id e; symbol := symbol e; name := name e; decimals := decimals e;
     totalSupply := totalSupply e; lastPriceUSD := v;
     lastPriceTimestamp := lastPriceTimestamp e |}.
Definition set_lastPriceTimestamp (v : Z) (e : t) : t :=
  {| id := id e; symbol := symbol e; name := name e; decimals := decimals e;
     totalSupply := totalSupply e; lastPriceUSD := lastPriceUSD e;
     lastPriceTimestamp := v |}.
End Token.

(** [Market]: one reserve of the pool. *)
Module Market.
Record t : Type := mk {
  id : string;
  protocol : string;
  asset : string;
  aToken : string;
  sToken : string;
  vToken : string;
  inputToken : string;
  outputToken : string;
  totalSupply : Z;
  totalBorrow : Z;
  availableLiquidity : Z;
  liquidityRate : Z;
  variableBorrowRate : Z;
  stableBorrowRate : Z;
  supplyAPY : Qc;
  variableBorrowAPY : Qc;
  utilizationRate : Qc;
  ltv : Z;
  liquidationThreshold : Z;
  liquidationPenalty : Z;
  reserveFactor : Z;
  lastUpdateTimestamp : Z;
  lastUpdateBlock : Z;
  lastRevenueCalculationTimestamp : Z
}.
Definition set_totalSupply (v : Z) (e : t) : t :=
  {| id := id e; protocol := protocol e; asset := asset e;
     aToken := aToken e; sToken := sToken e; vToken := vToken e;
     inputToken := inputToken e; outputToken := outputToken e;
     totalSupply := v; totalBorrow := totalBorrow e;
     availableLiquidity := availableLiquidity e;
     liquidityRate := liquidityRate e;
     variableBorrowRate := variableBorrowRate e;
     stableBorrowRate := stableBorrowRate e; supplyAPY := supplyAPY e;
     variableBorrowAPY := variableBorrowAPY e;
     utilizationRate := utilizationRate e; ltv := ltv e;
     liquidationThreshold := liquidationThreshold e;
     liquidationPenalty := liquidationPenalty e;
     reserveFactor := reserveFactor e;
     lastUpdateTimestamp := lastUpdateTimestamp e;
     lastUpdateBlock := lastUpdateBlock e;
     lastRevenueCalculationTimestamp := lastRevenueCalculationTimestamp e |}.
Definition set_totalBorrow (v : Z) (e : t) : t :=
  {| id := id e; protocol := protocol e; asset := asset e;
     aToken := aToken e; sToken := sToken e; vToken := vToken e;
     inputToken := inputToken e; outputToken := outputToken e;
     totalSupply := totalSupply e; totalBorrow := v;
     availableLiquidity := availableLiquidity e;
     liquidityRate := liquidityRate e;
     variableBorrowRate := variableBorrowRate e;
     stableBorrowRate := stableBorrowRate e; supplyAPY := supplyAPY e;
     variableBorrowAPY := variableBorrowAPY e;
     utilizationRate := utilizationRate e; ltv := ltv e;
     liquidationThreshold := liquidationThreshold e;
     liquidationPenalty := liquidationPenalty e;
     reserveFactor := reserveFactor e;
     lastUpdateTimestamp := lastUpdateTimestamp e;
     lastUpdateBlock := lastUpdateBlock e;
     lastRevenueCalculationTimestamp := lastRevenueCalculationTimestamp e |}.
Definition set_availableLiquidity (v : Z) (e : t) : t :=
  {| id := id e; protocol := protocol e; asset := asset e;
     aToken := aToken e; sToken := sToken e; vToken := vToken e;
     inputToken := inputToken e; outputToken := outputToken e;
     totalSupply := totalSupply e; totalBorrow := totalBorrow e;
     availableLiquidity := v; liquidityRate := liquidityRate e;
     variableBorrowRate := variableBorrowRate e;
     stableBorrowRate := stableBorrowRate e; supplyAPY := supplyAPY e;
     variableBorrowAPY := variableBorrowAPY e;
     utilizationRate := utilizationRate e; ltv := ltv e;
     liquidationThreshold := liquidationThreshold e;
     liquidationPenalty := liquidationPenalty e;
     reserveFactor := reserveFactor e;
     lastUpdateTimestamp := lastUpdateTimestamp e;
     lastUpdateBlock := lastUpdateBlock e;
     lastRevenueCalculationTimestamp := lastRevenueCalculationTimestamp e |}.
Definition set_liquidityRate (v : Z) (e : t) : t :=
  {| id := id e; protocol := protocol e; asset := asset e;
     aToken := aToken e; sToken := sToken e; vToken := vToken e;
     inputToken := inputToken e; outputToken := outputToken e;
     totalSupply := totalSupply e; totalBorrow := totalBorrow e;
     availableLiquidity := availableLiquidity e; liquidityRate := v;
     variableBorrowRate := variableBorrowRate e;
     stableBorrowRate := stableBorrowRate e; supplyAPY := supplyAPY e;
     variableBorrowAPY := variableBorrowAPY e;
     utilizationRate := utilizationRate e; ltv := ltv e;
     liquidationThreshold := liquidationThreshold e;
     liquidationPenalty := liquidationPenalty e;
     reserveFactor := reserveFactor e;
     lastUpdateTimestamp := lastUpdateTimestamp e;
     lastUpdateBlock := lastUpdateBlock e;
     lastRevenueCalculationTimestamp := lastRevenueCalculationTimestamp e |}.
Definition set_variableBorrowRate (v : Z) (e : t) : t :=
  {| id := id e; protocol := protocol e; asset := asset e;
     aToken := aToken e; sToken := sToken e; vToken := vToken e;
     inputToken := inputToken e; outputToken := outputToken e;
     totalSupply := totalSupply e; totalBorrow := totalBorrow e;
     availableLiquidity := availableLiquidity e;
     liquidityRate := liquidityRate e; variableBorrowRate := v;
     stableBorrowRate := stableBorrowRate e; supplyAPY := supplyAPY e;
     variableBorrowAPY := variableBorrowAPY e;
     utilizationRate := utilizationRate e; ltv := ltv e;
     liquidationThreshold := liquidationThreshold e;
     liquidationPenalty := liquidationPenalty e;
     reserveFactor := reserveFactor e;
     lastUpdateTimestamp := lastUpdateTimestamp e;
     lastUpdateBlock := lastUpdateBlock e;
     lastRevenueCalculationTimestamp := lastRevenueCalculationTimestamp e |}.
Definition set_stableBorrowRate (v : Z) (e : t) : t :=
  {| id := id e; protocol := protocol e; asset := asset e;
     aToken := aToken e; sToken := sToken e; vToken := vToken e;
     inputToken := inputToken e; outputToken := outputToken e;
     totalSupply := totalSupply e; totalBorrow := totalBorrow e;
     availableLiquidity := availableLiquidity e;
     liquidityRate := liquidityRate e;
     variableBorrowRate := variableBorrowRate e; stableBorrowRate := v;
     supplyAPY := supplyAPY e; variableBorrowAPY := variableBorrowAPY e;
     utilizationRate := utilizationRate e; ltv := ltv e;
     liquidationThreshold := liquidationThreshold e;
     liquidationPenalty := liquidationPenalty e;
     reserveFactor := reserveFactor e;
     lastUpdateTimestamp := lastUpdateTimestamp e;
     lastUpdateBlock := lastUpdateBlock e;
     lastRevenueCalculationTimestamp := lastRevenueCalculationTimestamp e |}.
Definition set_supplyAPY (v : Qc) (e : t) : t :=
  {| id := id e; protocol := protocol e; asset := asset e;
     aToken := aToken e; sToken := sToken e; vToken := vToken e;
     inputToken := inputToken e; outputToken := outputToken e;
     totalSupply := totalSupply e; totalBorrow := totalBorrow e;
     availableLiquidity := availableLiquidity e;
     liquidityRate := liquidityRate e;
     variableBorrowRate := variableBorrowRate e;
     stableBorrowRate := stableBorrowRate e; supplyAPY := v;
     variableBorrowAPY := variableBorrowAPY e;
     utilizationRate := utilizationRate e; ltv := ltv e;
     liquidationThreshold := liquidationThreshold e;
     liquidationPenalty := liquidationPenalty e;
     reserveFactor := reserveFactor e;
     lastUpdateTimestamp := lastUpdateTimestamp e;
     lastUpdateBlock := lastUpdateBlock e;
     lastRevenueCalculationTimestamp := lastRevenueCalculationTimestamp e |}.
Definition set_variableBorrowAPY (v : Qc) (e : t) : t :=
  {| id := id e; protocol := protocol e; asset := asset e;
     aToken := aToken e; sToken := sToken e; vToken := vToken e;
     inputToken := inputToken e; outputToken := outputToken e;
     totalSupply := totalSupply e; totalBorrow := totalBorrow e;
     availableLiquidity := availableLiquidity e;
     liquidityRate := liquidityRate e;
     variableBorrowRate := variableBorrowRate e;
     stableBorrowRate := stableBorrowRate e; supplyAPY := supplyAPY e;
     variableBorrowAPY := v; utilizationRate := utilizationRate e;
     ltv := ltv e; liquidationThreshold := liquidationThreshold e;
     liquidationPenalty := liquidationPenalty e;
     reserveFactor := reserveFactor e;
     lastUpdateTimestamp := lastUpdateTimestamp e;
     lastUpdateBlock := lastUpdateBlock e;
     lastRevenueCalculationTimestamp := lastRevenueCalculationTimestamp e |}.
Definition set_utilizationRate (v : Qc) (e : t) : t :=
  {| id := id e; protocol := protocol e; asset := asset e;
     aToken := aToken e; sToken := sToken e; vToken := vToken e;
     inputToken := inputToken e; outputToken := outputToken e;
     totalSupply := totalSupply e; totalBorrow := totalBorrow e;
     availableLiquidity := availableLiquidity e;
     liquidityRate := liquidityRate e;
     variableBorrowRate := variableBorrowRate e;
     stableBorrowRate := stableBorrowRate e; supplyAPY := supplyAPY e;
     variableBorrowAPY := variableBorrowAPY e; utilizationRate := v;
     ltv := ltv e; liquidationThreshold := liquidationThreshold e;
     liquidationPenalty := liquidationPenalty e;
     reserveFactor := reserveFactor e;
     lastUpdateTimestamp := lastUpdateTimestamp e;
     lastUpdateBlock := lastUpdateBlock e;
     lastRevenueCalculationTimestamp := lastRevenueCalculationTimestamp e |}.
Definition set_lastUpdateTimestamp (v : Z) (e : t) : t :=
  {| id := id e; protocol := protocol e; asset := asset e;
     aToken := aToken e; sToken := sToken e; vToken := vToken e;
     inputToken := inputToken e; outputToken := outputToken e;
     totalSupply := totalSupply e; totalBorrow := totalBorrow e;
     availableLiquidity := availableLiquidity e;
     liquidityRate := liquidityRate e;
     variableBorrowRate := variableBorrowRate e;
     stableBorrowRate := stableBorrowRate e; supplyAPY := supplyAPY e;
     variableBorrowAPY := variableBorrowAPY e;
     utilizationRate := utilizationRate e; ltv := ltv e;
     liquidationThreshold := liquidationThreshold e;
     liquidationPenalty := liquidationPenalty e;
     reserveFactor := reserveFactor e; lastUpdateTimestamp := v;
     lastUpdateBlock := lastUpdateBlock e;
     lastRevenueCalculationTimestamp := lastRevenueCalculationTimestamp e |}.
Definition set_lastUpdateBlock (v : Z) (e : t) : t :=
  {| id := id e; protocol := protocol e; asset := asset e;
     aToken := aToken e; sToken := sToken e; vToken := vToken e;
     inputToken := inputToken e; outputToken := outputToken e;
     totalSupply := totalSupply e; totalBorrow := totalBorrow e;
     availableLiquidity := availableLiquidity e;
     liquidityRate := liquidityRate e;
     variableBorrowRate := variableBorrowRate e;
     stableBorrowRate := stableBorrowRate e; supplyAPY := supplyAPY e;
     variableBorrowAPY := variableBorrowAPY e;
     utilizationRate := utilizationRate e; ltv := ltv e;
     liquidationThreshold := liquidationThreshold e;
     liquidationPenalty := liquidationPenalty e;
     reserveFactor := reserveFactor e;
     lastUpdateTimestamp := lastUpdateTimestamp e; lastUpdateBlock := v;
     lastRevenueCalculationTimestamp := lastRevenueCalculationTimestamp e |}.
Definition set_lastRevenueCalculationTimestamp (v : Z) (e : t) : t :=
  {| id := id e; protocol := protocol e; asset := asset e;
     aToken := aToken e; sToken := sToken e; vToken := vToken e;
     inputToken := inputToken e; outputToken := outputToken e;
     totalSupply := totalSupply e; totalBorrow := totalBorrow e;
     availableLiquidity := availableLiquidity e;
     liquidityRate := liquidityRate e;
     variableBorrowRate := variableBorrowRate e;
     stableBorrowRate := stableBorrowRate e; supplyAPY := supplyAPY e;
     variableBorrowAPY := variableBorrowAPY e;
     utilizationRate := utilizationRate e; ltv := ltv e;
     liquidationThreshold := liquidationThreshold e;
     liquidationPenalty := liquidationPenalty e;
     reserveFactor := reserveFactor e;
     lastUpdateTimestamp := lastUpdateTimestamp e;
     lastUpdateBlock := lastUpdateBlock e;
     lastRevenueCalculationTimestamp := v |}.
End Market.

(** [User]: an account seen in some event. *)
Module User.
Record t : Type := mk {
  id : string;
  totalSupplyUSD : Qc;
  totalBorrowUSD : Qc;
  transactionCount : Z
}.
Definition set_totalSupplyUSD (v : Qc) (e : t) : t :=
  {| id := id e; totalSupplyUSD := v; totalBorrowUSD := totalBorrowUSD e;
     transactionCount := transactionCount e |}.
Definition set_totalBorrowUSD (v : Qc) (e : t) : t :=
  {| id := id e; totalSupplyUSD := totalSupplyUSD e; totalBorrowUSD := v;
     transactionCount := transactionCount e |}.
Definition set_transactionCount (v : Z) (e : t) : t :=
  {| id := id e; totalSupplyUSD := totalSupplyUSD e;
     totalBorrowUSD := totalBorrowUSD e; transactionCount := v |}.
End User.

(** [UserPosition]: the position of one user in one market. *)
Module UserPosition.
Record t : Type := mk {
  id : string;
  user : string;
  market : string;
  aTokenBalance : Z;
  variableDebtBalance : Z;
  stableDebtBalance : Z;
  principal : Z;
  totalDeposited : Z;
  totalWithdrawn : Z;
  realizedPnL : Qc;
  unrealizedPnL : Qc;
  isCollateral : bool;
  lastUpdateTimestamp : Z
}.
Definition set_aTokenBalance (v : Z) (e : t) : t :=
  {| id := id e; user := user e; market := market e; aTokenBalance := v;
     variableDebtBalance := variableDebtBalance e;
     stableDebtBalance := stableDebtBalance e; principal := principal e;
     totalDeposited := totalDeposited e; totalWithdrawn := totalWithdrawn e;
     realizedPnL := realizedPnL e; unrealizedPnL := unrealizedPnL e;
     isCollateral := isCollateral e;
     lastUpdateTimestamp := lastUpdateTimestamp e |}.
Definition set_variableDebtBalance (v : Z) (e : t) : t :=
  {| id := id e; user := user e; market := market e;
     aTokenBalance := aTokenBalance e; variableDebtBalance := v;
     stableDebtBalance := stableDebtBalance e; principal := principal e;
     totalDeposited := totalDeposited e; totalWithdrawn := totalWithdrawn e;
     realizedPnL := realizedPnL e; unrealizedPnL := unrealizedPnL e;
     isCollateral := isCollateral e;
     lastUpdateTimestamp := lastUpdateTimestamp e |}.
Definition set_stableDebtBalance (v : Z) (e : t) : t :=
  {| id := id e; user := user e; market := market e;
     aTokenBalance := aTokenBalance e;
     variableDebtBalance := variableDebtBalance e; stableDebtBalance := v;
     principal := principal e; totalDeposited := totalDeposited e;
     totalWithdrawn := totalWithdrawn e; realizedPnL := realizedPnL e;
     unrealizedPnL := unrealizedPnL e; isCollateral := isCollateral e;
     lastUpdateTimestamp := lastUpdateTimestamp e |}.
Definition set_principal (v : Z) (e : t) : t :=
  {| id := id e; user := user e; market := market e;
     aTokenBalance := aTokenBalance e;
     variableDebtBalance := variableDebtBalance e;
     stableDebtBalance := stableDebtBalance e; principal := v;
     totalDeposited := totalDeposited e; totalWithdrawn := totalWithdrawn e;
     realizedPnL := realizedPnL e; unrealizedPnL := unrealizedPnL e;
     isCollateral := isCollateral e;
     lastUpdateTimestamp := lastUpdateTimestamp e |}.
Definition set_totalDeposited (v : Z) (e : t) : t :=
  {| id := id e; user := user e; market := market e;
     aTokenBalance := aTokenBalance e;
     variableDebtBalance := variableDebtBalance e;
     stableDebtBalance := stableDebtBalance e; principal := principal e;
     totalDeposited := v; totalWithdrawn := totalWithdrawn e;
     realizedPnL := realizedPnL e; unrealizedPnL := unrealizedPnL e;
     isCollateral := isCollateral e;
     lastUpdateTimestamp := lastUpdateTimestamp e |}.
Definition set_totalWithdrawn (v : Z) (e : t) : t :=
  {| id := id e; user := user e; market := market e;
     aTokenBalance := aTokenBalance e;
     variableDebtBalance := variableDebtBalance e;
     stableDebtBalance := stableDebtBalance e; principal := principal e;
     totalDeposited := totalDeposited e; totalWithdrawn := v;
     realizedPnL := realizedPnL e; unrealizedPnL := unrealizedPnL e;
     isCollateral := isCollateral e;
     lastUpdateTimestamp := lastUpdateTimestamp e |}.
Definition set_realizedPnL (v : Qc) (e : t) : t :=
  {| id := id e; user := user e; market := market e;
     aTokenBalance := aTokenBalance e;
     variableDebtBalance := variableDebtBalance e;
     stableDebtBalance := stableDebtBalance e; principal := principal e;
     totalDeposited := totalDeposited e; totalWithdrawn := totalWithdrawn e;
     realizedPnL := v; unrealizedPnL := unrealizedPnL e;
     isCollateral := isCollateral e;
     lastUpdateTimestamp := lastUpdateTimestamp e |}.
Definition set_isCollateral (v : bool) (e : t) : t :=
  {| id := id e; user := user e; market := market e;
     aTokenBalance := aTokenBalance e;
     variableDebtBalance := variableDebtBalance e;
     stableDebtBalance := stableDebtBalance e; principal := principal e;
     totalDeposited := totalDeposited e; totalWithdrawn := totalWithdrawn e;
     realizedPnL := realizedPnL e; unrealizedPnL := unrealizedPnL e;
     isCollateral := v; lastUpdateTimestamp := lastUpdateTimestamp e |}.
Definition set_lastUpdateTimestamp (v : Z) (e : t) : t :=
  {| id := id e; user := user e; market := market e;
     aTokenBalance := aTokenBalance e;
     variableDebtBalance := variableDebtBalance e;
     stableDebtBalance := stableDebtBalance e; principal := principal e;
     totalDeposited := totalDeposited e; totalWithdrawn := totalWithdrawn e;
     realizedPnL := realizedPnL e; unrealizedPnL := unrealizedPnL e;
     isCollateral := isCollateral e; lastUpdateTimestamp := v |}.
End UserPosition.

(** [HourlySnapshot]: hourly roll-up of one market. *)
Module HourlySnapshot.
Record t : Type := mk {
  id : string;
  market : string;
  hourId : Z;
  timestamp : Z;
  hourlySupplyVolume : Z;
  hourlyWithdrawVolume : Z;
  hourlyBorrowVolume : Z;
  hourlyRepayVolume : Z;
  supplyAPY : Qc;
  borrowAPY : Qc;
  utilizationRate : Qc;
  totalSupply : Z;
  totalBorrow : Z
}.
Definition set_hourlySupplyVolume (v : Z) (e : t) : t :=
  {| id := id e; market := market e; hourId := hourId e;
     timestamp := timestamp e; hourlySupplyVolume := v;
     hourlyWithdrawVolume := hourlyWithdrawVolume e;
     hourlyBorrowVolume := hourlyBorrowVolume e;
     hourlyRepayVolume := hourlyRepayVolume e; supplyAPY := supplyAPY e;
     borrowAPY := borrowAPY e; utilizationRate := utilizationRate e;
     totalSupply := totalSupply e; totalBorrow := totalBorrow e |}.
Definition set_hourlyWithdrawVolume (v : Z) (e : t) : t :=
  {| id := id e; market := market e; hourId := hourId e;
     timestamp := timestamp e; hourlySupplyVolume := hourlySupplyVolume e;
     hourlyWithdrawVolume := v; hourlyBorrowVolume := hourlyBorrowVolume e;
     hourlyRepayVolume := hourlyRepayVolume e; supplyAPY := supplyAPY e;
     borrowAPY := borrowAPY e; utilizationRate := utilizationRate e;
     totalSupply := totalSupply e; totalBorrow := totalBorrow e |}.
Definition set_hourlyBorrowVolume (v : Z) (e : t) : t :=
  {| id := id e; market := market e; hourId := hourId e;
     timestamp := timestamp e; hourlySupplyVolume := hourlySupplyVolume e;
     hourlyWithdrawVolume := hourlyWithdrawVolume e; hourlyBorrowVolume := v;
     hourlyRepayVolume := hourlyRepayVolume e; supplyAPY := supplyAPY e;
     borrowAPY := borrowAPY e; utilizationRate := utilizationRate e;
     totalSupply := totalSupply e; totalBorrow := totalBorrow e |}.
Definition set_hourlyRepayVolume (v : Z) (e : t) : t :=
  {| id := id e; market := market e; hourId := hourId e;
     timestamp := timestamp e; hourlySupplyVolume := hourlySupplyVolume e;
     hourlyWithdrawVolume := hourlyWithdrawVolume e;
     hourlyBorrowVolume := hourlyBorrowVolume e; hourlyRepayVolume := v;
     supplyAPY := supplyAPY e; borrowAPY := borrowAPY e;
     utilizationRate := utilizationRate e; totalSupply := totalSupply e;
     totalBorrow := totalBorrow e |}.
Definition set_supplyAPY (v : Qc) (e : t) : t :=
  {| id := id e; market := market e; hourId := hourId e;
     timestamp := timestamp e; hourlySupplyVolume := hourlySupplyVolume e;
     hourlyWithdrawVolume := hourlyWithdrawVolume e;
     hourlyBorrowVolume := hourlyBorrowVolume e;
     hourlyRepayVolume := hourlyRepayVolume e; supplyAPY := v;
     borrowAPY := borrowAPY e; utilizationRate := utilizationRate e;
     totalSupply := totalSupply e; totalBorrow := totalBorrow e |}.
Definition set_borrowAPY (v : Qc) (e : t) : t :=
  {| id := id e; market := market e; hourId := hourId e;
     timestamp := timestamp e; hourlySupplyVolume := hourlySupplyVolume e;
     hourlyWithdrawVolume := hourlyWithdrawVolume e;
     hourlyBorrowVolume := hourlyBorrowVolume e;
     hourlyRepayVolume := hourlyRepayVolume e; supplyAPY := supplyAPY e;
     borrowAPY := v; utilizationRate := utilizationRate e;
     totalSupply := totalSupply e; totalBorrow := totalBorrow e |}.
Definition set_utilizationRate (v : Qc) (e : t) : t :=
  {| id := id e; market := market e; hourId := hourId e;
     timestamp := timestamp e; hourlySupplyVolume := hourlySupplyVolume e;
     hourlyWithdrawVolume := hourlyWithdrawVolume e;
     hourlyBorrowVolume := hourlyBorrowVolume e;
     hourlyRepayVolume := hourlyRepayVolume e; supplyAPY := supplyAPY e;
     borrowAPY := borrowAPY e; utilizationRate := v;
     totalSupply := totalSupply e; totalBorrow := totalBorrow e |}.
Definition set_totalSupply (v : Z) (e : t) : t :=
  {| id := id e; market := market e; hourId := hourId e;
     timestamp := timestamp e; hourlySupplyVolume := hourlySupplyVolume e;
     hourlyWithdrawVolume := hourlyWithdrawVolume e;
     hourlyBorrowVolume := hourlyBorrowVolume e;
     hourlyRepayVolume := hourlyRepayVolume e; supplyAPY := supplyAPY e;
     borrowAPY := borrowAPY e; utilizationRate := utilizationRate e;
     totalSupply := v; totalBorrow := totalBorrow e |}.
Definition set_totalBorrow (v : Z) (e : t) : t :=
  {| id := id e; market := market e; hourId := hourId e;
     timestamp := timestamp e; hourlySupplyVolume := hourlySupplyVolume e;
     hourlyWithdrawVolume := hourlyWithdrawVolume e;
     hourlyBorrowVolume := hourlyBorrowVolume e;
     hourlyRepayVolume := hourlyRepayVolume e; supplyAPY := supplyAPY e;
     borrowAPY := borrowAPY e; utilizationRate := utilizationRate e;
     totalSupply := totalSupply e; totalBorrow := v |}.
End HourlySnapshot.

(** [DailySnapshot]: daily roll-up of one market. *)
Module DailySnapshot.
Record t : Type := mk {
  id : string;
  market : string;
  dayId : Z;
  timestamp : Z;
  dailySupplyVolume : Z;
  dailyWithdrawVolume : Z;
  dailyBorrowVolume : Z;
  dailyRepayVolume : Z;
  dailyActiveUsers : Z;
  dailySupplySideRevenueUSD : Qc;
  dailyProtocolSideRevenueUSD : Qc;
  dailyTotalRevenueUSD : Qc;
  supplyAPY : Qc;
  borrowAPY : Qc;
  utilizationRate : Qc;
  totalSupply : Z;
  totalBorrow : Z
}.
Definition set_dailySupplyVolume (v : Z) (e : t) : t :=
  {| id := id e; market := market e; dayId := dayId e;
     timestamp := timestamp e; dailySupplyVolume := v;
     dailyWithdrawVolume := dailyWithdrawVolume e;
     dailyBorrowVolume := dailyBorrowVolume e;
     dailyRepayVolume := dailyRepayVolume e;
     dailyActiveUsers := dailyActiveUsers e;
     dailySupplySideRevenueUSD := dailySupplySideRevenueUSD e;
     dailyProtocolSideRevenueUSD := dailyProtocolSideRevenueUSD e;
     dailyTotalRevenueUSD := dailyTotalRevenueUSD e;
     supplyAPY := supplyAPY e; borrowAPY := borrowAPY e;
     utilizationRate := utilizationRate e; totalSupply := totalSupply e;
     totalBorrow := totalBorrow e |}.
Definition set_dailyWithdrawVolume (v : Z) (e : t) : t :=
  {| id := id e; market := market e; dayId := dayId e;
     timestamp := timestamp e; dailySupplyVolume := dailySupplyVolume e;
     dailyWithdrawVolume := v; dailyBorrowVolume := dailyBorrowVolume e;
     dailyRepayVolume := dailyRepayVolume e;
     dailyActiveUsers := dailyActiveUsers e;
     dailySupplySideRevenueUSD := dailySupplySideRevenueUSD e;
     dailyProtocolSideRevenueUSD := dailyProtocolSideRevenueUSD e;
     dailyTotalRevenueUSD := dailyTotalRevenueUSD e;
     supplyAPY := supplyAPY e; borrowAPY := borrowAPY e;
     utilizationRate := utilizationRate e; totalSupply := totalSupply e;
     totalBorrow := totalBorrow e |}.
Definition set_dailyBorrowVolume (v : Z) (e : t) : t :=
  {| id := id e; market := market e; dayId := dayId e;
     timestamp := timestamp e; dailySupplyVolume := dailySupplyVolume e;
     dailyWithdrawVolume := dailyWithdrawVolume e; dailyBorrowVolume := v;
     dailyRepayVolume := dailyRepayVolume e;
     dailyActiveUsers := dailyActiveUsers e;
     dailySupplySideRevenueUSD := dailySupplySideRevenueUSD e;
     dailyProtocolSideRevenueUSD := dailyProtocolSideRevenueUSD e;
     dailyTotalRevenueUSD := dailyTotalRevenueUSD e;
     supplyAPY := supplyAPY e; borrowAPY := borrowAPY e;
     utilizationRate := utilizationRate e; totalSupply := totalSupply e;
     totalBorrow := totalBorrow e |}.
Definition set_dailyRepayVolume (v : Z) (e : t) : t :=
  {| id := id e; market := market e; dayId := dayId e;
     timestamp := timestamp e; dailySupplyVolume := dailySupplyVolume e;
     dailyWithdrawVolume := dailyWithdrawVolume e;
     dailyBorrowVolume := dailyBorrowVolume e; dailyRepayVolume := v;
     dailyActiveUsers := dailyActiveUsers e;
     dailySupplySideRevenueUSD := dailySupplySideRevenueUSD e;
     dailyProtocolSideRevenueUSD := dailyProtocolSideRevenueUSD e;
     dailyTotalRevenueUSD := dailyTotalRevenueUSD e;
     supplyAPY := supplyAPY e; borrowAPY := borrowAPY e;
     utilizationRate := utilizationRate e; totalSupply := totalSupply e;
     totalBorrow := totalBorrow e |}.
Definition set_dailyActiveUsers (v : Z) (e : t) : t :=
  {| id := id e; market := market e; dayId := dayId e;
     timestamp := timestamp e; dailySupplyVolume := dailySupplyVolume e;
     dailyWithdrawVolume := dailyWithdrawVolume e;
     dailyBorrowVolume := dailyBorrowVolume e;
     dailyRepayVolume := dailyRepayVolume e; dailyActiveUsers := v;
     dailySupplySideRevenueUSD := dailySupplySideRevenueUSD e;
     dailyProtocolSideRevenueUSD := dailyProtocolSideRevenueUSD e;
     dailyTotalRevenueUSD := dailyTotalRevenueUSD e;
     supplyAPY := supplyAPY e; borrowAPY := borrowAPY e;
     utilizationRate := utilizationRate e; totalSupply := totalSupply e;
     totalBorrow := totalBorrow e |}.
Definition set_dailySupplySideRevenueUSD (v : Qc) (e : t) : t :=
  {| id := id e; market := market e; dayId := dayId e;
     timestamp := timestamp e; dailySupplyVolume := dailySupplyVolume e;
     dailyWithdrawVolume := dailyWithdrawVolume e;
     dailyBorrowVolume := dailyBorrowVolume e;
     dailyRepayVolume := dailyRepayVolume e;
     dailyActiveUsers := dailyActiveUsers e; dailySupplySideRevenueUSD := v;
     dailyProtocolSideRevenueUSD := dailyProtocolSideRevenueUSD e;
     dailyTotalRevenueUSD := dailyTotalRevenueUSD e;
     supplyAPY := supplyAPY e; borrowAPY := borrowAPY e;
     utilizationRate := utilizationRate e; totalSupply := totalSupply e;
     totalBorrow := totalBorrow e |}.
Definition set_dailyProtocolSideRevenueUSD (v : Qc) (e : t) : t :=
  {| id := id e; market := market e; dayId := dayId e;
     timestamp := timestamp e; dailySupplyVolume := dailySupplyVolume e;
     dailyWithdrawVolume := dailyWithdrawVolume e;
     dailyBorrowVolume := dailyBorrowVolume e;
     dailyRepayVolume := dailyRepayVolume e;
     dailyActiveUsers := dailyActiveUsers e;
     dailySupplySideRevenueUSD := dailySupplySideRevenueUSD e;
     dailyProtocolSideRevenueUSD := v;
     dailyTotalRevenueUSD := dailyTotalRevenueUSD e;
     supplyAPY := supplyAPY e; borrowAPY := borrowAPY e;
     utilizationRate := utilizationRate e; totalSupply := totalSupply e;
     totalBorrow := totalBorrow e |}.
Definition set_dailyTotalRevenueUSD (v : Qc) (e : t) : t :=
  {| id := id e; market := market e; dayId := dayId e;
     timestamp := timestamp e; dailySupplyVolume := dailySupplyVolume e;
     dailyWithdrawVolume := dailyWithdrawVolume e;
     dailyBorrowVolume := dailyBorrowVolume e;
     dailyRepayVolume := dailyRepayVolume e;
     dailyActiveUsers := dailyActiveUsers e;
     dailySupplySideRevenueUSD := dailySupplySideRevenueUSD e;
     dailyProtocolSideRevenueUSD := dailyProtocolSideRevenueUSD e;
     dailyTotalRevenueUSD := v; supplyAPY := supplyAPY e;
     borrowAPY := borrowAPY e; utilizationRate := utilizationRate e;
     totalSupply := totalSupply e; totalBorrow := totalBorrow e |}.
Definition set_supplyAPY (v : Qc) (e : t) : t :=
  {| id := id e; market := market e; dayId := dayId e;
     timestamp := timestamp e; dailySupplyVolume := dailySupplyVolume e;
     dailyWithdrawVolume := dailyWithdrawVolume e;
     dailyBorrowVolume := dailyBorrowVolume e;
     dailyRepayVolume := dailyRepayVolume e;
     dailyActiveUsers := dailyActiveUsers e;
     dailySupplySideRevenueUSD := dailySupplySideRevenueUSD e;
     dailyProtocolSideRevenueUSD := dailyProtocolSideRevenueUSD e;
     dailyTotalRevenueUSD := dailyTotalRevenueUSD e; supplyAPY := v;
     borrowAPY := borrowAPY e; utilizationRate := utilizationRate e;
     totalSupply := totalSupply e; totalBorrow := totalBorrow e |}.
Definition set_borrowAPY (v : Qc) (e : t) : t :=
  {| id := id e; market := market e; dayId := dayId e;
     timestamp := timestamp e; dailySupplyVolume := dailySupplyVolume e;
     dailyWithdrawVolume := dailyWithdrawVolume e;
     dailyBorrowVolume := dailyBorrowVolume e;
     dailyRepayVolume := dailyRepayVolume e;
     dailyActiveUsers := dailyActiveUsers e;
     dailySupplySideRevenueUSD := dailySupplySideRevenueUSD e;
     dailyProtocolSideRevenueUSD := dailyProtocolSideRevenueUSD e;
     dailyTotalRevenueUSD := dailyTotalRevenueUSD e;
     supplyAPY := supplyAPY e; borrowAPY := v;
     utilizationRate := utilizationRate e; totalSupply := totalSupply e;
     totalBorrow := totalBorrow e |}.
Definition set_utilizationRate (v : Qc) (e : t) : t :=
  {| id := id e; market := market e; dayId := dayId e;
     timestamp := timestamp e; dailySupplyVolume := dailySupplyVolume e;
     dailyWithdrawVolume := dailyWithdrawVolume e;
     dailyBorrowVolume := dailyBorrowVolume e;
     dailyRepayVolume := dailyRepayVolume e;
     dailyActiveUsers := dailyActiveUsers e;
     dailySupplySideRevenueUSD := dailySupplySideRevenueUSD e;
     dailyProtocolSideRevenueUSD := dailyProtocolSideRevenueUSD e;
     dailyTotalRevenueUSD := dailyTotalRevenueUSD e;
     supplyAPY := supplyAPY e; borrowAPY := borrowAPY e;
     utilizationRate := v; totalSupply := totalSupply e;
     totalBorrow := totalBorrow e |}.
Definition set_totalSupply (v : Z) (e : t) : t :=
  {| id := id e; market := market e; dayId := dayId e;
     timestamp := timestamp e; dailySupplyVolume := dailySupplyVolume e;
     dailyWithdrawVolume := dailyWithdrawVolume e;
     dailyBorrowVolume := dailyBorrowVolume e;
     dailyRepayVolume := dailyRepayVolume e;
     dailyActiveUsers := dailyActiveUsers e;
     dailySupplySideRevenueUSD := dailySupplySideRevenueUSD e;
     dailyProtocolSideRevenueUSD := dailyProtocolSideRevenueUSD e;
     dailyTotalRevenueUSD := dailyTotalRevenueUSD e;
     supplyAPY := supplyAPY e; borrowAPY := borrowAPY e;
     utilizationRate := utilizationRate e; totalSupply := v;
     totalBorrow := totalBorrow e |}.
Definition set_totalBorrow (v : Z) (e : t) : t :=
  {| id := id e; market := market e; dayId := dayId e;
     timestamp := timestamp e; dailySupplyVolume := dailySupplyVolume e;
     dailyWithdrawVolume := dailyWithdrawVolume e;
     dailyBorrowVolume := dailyBorrowVolume e;
     dailyRepayVolume := dailyRepayVolume e;
     dailyActiveUsers := dailyActiveUsers e;
     dailySupplySideRevenueUSD := dailySupplySideRevenueUSD e;
     dailyProtocolSideRevenueUSD := dailyProtocolSideRevenueUSD e;
     dailyTotalRevenueUSD := dailyTotalRevenueUSD e;
     supplyAPY := supplyAPY e; borrowAPY := borrowAPY e;
     utilizationRate := utilizationRate e; totalSupply := totalSupply e;
     totalBorrow := v |}.
End DailySnapshot.
(** [Transaction]: one record per event, never mutated. *)
Module Transaction.
Record t : Type := mk {
  id : string;
  hash : string;
  timestamp : Z;
  block : Z;
  from : string;
  market : string;
  type : string;
  amount : Z;
  amountUSD : Qc
}.
End Transaction.

(** [DailyActiveUser]: existence record keyed by day and user. *)
Module DailyActiveUser.
Record t : Type := mk {
  id : string;
  day : Z;
  user : string
}.
End DailyActiveUser.

(** ** The entity store *)

Record Store : Type := mkStore {
  protocols : gmap string Protocol.t;
  markets : gmap string Market.t;
  tokens : gmap string Token.t;
  users : gmap string User.t;
  userPositions : gmap string UserPosition.t;
  transactions : gmap string Transaction.t;
  hourlySnapshots : gmap string HourlySnapshot.t;
  dailySnapshots : gmap string DailySnapshot.t;
  dailyActiveUsers : gmap string DailyActiveUser.t
}.

Definition emptyStore : Store :=
  mkStore ∅ ∅ ∅ ∅ ∅ ∅ ∅ ∅ ∅.

(** [Entity.save()]: the entity is written under its id. *)
Definition save_Protocol (x : Protocol.t) (s : Store) : Store :=
  mkStore (<[Protocol.id x := x]> (protocols s)) (markets s) (tokens s)
    (users s) (userPositions s) (transactions s) (hourlySnapshots s)
    (dailySnapshots s) (dailyActiveUsers s).
Definition save_Market (x : Market.t) (s : Store) : Store :=
  mkStore (protocols s) (<[Market.id x := x]> (markets s)) (tokens s)
    (users s) (userPositions s) (transactions s) (hourlySnapshots s)
    (dailySnapshots s) (dailyActiveUsers s).
Definition save_Token (x : Token.t) (s : Store) : Store :=
  mkStore (protocols s) (markets s) (<[Token.id x := x]> (tokens s)) (users s)
    (userPositions s) (transactions s) (hourlySnapshots s) (dailySnapshots s)
    (dailyActiveUsers s).
Definition save_User (x : User.t) (s : Store) : Store :=
  mkStore (protocols s) (markets s) (tokens s) (<[User.id x := x]> (users s))
    (userPositions s) (transactions s) (hourlySnapshots s) (dailySnapshots s)
    (dailyActiveUsers s).
Definition save_UserPosition (x : UserPosition.t) (s : Store) : Store :=
  mkStore (protocols s) (markets s) (tokens s) (users s)
    (<[UserPosition.id x := x]> (userPositions s)) (transactions s)
    (hourlySnapshots s) (dailySnapshots s) (dailyActiveUsers s).
Definition save_Transaction (x : Transaction.t) (s : Store) : Store :=
  mkStore (protocols s) (markets s) (tokens s) (users s) (userPositions s)
    (<[Transaction.id x := x]> (transactions s)) (hourlySnapshots s)
    (dailySnapshots s) (dailyActiveUsers s).
Definition save_HourlySnapshot (x : HourlySnapshot.t) (s : Store) : Store :=
  mkStore (protocols s) (markets s) (tokens s) (users s) (userPositions s)
    (transactions s) (<[HourlySnapshot.id x := x]> (hourlySnapshots s))
    (dailySnapshots s) (dailyActiveUsers s).
Definition save_DailySnapshot (x : DailySnapshot.t) (s : Store) : Store :=
  mkStore (protocols s) (markets s) (tokens s) (users s) (userPositions s)
    (transactions s) (hourlySnapshots s)
    (<[DailySnapshot.id x := x]> (dailySnapshots s)) (dailyActiveUsers s).
Definition save_DailyActiveUser (x : DailyActiveUser.t) (s : Store) : Store :=
  mkStore (protocols s) (markets s) (tokens s) (users s) (userPositions s)
    (transactions s) (hourlySnapshots s) (dailySnapshots s)
    (<[DailyActiveUser.id x := x]> (dailyActiveUsers s)).
(** ** The chain as seen from one block *)

(** Result of [PoolDataProvider.getReserveData]. *)
Record ReserveData : Type := mkReserveData {
  getTotalAToken : Z;
  getTotalStableDebt : Z;
  getTotalVariableDebt : Z;
  getLiquidityRate : Z;
  getVariableBorrowRate : Z;
  getStableBorrowRate : Z
}.

(** Result of [PoolDataProvider.getUserReserveData]. *)
Record UserReserveData : Type := mkUserReserveData {
  getCurrentATokenBalance : Z;
  getCurrentStableDebt : Z;
  getCurrentVariableDebt : Z;
  getUsageAsCollateralEnabled : bool
}.

(** Result of [PoolDataProvider.getReserveConfigurationData]. *)
Record ReserveConfigurationData : Type := mkReserveConfigurationData {
  getLtv : Z;
  getLiquidationThreshold : Z;
  getLiquidationBonus : Z;
  getReserveFactor : Z
}.

(** Result of [PoolDataProvider.getReserveTokensAddresses]. *)
Record ReserveTokensAddresses : Type := mkReserveTokensAddresses {
  getATokenAddress : Address;
  getStableDebtTokenAddress : Address;
  getVariableDebtTokenAddress : Address
}.

Record Chain : Type := mkChain {
  try_getReservesList : option (list Address);
  try_getReserveTokensAddresses : Address -> option ReserveTokensAddresses;
  try_getReserveConfigurationData : Address -> option ReserveConfigurationData;
  try_getReserveData : Address -> option ReserveData;
  try_getUserReserveData : Address -> Address -> option UserReserveData;
  try_getAssetPrice : Address -> option Z;
  try_BASE_CURRENCY_UNIT : option Z;
  try_symbol : Address -> option string;
  try_name : Address -> option string;
  try_decimals : Address -> option Z;
  try_totalSupply : Address -> option Z
}.

(** ** Events *)

(** [ethereum.Block]: what the handlers read of it. *)
Record Block : Type := mkBlock {
  blockTimestamp : Z;
  blockNumber : Z
}.

(** [ethereum.Event], with the parameters the handlers read: [reserve], the
    account the handler books the event to ([onBehalfOf] for Supply and
    Borrow, [user] for Withdraw and Repay) and [amount]. *)
Record Event : Type := mkEvent {
  eventBlock : Block;
  transactionHash : string;
  logIndex : Z;
  reserve : Address;
  account : Address;
  amount : Z
}.

(** [ReserveDataUpdated]. *)
Record RateEvent : Type := mkRateEvent {
  rateBlock : Block;
  rateReserve : Address;
  rateLiquidityRate : Z;
  rateStableBorrowRate : Z;
  rateVariableBorrowRate : Z
}.

(** ** helpers.ts: constants *)

Definition POOL_ADDRESS : string := "0xA238Dd80C259a72e81d7e4664a9801593F98d1c5".
Definition PROTOCOL_ID : string := "aave-v3-base".
Definition ZERO_ADDRESS : string := "0x0000000000000000000000000000000000000000".

Definition ZERO_BI : Z := 0.
Definition ONE_BI : Z := 1.
Definition ZERO_BD : Qc := Qc_of_Z 0.
Definition ONE_BD : Qc := Qc_of_Z 1.
Definition TEN_BD : Qc := Qc_of_Z 10.
Definition HUNDRED_BD : Qc := Qc_of_Z 100.
Definition RAY_BD : Qc := Qc_of_Z (10 ^ 27).
Definition WAD_BD : Qc := Qc_of_Z (10 ^ 18).
Definition SECONDS_PER_YEAR : Z := 31536000.
Definition SECONDS_PER_HOUR : Z := 3600.
Definition SECONDS_PER_DAY : Z := 86400.

(** [getHourId], [getDayId], [getTokenId]. *)
Definition getHourId (timestamp : Z) : Z := toI32 (Z.quot timestamp SECONDS_PER_HOUR).
Definition getDayId (timestamp : Z) : Z := toI32 (Z.quot timestamp SECONDS_PER_DAY).
Definition getTokenId (address : Address) : string := toLowerCase address.

(** [fetchTokenSymbol], [fetchTokenName], [fetchTokenDecimals],
    [fetchTokenTotalSupply]: the call's value, or the documented default. *)
Definition fetchTokenSymbol (c : Chain) (tokenAddress : Address) : string :=
  match try_symbol c tokenAddress with Some v => v | None => "unknown" end.
Definition fetchTokenName (c : Chain) (tokenAddress : Address) : string :=
  match try_name c tokenAddress with Some v => v | None => "unknown" end.
Definition fetchTokenDecimals (c : Chain) (tokenAddress : Address) : Z :=
  match try_decimals c tokenAddress with Some v => fromI32 v | None => fromI32 18 end.
Definition fetchTokenTotalSupply (c : Chain) (tokenAddress : Address) : Z :=
  match try_totalSupply c tokenAddress with Some v => v | None => ZERO_BI end.

(** [getAllMarkets]. *)
Definition getAllMarkets (c : Chain) : list string :=
  match try_getReservesList c with
  | Some reserves => map toLowerCase reserves
  | None => []
  end.

(** ** The mappings, over the host's [BigDecimal] arithmetic *)

Section Host.

(** The host's normalisation of a [BigDecimal] result. *)
Variable norm : Qc -> Qc.

Definition toBigDecimal (z : Z) : Qc := norm (Qc_of_Z z).
Definition bd_plus (x y : Qc) : Qc := norm (x + y)%Qc.
Definition bd_minus (x y : Qc) : Qc := norm (x - y)%Qc.
Definition bd_times (x y : Qc) : Qc := norm (x * y)%Qc.
Definition bd_div (x y : Qc) : Qc := norm (x / y)%Qc.

(** *** helpers.ts *)

(** The loop multiplies by ten once for every [i] from [0] below [decimals]. *)
Definition exponentToBigDecimal (decimals : Z) : Qc :=
  Nat.iter (Z.to_nat decimals) (fun bd => bd_times bd TEN_BD) ONE_BD.

Definition convertTokenToDecimal (tokenAmount decimals : Z) : Qc :=
  if decimals =? ZERO_BI then toBigDecimal tokenAmount
  else bd_div (toBigDecimal tokenAmount) (exponentToBigDecimal decimals).

Definition rayToDecimal (ray : Z) : Qc := bd_div (toBigDecimal ray) RAY_BD.

Definition wadToDecimal (wad : Z) : Qc := bd_div (toBigDecimal wad) WAD_BD.

Definition calculateUtilizationRate (totalBorrow totalSupply : Z) : Qc :=
  if totalSupply =? ZERO_BI then ZERO_BD
  else
    let utilization := bd_div (toBigDecimal totalBorrow) (toBigDecimal totalSupply) in
    bd_times utilization HUNDRED_BD.

(** *** pricing.ts *)

Definition getTokenPriceUSD (c : Chain) (tokenAddress : Address) : Qc :=
  match try_getAssetPrice c tokenAddress with
  | None => ZERO_BD
  | Some price =>
      let baseCurrencyUnit :=
        match try_BASE_CURRENCY_UNIT c with
        | Some u => u
        | None => 10 ^ 8
        end in
      bd_div (toBigDecimal price) (toBigDecimal baseCurrencyUnit)
  end.

(** [updateTokenPrice]: the token object with the price the oracle gives, if
    that is positive. *)
Definition updateTokenPrice (c : Chain) (token : Token.t) : Token.t :=
  let price := getTokenPriceUSD c (Token.id token) in
  if bd_gt price ZERO_BD then
    let token := Token.set_lastPriceUSD price token in
    Token.set_lastPriceTimestamp (fromI32 0) token
  else token.

Definition calculateUSDValue (c : Chain) (amount : Z) (tokenAddress : Address)
    (decimals : Z) : Qc :=
  let price := getTokenPriceUSD c tokenAddress in
  if bd_equals price ZERO_BD then ZERO_BD
  else
    let amountDecimal := bd_div (toBigDecimal amount) (exponentToBigDecimal decimals) in
    bd_times amountDecimal price.

(** [recalculateUserTotals]: the loop body for one reserve, on the two
    running sums. *)
Definition userTotalsStep (user : User.t) (s : Store) (acc : Qc * Qc)
    (reserve : Address) : Qc * Qc :=
  let '(totalSupplyUSD, totalBorrowUSD) := acc in
  let marketId := toLowerCase reserve in
  let positionId := User.id user +:+ "-" +:+ marketId in
  match userPositions s !! positionId with
  | None => acc
  | Some position =>
      match markets s !! marketId with
      | None => acc
      | Some market =>
          match tokens s !! Market.inputToken market with
          | None => acc
          | Some token =>
              let totalSupplyUSD :=
                if 0 <? UserPosition.aTokenBalance position then
                  let supplyDecimal :=
                    convertTokenToDecimal (UserPosition.aTokenBalance position)
                      (fromI32 (Token.decimals token)) in
                  bd_plus totalSupplyUSD (bd_times supplyDecimal (Token.lastPriceUSD token))
                else totalSupplyUSD in
              let totalDebt :=
                UserPosition.variableDebtBalance position
                + UserPosition.stableDebtBalance position in
              let totalBorrowUSD :=
                if 0 <? totalDebt then
                  let borrowDecimal :=
                    convertTokenToDecimal totalDebt (fromI32 (Token.decimals token)) in
                  bd_plus totalBorrowUSD (bd_times borrowDecimal (Token.lastPriceUSD token))
                else totalBorrowUSD in
              (totalSupplyUSD, totalBorrowUSD)
          end
      end
  end.

Definition recalculateUserTotals (c : Chain) (user : User.t) (s : Store)
    : User.t * Store :=
  let '(totalSupplyUSD, totalBorrowUSD) :=
    match try_getReservesList c with
    | Some reserves => fold_left (userTotalsStep user s) reserves (ZERO_BD, ZERO_BD)
    | None => (ZERO_BD, ZERO_BD)
    end in
  let user := User.set_totalSupplyUSD totalSupplyUSD user in
  let user := User.set_totalBorrowUSD totalBorrowUSD user in
  (user, save_User user s).

(** *** pool.ts *)

Definition getOrCreateProtocol (s : Store) : Protocol.t * Store :=
  match protocols s !! PROTOCOL_ID with
  | Some protocol => (protocol, s)
  | None =>
      let protocol := Protocol.mk PROTOCOL_ID ZERO_BD ZERO_BD ZERO_BD ZERO_BD ZERO_BD in
      (protocol, save_Protocol protocol s)
  end.

Definition getOrCreateToken (c : Chain) (address : Address) (s : Store)
    : Token.t * Store :=
  let tokenId := getTokenId address in
  match tokens s !! tokenId with
  | Some token => (token, s)
  | None =>
      let token :=
        Token.mk tokenId (fetchTokenSymbol c address) (fetchTokenName c address)
          (toI32 (fetchTokenDecimals c address)) (fetchTokenTotalSupply c address)
          (getTokenPriceUSD c address) ZERO_BI in
      (token, save_Token token s)
  end.

Definition updateMarketState (c : Chain) (market : Market.t) : Market.t :=
  match try_getReserveData c (Market.asset market) with
  | Some reserveData =>
      let market := Market.set_totalSupply (getTotalAToken reserveData) market in
      let market :=
        Market.set_totalBorrow
          (getTotalVariableDebt reserveData + getTotalStableDebt reserveData) market in
      let market :=
        Market.set_availableLiquidity
          (Market.totalSupply market - Market.totalBorrow market) market in
      let market := Market.set_liquidityRate (getLiquidityRate reserveData) market in
      let market :=
        Market.set_variableBorrowRate (getVariableBorrowRate reserveData) market in
      let market :=
        Market.set_stableBorrowRate (getStableBorrowRate reserveData) market in
      Market.set_utilizationRate
        (calculateUtilizationRate (Market.totalBorrow market) (Market.totalSupply market))
        market
  | None => market
  end.

Definition getOrCreateMarket (c : Chain) (asset : Address) (currentTimestamp : Z)
    (s : Store) : Market.t * Store :=
  let marketId := getTokenId asset in
  match markets s !! marketId with
  | Some market => (market, s)
  | None =>
      let tokenAddresses :=
        match try_getReserveTokensAddresses c asset with
        | Some v => v
        | None => mkReserveTokensAddresses ZERO_ADDRESS ZERO_ADDRESS ZERO_ADDRESS
        end in
      let '(inputToken, s) := getOrCreateToken c asset s in
      let '(outputToken, s) := getOrCreateToken c (getATokenAddress tokenAddresses) s in
      let config :=
        match try_getReserveConfigurationData c asset with
        | Some v => v
        | None => mkReserveConfigurationData ZERO_BI ZERO_BI ZERO_BI ZERO_BI
        end in
      let market :=
        Market.mk marketId PROTOCOL_ID asset
          (getATokenAddress tokenAddresses) (getStableDebtTokenAddress tokenAddresses)
          (getVariableDebtTokenAddress tokenAddresses)
          (Token.id inputToken) (Token.id outputToken)
          ZERO_BI ZERO_BI ZERO_BI ZERO_BI ZERO_BI ZERO_BI ZERO_BD ZERO_BD ZERO_BD
          (getLtv config) (getLiquidationThreshold config) (getLiquidationBonus config)
          (getReserveFactor config)
          currentTimestamp ZERO_BI currentTimestamp in
      let market := updateMarketState c market in
      (market, save_Market market s)
  end.

Definition getOrCreateUser (address : Address) (s : Store) : User.t * Store :=
  let userId := getTokenId address in
  match users s !! userId with
  | Some user => (user, s)
  | None =>
      let user := User.mk userId ZERO_BD ZERO_BD 0 in
      (user, save_User user s)
  end.

Definition getOrCreateUserPosition (user : User.t) (market : Market.t) (s : Store)
    : UserPosition.t * Store :=
  let positionId := User.id user +:+ "-" +:+ Market.id market in
  match userPositions s !! positionId with
  | Some position => (position, s)
  | None =>
      let position :=
        UserPosition.mk positionId (User.id user) (Market.id market)
          ZERO_BI ZERO_BI ZERO_BI ZERO_BI ZERO_BI ZERO_BI ZERO_BD ZERO_BD false ZERO_BI in
      (position, save_UserPosition position s)
  end.

Definition createTransaction (event : Event) (user : User.t) (market : Market.t)
    (type : string) (amount : Z) (amountUSD : Qc) (s : Store) : Store :=
  let txId := transactionHash event +:+ "-" +:+ toString (logIndex event) in
  save_Transaction
    (Transaction.mk txId (transactionHash event) (blockTimestamp (eventBlock event))
       (blockNumber (eventBlock event)) (User.id user) (Market.id market) type
       amount amountUSD) s.

Definition updateUserPositionFromChain (c : Chain) (position : UserPosition.t)
    (user : Address) (market : Market.t) : UserPosition.t :=
  match try_getUserReserveData c (Market.asset market) user with
  | Some userData =>
      let position :=
        UserPosition.set_aTokenBalance (getCurrentATokenBalance userData) position in
      let position :=
        UserPosition.set_variableDebtBalance (getCurrentVariableDebt userData) position in
      let position :=
        UserPosition.set_stableDebtBalance (getCurrentStableDebt userData) position in
      UserPosition.set_isCollateral (getUsageAsCollateralEnabled userData) position
  | None => position
  end.

(** [recalculateProtocolTotals]: the loop body for one reserve; it saves the
    token with its refreshed price. *)
Definition protocolTotalsStep (c : Chain) (acc : Qc * Qc * Store)
    (reserve : Address) : Qc * Qc * Store :=
  let '(totalSupplyUSD, totalBorrowUSD, s) := acc in
  let marketId := toLowerCase reserve in
  match markets s !! marketId with
  | None => acc
  | Some market =>
      match tokens s !! Market.inputToken market with
      | None => acc
      | Some token =>
          let token := Token.set_lastPriceUSD (getTokenPriceUSD c (Token.id token)) token in
          let s := save_Token token s in
          let supplyDecimal :=
            convertTokenToDecimal (Market.totalSupply market)
              (fromI32 (Token.decimals token)) in
          let borrowDecimal :=
            convertTokenToDecimal (Market.totalBorrow market)
              (fromI32 (Token.decimals token)) in
          (bd_plus totalSupplyUSD (bd_times supplyDecimal (Token.lastPriceUSD token)),
           bd_plus totalBorrowUSD (bd_times borrowDecimal (Token.lastPriceUSD token)),
           s)
      end
  end.

Definition recalculateProtocolTotals (c : Chain) (s : Store) : Store :=
  let '(protocol, s) := getOrCreateProtocol s in
  let '(totalSupplyUSD, totalBorrowUSD, s) :=
    match try_getReservesList c with
    | Some reserves => fold_left (protocolTotalsStep c) reserves (ZERO_BD, ZERO_BD, s)
    | None => (ZERO_BD, ZERO_BD, s)
    end in
  let protocol := Protocol.set_totalSupplyUSD totalSupplyUSD protocol in
  let protocol := Protocol.set_totalBorrowUSD totalBorrowUSD protocol in
  save_Protocol protocol s.

(** The revenue of one accrual, as [calculateAndAccumulateRevenue] computes it
    once the guards have passed. *)
Definition accrualSpread (market : Market.t) : Qc :=
  let borrowRateDecimal := rayToDecimal (Market.variableBorrowRate market) in
  let supplyRateDecimal := rayToDecimal (Market.liquidityRate market) in
  bd_minus borrowRateDecimal supplyRateDecimal.

Definition accrualTotalBorrowUSD (market : Market.t) (token : Token.t) : Qc :=
  let totalBorrowDecimal :=
    convertTokenToDecimal (Market.totalBorrow market) (fromI32 (Token.decimals token)) in
  bd_times totalBorrowDecimal (Token.lastPriceUSD token).

Definition accrualPeriodRevenue (market : Market.t) (token : Token.t)
    (timeElapsed : Z) : Qc :=
  let timeElapsedDecimal := toBigDecimal timeElapsed in
  let secondsPerYearDecimal := toBigDecimal SECONDS_PER_YEAR in
  bd_div
    (bd_times (bd_times (accrualSpread market) (accrualTotalBorrowUSD market token))
       timeElapsedDecimal)
    secondsPerYearDecimal.

Definition accrualProtocolRevenue (market : Market.t) (periodRevenue : Qc) : Qc :=
  let reserveFactorDecimal :=
    bd_div (toBigDecimal (Market.reserveFactor market)) (Qc_of_Z 10000) in
  bd_times periodRevenue reserveFactorDecimal.

Definition accrualSupplySideRevenue (periodRevenue protocolRevenue : Qc) : Qc :=
  bd_minus periodRevenue protocolRevenue.

(** The period revenue of an accrual, and what its two parts sum to. *)
Definition splitSum (market : Market.t) (token : Token.t) (timeElapsed : Z)
    : Qc * Qc :=
  let periodRevenue := accrualPeriodRevenue market token timeElapsed in
  let protocolRevenue := accrualProtocolRevenue market periodRevenue in
  let supplySideRevenue := accrualSupplySideRevenue periodRevenue protocolRevenue in
  (periodRevenue, bd_plus protocolRevenue supplySideRevenue).

(** The guards under which an accrual computes revenue. *)
Definition accrualComputes (market : Market.t) (s : Store) : option Token.t :=
  if (0 <? Market.totalBorrow market) && (0 <? Market.variableBorrowRate market) then
    if bd_gt (accrualSpread market) ZERO_BD then tokens s !! Market.inputToken market
    else None
  else None.

Definition calculateAndAccumulateRevenue (market : Market.t) (timestamp : Z)
    (s : Store) : Market.t * Store :=
  let '(protocol, s) := getOrCreateProtocol s in
  if timestamp <=? Market.lastRevenueCalculationTimestamp market then (market, s)
  else
    let timeElapsed := timestamp - Market.lastRevenueCalculationTimestamp market in
    let s :=
      match accrualComputes market s with
      | Some token =>
          let periodRevenue := accrualPeriodRevenue market token timeElapsed in
          let protocolRevenue := accrualProtocolRevenue market periodRevenue in
          let supplySideRevenue := accrualSupplySideRevenue periodRevenue protocolRevenue in
          let protocol :=
            Protocol.set_cumulativeSupplySideRevenueUSD
              (bd_plus (Protocol.cumulativeSupplySideRevenueUSD protocol) supplySideRevenue)
              protocol in
          let protocol :=
            Protocol.set_cumulativeProtocolSideRevenueUSD
              (bd_plus (Protocol.cumulativeProtocolSideRevenueUSD protocol) protocolRevenue)
              protocol in
          let protocol :=
            Protocol.set_totalRevenueUSD
              (bd_plus (Protocol.cumulativeSupplySideRevenueUSD protocol)
                 (Protocol.cumulativeProtocolSideRevenueUSD protocol))
              protocol in
          save_Protocol protocol s
      | None => s
      end in
    let market := Market.set_lastRevenueCalculationTimestamp timestamp market in
    (market, save_Market market s).

(** *** snapshots.ts *)

Definition updateHourlySnapshot (market : Market.t) (event : Event)
    (volumeType : string) (volume : Z) (s : Store) : HourlySnapshot.t * Store :=
  let timestamp := blockTimestamp (eventBlock event) in
  let hourId := getHourId timestamp in
  let snapshotId := Market.id market +:+ "-" +:+ toString hourId in
  let snapshot :=
    match hourlySnapshots s !! snapshotId with
    | Some snapshot => snapshot
    | None =>
        HourlySnapshot.mk snapshotId (Market.id market) hourId timestamp
          ZERO_BI ZERO_BI ZERO_BI ZERO_BI
          (Market.supplyAPY market) (Market.variableBorrowAPY market)
          (Market.utilizationRate market) (Market.totalSupply market)
          (Market.totalBorrow market)
    end in
  let snapshot :=
    if decide (volumeType = "SUPPLY") then
      HourlySnapshot.set_hourlySupplyVolume
        (HourlySnapshot.hourlySupplyVolume snapshot + volume) snapshot
    else if decide (volumeType = "WITHDRAW") then
      HourlySnapshot.set_hourlyWithdrawVolume
        (HourlySnapshot.hourlyWithdrawVolume snapshot + volume) snapshot
    else if decide (volumeType = "BORROW") then
      HourlySnapshot.set_hourlyBorrowVolume
        (HourlySnapshot.hourlyBorrowVolume snapshot + volume) snapshot
    else if decide (volumeType = "REPAY") then
      HourlySnapshot.set_hourlyRepayVolume
        (HourlySnapshot.hourlyRepayVolume snapshot + volume) snapshot
    else snapshot in
  let snapshot := HourlySnapshot.set_supplyAPY (Market.supplyAPY market) snapshot in
  let snapshot := HourlySnapshot.set_borrowAPY (Market.variableBorrowAPY market) snapshot in
  let snapshot :=
    HourlySnapshot.set_utilizationRate (Market.utilizationRate market) snapshot in
  let snapshot := HourlySnapshot.set_totalSupply (Market.totalSupply market) snapshot in
  let snapshot := HourlySnapshot.set_totalBorrow (Market.totalBorrow market) snapshot in
  (snapshot, save_HourlySnapshot snapshot s).

(** The snapshot [updateDailySnapshot] starts from: the stored one, or the
    one it initialises on the first reference in the day. *)
Definition loadOrNewDailySnapshot (market : Market.t) (timestamp : Z) (s : Store)
    : DailySnapshot.t :=
  let dayId := getDayId timestamp in
  let snapshotId := Market.id market +:+ "-" +:+ toString dayId in
  match dailySnapshots s !! snapshotId with
  | Some snapshot => snapshot
  | None =>
      DailySnapshot.mk snapshotId (Market.id market) dayId timestamp
        ZERO_BI ZERO_BI ZERO_BI ZERO_BI 0 ZERO_BD ZERO_BD ZERO_BD
        (Market.supplyAPY market) (Market.variableBorrowAPY market)
        (Market.utilizationRate market) (Market.totalSupply market)
        (Market.totalBorrow market)
  end.

(** The id of the [DailyActiveUser] record of a user on a day. *)
Definition activeUserId (dayId : Z) (userId : string) : string :=
  toString dayId +:+ "-" +:+ userId.

(** [userId] is a [string], never [null]: the test [userId != null] of the
    source always passes. *)
Definition updateDailySnapshot (market : Market.t) (event : Event)
    (volumeType : string) (volume : Z) (amountUSD : Qc) (userId : string)
    (s : Store) : DailySnapshot.t * Store :=
  let timestamp := blockTimestamp (eventBlock event) in
  let dayId := getDayId timestamp in
  let snapshot := loadOrNewDailySnapshot market timestamp s in
  let snapshot :=
    if decide (volumeType = "SUPPLY") then
      DailySnapshot.set_dailySupplyVolume
        (DailySnapshot.dailySupplyVolume snapshot + volume) snapshot
    else if decide (volumeType = "WITHDRAW") then
      DailySnapshot.set_dailyWithdrawVolume
        (DailySnapshot.dailyWithdrawVolume snapshot + volume) snapshot
    else if decide (volumeType = "BORROW") then
      DailySnapshot.set_dailyBorrowVolume
        (DailySnapshot.dailyBorrowVolume snapshot + volume) snapshot
    else if decide (volumeType = "REPAY") then
      DailySnapshot.set_dailyRepayVolume
        (DailySnapshot.dailyRepayVolume snapshot + volume) snapshot
    else snapshot in
  let '(snapshot, s) :=
    match dailyActiveUsers s !! activeUserId dayId userId with
    | None =>
        let activeUser := DailyActiveUser.mk (activeUserId dayId userId) dayId userId in
        let s := save_DailyActiveUser activeUser s in
        (DailySnapshot.set_dailyActiveUsers
           (i32_add (DailySnapshot.dailyActiveUsers snapshot) 1) snapshot, s)
    | Some _ => (snapshot, s)
    end in
  let snapshot := DailySnapshot.set_supplyAPY (Market.supplyAPY market) snapshot in
  let snapshot := DailySnapshot.set_borrowAPY (Market.variableBorrowAPY market) snapshot in
  let snapshot :=
    DailySnapshot.set_utilizationRate (Market.utilizationRate market) snapshot in
  let snapshot := DailySnapshot.set_totalSupply (Market.totalSupply market) snapshot in
  let snapshot := DailySnapshot.set_totalBorrow (Market.totalBorrow market) snapshot in
  let snapshot :=
    match accrualComputes market s with
    | Some token =>
        let dailyRevenue :=
          bd_div (bd_times (accrualSpread market) (accrualTotalBorrowUSD market token))
            (Qc_of_Z 365) in
        let protocolRevenue := accrualProtocolRevenue market dailyRevenue in
        let supplySideRevenue := accrualSupplySideRevenue dailyRevenue protocolRevenue in
        let snapshot :=
          DailySnapshot.set_dailySupplySideRevenueUSD supplySideRevenue snapshot in
        let snapshot :=
          DailySnapshot.set_dailyProtocolSideRevenueUSD protocolRevenue snapshot in
        DailySnapshot.set_dailyTotalRevenueUSD dailyRevenue snapshot
    | None => snapshot
    end in
  (snapshot, save_DailySnapshot snapshot s).

(** [updateDailyRevenue]: the day's snapshot of the market, created as in
    [updateDailySnapshot] when it is missing, with the revenue figures it is
    given. *)
Definition updateDailyRevenue (market : Market.t) (event : Event)
    (supplySideRevenueUSD protocolSideRevenueUSD : Qc) (s : Store) : Store :=
  let snapshot := loadOrNewDailySnapshot market (blockTimestamp (eventBlock event)) s in
  let snapshot :=
    DailySnapshot.set_dailySupplySideRevenueUSD supplySideRevenueUSD snapshot in
  let snapshot :=
    DailySnapshot.set_dailyProtocolSideRevenueUSD protocolSideRevenueUSD snapshot in
  let snapshot :=
    DailySnapshot.set_dailyTotalRevenueUSD
      (bd_plus supplySideRevenueUSD protocolSideRevenueUSD) snapshot in
  save_DailySnapshot snapshot s.

(** *** pool.ts: the handlers *)

Definition processMarketInBlock (c : Chain) (market : Market.t) (block : Block)
    (s : Store) : Store :=
  let market := updateMarketState c market in
  let s :=
    match tokens s !! Market.inputToken market with
    | Some token =>
        let token := Token.set_lastPriceUSD (getTokenPriceUSD c (Token.id token)) token in
        let token := Token.set_lastPriceTimestamp (blockTimestamp block) token in
        save_Token token s
    | None => s
    end in
  let '(market, s) := calculateAndAccumulateRevenue market (blockTimestamp block) s in
  let market :=
    Market.set_supplyAPY
      (bd_times (rayToDecimal (Market.liquidityRate market)) HUNDRED_BD) market in
  let market :=
    Market.set_variableBorrowAPY
      (bd_times (rayToDecimal (Market.variableBorrowRate market)) HUNDRED_BD) market in
  let market := Market.set_lastUpdateTimestamp (blockTimestamp block) market in
  let market := Market.set_lastUpdateBlock (blockNumber block) market in
  save_Market market s.

(** One iteration of the loop of [handleBlock]. *)
Definition handleBlockStep (c : Chain) (block : Block) (s : Store)
    (tokenAddress : Address) : Store :=
  let marketId := toLowerCase tokenAddress in
  let '(market, s) :=
    match markets s !! marketId with
    | Some market => (market, s)
    | None => getOrCreateMarket c tokenAddress (blockTimestamp block) s
    end in
  processMarketInBlock c market block s.

Definition handleBlock (c : Chain) (block : Block) (s : Store) : Store :=
  let '(protocol, s) := getOrCreateProtocol s in
  match try_getReservesList c with
  | None => s
  | Some reserves =>
      let s := fold_left (handleBlockStep c block) reserves s in
      recalculateProtocolTotals c s
  end.

(** The steps that [handleSupply], [handleWithdraw], [handleBorrow] and
    [handleRepay] share word for word once the position is saved: market
    resync, USD valuation, transaction record, user statistics, aggregation,
    snapshots. *)
Definition settleEvent (c : Chain) (event : Event) (type : string) (user : User.t)
    (market : Market.t) (s : Store) : Store :=
  let block := eventBlock event in
  let market := updateMarketState c market in
  let market := Market.set_lastUpdateTimestamp (blockTimestamp block) market in
  let market := Market.set_lastUpdateBlock (blockNumber block) market in
  let s := save_Market market s in
  let amountUSD :=
    match tokens s !! Market.inputToken market with
    | Some token =>
        calculateUSDValue c (amount event) (Market.asset market)
          (fromI32 (Token.decimals token))
    | None => ZERO_BD
    end in
  let s := createTransaction event user market type (amount event) amountUSD s in
  let user := User.set_transactionCount (i32_add (User.transactionCount user) 1) user in
  let s := save_User user s in
  let '(user, s) := recalculateUserTotals c user s in
  let s := recalculateProtocolTotals c s in
  let '(_, s) := updateHourlySnapshot market event type (amount event) s in
  let '(_, s) :=
    updateDailySnapshot market event type (amount event) amountUSD (User.id user) s in
  s.

(** The steps the same four handlers share before they touch the position:
    the entities are loaded or created and revenue is accrued. *)
Definition openEvent (c : Chain) (event : Event) (s : Store)
    : Market.t * User.t * UserPosition.t * Store :=
  let timestamp := blockTimestamp (eventBlock event) in
  let '(market, s) := getOrCreateMarket c (reserve event) timestamp s in
  let '(user, s) := getOrCreateUser (account event) s in
  let '(position, s) := getOrCreateUserPosition user market s in
  let '(market, s) := calculateAndAccumulateRevenue market timestamp s in
  (market, user, position, s).

(** The position update of [handleSupply], between the accrual and
    [position.save()]. *)
Definition supplyToPosition (c : Chain) (event : Event) (market : Market.t)
    (position : UserPosition.t) : UserPosition.t :=
  let position := updateUserPositionFromChain c position (account event) market in
  let position :=
    UserPosition.set_principal (UserPosition.principal position + amount event) position in
  let position :=
    UserPosition.set_totalDeposited
      (UserPosition.totalDeposited position + amount event) position in
  UserPosition.set_lastUpdateTimestamp (blockTimestamp (eventBlock event)) position.

Definition handleSupply (c : Chain) (event : Event) (s : Store) : Store :=
  let '(market, user, position, s) := openEvent c event s in
  let position := supplyToPosition c event market position in
  let s := save_UserPosition position s in
  settleEvent c event "SUPPLY" user market s.

(** The position update of [handleWithdraw], between the accrual and
    [position.save()]. *)
Definition withdrawFromPosition (c : Chain) (event : Event) (market : Market.t)
    (position : UserPosition.t) (s : Store) : UserPosition.t :=
  let position := updateUserPositionFromChain c position (account event) market in
  let position :=
    UserPosition.set_totalWithdrawn
      (UserPosition.totalWithdrawn position + amount event) position in
  let position :=
    UserPosition.set_lastUpdateTimestamp (blockTimestamp (eventBlock event)) position in
  let totalEarned :=
    UserPosition.totalWithdrawn position - UserPosition.totalDeposited position in
  let position :=
    if UserPosition.totalDeposited position <=? UserPosition.totalWithdrawn position then
      match tokens s !! Market.inputToken market with
      | Some token =>
          UserPosition.set_realizedPnL
            (convertTokenToDecimal totalEarned (fromI32 (Token.decimals token))) position
      | None => position
      end
    else position in
  if amount event <=? UserPosition.principal position then
    UserPosition.set_principal (UserPosition.principal position - amount event) position
  else UserPosition.set_principal ZERO_BI position.

Definition handleWithdraw (c : Chain) (event : Event) (s : Store) : Store :=
  let '(market, user, position, s) := openEvent c event s in
  let position := withdrawFromPosition c event market position s in
  let s := save_UserPosition position s in
  settleEvent c event "WITHDRAW" user market s.

(** The position update of [handleBorrow] and of [handleRepay]: the
    balances are read again from the chain, nothing else changes. *)
Definition resyncPosition (c : Chain) (event : Event) (market : Market.t)
    (position : UserPosition.t) : UserPosition.t :=
  let position := updateUserPositionFromChain c position (account event) market in
  UserPosition.set_lastUpdateTimestamp (blockTimestamp (eventBlock event)) position.

Definition handleBorrow (c : Chain) (event : Event) (s : Store) : Store :=
  let '(market, user, position, s) := openEvent c event s in
  let position := resyncPosition c event market position in
  let s := save_UserPosition position s in
  settleEvent c event "BORROW" user market s.

Definition handleRepay (c : Chain) (event : Event) (s : Store) : Store :=
  let '(market, user, position, s) := openEvent c event s in
  let position := resyncPosition c event market position in
  let s := save_UserPosition position s in
  settleEvent c event "REPAY" user market s.

Definition handleReserveDataUpdated (c : Chain) (event : RateEvent) (s : Store)
    : Store :=
  let block := rateBlock event in
  let '(market, s) := getOrCreateMarket c (rateReserve event) (blockTimestamp block) s in
  let '(market, s) := calculateAndAccumulateRevenue market (blockTimestamp block) s in
  let market := Market.set_liquidityRate (rateLiquidityRate event) market in
  let market := Market.set_variableBorrowRate (rateVariableBorrowRate event) market in
  let market := Market.set_stableBorrowRate (rateStableBorrowRate event) market in
  let market :=
    Market.set_supplyAPY
      (bd_times (rayToDecimal (rateLiquidityRate event)) HUNDRED_BD) market in
  let market :=
    Market.set_variableBorrowAPY
      (bd_times (rayToDecimal (rateVariableBorrowRate event)) HUNDRED_BD) market in
  let market := Market.set_lastUpdateTimestamp (blockTimestamp block) market in
  let market := Market.set_lastUpdateBlock (blockNumber block) market in
  let market := updateMarketState c market in
  let s := save_Market market s in
  recalculateProtocolTotals c s.

(** The revenue counters of the protocol singleton, as every reader that
    goes through [getOrCreateProtocol] sees them: cumulative supply side,
    cumulative protocol side, total. *)
Definition revenueCounters (s : Store) : Qc * Qc * Qc :=
  let protocol := fst (getOrCreateProtocol s) in
  (Protocol.cumulativeSupplySideRevenueUSD protocol,
   Protocol.cumulativeProtocolSideRevenueUSD protocol,
   Protocol.totalRevenueUSD protocol).

(** The singleton's revenue fields agree: the total is the sum, in the
    host's arithmetic, of the two cumulative counters. *)
Definition revenueConsistent (protocol : Protocol.t) : Prop :=
  Protocol.totalRevenueUSD protocol
  = bd_plus (Protocol.cumulativeSupplySideRevenueUSD protocol)
      (Protocol.cumulativeProtocolSideRevenueUSD protocol).

Definition RevenueInvariant (s : Store) : Prop :=
  forall (k : string) (protocol : Protocol.t),
    protocols s !! k = Some protocol -> revenueConsistent protocol.

(** What the indexer is triggered with: an event or a block, and the chain
    as it is at that block. *)
Inductive Trigger : Type :=
  | OnSupply (c : Chain) (event : Event)
  | OnWithdraw (c : Chain) (event : Event)
  | OnBorrow (c : Chain) (event : Event)
  | OnRepay (c : Chain) (event : Event)
  | OnReserveDataUpdated (c : Chain) (event : RateEvent)
  | OnBlock (c : Chain) (block : Block).

Definition handle (trigger : Trigger) (s : Store) : Store :=
  match trigger with
  | OnSupply c event => handleSupply c event s
  | OnWithdraw c event => handleWithdraw c event s
  | OnBorrow c event => handleBorrow c event s
  | OnRepay c event => handleRepay c event s
  | OnReserveDataUpdated c event => handleReserveDataUpdated c event s
  | OnBlock c block => handleBlock c block s
  end.

(** Event amounts are [uint256] values. *)
Definition amountIsUnsigned (trigger : Trigger) : Prop :=
  match trigger with
  | OnSupply _ event | OnWithdraw _ event | OnBorrow _ event | OnRepay _ event =>
      0 <= amount event
  | OnReserveDataUpdated _ _ | OnBlock _ _ => True
  end.

(** No position has a negative principal. *)
Definition PrincipalInvariant (s : Store) : Prop :=
  forall (k : string) (position : UserPosition.t),
    userPositions s !! k = Some position -> 0 <= UserPosition.principal position.

(** The realized P&L on record for a position id; a position starts at
    zero. *)
Definition realizedPnLOf (s : Store) (positionId : string) : Qc :=
  match userPositions s !! positionId with
  | Some position => UserPosition.realizedPnL position
  | None => ZERO_BD
  end.

(** The store after a sequence of triggers, one fully handled before the
    next. *)
Definition run (triggers : list Trigger) (s : Store) : Store :=
  fold_left (fun s trigger => handle trigger s) triggers s.

(** Every market of [s] is still on record in [s'], with an accrual
    timestamp that is not earlier. *)
Definition StampsAdvance (s s' : Store) : Prop :=
  forall (k : string) (market : Market.t),
    markets s !! k = Some market ->
    exists market' : Market.t,
      markets s' !! k = Some market'
      /\ Market.lastRevenueCalculationTimestamp market
         <= Market.lastRevenueCalculationTimestamp market'.

(** The market object in hand is not behind the record under its id. *)
Definition NotBehind (market : Market.t) (s : Store) : Prop :=
  forall stored : Market.t,
    markets s !! Market.id market = Some stored ->
    Market.lastRevenueCalculationTimestamp stored
    <= Market.lastRevenueCalculationTimestamp market.

(** A sequence of accruals on one market object. *)
Definition accrueAll (timestamps : list Z) (ms : Market.t * Store)
    : Market.t * Store :=
  fold_left (fun ms t => calculateAndAccumulateRevenue (fst ms) t (snd ms))
    timestamps ms.

End Host.

(** ** Hosts *)

(** Powers of ten, and the decimal number [m * 10^e]. *)
Definition pow10 (e : Z) : Q := (10 ^ e)%Q.

Definition dec (m e : Z) : Qc := Q2Qc (inject_Z m * pow10 e).

(** Significant decimal digits a host with bounded precision keeps, and the
    weight of the last of them relative to the first. *)
Definition PRECISION : Z := 34.

Definition UNIT_ROUNDOFF : Qc := dec 1 (1 - PRECISION).

(** What the proofs below ask of a host: a number of at most [PRECISION]
    significant digits is a result as it stands, a result is not changed by
    normalising it again, and normalising moves a number by at most one unit
    of its last kept digit. *)
Class HostNorm (norm : Qc -> Qc) : Prop := {
  norm_short : forall m e : Z, Z.abs m < 10 ^ PRECISION -> norm (dec m e) = dec m e;
  norm_idem : forall q : Qc, norm (norm q) = norm q;
  norm_near : forall q : Qc, (Qcabs (norm q - q) <= UNIT_ROUNDOFF * Qcabs q)%Qc
}.

(** A host of unbounded precision. *)
Definition exact (q : Qc) : Qc := q.

(** How a host of bounded precision rounds the digits it drops: to the
    nearest with ties away from zero, to the nearest with ties to even,
    towards zero, away from zero. *)
Inductive Rounding : Type := HalfUp | HalfEven | Down | Up.

(** The integer a non-negative rational is rounded to. *)
Definition roundInt (mode : Rounding) (x : Q) : Z :=
  match mode with
  | HalfUp => Qfloor (x + (1 # 2))
  | HalfEven =>
      let f := Qfloor x in
      match (x - inject_Z f ?= 1 # 2)%Q with
      | Lt => f
      | Gt => f + 1
      | Eq => if Z.even f then f else f + 1
      end
  | Down => Qfloor x
  | Up => Qceiling x
  end.

(** The decimal magnitude of [a > 0]: the [g] with [10^(g-1) <= a < 10^g],
    searched upwards from a lower bound. *)
Fixpoint magnitudeFrom (fuel : nat) (g : Z) (a : Q) : Z :=
  match fuel with
  | O => g
  | S fuel => if Qlt_le_dec a (pow10 g) then g else magnitudeFrom fuel (g + 1) a
  end.

Definition magnitude (q : Q) : Z :=
  let sn := Z.log2 (Z.abs (Qnum q)) + 1 in
  let sd := Z.log2 (Z.pos (Qden q)) + 1 in
  magnitudeFrom (Z.to_nat (sn + sd)) (1 - sd) (Qabs q).

(** Rounding to [PRECISION] significant digits: the absolute value is scaled
    to a mantissa of [PRECISION] digits before the point, which is rounded. *)
Definition roundQ (mode : Rounding) (q : Q) : Q :=
  if Qnum q =? 0 then q
  else
    let e := magnitude q - PRECISION in
    let m := roundInt mode (Qabs q / pow10 e) in
    (inject_Z (Z.sgn (Qnum q) * m) * pow10 e)%Q.

(** A host that keeps [PRECISION] significant digits. *)
Definition roundTo (mode : Rounding) (q : Qc) : Qc := Q2Qc (roundQ mode q).

(** The host that rounds to the nearest, ties away from zero. *)
Definition round34 : Qc -> Qc := roundTo HalfUp.

(** A decimal writing [(m, e)] of a rational, if it has one: the numerator is
    scaled up until the denominator divides it, then trailing zeros go to
    the exponent. *)
Fixpoint scaleUp (fuel : nat) (n d k : Z) : Z * Z :=
  match fuel with
  | O => (n, k)
  | S fuel => if n mod d =? 0 then (n / d, k) else scaleUp fuel (n * 10) d (k + 1)
  end.

Fixpoint stripZeros (fuel : nat) (m e : Z) : Z * Z :=
  match fuel with
  | O => (m, e)
  | S fuel =>
      if (m mod 10 =? 0) && negb (m =? 0) then stripZeros fuel (m / 10) (e + 1)
      else (m, e)
  end.

Definition decimalOf (q : Qc) : Z * Z :=
  let '(m, k) := scaleUp 128 (Qnum q) (Z.pos (Qden q)) 0 in
  stripZeros 512 m (- k).

(** A checked sufficient test for "at most [PRECISION] significant digits". *)
Definition shortb (q : Qc) : bool :=
  let '(m, e) := decimalOf q in
  (Z.abs m <? 10 ^ PRECISION) && bool_decide (q = dec m e).

(** ** Stores in which every entity is filed under its own id *)

Definition Keyed {E : Type} (id : E -> string) (m : gmap string E) : Prop :=
  forall (k : string) (e : E), m !! k = Some e -> id e = k.

(** ** Concrete entities for the scenarios *)

Definition USDC : Address := "0x833589fcd6edb6e08f4c7c32d4f71b54bda02913".
Definition aUSDC : Address := "0x4e65fe4dba92790696d040ac24aa414708f5c0ab".

(** A token of 6 decimals priced at 1 USD. *)
Definition usdcToken : Token.t :=
  Token.mk USDC "USDC" "USD Coin" 6 0 (Qc_of_Z 1) 0.

(** A market of that token with the given borrow total, borrow and liquidity
    rates, reserve factor and accrual timestamp. *)
Definition usdcMarket (totalBorrow variableBorrowRate liquidityRate reserveFactor
    lastRevenueCalculationTimestamp : Z) : Market.t :=
  Market.mk USDC PROTOCOL_ID USDC aUSDC ZERO_ADDRESS ZERO_ADDRESS USDC aUSDC
    (2 * totalBorrow) totalBorrow totalBorrow liquidityRate variableBorrowRate 0
    ZERO_BD ZERO_BD ZERO_BD 7500 7800 10500 reserveFactor
    lastRevenueCalculationTimestamp 0 lastRevenueCalculationTimestamp.

(** A store that holds the token, a market and a protocol record with
    revenue already accumulated. *)
Definition usdcStore (market : Market.t) : Store :=
  save_Protocol
    (Protocol.mk PROTOCOL_ID ZERO_BD ZERO_BD (Qc_of_Z 300) (Qc_of_Z 200) (Qc_of_Z 100))
    (save_Market market (save_Token usdcToken emptyStore)).

(** One year at 5% against 3% on a borrow of 1,000,000 USDC, reserve factor
    10%. *)
Definition oneYearMarket : Market.t :=
  usdcMarket (1000000 * 10 ^ 6) (5 * 10 ^ 25) (3 * 10 ^ 25) 1000 1700000000.

(** 1971 seconds at a spread of [(3 * 10^25 + 1)] ray on a borrow of 0.100001
    USDC, reserve factor 10%: the period revenue has 34 significant digits,
    the last one a 5. *)
Definition tieMarket : Market.t :=
  usdcMarket 100001 (5 * 10 ^ 25 + 1) (2 * 10 ^ 25) 1000 1700000000.

(** The same market with a reserve factor of 0. *)
Definition zeroFactorMarket : Market.t :=
  usdcMarket (1000000 * 10 ^ 6) (5 * 10 ^ 25) (3 * 10 ^ 25) 0 1700000000.

(** A chain on which the pool lists the one reserve and reports, for it, a
    supply of 3,000,000 and a variable debt of 1,000,000 units at 5% against
    3%, and for every account a balance of 25 units. *)
Definition baseChain : Chain :=
  mkChain (Some [USDC])
    (fun _ => Some (mkReserveTokensAddresses aUSDC ZERO_ADDRESS ZERO_ADDRESS))
    (fun _ => Some (mkReserveConfigurationData 7500 7800 10500 1000))
    (fun _ => Some (mkReserveData (3000000 * 10 ^ 6) 0 (1000000 * 10 ^ 6)
                      (3 * 10 ^ 25) (5 * 10 ^ 25) 0))
    (fun _ _ => Some (mkUserReserveData (25 * 10 ^ 6) 0 0 true))
    (fun _ => Some (10 ^ 8)) (Some (10 ^ 8))
    (fun _ => Some "USDC") (fun _ => Some "USD Coin") (fun _ => Some 6)
    (fun _ => Some (5000000 * 10 ^ 6)).

(** The same chain when the call to [getReservesList] reverts. *)
Definition noListChain : Chain :=
  mkChain None
    (try_getReserveTokensAddresses baseChain)
    (try_getReserveConfigurationData baseChain)
    (try_getReserveData baseChain) (try_getUserReserveData baseChain)
    (try_getAssetPrice baseChain) (try_BASE_CURRENCY_UNIT baseChain)
    (try_symbol baseChain) (try_name baseChain) (try_decimals baseChain)
    (try_totalSupply baseChain).

(** A market that the store holds without borrow and without rates, last
    accrued at 1700000000. *)
Definition idleMarket : Market.t := usdcMarket 0 0 0 1000 1700000000.

(** A supply of 100 USDC by one account, one year later. *)
Definition alice : Address := "0x00000000000000000000000000000000000a11ce".

Definition laterBlock : Block := mkBlock 1731536000 20000000.

Definition supplyEvent : Event :=
  mkEvent laterBlock "0x5d41402abc4b2a76b9719d911017c592" 7 USDC alice (100 * 10 ^ 6).

(** Three events of the same account on the USDC market: a deposit of 100,
    a withdrawal of 60, a withdrawal of 50. *)
Definition depositEvent : Event :=
  mkEvent (mkBlock 1700000100 10000001) "0x5d41402abc4b2a76b9719d911017c592" 3
    USDC alice (100 * 10 ^ 6).

Definition withdraw60Event : Event :=
  mkEvent (mkBlock 1700000200 10000002) "0x7d793037a0760186574b0282f2f435e7" 1
    USDC alice (60 * 10 ^ 6).

Definition withdraw50Event : Event :=
  mkEvent (mkBlock 1700000300 10000003) "0x6b1d2d3a4f5e6a7b8c9d0e1f2a3b4c5d" 4
    USDC alice (50 * 10 ^ 6).

Definition alicePositionId : string := alice +:+ "-" +:+ USDC.

(** Principal, total deposited, total withdrawn and realized P&L of a stored
    position. *)
Definition positionFigures (s : Store) (positionId : string) : option (Z * Z * Z * Q) :=
  match userPositions s !! positionId with
  | Some position =>
      Some (UserPosition.principal position, UserPosition.totalDeposited position,
            UserPosition.totalWithdrawn position,
            this (UserPosition.realizedPnL position))
  | None => None
  end.

(** The position of the account after the deposit of 100 and the withdrawal
    of 60, and a store that holds it. *)
Definition alicePosition : UserPosition.t :=
  UserPosition.mk alicePositionId alice USDC (40 * 10 ^ 6) 0 0
    (40 * 10 ^ 6) (100 * 10 ^ 6) (60 * 10 ^ 6) ZERO_BD ZERO_BD true 1700000200.

Definition aliceStore : Store :=
  save_UserPosition alicePosition (usdcStore oneYearMarket).

(** The account as a user with totals from an earlier recomputation. *)
Definition aliceUser : User.t :=
  User.mk alice (Qc_of_Z 40) (Qc_of_Z 15) 2.

Definition StoreKeyed (s : Store) : Prop :=
  Keyed Protocol.id (protocols s) /\ Keyed Market.id (markets s)
  /\ Keyed Token.id (tokens s) /\ Keyed User.id (users s)
  /\ Keyed UserPosition.id (userPositions s)
  /\ Keyed Transaction.id (transactions s)
  /\ Keyed HourlySnapshot.id (hourlySnapshots s)
  /\ Keyed DailySnapshot.id (dailySnapshots s)
  /\ Keyed DailyActiveUser.id (dailyActiveUsers s).


(** ** Further properties of hosts and stores *)

(** A host whose normalisation keeps the order of the results: rounding to
    the nearest, towards zero or away from zero all do. *)
Class HostOrder (norm : Qc -> Qc) : Prop := {
  norm_mono : forall p q : Qc, (p <= q)%Qc -> (norm p <= norm q)%Qc
}.

(** The unsigned part of a rounded number: the rounded mantissa at the
    exponent of the number. *)
Definition roundedAbs (mode : Rounding) (q : Q) : Q :=
  let e := magnitude q - PRECISION in
  (inject_Z (roundInt mode (Qabs q / pow10 e)) * pow10 e)%Q.

(** The chain a trigger is handled against. *)
Definition chainOf (trigger : Trigger) : Chain :=
  match trigger with
  | OnSupply c _ | OnWithdraw c _ | OnBorrow c _ | OnRepay c _ => c
  | OnReserveDataUpdated c _ | OnBlock c _ => c
  end.

(** A property of every position on record. *)
Definition AllPositions (P : UserPosition.t -> Prop) (s : Store) : Prop :=
  forall (k : string) (position : UserPosition.t),
    userPositions s !! k = Some position -> P position.

(** The ledger of a position: the principal is between zero and what was
    deposited in total, and the total withdrawn is not negative. *)
Definition ledgerConsistent (position : UserPosition.t) : Prop :=
  0 <= UserPosition.principal position <= UserPosition.totalDeposited position
  /\ 0 <= UserPosition.totalWithdrawn position.

(** The P&L figures of a position: no loss is booked as realized, and
    nothing is booked as unrealized. *)
Definition pnlBooked (position : UserPosition.t) : Prop :=
  (0 <= UserPosition.realizedPnL position)%Qc
  /\ UserPosition.unrealizedPnL position = ZERO_BD.

(** Every position of [s] is still on record in [s'], with cumulative
    deposits and withdrawals that are not smaller. *)
Definition LedgersGrow (s s' : Store) : Prop :=
  forall (k : string) (position : UserPosition.t),
    userPositions s !! k = Some position ->
    exists position' : UserPosition.t,
      userPositions s' !! k = Some position'
      /\ UserPosition.user position' = UserPosition.user position
      /\ UserPosition.market position' = UserPosition.market position
      /\ UserPosition.totalDeposited position
         <= UserPosition.totalDeposited position'
      /\ UserPosition.totalWithdrawn position
         <= UserPosition.totalWithdrawn position'.

(** The market [getOrCreateMarket] builds for an asset it has no record of,
    before it reads the state of the reserve: token addresses and
    configuration from the data provider or their fallbacks, state at zero,
    timestamps at the creation timestamp. *)
Definition freshMarket (c : Chain) (asset : Address) (currentTimestamp : Z)
    (inputToken outputToken : string) : Market.t :=
  let tokenAddresses :=
    match try_getReserveTokensAddresses c asset with
    | Some v => v
    | None => mkReserveTokensAddresses ZERO_ADDRESS ZERO_ADDRESS ZERO_ADDRESS
    end in
  let config :=
    match try_getReserveConfigurationData c asset with
    | Some v => v
    | None => mkReserveConfigurationData ZERO_BI ZERO_BI ZERO_BI ZERO_BI
    end in
  Market.mk (getTokenId asset) PROTOCOL_ID asset
    (getATokenAddress tokenAddresses) (getStableDebtTokenAddress tokenAddresses)
    (getVariableDebtTokenAddress tokenAddresses)
    inputToken outputToken
    ZERO_BI ZERO_BI ZERO_BI ZERO_BI ZERO_BI ZERO_BI ZERO_BD ZERO_BD ZERO_BD
    (getLtv config) (getLiquidationThreshold config) (getLiquidationBonus config)
    (getReserveFactor config)
    currentTimestamp ZERO_BI currentTimestamp.

(** What the handlers do to a market object between a load and a save: they
    resync it from a chain (one of those in [G]) and assign the rates, the
    APYs and the three stamps. *)
Inductive MarketStep (norm : Qc -> Qc) (G : Chain -> Prop)
    : Market.t -> Market.t -> Prop :=
  | step_none (m : Market.t) : MarketStep norm G m m
  | step_resync (c : Chain) (m m' : Market.t) :
      G c -> MarketStep norm G m m' ->
      MarketStep norm G m (updateMarketState norm c m')
  | step_accrued (v : Z) (m m' : Market.t) :
      MarketStep norm G m m' ->
      MarketStep norm G m (Market.set_lastRevenueCalculationTimestamp v m')
  | step_seen (v : Z) (m m' : Market.t) :
      MarketStep norm G m m' ->
      MarketStep norm G m (Market.set_lastUpdateTimestamp v m')
  | step_block (v : Z) (m m' : Market.t) :
      MarketStep norm G m m' ->
      MarketStep norm G m (Market.set_lastUpdateBlock v m')
  | step_supplyAPY (v : Qc) (m m' : Market.t) :
      MarketStep norm G m m' ->
      MarketStep norm G m (Market.set_supplyAPY v m')
  | step_variableBorrowAPY (v : Qc) (m m' : Market.t) :
      MarketStep norm G m m' ->
      MarketStep norm G m (Market.set_variableBorrowAPY v m')
  | step_liquidityRate (v : Z) (m m' : Market.t) :
      MarketStep norm G m m' ->
      MarketStep norm G m (Market.set_liquidityRate v m')
  | step_variableBorrowRate (v : Z) (m m' : Market.t) :
      MarketStep norm G m m' ->
      MarketStep norm G m (Market.set_variableBorrowRate v m')
  | step_stableBorrowRate (v : Z) (m m' : Market.t) :
      MarketStep norm G m m' ->
      MarketStep norm G m (Market.set_stableBorrowRate v m').

(** The record under one key before and after: a market that was on record
    is still there and was stepped; a new one is a stepped fresh market. *)
Definition marketDescends (norm : Qc -> Qc) (G : Chain -> Prop)
    (before after : option Market.t) : Prop :=
  match before, after with
  | Some m, Some m' => MarketStep norm G m m'
  | Some _, None => False
  | None, Some m' =>
      exists c asset t i o, G c /\ MarketStep norm G (freshMarket c asset t i o) m'
  | None, None => True
  end.

Definition MarketsDescend (norm : Qc -> Qc) (G : Chain -> Prop) (s s' : Store) : Prop :=
  forall k : string, marketDescends norm G (markets s !! k) (markets s' !! k).

(** The market object a handler holds, against the record under its id. *)
Definition InHand (norm : Qc -> Qc) (G : Chain -> Prop) (m : Market.t) (s : Store)
    : Prop :=
  marketDescends norm G (markets s !! Market.id m) (Some m).

(** A property of every market on record. *)
Definition AllMarkets (P : Market.t -> Prop) (s : Store) : Prop :=
  forall (k : string) (market : Market.t), markets s !! k = Some market -> P market.

(** What a market is created with and keeps: identity, token addresses and
    risk configuration. *)
Definition marketConfig (m : Market.t)
    : string * string * string * string * string * string * string * string
      * Z * Z * Z * Z :=
  (Market.id m, Market.protocol m, Market.asset m, Market.aToken m, Market.sToken m,
   Market.vToken m, Market.inputToken m, Market.outputToken m, Market.ltv m,
   Market.liquidationThreshold m, Market.liquidationPenalty m, Market.reserveFactor m).

(** The fields of a market that are computed from its totals. *)
Definition derivedFieldsAgree (norm : Qc -> Qc) (m : Market.t) : Prop :=
  Market.availableLiquidity m = Market.totalSupply m - Market.totalBorrow m
  /\ Market.utilizationRate m
     = calculateUtilizationRate norm (Market.totalBorrow m) (Market.totalSupply m).

(** The token [getOrCreateToken] builds for an address it has no record
    of. *)
Definition freshToken (norm : Qc -> Qc) (c : Chain) (address : Address) : Token.t :=
  Token.mk (getTokenId address) (fetchTokenSymbol c address) (fetchTokenName c address)
    (toI32 (fetchTokenDecimals c address)) (fetchTokenTotalSupply c address)
    (getTokenPriceUSD norm c address) ZERO_BI.

(** What the handlers do to a token between a load and a save: they assign
    the price the oracle of a chain (one of those in [G]) gives for it, and
    the price timestamp. *)
Inductive TokenStep (norm : Qc -> Qc) (G : Chain -> Prop)
    : Token.t -> Token.t -> Prop :=
  | tstep_none (t : Token.t) : TokenStep norm G t t
  | tstep_price (c : Chain) (t t' : Token.t) :
      G c -> TokenStep norm G t t' ->
      TokenStep norm G t
        (Token.set_lastPriceUSD (getTokenPriceUSD norm c (Token.id t')) t')
  | tstep_stamp (v : Z) (t t' : Token.t) :
      TokenStep norm G t t' ->
      TokenStep norm G t (Token.set_lastPriceTimestamp v t').

Definition tokenDescends (norm : Qc -> Qc) (G : Chain -> Prop)
    (before after : option Token.t) : Prop :=
  match before, after with
  | Some t, Some t' => TokenStep norm G t t'
  | Some _, None => False
  | None, Some t' =>
      exists c address, G c /\ TokenStep norm G (freshToken norm c address) t'
  | None, None => True
  end.

Definition TokensDescend (norm : Qc -> Qc) (G : Chain -> Prop) (s s' : Store) : Prop :=
  forall k : string, tokenDescends norm G (tokens s !! k) (tokens s' !! k).

(** A property of every token on record. *)
Definition AllTokens (P : Token.t -> Prop) (s : Store) : Prop :=
  forall (k : string) (token : Token.t), tokens s !! k = Some token -> P token.

(** What a token is created with and keeps. *)
Definition tokenMetadata (t : Token.t) : string * string * string * Z * Z :=
  (Token.id t, Token.symbol t, Token.name t, Token.decimals t, Token.totalSupply t).

(** The records that only events write: transactions and hourly
    snapshots; with users, positions, daily snapshots and active-user
    records they make up the journal of the events. *)
Definition logs (s : Store)
    : gmap string Transaction.t * gmap string HourlySnapshot.t :=
  (transactions s, hourlySnapshots s).

Definition journal (s : Store)
    : gmap string User.t * gmap string UserPosition.t * gmap string Transaction.t
      * gmap string HourlySnapshot.t * gmap string DailySnapshot.t
      * gmap string DailyActiveUser.t :=
  (users s, userPositions s, transactions s, hourlySnapshots s, dailySnapshots s,
   dailyActiveUsers s).

(** What an event leaves in the journal: one transaction under the id made
    of its transaction hash and log index, describing it, every other
    transaction untouched; and one more transaction on the count of its
    user (counted from zero for a user not seen before), every other user
    untouched. *)
Definition journaled (type : string) (c : Chain) (event : Event) (s s' : Store) : Prop :=
  let txId := transactionHash event +:+ "-" +:+ toString (logIndex event) in
  let userId := getTokenId (account event) in
  (exists tx : Transaction.t,
      transactions s' !! txId = Some tx
      /\ Transaction.id tx = txId
      /\ Transaction.hash tx = transactionHash event
      /\ Transaction.timestamp tx = blockTimestamp (eventBlock event)
      /\ Transaction.block tx = blockNumber (eventBlock event)
      /\ Transaction.from tx = userId
      /\ Transaction.market tx = getTokenId (reserve event)
      /\ Transaction.type tx = type
      /\ Transaction.amount tx = amount event)
  /\ (forall k, k <> txId -> transactions s' !! k = transactions s !! k)
  /\ (exists user : User.t,
         users s' !! userId = Some user
         /\ User.id user = userId
         /\ User.transactionCount user
            = i32_add
                (match users s !! userId with
                 | Some before => User.transactionCount before
                 | None => 0
                 end) 1)
  /\ (forall k, k <> userId -> users s' !! k = users s !! k).

(** The four volumes of a snapshot: supply, withdraw, borrow, repay. *)
Definition hourlyVolumes (h : HourlySnapshot.t) : Z * Z * Z * Z :=
  (HourlySnapshot.hourlySupplyVolume h, HourlySnapshot.hourlyWithdrawVolume h,
   HourlySnapshot.hourlyBorrowVolume h, HourlySnapshot.hourlyRepayVolume h).

Definition dailyVolumes (d : DailySnapshot.t) : Z * Z * Z * Z :=
  (DailySnapshot.dailySupplyVolume d, DailySnapshot.dailyWithdrawVolume d,
   DailySnapshot.dailyBorrowVolume d, DailySnapshot.dailyRepayVolume d).

(** What an event of a type and an amount adds to the four volumes. *)
Definition volumeOf (type : string) (volume : Z) : Z * Z * Z * Z :=
  if decide (type = "SUPPLY") then (volume, 0, 0, 0)
  else if decide (type = "WITHDRAW") then (0, volume, 0, 0)
  else if decide (type = "BORROW") then (0, 0, volume, 0)
  else if decide (type = "REPAY") then (0, 0, 0, volume)
  else (0, 0, 0, 0).

Definition addVolumes (a b : Z * Z * Z * Z) : Z * Z * Z * Z :=
  let '(a1, a2, a3, a4) := a in
  let '(b1, b2, b3, b4) := b in
  (a1 + b1, a2 + b2, a3 + b3, a4 + b4).

(** A snapshot shows the state of a market. *)
Definition hourlyMirrors (h : HourlySnapshot.t) (m : Market.t) : Prop :=
  HourlySnapshot.supplyAPY h = Market.supplyAPY m
  /\ HourlySnapshot.borrowAPY h = Market.variableBorrowAPY m
  /\ HourlySnapshot.utilizationRate h = Market.utilizationRate m
  /\ HourlySnapshot.totalSupply h = Market.totalSupply m
  /\ HourlySnapshot.totalBorrow h = Market.totalBorrow m.

Definition dailyMirrors (d : DailySnapshot.t) (m : Market.t) : Prop :=
  DailySnapshot.supplyAPY d = Market.supplyAPY m
  /\ DailySnapshot.borrowAPY d = Market.variableBorrowAPY m
  /\ DailySnapshot.utilizationRate d = Market.utilizationRate m
  /\ DailySnapshot.totalSupply d = Market.totalSupply m
  /\ DailySnapshot.totalBorrow d = Market.totalBorrow m.

(** What an event leaves in the snapshots of its market: the snapshot of
    its hour and the one of its day show the market as it is on record
    after the event, their volume of the type of the event has grown by the
    amount, and they keep the timestamp of the first event of the hour or
    day; no other snapshot is touched. *)
Definition snapshotted (type : string) (event : Event) (s s' : Store) : Prop :=
  let timestamp := blockTimestamp (eventBlock event) in
  let marketId := getTokenId (reserve event) in
  let hourKey := marketId +:+ "-" +:+ toString (getHourId timestamp) in
  let dayKey := marketId +:+ "-" +:+ toString (getDayId timestamp) in
  exists (m : Market.t) (h : HourlySnapshot.t) (d : DailySnapshot.t),
    markets s' !! marketId = Some m
    /\ hourlySnapshots s' !! hourKey = Some h
    /\ dailySnapshots s' !! dayKey = Some d
    /\ hourlyMirrors h m /\ dailyMirrors d m
    /\ match hourlySnapshots s !! hourKey with
       | Some before =>
           hourlyVolumes h
           = addVolumes (hourlyVolumes before) (volumeOf type (amount event))
           /\ HourlySnapshot.timestamp h = HourlySnapshot.timestamp before
       | None =>
           hourlyVolumes h = volumeOf type (amount event)
           /\ HourlySnapshot.timestamp h = timestamp
           /\ HourlySnapshot.hourId h = getHourId timestamp
           /\ HourlySnapshot.market h = marketId
       end
    /\ match dailySnapshots s !! dayKey with
       | Some before =>
           dailyVolumes d
           = addVolumes (dailyVolumes before) (volumeOf type (amount event))
           /\ DailySnapshot.timestamp d = DailySnapshot.timestamp before
       | None =>
           dailyVolumes d = volumeOf type (amount event)
           /\ DailySnapshot.timestamp d = timestamp
           /\ DailySnapshot.dayId d = getDayId timestamp
           /\ DailySnapshot.market d = marketId
       end
    /\ (forall k, k <> hourKey -> hourlySnapshots s' !! k = hourlySnapshots s !! k)
    /\ (forall k, k <> dayKey -> dailySnapshots s' !! k = dailySnapshots s !! k).

(** The event of a trigger, when it is one of the four journaled events,
    and the type it is journaled with. *)
Definition eventOf (trigger : Trigger) : option Event :=
  match trigger with
  | OnSupply _ event | OnWithdraw _ event | OnBorrow _ event | OnRepay _ event =>
      Some event
  | OnReserveDataUpdated _ _ | OnBlock _ _ => None
  end.

Definition typeOf (trigger : Trigger) : string :=
  match trigger with
  | OnSupply _ _ => "SUPPLY"
  | OnWithdraw _ _ => "WITHDRAW"
  | OnBorrow _ _ => "BORROW"
  | OnRepay _ _ => "REPAY"
  | OnReserveDataUpdated _ _ | OnBlock _ _ => ""
  end.

(** The id of the transaction record of an event. *)
Definition transactionKey (event : Event) : string :=
  transactionHash event +:+ "-" +:+ toString (logIndex event).

(** A market as a block tick leaves it: stamped with the block, accrued up
    to the block, with APYs computed from the rates on record, and with the
    totals and rates of the chain when the data provider answers. *)
Definition syncedAt (norm : Qc -> Qc) (c : Chain) (block : Block) (m : Market.t)
    : Prop :=
  Market.lastUpdateTimestamp m = blockTimestamp block
  /\ Market.lastUpdateBlock m = blockNumber block
  /\ blockTimestamp block <= Market.lastRevenueCalculationTimestamp m
  /\ Market.supplyAPY m
     = bd_times norm (rayToDecimal norm (Market.liquidityRate m)) HUNDRED_BD
  /\ Market.variableBorrowAPY m
     = bd_times norm (rayToDecimal norm (Market.variableBorrowRate m)) HUNDRED_BD
  /\ match try_getReserveData c (Market.asset m) with
     | Some reserveData =>
         Market.totalSupply m = getTotalAToken reserveData
         /\ Market.totalBorrow m
            = getTotalVariableDebt reserveData + getTotalStableDebt reserveData
         /\ Market.liquidityRate m = getLiquidityRate reserveData
         /\ Market.variableBorrowRate m = getVariableBorrowRate reserveData
         /\ Market.stableBorrowRate m = getStableBorrowRate reserveData
     | None => True
     end.

(** Whether a token id is the input token of a market on record for one of
    the reserves. *)
Definition listedInputToken (reserves : list Address) (s : Store) (k : string) : bool :=
  existsb
    (fun reserve =>
       match markets s !! toLowerCase reserve with
       | Some market => bool_decide (Market.inputToken market = k)
       | None => false
       end)
    reserves.

(** The chain of the scenarios when the price oracle reverts on every
    asset. *)
Definition noOracleChain : Chain :=
  mkChain (try_getReservesList baseChain)
    (try_getReserveTokensAddresses baseChain)
    (try_getReserveConfigurationData baseChain)
    (try_getReserveData baseChain) (try_getUserReserveData baseChain)
    (fun _ => None) (try_BASE_CURRENCY_UNIT baseChain)
    (try_symbol baseChain) (try_name baseChain) (try_decimals baseChain)
    (try_totalSupply baseChain).

(** A chain whose answers are in the ranges of the protocol: oracle prices
    are not negative, the base currency unit is positive, and reserve
    factors are between 0 and 100% in basis points. *)
Definition chainInRange (c : Chain) : Prop :=
  (forall asset price, try_getAssetPrice c asset = Some price -> 0 <= price)
  /\ (forall unit, try_BASE_CURRENCY_UNIT c = Some unit -> 0 < unit)
  /\ (forall asset config,
         try_getReserveConfigurationData c asset = Some config ->
         0 <= getReserveFactor config <= 10000).

Definition reserveFactorInRange (m : Market.t) : Prop :=
  0 <= Market.reserveFactor m <= 10000.

Definition priceUnsigned (t : Token.t) : Prop := (0 <= Token.lastPriceUSD t)%Qc.

(** A property of every protocol record. *)
Definition AllProtocols (P : Protocol.t -> Prop) (s : Store) : Prop :=
  forall (k : string) (protocol : Protocol.t),
    protocols s !! k = Some protocol -> P protocol.

(** The two cumulative counters are numbers of the host, and the total is
    their sum. *)
Definition countersSettled (norm : Qc -> Qc) (p : Protocol.t) : Prop :=
  norm (Protocol.cumulativeSupplySideRevenueUSD p)
  = Protocol.cumulativeSupplySideRevenueUSD p
  /\ norm (Protocol.cumulativeProtocolSideRevenueUSD p)
     = Protocol.cumulativeProtocolSideRevenueUSD p
  /\ revenueConsistent norm p.

(** The order on the three revenue figures, taken one by one. *)
Definition countersLe (a b : Qc * Qc * Qc) : Prop :=
  (fst (fst a) <= fst (fst b))%Qc /\ (snd (fst a) <= snd (fst b))%Qc
  /\ (snd a <= snd b)%Qc.

(** A store as the handlers leave it when the chains are in range: records
    under their ids, reserve factors in range, prices not negative, revenue
    counters settled. *)
Definition Accounted (norm : Qc -> Qc) (s : Store) : Prop :=
  StoreKeyed s /\ AllMarkets reserveFactorInRange s /\ AllTokens priceUnsigned s
  /\ AllProtocols (countersSettled norm) s.

(** What a position holds of the state of its account on the chain. *)
Definition chainBalances (p : UserPosition.t) : Z * Z * Z * bool :=
  (UserPosition.aTokenBalance p, UserPosition.variableDebtBalance p,
   UserPosition.stableDebtBalance p, UserPosition.isCollateral p).

(** What an event leaves in the position of its account on its market: the
    position is on record under the id made of the two, stamped with the
    timestamp of the event, and its balances and collateral flag are those
    the data provider reports for the asset of the market and the account;
    when that call reverts they are what they were (zero and [false] for a
    position opened by the event).  No other position is touched. *)
Definition positionFollowsChain (c : Chain) (event : Event) (s s' : Store) : Prop :=
  let marketId := getTokenId (reserve event) in
  let positionId := getTokenId (account event) +:+ "-" +:+ marketId in
  exists (m : Market.t) (p : UserPosition.t),
    markets s' !! marketId = Some m
    /\ userPositions s' !! positionId = Some p
    /\ UserPosition.id p = positionId
    /\ UserPosition.lastUpdateTimestamp p = blockTimestamp (eventBlock event)
    /\ chainBalances p
       = match try_getUserReserveData c (Market.asset m) (account event) with
         | Some userData =>
             (getCurrentATokenBalance userData, getCurrentVariableDebt userData,
              getCurrentStableDebt userData, getUsageAsCollateralEnabled userData)
         | None =>
             match userPositions s !! positionId with
             | Some before => chainBalances before
             | None => (0, 0, 0, false)
             end
         end
    /\ (forall k, k <> positionId -> userPositions s' !! k = userPositions s !! k).

(** The three revenue figures of a daily snapshot: supply side, protocol
    side, total. *)
Definition dailyRevenueFigures (d : DailySnapshot.t) : Qc * Qc * Qc :=
  (DailySnapshot.dailySupplySideRevenueUSD d,
   DailySnapshot.dailyProtocolSideRevenueUSD d,
   DailySnapshot.dailyTotalRevenueUSD d).

(** Two stores with the same markets, whose tokens are the same up to their
    prices and price timestamps. *)
Definition sameButPrices (s s' : Store) : Prop :=
  markets s' = markets s
  /\ forall k : string,
       match tokens s !! k, tokens s' !! k with
       | Some t, Some t' =>
           Token.id t' = Token.id t /\ Token.decimals t' = Token.decimals t
       | None, None => True
       | _, _ => False
       end.

(** The assignments [updateMarketState] makes from an answer of the data
    provider. *)
Definition resyncFrom (norm : Qc -> Qc) (reserveData : ReserveData) (market : Market.t)
    : Market.t :=
  let market := Market.set_totalSupply (getTotalAToken reserveData) market in
  let market :=
    Market.set_totalBorrow
      (getTotalVariableDebt reserveData + getTotalStableDebt reserveData) market in
  let market :=
    Market.set_availableLiquidity
      (Market.totalSupply market - Market.totalBorrow market) market in
  let market := Market.set_liquidityRate (getLiquidityRate reserveData) market in
  let market :=
    Market.set_variableBorrowRate (getVariableBorrowRate reserveData) market in
  let market :=
    Market.set_stableBorrowRate (getStableBorrowRate reserveData) market in
  Market.set_utilizationRate
    (calculateUtilizationRate norm (Market.totalBorrow market) (Market.totalSupply market))
    market.

(** The USD amount on the transaction of an event: the amount converted
    with the decimals of the input token of the market and valued at the
    price the oracle gives for the asset of the market at the event; zero
    when the market has no token on record or the oracle call reverts. *)
Definition valuedAtOracle (norm : Qc -> Qc) (c : Chain) (event : Event) (s' : Store)
    : Prop :=
  exists (m : Market.t) (tx : Transaction.t),
    markets s' !! getTokenId (reserve event) = Some m
    /\ transactions s' !! transactionKey event = Some tx
    /\ Transaction.amountUSD tx
       = match tokens s' !! Market.inputToken m with
         | Some token =>
             calculateUSDValue norm c (amount event) (Market.asset m)
               (fromI32 (Token.decimals token))
         | None => ZERO_BD
         end
    /\ (try_getAssetPrice c (Market.asset m) = None ->
        Transaction.amountUSD tx = ZERO_BD).

(** The numbers an [i32] holds. *)
Definition fitsI32 (z : Z) : Prop := - 2 ^ 31 <= z < 2 ^ 31.

(** A withdrawal of 30 USDC by the account of the scenarios. *)
Definition withdraw30Event : Event :=
  mkEvent (mkBlock 1700000300 10000003) "0x6b1d2d3a4f5e6a7b8c9d0e1f2a3b4c5d" 5
    USDC alice (30 * 10 ^ 6).

(** The principal a store holds for a position, zero when the position is
    not on record. *)
Definition principalOf (s : Store) (positionId : string) : Z :=
  match userPositions s !! positionId with
  | Some position => UserPosition.principal position
  | None => 0
  end.

(** ** The hosts meet [HostNorm] *)

Lemma pow10_pos (e : Z) : (0 < pow10 e)%Q.
Proof. apply Qpower_0_lt. reflexivity. Qed.

Lemma pow10_add (a b : Z) : (pow10 (a + b) == pow10 a * pow10 b)%Q.
Proof. apply Qpower_plus. discriminate. Qed.

Lemma pow10_Z (k : Z) : 0 <= k -> (pow10 k == inject_Z (10 ^ k))%Q.
Proof. intros Hk. unfold pow10. now rewrite (Zpower_Qpower 10 k Hk). Qed.

Lemma pow10_le (a b : Z) : a <= b -> (pow10 a <= pow10 b)%Q.
Proof. intros Hab. apply Qpower_le_compat_l; [exact Hab | discriminate]. Qed.

Lemma pow10_lt (a b : Z) : a < b -> (pow10 a < pow10 b)%Q.
Proof. intros Hab. apply Qpower_lt_compat_l; [exact Hab | reflexivity]. Qed.


Lemma magnitudeFrom_spec (fuel : nat) (g : Z) (a : Q) :
  (pow10 (g - 1) <= a)%Q -> (a < pow10 (g + Z.of_nat fuel))%Q ->
  (pow10 (magnitudeFrom fuel g a - 1) <= a)%Q /\ (a < pow10 (magnitudeFrom fuel g a))%Q.
Proof.
  revert g. induction fuel as [|fuel IH]; intros g Hlo Hhi.
  - simpl. replace (g + Z.of_nat 0) with g in Hhi by lia. split; assumption.
  - simpl. destruct (Qlt_le_dec a (pow10 g)) as [Hlt | Hge].
    + split; assumption.
    + apply IH.
      * replace (g + 1 - 1) with g by lia. exact Hge.
      * replace (g + 1 + Z.of_nat fuel) with (g + Z.of_nat (S fuel)) by lia. exact Hhi.
Qed.

Lemma pow2_le_pow10 (k : Z) : 0 <= k -> 2 ^ k <= 10 ^ k.
Proof. intros Hk. apply Z.pow_le_mono_l. lia. Qed.

Lemma below_pow10 (n : Z) : 0 < n -> n < 10 ^ (Z.log2 n + 1).
Proof.
  intros Hn. pose proof (Z.log2_spec n Hn) as [_ H]. pose proof (Z.log2_nonneg n).
  pose proof (pow2_le_pow10 (Z.log2 n + 1)). unfold Z.succ in H. lia.
Qed.

Lemma Qabs_num_den (q : Q) :
  (Qabs q == inject_Z (Z.abs (Qnum q)) / inject_Z (Z.pos (Qden q)))%Q.
Proof.
  destruct q as [n d]. unfold Qabs, Qeq, Qdiv, Qmult, Qinv, inject_Z. simpl. lia.
Qed.

Lemma inject_Z_pos (z : Z) : 0 < z -> (0 < inject_Z z)%Q.
Proof. intros Hz. unfold Qlt. simpl. lia. Qed.

Lemma frac_le (a b c d : Z) :
  0 < b -> 0 < d -> a * d <= c * b ->
  (inject_Z a / inject_Z b <= inject_Z c / inject_Z d)%Q.
Proof.
  intros Hb Hd H. destruct b as [|b|b]; try lia. destruct d as [|d|d]; try lia.
  unfold Qle, Qdiv, Qmult, Qinv, inject_Z. simpl. lia.
Qed.

Lemma frac_lt (a b c d : Z) :
  0 < b -> 0 < d -> a * d < c * b ->
  (inject_Z a / inject_Z b < inject_Z c / inject_Z d)%Q.
Proof.
  intros Hb Hd H. destruct b as [|b|b]; try lia. destruct d as [|d|d]; try lia.
  unfold Qlt, Qdiv, Qmult, Qinv, inject_Z. simpl. lia.
Qed.

Lemma over_one (z : Z) : (inject_Z z == inject_Z z / inject_Z 1)%Q.
Proof. unfold Qeq, Qdiv, Qmult, Qinv, inject_Z. simpl. lia. Qed.

Lemma inv_frac (z : Z) : (/ inject_Z z == inject_Z 1 / inject_Z z)%Q.
Proof. unfold Qdiv. now rewrite Qmult_1_l. Qed.

Lemma magnitude_spec (q : Q) :
  Qnum q <> 0 ->
  (pow10 (magnitude q - 1) <= Qabs q)%Q /\ (Qabs q < pow10 (magnitude q))%Q.
Proof.
  intros Hq. unfold magnitude.
  set (n := Z.abs (Qnum q)). set (d := Z.pos (Qden q)).
  assert (Hn : 0 < n) by (subst n; lia). assert (Hd : 0 < d) by (subst d; lia).
  pose proof (below_pow10 n Hn) as Hbn. pose proof (below_pow10 d Hd) as Hbd.
  pose proof (Z.log2_nonneg n) as Hln. pose proof (Z.log2_nonneg d) as Hld.
  set (sn := Z.log2 n + 1) in *. set (sd := Z.log2 d + 1) in *.
  assert (Ha : (Qabs q == inject_Z n / inject_Z d)%Q) by apply Qabs_num_den.
  apply magnitudeFrom_spec.
  - replace (1 - sd - 1) with (- sd) by lia.
    rewrite Ha. unfold pow10. rewrite Qpower_opp. fold (pow10 sd).
    rewrite pow10_Z by lia. rewrite inv_frac.
    apply frac_le; nia.
  - rewrite Z2Nat.id by lia. replace (1 - sd + (sn + sd)) with (sn + 1) by lia.
    rewrite Ha. rewrite pow10_Z by lia. rewrite (over_one (10 ^ (sn + 1))).
    assert (10 ^ sn < 10 ^ (sn + 1)) by (apply Z.pow_lt_mono_r; lia).
    apply frac_lt; nia.
Qed.

Lemma pow10_nonzero (e : Z) : ~ (pow10 e == 0)%Q.
Proof. pose proof (pow10_pos e). lra. Qed.

Lemma pow10_sub (a b : Z) : (pow10 a / pow10 b == pow10 (a - b))%Q.
Proof.
  pose proof (pow10_add (a - b) b) as H. replace (a - b + b) with a in H by lia.
  rewrite H. field. apply pow10_nonzero.
Qed.

Lemma scaled_bounds (q : Q) :
  Qnum q <> 0 ->
  let scaled := (Qabs q / pow10 (magnitude q - PRECISION))%Q in
  (inject_Z (10 ^ 33) <= scaled)%Q /\ (scaled < inject_Z (10 ^ 34))%Q.
Proof.
  intros Hq. cbv zeta. destruct (magnitude_spec q Hq) as [Hlo Hhi].
  set (g := magnitude q) in *. set (e := g - PRECISION).
  pose proof (pow10_pos e) as He.
  rewrite <- (pow10_Z 33), <- (pow10_Z 34) by lia.
  pose proof (pow10_add 33 e) as H33. pose proof (pow10_add 34 e) as H34.
  replace (33 + e) with (g - 1) in H33 by (unfold e, PRECISION; lia).
  replace (34 + e) with g in H34 by (unfold e, PRECISION; lia).
  split.
  - apply Qle_shift_div_l; [exact He|]. rewrite <- H33. exact Hlo.
  - apply Qlt_shift_div_r; [exact He|]. rewrite <- H34. exact Hhi.
Qed.

Lemma floor_half (k : Z) : Qfloor (inject_Z k + (1 # 2)) = k.
Proof.
  unfold Qfloor, Qplus, inject_Z. simpl.
  symmetry. apply (Z.div_unique _ _ _ 1); lia.
Qed.

(** Every rounding keeps an integer and moves to one of the two integers
    around its argument. *)
Lemma roundInt_integer (mode : Rounding) (x : Q) (k : Z) :
  (x == inject_Z k)%Q -> roundInt mode x = k.
Proof.
  intros Hx. destruct mode; unfold roundInt.
  - rewrite (Qfloor_comp _ (inject_Z k + (1 # 2))%Q) by (rewrite Hx; reflexivity).
    apply floor_half.
  - rewrite (Qfloor_comp _ _ Hx), Qfloor_Z.
    assert (E : (x - inject_Z k ?= 1 # 2)%Q = Lt).
    { assert (E0 : (x - inject_Z k == 0)%Q) by (rewrite Hx; ring).
      rewrite E0. reflexivity. }
    now rewrite E.
  - rewrite (Qfloor_comp _ _ Hx). apply Qfloor_Z.
  - rewrite (Qceiling_comp _ _ Hx). apply Qceiling_Z.
Qed.

Lemma roundInt_bounds (mode : Rounding) (x : Q) :
  Qfloor x <= roundInt mode x <= Qfloor x + 1.
Proof.
  pose proof (Qfloor_le x) as Hf1. pose proof (Qlt_floor x) as Hf2.
  rewrite inject_Z_plus in Hf2. change (inject_Z 1) with 1%Q in Hf2.
  destruct mode; unfold roundInt.
  - pose proof (Qfloor_le (x + (1 # 2))) as Hg1.
    pose proof (Qlt_floor (x + (1 # 2))) as Hg2.
    rewrite inject_Z_plus in Hg2. change (inject_Z 1) with 1%Q in Hg2.
    split.
    + apply Qfloor_resp_le. lra.
    + assert (H : (inject_Z (Qfloor (x + (1 # 2))) < inject_Z (Qfloor x + 2))%Q).
      { rewrite inject_Z_plus. change (inject_Z 2) with 2%Q. lra. }
      rewrite <- Zlt_Qlt in H. lia.
  - destruct (x - inject_Z (Qfloor x) ?= 1 # 2)%Q; [destruct (Z.even (Qfloor x))| |];
      lia.
  - lia.
  - pose proof (Qle_floor_ceiling x) as Hc1. rewrite <- Zle_Qle in Hc1.
    pose proof (Qceiling_lt x) as Hc2.
    assert (H : (inject_Z (Qceiling x - 1) < inject_Z (Qfloor x + 1))%Q).
    { rewrite (inject_Z_plus (Qfloor x)). change (inject_Z 1) with 1%Q. lra. }
    rewrite <- Zlt_Qlt in H. lia.
Qed.

Lemma Qnum_pos (q : Q) : (0 < q)%Q <-> 0 < Qnum q.
Proof. unfold Qlt. simpl. lia. Qed.

Lemma Qnum_neg (q : Q) : (q < 0)%Q <-> Qnum q < 0.
Proof. unfold Qlt. simpl. lia. Qed.

Lemma Qnum_zero (q : Q) : (q == 0)%Q <-> Qnum q = 0.
Proof. unfold Qeq. simpl. lia. Qed.

Lemma Qabs_inject (z : Z) : Qabs (inject_Z z) = inject_Z (Z.abs z).
Proof. reflexivity. Qed.

(** The sign and the absolute value of a decimal number. *)
Lemma dec_sign (q : Q) (m e : Z) :
  (q == inject_Z m * pow10 e)%Q -> Z.sgn (Qnum q) = Z.sgn m.
Proof.
  intros Hq. pose proof (pow10_pos e) as He.
  destruct (Z.lt_trichotomy m 0) as [Hm | [Hm | Hm]].
  - assert (H : (q < 0)%Q).
    { rewrite Hq. assert (inject_Z m < 0)%Q by (apply Qnum_neg; exact Hm). nra. }
    apply Qnum_neg in H. lia.
  - subst m. assert (H : (q == 0)%Q) by (rewrite Hq; ring).
    apply Qnum_zero in H. rewrite H. reflexivity.
  - assert (H : (0 < q)%Q).
    { rewrite Hq. assert (0 < inject_Z m)%Q by (apply Qnum_pos; exact Hm). nra. }
    apply Qnum_pos in H. lia.
Qed.

Lemma dec_abs (q : Q) (m e : Z) :
  (q == inject_Z m * pow10 e)%Q -> (Qabs q == inject_Z (Z.abs m) * pow10 e)%Q.
Proof.
  intros Hq. rewrite Hq, Qabs_Qmult, Qabs_inject.
  rewrite (Qabs_pos (pow10 e)); [reflexivity|]. apply Qlt_le_weak, pow10_pos.
Qed.

Lemma roundQ_short (mode : Rounding) (q : Q) (m e : Z) :
  (q == inject_Z m * pow10 e)%Q -> Z.abs m < 10 ^ PRECISION ->
  (roundQ mode q == q)%Q.
Proof.
  intros Hq Hm. unfold roundQ.
  destruct (Z.eqb_spec (Qnum q) 0) as [Hz | Hnz]; [reflexivity|].
  destruct (scaled_bounds q Hnz) as [Hlo _]. cbv zeta in Hlo.
  set (e1 := magnitude q - PRECISION) in *.
  assert (Hs : (Qabs q / pow10 e1 == inject_Z (Z.abs m) * pow10 (e - e1))%Q).
  { rewrite (dec_abs q m e Hq), <- pow10_sub. field. apply pow10_nonzero. }
  assert (He : 0 <= e - e1).
  { destruct (Z.le_gt_cases 0 (e - e1)) as [H | H]; [exact H|]. exfalso.
    pose proof (pow10_le (e - e1) (-1) ltac:(lia)) as Hp.
    change (pow10 (-1)) with (1 # 10)%Q in Hp.
    pose proof (pow10_pos (e - e1)) as Hp0.
    rewrite Hs in Hlo.
    assert (Hb : (inject_Z (Z.abs m) < inject_Z (10 ^ 34))%Q)
      by (rewrite <- Zlt_Qlt; exact Hm).
    assert (Hb0 : (0 <= inject_Z (Z.abs m))%Q).
    { change 0%Q with (inject_Z 0). rewrite <- Zle_Qle. lia. }
    pose proof (Qmult_le_compat_r _ _ _ Hp Hb0) as Hprod.
    let c := eval vm_compute in (inject_Z (10 ^ 33)) in
    change (inject_Z (10 ^ 33)) with c in Hlo.
    let c := eval vm_compute in (inject_Z (10 ^ 34)) in
    change (inject_Z (10 ^ 34)) with c in Hb.
    lra. }
  rewrite (pow10_Z (e - e1) He), <- inject_Z_mult in Hs.
  rewrite (roundInt_integer mode _ _ Hs), (dec_sign q m e Hq).
  replace (Z.sgn m * (Z.abs m * 10 ^ (e - e1))) with (m * 10 ^ (e - e1)) by nia.
  rewrite inject_Z_mult, <- (pow10_Z (e - e1) He), Hq.
  rewrite <- Qmult_assoc, <- pow10_add. replace (e - e1 + e1) with e by lia.
  reflexivity.
Qed.

(** The rounded mantissa has 34 digits, or is [10^34]. *)
Lemma mantissa_bounds (mode : Rounding) (q : Q) :
  Qnum q <> 0 ->
  let scaled := (Qabs q / pow10 (magnitude q - PRECISION))%Q in
  10 ^ 33 <= roundInt mode scaled <= 10 ^ 34
  /\ (inject_Z (roundInt mode scaled) - scaled <= 1)%Q
  /\ (scaled - inject_Z (roundInt mode scaled) <= 1)%Q.
Proof.
  intros Hnz. cbv zeta. destruct (scaled_bounds q Hnz) as [Hlo Hhi]. cbv zeta in Hlo, Hhi.
  set (x := (Qabs q / pow10 (magnitude q - PRECISION))%Q) in *.
  pose proof (roundInt_bounds mode x) as [Hb1 Hb2].
  pose proof (Qfloor_le x) as Hf1. pose proof (Qlt_floor x) as Hf2.
  rewrite inject_Z_plus in Hf2. change (inject_Z 1) with 1%Q in Hf2.
  assert (H33 : 10 ^ 33 <= Qfloor x).
  { rewrite <- (Qfloor_Z (10 ^ 33)). apply Qfloor_resp_le. exact Hlo. }
  assert (H34 : Qfloor x < 10 ^ 34).
  { rewrite Zlt_Qlt. eapply Qle_lt_trans; eassumption. }
  split; [lia|].
  assert (H1 : (inject_Z (Qfloor x) <= inject_Z (roundInt mode x))%Q)
    by (rewrite <- Zle_Qle; exact Hb1).
  assert (H2 : (inject_Z (roundInt mode x) <= inject_Z (Qfloor x + 1))%Q)
    by (rewrite <- Zle_Qle; exact Hb2).
  rewrite inject_Z_plus in H2. change (inject_Z 1) with 1%Q in H2.
  split; lra.
Qed.

Lemma roundQ_range (mode : Rounding) (q : Q) :
  exists m e : Z,
    Z.abs m < 10 ^ PRECISION /\ (roundQ mode q == inject_Z m * pow10 e)%Q.
Proof.
  unfold roundQ. destruct (Z.eqb_spec (Qnum q) 0) as [Hz | Hnz].
  - exists 0, 0. split; [reflexivity|]. apply Qnum_zero in Hz. rewrite Hz. ring.
  - destruct (mantissa_bounds mode q Hnz) as [HF _]. cbv zeta in HF.
    set (e1 := magnitude q - PRECISION) in *.
    set (F := roundInt mode (Qabs q / pow10 e1)) in *.
    destruct (Z.eq_dec F (10 ^ 34)) as [Heq | Hne].
    + exists (Z.sgn (Qnum q)), (34 + e1). split.
      * unfold PRECISION. pose proof (Z.sgn_spec (Qnum q)).
        assert (1 < 10 ^ 34) by reflexivity. lia.
      * rewrite Heq, inject_Z_mult, pow10_add, (pow10_Z 34) by lia. ring.
    + exists (Z.sgn (Qnum q) * F), e1. split; [|reflexivity].
      unfold PRECISION. pose proof (Z.sgn_spec (Qnum q)). nia.
Qed.

Lemma Qabs_sign (q : Q) : (q == inject_Z (Z.sgn (Qnum q)) * Qabs q)%Q.
Proof.
  destruct q as [[|n|n] d]; unfold Qeq, Qmult, Qabs, inject_Z; simpl; lia.
Qed.

(** Rounding moves a number by less than one unit of its last kept digit. *)
Lemma roundQ_near (mode : Rounding) (q : Q) :
  (Qabs (roundQ mode q - q) <= pow10 (1 - PRECISION) * Qabs q)%Q.
Proof.
  pose proof (pow10_pos (1 - PRECISION)) as Hu. pose proof (Qabs_nonneg q) as Ha.
  unfold roundQ. destruct (Z.eqb_spec (Qnum q) 0) as [Hz | Hnz].
  - assert (E : (q - q == 0)%Q) by ring. rewrite E. simpl.
    apply Qmult_le_0_compat; [apply Qlt_le_weak|]; assumption.
  - destruct (mantissa_bounds mode q Hnz) as (_ & Hd1 & Hd2).
    destruct (scaled_bounds q Hnz) as [Hlo _]. cbv zeta in Hd1, Hd2, Hlo.
    set (e1 := magnitude q - PRECISION) in *. pose proof (pow10_pos e1) as Hp.
    set (x := (Qabs q / pow10 e1)%Q) in *.
    set (F := inject_Z (roundInt mode x)) in *.
    assert (Hq : (Qabs q == x * pow10 e1)%Q).
    { unfold x. field. apply pow10_nonzero. }
    assert (Hx : (pow10 e1 <= pow10 (1 - PRECISION) * Qabs q)%Q).
    { rewrite Hq, Qmult_assoc.
      rewrite <- (pow10_Z 33) in Hlo by lia.
      assert (E : (pow10 (1 - PRECISION) * pow10 33 == 1)%Q).
      { rewrite <- pow10_add. reflexivity. }
      assert (H1 : (1 <= pow10 (1 - PRECISION) * x)%Q).
      { rewrite <- E. apply Qmult_le_l; assumption. }
      assert (H2 : (0 <= (pow10 (1 - PRECISION) * x - 1) * pow10 e1)%Q).
      { apply Qmult_le_0_compat; [lra | apply Qlt_le_weak; exact Hp]. }
      lra. }
    assert (Hdiff : (inject_Z (Z.sgn (Qnum q) * roundInt mode x) * pow10 e1 - q
                     == inject_Z (Z.sgn (Qnum q)) * ((F - x) * pow10 e1))%Q).
    { rewrite (Qabs_sign q) at 2. rewrite Hq, inject_Z_mult. unfold F. ring. }
    rewrite Hdiff, Qabs_Qmult, Qabs_Qmult, Qabs_inject.
    replace (Z.abs (Z.sgn (Qnum q))) with 1 by lia.
    rewrite (Qabs_pos (pow10 e1)) by (apply Qlt_le_weak; exact Hp).
    assert (Hone : (Qabs (F - x) <= 1)%Q).
    { apply Qabs_Qle_condition. split; lra. }
    assert (H3 : (0 <= (1 - Qabs (F - x)) * pow10 e1)%Q).
    { apply Qmult_le_0_compat; [lra | apply Qlt_le_weak; exact Hp]. }
    change (inject_Z 1) with 1%Q. lra.
Qed.

Lemma roundTo_short (mode : Rounding) (m e : Z) :
  Z.abs m < 10 ^ PRECISION -> roundTo mode (dec m e) = dec m e.
Proof.
  intros Hm. unfold roundTo, dec. apply Q2Qc_eq_iff.
  assert (H : (this (Q2Qc (inject_Z m * pow10 e)) == inject_Z m * pow10 e)%Q)
    by apply Qred_correct.
  rewrite (roundQ_short mode _ m e H Hm). exact H.
Qed.

Lemma roundTo_idem (mode : Rounding) (q : Qc) :
  roundTo mode (roundTo mode q) = roundTo mode q.
Proof.
  unfold roundTo. apply Q2Qc_eq_iff.
  destruct (roundQ_range mode q) as (m & e & Hm & Hq).
  assert (H : (this (Q2Qc (roundQ mode q)) == roundQ mode q)%Q) by apply Qred_correct.
  rewrite (roundQ_short mode _ m e (Qeq_trans _ _ _ H Hq) Hm). exact H.
Qed.

Lemma roundTo_near (mode : Rounding) (q : Qc) :
  (Qcabs (roundTo mode q - q) <= UNIT_ROUNDOFF * Qcabs q)%Qc.
Proof.
  unfold Qcle, UNIT_ROUNDOFF, dec, roundTo. simpl.
  rewrite !Qred_correct. rewrite Qmult_1_l.
  apply (roundQ_near mode q).
Qed.

Lemma UNIT_ROUNDOFF_nonneg : (0 <= UNIT_ROUNDOFF)%Qc.
Proof. unfold Qcle. vm_compute. discriminate. Qed.

#[export] Instance exact_host : HostNorm exact.
Proof.
  split; try reflexivity. intros q. unfold exact.
  replace (q - q)%Qc with 0%Qc by ring.
  replace (Qcabs 0) with 0%Qc by (apply Qc_is_canon; reflexivity).
  apply Qcmult_nonneg_nonneg; [apply UNIT_ROUNDOFF_nonneg | apply Qcabs_nonneg].
Qed.

#[export] Instance roundTo_host (mode : Rounding) : HostNorm (roundTo mode).
Proof.
  split; [exact (roundTo_short mode) | exact (roundTo_idem mode)
         | exact (roundTo_near mode)].
Qed.

#[export] Instance round34_host : HostNorm round34.
Proof. exact (roundTo_host HalfUp). Qed.
(** ** Accrual: guard and monotonicity *)

Section Accrual.

Variable norm : Qc -> Qc.

Lemma getOrCreateProtocol_exists (s : Store) :
  protocols (snd (getOrCreateProtocol s)) !! PROTOCOL_ID
  = Some (fst (getOrCreateProtocol s)).
Proof.
  unfold getOrCreateProtocol.
  destruct (protocols s !! PROTOCOL_ID) eqn:E; simpl; [exact E|].
  apply lookup_insert_eq.
Qed.

Lemma getOrCreateProtocol_stable (s : Store) (p : Protocol.t) :
  protocols s !! PROTOCOL_ID = Some p -> getOrCreateProtocol s = (p, s).
Proof. intros E. unfold getOrCreateProtocol. now rewrite E. Qed.

Lemma getOrCreateProtocol_again (s : Store) :
  getOrCreateProtocol (snd (getOrCreateProtocol s))
  = (fst (getOrCreateProtocol s), snd (getOrCreateProtocol s)).
Proof. apply getOrCreateProtocol_stable, getOrCreateProtocol_exists. Qed.

(** The accrual below its guard: nothing but the creation of the singleton. *)
Lemma accrue_guarded (market : Market.t) (timestamp : Z) (s : Store) :
  timestamp <= Market.lastRevenueCalculationTimestamp market ->
  calculateAndAccumulateRevenue norm market timestamp s
  = (market, snd (getOrCreateProtocol s)).
Proof.
  intros Hle. unfold calculateAndAccumulateRevenue.
  destruct (getOrCreateProtocol s) as [protocol s0]; simpl.
  destruct (Z.leb_spec timestamp (Market.lastRevenueCalculationTimestamp market));
    [reflexivity | lia].
Qed.

(** The accrual past its guard always stamps the market. *)
Lemma accrue_stamps (market : Market.t) (timestamp : Z) (s : Store) :
  Market.lastRevenueCalculationTimestamp market < timestamp ->
  fst (calculateAndAccumulateRevenue norm market timestamp s)
  = Market.set_lastRevenueCalculationTimestamp timestamp market.
Proof.
  intros Hlt. unfold calculateAndAccumulateRevenue.
  destruct (getOrCreateProtocol s) as [protocol s0].
  destruct (Z.leb_spec timestamp (Market.lastRevenueCalculationTimestamp market));
    [lia | reflexivity].
Qed.

Lemma accrue_protocol_exists (market : Market.t) (timestamp : Z) (s : Store) :
  is_Some (protocols (snd (calculateAndAccumulateRevenue norm market timestamp s))
             !! PROTOCOL_ID).
Proof.
  unfold calculateAndAccumulateRevenue.
  pose proof (getOrCreateProtocol_exists s) as Hex.
  destruct (getOrCreateProtocol s) as [protocol s0]; simpl in Hex.
  destruct (timestamp <=? Market.lastRevenueCalculationTimestamp market); simpl.
  - eauto.
  - destruct (accrualComputes norm market s0); simpl; [|eauto].
    rewrite lookup_insert. case_decide; eauto.
Qed.

Lemma accrue_monotone (market : Market.t) (timestamp : Z) (s : Store) :
  Market.lastRevenueCalculationTimestamp market
  <= Market.lastRevenueCalculationTimestamp
       (fst (calculateAndAccumulateRevenue norm market timestamp s)).
Proof.
  destruct (Z.le_gt_cases timestamp (Market.lastRevenueCalculationTimestamp market))
    as [Hle | Hlt].
  - rewrite accrue_guarded by exact Hle. simpl. lia.
  - rewrite accrue_stamps by exact Hlt. simpl. lia.
Qed.

(** C2. Below its guard ([timestamp <= lastRevenueCalculationTimestamp]) the
    accrual returns at once: the market object is returned as it was, the
    store is the one [getOrCreateProtocol] leaves, so that no market or
    token is written, the revenue counters of the protocol are what they
    were, and a store that already holds the singleton is returned
    unchanged.  Hence a second accrual with the same timestamp changes
    neither the market nor the store. *)
Theorem accrual_guard_noop (market : Market.t) (timestamp : Z) (s : Store) :
  (timestamp <= Market.lastRevenueCalculationTimestamp market ->
   let ms := calculateAndAccumulateRevenue norm market timestamp s in
   fst ms = market
   /\ snd ms = snd (getOrCreateProtocol s)
   /\ markets (snd ms) = markets s
   /\ tokens (snd ms) = tokens s
   /\ revenueCounters (snd ms) = revenueCounters s
   /\ (is_Some (protocols s !! PROTOCOL_ID) -> snd ms = s))
  /\ (let ms := calculateAndAccumulateRevenue norm market timestamp s in
      calculateAndAccumulateRevenue norm (fst ms) timestamp (snd ms) = ms).
Proof.
  split.
  - intros Hle. cbv zeta. rewrite accrue_guarded by exact Hle. simpl.
    split; [reflexivity|]. split; [reflexivity|].
    unfold revenueCounters. rewrite getOrCreateProtocol_again. simpl.
    unfold getOrCreateProtocol.
    destruct (protocols s !! PROTOCOL_ID) as [p|] eqn:E; simpl.
    + repeat split; reflexivity.
    + repeat split; try reflexivity. intros [x Hx]. discriminate.
  - cbv zeta.
    destruct (calculateAndAccumulateRevenue norm market timestamp s) as [m1 s1] eqn:E.
    simpl.
    assert (Hle : timestamp <= Market.lastRevenueCalculationTimestamp m1).
    { destruct (Z.le_gt_cases timestamp (Market.lastRevenueCalculationTimestamp market))
        as [Hle | Hlt].
      - rewrite accrue_guarded in E by exact Hle. injection E as <- _. exact Hle.
      - pose proof (accrue_stamps market timestamp s Hlt) as Hs.
        rewrite E in Hs. simpl in Hs. subst m1. simpl. lia. }
    rewrite accrue_guarded by exact Hle.
    pose proof (accrue_protocol_exists market timestamp s) as [p Hp].
    rewrite E in Hp. simpl in Hp.
    now rewrite (getOrCreateProtocol_stable s1 p Hp).
Qed.

End Accrual.

Lemma accrual_guard_noop_witness :
  1700000000 <= Market.lastRevenueCalculationTimestamp oneYearMarket
  /\ calculateAndAccumulateRevenue round34 oneYearMarket 1700000000
       (usdcStore oneYearMarket)
     = (oneYearMarket, usdcStore oneYearMarket).
Proof.
  assert (Hle : 1700000000 <= Market.lastRevenueCalculationTimestamp oneYearMarket)
    by (simpl; lia).
  split; [exact Hle|].
  destruct (accrual_guard_noop round34 oneYearMarket 1700000000
              (usdcStore oneYearMarket)) as [H _].
  destruct (H Hle) as (Hm & _ & _ & _ & _ & Hs). apply injective_projections.
  - exact Hm.
  - apply Hs. exists
      (Protocol.mk PROTOCOL_ID ZERO_BD ZERO_BD (Qc_of_Z 300) (Qc_of_Z 200) (Qc_of_Z 100)).
    reflexivity.
Defined.

(** ** What each operation leaves alone *)

Section Frames.

Variable norm : Qc -> Qc.

Lemma fold_left_invariant {A B : Type} (P : A -> Prop) (f : A -> B -> A)
    (l : list B) (a : A) :
  (forall a b, P a -> P (f a b)) -> P a -> P (fold_left f l a).
Proof.
  intros Hf. revert a. induction l as [|b l IH]; simpl; intros a Ha; [exact Ha|].
  apply IH, Hf, Ha.
Qed.

Lemma getOrCreateToken_frame (c : Chain) (address : Address) (s : Store) :
  let s' := snd (getOrCreateToken norm c address s) in
  protocols s' = protocols s /\ markets s' = markets s /\ users s' = users s
  /\ userPositions s' = userPositions s /\ dailySnapshots s' = dailySnapshots s
  /\ dailyActiveUsers s' = dailyActiveUsers s.
Proof.
  unfold getOrCreateToken. destruct (tokens s !! getTokenId address); simpl; tauto.
Qed.

Lemma getOrCreateMarket_frame (c : Chain) (asset : Address) (t : Z) (s : Store) :
  let s' := snd (getOrCreateMarket norm c asset t s) in
  protocols s' = protocols s /\ users s' = users s
  /\ userPositions s' = userPositions s /\ dailySnapshots s' = dailySnapshots s
  /\ dailyActiveUsers s' = dailyActiveUsers s.
Proof.
  unfold getOrCreateMarket. destruct (markets s !! getTokenId asset); simpl; [tauto|].
  pose proof (getOrCreateToken_frame c asset s) as H1.
  destruct (getOrCreateToken norm c asset s) as [t1 s1]; simpl in H1.
  match goal with |- context [getOrCreateToken norm c ?a s1] =>
    pose proof (getOrCreateToken_frame c a s1) as H2;
    destruct (getOrCreateToken norm c a s1) as [t2 s2] end.
  simpl in *. intuition congruence.
Qed.

Lemma getOrCreateUser_frame (address : Address) (s : Store) :
  let s' := snd (getOrCreateUser address s) in
  protocols s' = protocols s /\ markets s' = markets s /\ tokens s' = tokens s
  /\ userPositions s' = userPositions s /\ dailySnapshots s' = dailySnapshots s
  /\ dailyActiveUsers s' = dailyActiveUsers s.
Proof.
  unfold getOrCreateUser. destruct (users s !! getTokenId address); simpl; tauto.
Qed.

Lemma getOrCreateUserPosition_frame (user : User.t) (market : Market.t) (s : Store) :
  let s' := snd (getOrCreateUserPosition user market s) in
  protocols s' = protocols s /\ markets s' = markets s /\ tokens s' = tokens s
  /\ users s' = users s /\ dailySnapshots s' = dailySnapshots s
  /\ dailyActiveUsers s' = dailyActiveUsers s.
Proof.
  unfold getOrCreateUserPosition.
  destruct (userPositions s !! _); simpl; tauto.
Qed.

Lemma getOrCreateProtocol_frame (s : Store) :
  let s' := snd (getOrCreateProtocol s) in
  markets s' = markets s /\ tokens s' = tokens s /\ users s' = users s
  /\ userPositions s' = userPositions s /\ dailySnapshots s' = dailySnapshots s
  /\ dailyActiveUsers s' = dailyActiveUsers s.
Proof.
  unfold getOrCreateProtocol. destruct (protocols s !! PROTOCOL_ID); simpl; tauto.
Qed.

Lemma calculateAndAccumulateRevenue_frame (market : Market.t) (t : Z) (s : Store) :
  let s' := snd (calculateAndAccumulateRevenue norm market t s) in
  tokens s' = tokens s /\ users s' = users s
  /\ userPositions s' = userPositions s /\ dailySnapshots s' = dailySnapshots s
  /\ dailyActiveUsers s' = dailyActiveUsers s.
Proof.
  unfold calculateAndAccumulateRevenue.
  pose proof (getOrCreateProtocol_frame s) as H0.
  destruct (getOrCreateProtocol s) as [protocol s0]; simpl in H0.
  destruct (t <=? Market.lastRevenueCalculationTimestamp market); simpl; [tauto|].
  destruct (accrualComputes norm market s0); simpl; tauto.
Qed.

Lemma recalculateUserTotals_frame (c : Chain) (user : User.t) (s : Store) :
  let s' := snd (recalculateUserTotals norm c user s) in
  protocols s' = protocols s /\ markets s' = markets s /\ tokens s' = tokens s
  /\ userPositions s' = userPositions s /\ dailySnapshots s' = dailySnapshots s
  /\ dailyActiveUsers s' = dailyActiveUsers s.
Proof.
  unfold recalculateUserTotals.
  destruct (match try_getReservesList c with Some _ => _ | None => _ end) as [a b].
  simpl. tauto.
Qed.

Lemma protocolTotalsLoop_frame (c : Chain) (reserves : list Address) (acc : Qc * Qc * Store) :
  let s := snd acc in
  let s' := snd (fold_left (protocolTotalsStep norm c) reserves acc) in
  protocols s' = protocols s /\ markets s' = markets s /\ users s' = users s
  /\ userPositions s' = userPositions s /\ dailySnapshots s' = dailySnapshots s
  /\ dailyActiveUsers s' = dailyActiveUsers s.
Proof.
  cbv zeta.
  apply (fold_left_invariant
           (fun a => protocols (snd a) = protocols (snd acc)
                     /\ markets (snd a) = markets (snd acc)
                     /\ users (snd a) = users (snd acc)
                     /\ userPositions (snd a) = userPositions (snd acc)
                     /\ dailySnapshots (snd a) = dailySnapshots (snd acc)
                     /\ dailyActiveUsers (snd a) = dailyActiveUsers (snd acc)));
    [|tauto].
  intros [[x y] s] r H. unfold protocolTotalsStep.
  destruct (markets s !! toLowerCase r) as [m|]; [|exact H].
  destruct (tokens s !! Market.inputToken m); [|exact H].
  simpl in *. exact H.
Qed.

Lemma recalculateProtocolTotals_frame (c : Chain) (s : Store) :
  let s' := recalculateProtocolTotals norm c s in
  markets s' = markets s /\ users s' = users s
  /\ userPositions s' = userPositions s /\ dailySnapshots s' = dailySnapshots s
  /\ dailyActiveUsers s' = dailyActiveUsers s.
Proof.
  unfold recalculateProtocolTotals.
  pose proof (getOrCreateProtocol_frame s) as H0.
  destruct (getOrCreateProtocol s) as [protocol s0]; simpl in H0.
  destruct (try_getReservesList c) as [reserves|]; simpl; [|tauto].
  pose proof (protocolTotalsLoop_frame c reserves (ZERO_BD, ZERO_BD, s0)) as H1.
  destruct (fold_left _ reserves _) as [[x y] s1]. simpl in *. intuition congruence.
Qed.

Lemma updateHourlySnapshot_frame (market : Market.t) (event : Event) (type : string)
    (volume : Z) (s : Store) :
  let s' := snd (updateHourlySnapshot market event type volume s) in
  protocols s' = protocols s /\ markets s' = markets s /\ tokens s' = tokens s
  /\ users s' = users s /\ userPositions s' = userPositions s
  /\ dailySnapshots s' = dailySnapshots s /\ dailyActiveUsers s' = dailyActiveUsers s.
Proof. unfold updateHourlySnapshot. simpl. tauto. Qed.

Lemma updateDailySnapshot_frame (market : Market.t) (event : Event) (type : string)
    (volume : Z) (amountUSD : Qc) (userId : string) (s : Store) :
  let s' := snd (updateDailySnapshot norm market event type volume amountUSD userId s) in
  protocols s' = protocols s /\ markets s' = markets s /\ tokens s' = tokens s
  /\ users s' = users s /\ userPositions s' = userPositions s.
Proof.
  unfold updateDailySnapshot.
  destruct (dailyActiveUsers s !! _); simpl; tauto.
Qed.

End Frames.

(** ** The revenue fields of the protocol singleton *)

Section RevenueFields.

Variable norm : Qc -> Qc.
Context `{!HostNorm norm}.

Lemma Qc_of_Z_zero : Qc_of_Z 0 = 0%Qc.
Proof. apply Qc_is_canon. reflexivity. Qed.

Lemma dec_zero (e : Z) : dec 0 e = Qc_of_Z 0.
Proof. unfold dec. apply Qc_is_canon. simpl. rewrite Qred_correct. ring. Qed.

Lemma norm_zero : norm (Qc_of_Z 0) = Qc_of_Z 0.
Proof. rewrite <- (dec_zero 0). apply norm_short. reflexivity. Qed.

Lemma bd_plus_zero : bd_plus norm ZERO_BD ZERO_BD = ZERO_BD.
Proof.
  unfold bd_plus, ZERO_BD.
  replace (Qc_of_Z 0 + Qc_of_Z 0)%Qc with (Qc_of_Z 0) by (apply Qc_is_canon; reflexivity).
  apply norm_zero.
Qed.

Lemma RevenueInvariant_ext (s s' : Store) :
  protocols s' = protocols s -> RevenueInvariant norm s -> RevenueInvariant norm s'.
Proof. unfold RevenueInvariant. intros ->. auto. Qed.

Lemma RevenueInvariant_save (protocol : Protocol.t) (s : Store) :
  revenueConsistent norm protocol -> RevenueInvariant norm s ->
  RevenueInvariant norm (save_Protocol protocol s).
Proof.
  intros Hp Hs k q. simpl. rewrite lookup_insert. case_decide.
  - intros [= <-]. exact Hp.
  - apply Hs.
Qed.

Lemma getOrCreateProtocol_invariant (s : Store) :
  RevenueInvariant norm s ->
  revenueConsistent norm (fst (getOrCreateProtocol s))
  /\ RevenueInvariant norm (snd (getOrCreateProtocol s)).
Proof.
  intros Hs. unfold getOrCreateProtocol.
  destruct (protocols s !! PROTOCOL_ID) as [p|] eqn:E; simpl.
  - split; [exact (Hs _ _ E) | exact Hs].
  - assert (Hnew : revenueConsistent norm
                     (Protocol.mk PROTOCOL_ID ZERO_BD ZERO_BD ZERO_BD ZERO_BD ZERO_BD)).
    { unfold revenueConsistent. simpl. symmetry. apply bd_plus_zero. }
    split; [exact Hnew | apply RevenueInvariant_save; assumption].
Qed.

Lemma accrue_invariant (market : Market.t) (timestamp : Z) (s : Store) :
  RevenueInvariant norm s ->
  RevenueInvariant norm (snd (calculateAndAccumulateRevenue norm market timestamp s)).
Proof.
  intros Hs. unfold calculateAndAccumulateRevenue.
  destruct (getOrCreateProtocol_invariant s Hs) as [Hp H0].
  destruct (getOrCreateProtocol s) as [protocol s0]; simpl in Hp, H0.
  destruct (timestamp <=? Market.lastRevenueCalculationTimestamp market); simpl;
    [exact H0|].
  eapply RevenueInvariant_ext; [reflexivity|].
  destruct (accrualComputes norm market s0); [|exact H0].
  apply RevenueInvariant_save; [|exact H0].
  unfold revenueConsistent. reflexivity.
Qed.

Lemma recalculateProtocolTotals_invariant (c : Chain) (s : Store) :
  RevenueInvariant norm s -> RevenueInvariant norm (recalculateProtocolTotals norm c s).
Proof.
  intros Hs. unfold recalculateProtocolTotals.
  destruct (getOrCreateProtocol_invariant s Hs) as [Hp H0].
  destruct (getOrCreateProtocol s) as [protocol s0]; simpl in Hp, H0.
  assert (Hloop : forall x y s1, protocols s1 = protocols s0 ->
            RevenueInvariant norm
              (save_Protocol
                 (Protocol.set_totalBorrowUSD y (Protocol.set_totalSupplyUSD x protocol))
                 s1)).
  { intros x y s1 E. apply RevenueInvariant_save.
    - exact Hp.
    - eapply RevenueInvariant_ext; eassumption. }
  destruct (try_getReservesList c) as [reserves|]; [|apply Hloop; reflexivity].
  pose proof (protocolTotalsLoop_frame norm c reserves (ZERO_BD, ZERO_BD, s0)) as H1.
  destruct (fold_left _ reserves _) as [[x y] s1]. simpl in H1.
  apply Hloop. tauto.
Qed.

Lemma getOrCreateMarket_invariant (c : Chain) (asset : Address) (t : Z) (s : Store) :
  RevenueInvariant norm s ->
  RevenueInvariant norm (snd (getOrCreateMarket norm c asset t s)).
Proof.
  apply RevenueInvariant_ext. apply (getOrCreateMarket_frame norm c asset t s).
Qed.

Lemma openEvent_invariant (c : Chain) (event : Event) (s : Store) :
  RevenueInvariant norm s -> RevenueInvariant norm (snd (openEvent norm c event s)).
Proof.
  intros Hs. unfold openEvent.
  pose proof (getOrCreateMarket_invariant c (reserve event)
                (blockTimestamp (eventBlock event)) s Hs) as H1.
  destruct (getOrCreateMarket norm c _ _ s) as [market s1]; simpl in H1.
  pose proof (getOrCreateUser_frame (account event) s1) as H2.
  destruct (getOrCreateUser (account event) s1) as [user s2]; simpl in H2.
  pose proof (getOrCreateUserPosition_frame user market s2) as H3.
  destruct (getOrCreateUserPosition user market s2) as [position s3]; simpl in H3.
  assert (Hs3 : RevenueInvariant norm s3).
  { eapply RevenueInvariant_ext; [|exact H1]. intuition congruence. }
  pose proof (accrue_invariant market (blockTimestamp (eventBlock event)) s3 Hs3) as H4.
  destruct (calculateAndAccumulateRevenue norm market _ s3) as [market' s4].
  exact H4.
Qed.

Lemma settleEvent_invariant (c : Chain) (event : Event) (type : string)
    (user : User.t) (market : Market.t) (s : Store) :
  RevenueInvariant norm s ->
  RevenueInvariant norm (settleEvent norm c event type user market s).
Proof.
  intros Hs. unfold settleEvent.
  match goal with |- context [recalculateUserTotals norm c ?u ?s0] =>
    pose proof (recalculateUserTotals_frame norm c u s0) as H1;
    destruct (recalculateUserTotals norm c u s0) as [user1 s1] end.
  simpl in H1.
  assert (Hs1 : RevenueInvariant norm s1).
  { eapply RevenueInvariant_ext; [|exact Hs]. destruct H1 as [-> _]. reflexivity. }
  pose proof (recalculateProtocolTotals_invariant c s1 Hs1) as H2.
  match goal with |- context [updateHourlySnapshot ?m ?e ?t ?v ?s0] =>
    pose proof (updateHourlySnapshot_frame m e t v s0) as H3;
    destruct (updateHourlySnapshot m e t v s0) as [h s3] end.
  simpl in H3.
  match goal with |- context [updateDailySnapshot norm ?m ?e ?t ?v ?a ?u ?s0] =>
    pose proof (updateDailySnapshot_frame norm m e t v a u s0) as H4;
    destruct (updateDailySnapshot norm m e t v a u s0) as [d s4] end.
  simpl in H4.
  eapply RevenueInvariant_ext; [|exact H2]. intuition congruence.
Qed.

Lemma processMarketInBlock_invariant (c : Chain) (market : Market.t) (block : Block)
    (s : Store) :
  RevenueInvariant norm s ->
  RevenueInvariant norm (processMarketInBlock norm c market block s).
Proof.
  intros Hs. unfold processMarketInBlock.
  match goal with |- context [calculateAndAccumulateRevenue norm ?m ?t ?s0] =>
    assert (H0 : RevenueInvariant norm s0)
      by (destruct (tokens s !! _); [eapply RevenueInvariant_ext; [|exact Hs]|]; done);
    pose proof (accrue_invariant m t s0 H0) as H1;
    destruct (calculateAndAccumulateRevenue norm m t s0) as [m1 s1] end.
  simpl in H1. eapply RevenueInvariant_ext; [|exact H1]. reflexivity.
Qed.

Lemma handle_invariant (trigger : Trigger) (s : Store) :
  RevenueInvariant norm s -> RevenueInvariant norm (handle norm trigger s).
Proof.
  intros Hs.
  assert (Hposition : forall c event type position s0 market user,
            RevenueInvariant norm s0 ->
            RevenueInvariant norm
              (settleEvent norm c event type user market (save_UserPosition position s0))).
  { intros. apply settleEvent_invariant. eapply RevenueInvariant_ext; [|eassumption].
    reflexivity. }
  destruct trigger as [c event|c event|c event|c event|c event|c block]; simpl.
  1-4: unfold handleSupply, handleWithdraw, handleBorrow, handleRepay;
       pose proof (openEvent_invariant c event s Hs) as H1;
       destruct (openEvent norm c event s) as [[[market user] position] s1];
       apply Hposition; exact H1.
  - unfold handleReserveDataUpdated.
    pose proof (getOrCreateMarket_invariant c (rateReserve event)
                  (blockTimestamp (rateBlock event)) s Hs) as H1.
    destruct (getOrCreateMarket norm c _ _ s) as [market s1]; simpl in H1.
    pose proof (accrue_invariant market (blockTimestamp (rateBlock event)) s1 H1) as H2.
    destruct (calculateAndAccumulateRevenue norm market _ s1) as [market' s2].
    simpl in H2. apply recalculateProtocolTotals_invariant.
    eapply RevenueInvariant_ext; [|exact H2]. reflexivity.
  - unfold handleBlock.
    destruct (getOrCreateProtocol_invariant s Hs) as [_ H0].
    destruct (getOrCreateProtocol s) as [protocol s0]; simpl in H0.
    destruct (try_getReservesList c) as [reserves|]; [|exact H0].
    apply recalculateProtocolTotals_invariant.
    apply fold_left_invariant; [|exact H0].
    intros a r Ha. unfold handleBlockStep.
    destruct (markets a !! toLowerCase r) as [m|].
    + apply processMarketInBlock_invariant, Ha.
    + pose proof (getOrCreateMarket_invariant c r (blockTimestamp block) a Ha) as H1.
      destruct (getOrCreateMarket norm c r _ a) as [m s1].
      apply processMarketInBlock_invariant, H1.
Qed.

Lemma RevenueInvariant_empty : RevenueInvariant norm emptyStore.
Proof. intros k p. simpl. rewrite lookup_empty. discriminate. Qed.

End RevenueFields.

(** C1. On a store whose protocol records have
    [totalRevenueUSD = cumulativeSupplySideRevenueUSD + cumulativeProtocolSideRevenueUSD]
    (the sum taken by the host), each of the three operations that write the
    singleton keeps it so: its creation in [getOrCreateProtocol] (which also
    hands out a record that satisfies it), the accumulation in
    [calculateAndAccumulateRevenue] and the recomputation in
    [recalculateProtocolTotals].  So does every handler, and so the equality
    holds in every store the indexer reaches from the empty one. *)
Theorem protocol_revenue_total_is_sum (norm : Qc -> Qc) (H : HostNorm norm)
    (c : Chain) (s : Store) :
  RevenueInvariant norm s ->
  (revenueConsistent norm (fst (getOrCreateProtocol s))
   /\ RevenueInvariant norm (snd (getOrCreateProtocol s)))
  /\ (forall market timestamp,
         RevenueInvariant norm
           (snd (calculateAndAccumulateRevenue norm market timestamp s)))
  /\ RevenueInvariant norm (recalculateProtocolTotals norm c s)
  /\ (forall trigger, RevenueInvariant norm (handle norm trigger s))
  /\ (forall triggers, RevenueInvariant norm (run norm triggers emptyStore)).
Proof.
  intros Hs. repeat split.
  - apply getOrCreateProtocol_invariant; assumption.
  - apply getOrCreateProtocol_invariant; assumption.
  - intros. apply accrue_invariant; assumption.
  - apply recalculateProtocolTotals_invariant; assumption.
  - intros. apply handle_invariant; assumption.
  - intros triggers. unfold run. apply fold_left_invariant.
    + intros a b Ha. apply handle_invariant; assumption.
    + apply RevenueInvariant_empty.
Qed.

Lemma usdcStore_keyed (market : Market.t) :
  Keyed Protocol.id (protocols (usdcStore market)).
Proof.
  intros k e. simpl. rewrite lookup_insert. case_decide as Hk.
  - intros [= <-]. exact Hk.
  - rewrite lookup_empty. discriminate.
Qed.

Lemma usdcStore_invariant (market : Market.t) :
  RevenueInvariant round34 (usdcStore market).
Proof.
  intros k e. simpl. rewrite lookup_insert. case_decide as Hk.
  - intros [= <-]. apply Qc_is_canon. vm_compute. reflexivity.
  - rewrite lookup_empty. discriminate.
Qed.

Lemma protocol_revenue_total_is_sum_witness :
  RevenueInvariant round34 (usdcStore oneYearMarket)
  /\ RevenueInvariant round34
       (snd (calculateAndAccumulateRevenue round34 oneYearMarket 1731536000
               (usdcStore oneYearMarket)))
  /\ RevenueInvariant round34
       (handle round34
          (OnBlock baseChain (mkBlock 1731536000 20000000)) (usdcStore oneYearMarket)).
Proof.
  pose proof (usdcStore_invariant oneYearMarket) as Hs.
  destruct (protocol_revenue_total_is_sum round34 round34_host baseChain
              (usdcStore oneYearMarket) Hs) as (_ & Ha & _ & Hh & _).
  split; [exact Hs|]. split; [apply Ha | apply Hh].
Defined.

(** ** The revenue of one accrual *)

Section Split.

Variable norm : Qc -> Qc.
Context `{!HostNorm norm}.

Lemma norm_shortb (q : Qc) : shortb q = true -> norm q = q.
Proof.
  unfold shortb. destruct (decimalOf q) as [m e].
  intros [Hm Hq]%andb_prop. apply bool_decide_eq_true in Hq.
  rewrite Hq. apply norm_short. apply Z.ltb_lt, Hm.
Qed.

Lemma accrualComputes_tokens (market : Market.t) (s s' : Store) :
  tokens s' = tokens s -> accrualComputes norm market s' = accrualComputes norm market s.
Proof. intros E. unfold accrualComputes. now rewrite E. Qed.

(** Past the guard, with revenue to compute, the accrual writes the
    singleton with both counters advanced and the total recomputed. *)
Lemma accrue_accumulates (market : Market.t) (timestamp : Z) (s : Store)
    (token : Token.t) :
  Market.lastRevenueCalculationTimestamp market < timestamp ->
  accrualComputes norm market s = Some token ->
  Keyed Protocol.id (protocols s) ->
  let periodRevenue :=
    accrualPeriodRevenue norm market token
      (timestamp - Market.lastRevenueCalculationTimestamp market) in
  let protocolRevenue := accrualProtocolRevenue norm market periodRevenue in
  let supplySideRevenue := accrualSupplySideRevenue norm periodRevenue protocolRevenue in
  let '(supplySide, protocolSide, _) := revenueCounters s in
  revenueCounters (snd (calculateAndAccumulateRevenue norm market timestamp s))
  = (bd_plus norm supplySide supplySideRevenue,
     bd_plus norm protocolSide protocolRevenue,
     bd_plus norm (bd_plus norm supplySide supplySideRevenue)
       (bd_plus norm protocolSide protocolRevenue)).
Proof.
  intros Hlt Hc Hk. cbv zeta. unfold revenueCounters, calculateAndAccumulateRevenue.
  assert (Hid : Protocol.id (fst (getOrCreateProtocol s)) = PROTOCOL_ID).
  { unfold getOrCreateProtocol.
    destruct (protocols s !! PROTOCOL_ID) as [p|] eqn:E; simpl; [|reflexivity].
    exact (Hk _ _ E). }
  pose proof (getOrCreateProtocol_frame s) as H0.
  destruct (getOrCreateProtocol s) as [protocol s0]; simpl in H0, Hid. simpl fst.
  destruct (Z.leb_spec timestamp (Market.lastRevenueCalculationTimestamp market));
    [lia|].
  rewrite (accrualComputes_tokens market s s0) by tauto. rewrite Hc.
  unfold getOrCreateProtocol. simpl. rewrite Hid, lookup_insert_eq. reflexivity.
Qed.

(** Rewrites [norm q] to [q] wherever [q] is a closed number that passes
    [shortb]. *)
Ltac host_exact :=
  repeat match goal with
         | |- context [norm ?q] =>
             lazymatch q with context [norm _] => fail | _ => idtac end;
             rewrite (norm_shortb q) by (vm_compute; reflexivity)
         end.

Ltac qc_equal := apply Qc_is_canon; vm_compute; reflexivity.

Lemma exponentToBigDecimal_6 : exponentToBigDecimal norm 6 = Qc_of_Z 1000000.
Proof.
  unfold exponentToBigDecimal. change (Z.to_nat 6) with 6%nat.
  cbn [Nat.iter nat_rect]. unfold bd_times. host_exact. qc_equal.
Qed.

Section OneYear.

(** The market and token of the scenario: a borrow of 1,000,000 units of a
    token of 6 decimals, a borrow rate of 5% and a liquidity rate of 3% in
    ray, a reserve factor of 1000 basis points, a price of 1 USD. *)
Variables (market : Market.t) (token : Token.t).
Hypothesis H_totalBorrow : Market.totalBorrow market = 1000000 * 10 ^ 6.
Hypothesis H_variableBorrowRate : Market.variableBorrowRate market = 5 * 10 ^ 25.
Hypothesis H_liquidityRate : Market.liquidityRate market = 3 * 10 ^ 25.
Hypothesis H_reserveFactor : Market.reserveFactor market = 1000.
Hypothesis H_decimals : Token.decimals token = 6.
Hypothesis H_price : Token.lastPriceUSD token = Qc_of_Z 1.

Lemma oneYear_spread : accrualSpread norm market = Q2Qc (2 # 100).
Proof.
  unfold accrualSpread, rayToDecimal, bd_minus, bd_div, toBigDecimal.
  rewrite H_variableBorrowRate, H_liquidityRate. host_exact. qc_equal.
Qed.

Lemma oneYear_totalBorrowUSD :
  accrualTotalBorrowUSD norm market token = Qc_of_Z 1000000.
Proof.
  unfold accrualTotalBorrowUSD, convertTokenToDecimal, fromI32.
  rewrite H_totalBorrow, H_decimals, H_price, exponentToBigDecimal_6.
  change (6 =? ZERO_BI) with false. cbv iota.
  unfold bd_times, bd_div, toBigDecimal. host_exact. qc_equal.
Qed.

Lemma oneYear_periodRevenue :
  accrualPeriodRevenue norm market token 31536000 = Qc_of_Z 20000.
Proof.
  unfold accrualPeriodRevenue. rewrite oneYear_spread, oneYear_totalBorrowUSD.
  unfold bd_times, bd_div, toBigDecimal, SECONDS_PER_YEAR. host_exact. qc_equal.
Qed.

Lemma oneYear_protocolRevenue :
  accrualProtocolRevenue norm market (Qc_of_Z 20000) = Qc_of_Z 2000.
Proof.
  unfold accrualProtocolRevenue. rewrite H_reserveFactor.
  unfold bd_times, bd_div, toBigDecimal. host_exact. qc_equal.
Qed.

Lemma oneYear_supplySideRevenue :
  accrualSupplySideRevenue norm (Qc_of_Z 20000) (Qc_of_Z 2000) = Qc_of_Z 18000.
Proof. unfold accrualSupplySideRevenue, bd_minus. host_exact. qc_equal. Qed.

Lemma oneYear_computes (s : Store) :
  tokens s !! Market.inputToken market = Some token ->
  accrualComputes norm market s = Some token.
Proof.
  intros Ht. unfold accrualComputes.
  rewrite oneYear_spread, H_totalBorrow, H_variableBorrowRate, Ht.
  reflexivity.
Qed.

End OneYear.

(** A result of the host is not changed by normalising it again. *)
Lemma accrualPeriodRevenue_normal (market : Market.t) (token : Token.t) (elapsed : Z) :
  norm (accrualPeriodRevenue norm market token elapsed)
  = accrualPeriodRevenue norm market token elapsed.
Proof. unfold accrualPeriodRevenue, bd_div. apply norm_idem. Qed.

Lemma split_sums (market : Market.t) (periodRevenue : Qc) :
  norm periodRevenue = periodRevenue ->
  let protocolRevenue := accrualProtocolRevenue norm market periodRevenue in
  let supplySideRevenue := accrualSupplySideRevenue norm periodRevenue protocolRevenue in
  supplySideRevenue = (periodRevenue - protocolRevenue)%Qc ->
  bd_plus norm protocolRevenue supplySideRevenue = periodRevenue.
Proof.
  intros Hn. cbv zeta. intros ->. unfold bd_plus.
  match goal with |- norm ?x = _ => replace x with periodRevenue by ring end.
  exact Hn.
Qed.

Lemma split_reserveFactor_zero (market : Market.t) (periodRevenue : Qc) :
  norm periodRevenue = periodRevenue ->
  Market.reserveFactor market = 0 ->
  let protocolRevenue := accrualProtocolRevenue norm market periodRevenue in
  protocolRevenue = ZERO_BD
  /\ accrualSupplySideRevenue norm periodRevenue protocolRevenue = periodRevenue.
Proof.
  intros Hn Hrf. cbv zeta.
  assert (Hp : accrualProtocolRevenue norm market periodRevenue = ZERO_BD).
  { unfold accrualProtocolRevenue, bd_times, bd_div, toBigDecimal. rewrite Hrf.
    rewrite norm_zero by assumption.
    replace (Qc_of_Z 0 / Qc_of_Z 10000)%Qc with (Qc_of_Z 0) by qc_equal.
    rewrite norm_zero by assumption.
    replace (periodRevenue * Qc_of_Z 0)%Qc with (Qc_of_Z 0)
      by (rewrite Qc_of_Z_zero; ring).
    apply norm_zero; assumption. }
  split; [exact Hp|]. rewrite Hp.
  unfold accrualSupplySideRevenue, bd_minus, ZERO_BD.
  replace (periodRevenue - Qc_of_Z 0)%Qc with periodRevenue
    by (rewrite Qc_of_Z_zero; ring).
  exact Hn.
Qed.

(** The sum of the two parts is off the period revenue by the rounding of
    the subtraction and of the addition. *)
Lemma split_tolerance (market : Market.t) (periodRevenue : Qc) :
  let protocolRevenue := accrualProtocolRevenue norm market periodRevenue in
  let supplySideRevenue := accrualSupplySideRevenue norm periodRevenue protocolRevenue in
  (Qcabs (bd_plus norm protocolRevenue supplySideRevenue - periodRevenue)
   <= UNIT_ROUNDOFF
      * (Qcabs (periodRevenue - protocolRevenue)
         + Qcabs (protocolRevenue + supplySideRevenue)))%Qc.
Proof.
  cbv zeta. set (protocolRevenue := accrualProtocolRevenue norm market periodRevenue).
  unfold accrualSupplySideRevenue, bd_minus, bd_plus.
  set (a := (periodRevenue - protocolRevenue)%Qc).
  set (b := (protocolRevenue + norm a)%Qc).
  replace (norm b - periodRevenue)%Qc with ((norm b - b) + (norm a - a))%Qc
    by (unfold b, a; ring).
  eapply Qcle_trans; [apply Qcabs_triangle|].
  replace (UNIT_ROUNDOFF * (Qcabs a + Qcabs b))%Qc
    with (UNIT_ROUNDOFF * Qcabs b + UNIT_ROUNDOFF * Qcabs a)%Qc by ring.
  apply Qcplus_le_compat; apply norm_near.
Qed.

End Split.

(** C5. One year (31,536,000 seconds) on a market with a borrow of 1,000,000
    units of a 6-decimal token priced at 1 USD, a variable borrow rate of 5%
    and a liquidity rate of 3% in ray and a reserve factor of 1000 basis
    points: the accrual computes a spread of 0.02, a borrow of 1,000,000 USD,
    a period revenue of 20,000, of which 2,000 for the protocol and 18,000
    for the suppliers, and adds the two to the cumulative counters of the
    singleton, whose total becomes their sum. *)
Theorem one_year_accrual (norm : Qc -> Qc) (H : HostNorm norm)
    (market : Market.t) (token : Token.t) (timestamp : Z) (s : Store) :
  Market.totalBorrow market = 1000000 * 10 ^ 6 ->
  Market.variableBorrowRate market = 5 * 10 ^ 25 ->
  Market.liquidityRate market = 3 * 10 ^ 25 ->
  Market.reserveFactor market = 1000 ->
  tokens s !! Market.inputToken market = Some token ->
  Token.decimals token = 6 ->
  Token.lastPriceUSD token = Qc_of_Z 1 ->
  timestamp - Market.lastRevenueCalculationTimestamp market = 31536000 ->
  Keyed Protocol.id (protocols s) ->
  let periodRevenue :=
    accrualPeriodRevenue norm market token
      (timestamp - Market.lastRevenueCalculationTimestamp market) in
  let protocolRevenue := accrualProtocolRevenue norm market periodRevenue in
  let supplySideRevenue := accrualSupplySideRevenue norm periodRevenue protocolRevenue in
  accrualSpread norm market = Q2Qc (2 # 100)
  /\ accrualTotalBorrowUSD norm market token = Qc_of_Z 1000000
  /\ periodRevenue = Qc_of_Z 20000
  /\ protocolRevenue = Qc_of_Z 2000
  /\ supplySideRevenue = Qc_of_Z 18000
  /\ (let '(supplySide, protocolSide, _) := revenueCounters s in
      revenueCounters (snd (calculateAndAccumulateRevenue norm market timestamp s))
      = (bd_plus norm supplySide (Qc_of_Z 18000),
         bd_plus norm protocolSide (Qc_of_Z 2000),
         bd_plus norm (bd_plus norm supplySide (Qc_of_Z 18000))
           (bd_plus norm protocolSide (Qc_of_Z 2000)))).
Proof.
  intros Hb Hv Hl Hrf Ht Hd Hp He Hk. cbv zeta.
  pose proof (oneYear_spread norm market Hv Hl) as E1.
  pose proof (oneYear_totalBorrowUSD norm market token Hb Hd Hp) as E2.
  pose proof (oneYear_periodRevenue norm market token Hb Hv Hl Hd Hp) as E3.
  pose proof (oneYear_protocolRevenue norm market Hrf) as E4.
  pose proof (oneYear_supplySideRevenue norm) as E5.
  pose proof (oneYear_computes norm market token Hb Hv Hl s Ht) as E6.
  assert (Hlt : Market.lastRevenueCalculationTimestamp market < timestamp) by lia.
  pose proof (accrue_accumulates norm market timestamp s token Hlt E6 Hk) as E7.
  cbv zeta in E7. rewrite He in *. rewrite E3 in *. rewrite E4 in *. rewrite E5 in *.
  repeat split; try reflexivity; try assumption.
Qed.

(** C4. The split of an accrual that computes revenue:
    [protocolRevenue + supplySideRevenue] is [periodRevenue] within the
    rounding of the host, that is, exactly whenever the subtraction
    [periodRevenue - protocolRevenue] is exact, as it always is on a host of
    unbounded precision, and in general up to one unit in the last kept
    digit of the difference and of the sum; and with a reserve factor of 0
    the protocol revenue is 0 and the whole period revenue is the supply
    side's.  These are the amounts the accrual adds to the cumulative
    counters. *)
Theorem revenue_split_complete (norm : Qc -> Qc) (H : HostNorm norm)
    (market : Market.t) (token : Token.t) (timestamp : Z) (s : Store) :
  Market.lastRevenueCalculationTimestamp market < timestamp ->
  accrualComputes norm market s = Some token ->
  Keyed Protocol.id (protocols s) ->
  let periodRevenue :=
    accrualPeriodRevenue norm market token
      (timestamp - Market.lastRevenueCalculationTimestamp market) in
  let protocolRevenue := accrualProtocolRevenue norm market periodRevenue in
  let supplySideRevenue := accrualSupplySideRevenue norm periodRevenue protocolRevenue in
  (supplySideRevenue = (periodRevenue - protocolRevenue)%Qc ->
   bd_plus norm protocolRevenue supplySideRevenue = periodRevenue)
  /\ (Qcabs (bd_plus norm protocolRevenue supplySideRevenue - periodRevenue)
      <= UNIT_ROUNDOFF
         * (Qcabs (periodRevenue - protocolRevenue)
            + Qcabs (protocolRevenue + supplySideRevenue)))%Qc
  /\ (Market.reserveFactor market = 0 ->
      protocolRevenue = ZERO_BD /\ supplySideRevenue = periodRevenue)
  /\ (let '(supplySide, protocolSide, _) := revenueCounters s in
      revenueCounters (snd (calculateAndAccumulateRevenue norm market timestamp s))
      = (bd_plus norm supplySide supplySideRevenue,
         bd_plus norm protocolSide protocolRevenue,
         bd_plus norm (bd_plus norm supplySide supplySideRevenue)
           (bd_plus norm protocolSide protocolRevenue))).
Proof.
  intros Hlt Hc Hk. cbv zeta.
  pose proof (accrualPeriodRevenue_normal norm market token
                (timestamp - Market.lastRevenueCalculationTimestamp market)) as Hn.
  split; [|split; [|split]].
  - apply (split_sums norm market _ Hn).
  - apply (split_tolerance norm market).
  - intros Hrf. apply (split_reserveFactor_zero norm market _ Hn Hrf).
  - exact (accrue_accumulates norm market timestamp s token Hlt Hc Hk).
Qed.

(** On a host of unbounded precision the split always sums to the period
    revenue. *)
Lemma revenue_split_exact_host (market : Market.t) (token : Token.t) (elapsed : Z) :
  let periodRevenue := accrualPeriodRevenue exact market token elapsed in
  let protocolRevenue := accrualProtocolRevenue exact market periodRevenue in
  let supplySideRevenue := accrualSupplySideRevenue exact periodRevenue protocolRevenue in
  (protocolRevenue + supplySideRevenue)%Qc = periodRevenue.
Proof. cbv zeta. unfold accrualSupplySideRevenue, bd_minus, exact. ring. Qed.

Lemma usdcStore_token (market : Market.t) :
  Market.inputToken market = USDC ->
  tokens (usdcStore market) !! Market.inputToken market = Some usdcToken.
Proof. intros ->. reflexivity. Qed.

Lemma one_year_accrual_witness :
  Market.totalBorrow oneYearMarket = 1000000 * 10 ^ 6
  /\ 1731536000 - Market.lastRevenueCalculationTimestamp oneYearMarket = 31536000
  /\ revenueCounters
       (snd (calculateAndAccumulateRevenue round34 oneYearMarket 1731536000
               (usdcStore oneYearMarket)))
     = (Qc_of_Z 18200, Qc_of_Z 2100, Qc_of_Z 20300).
Proof.
  split; [reflexivity|]. split; [reflexivity|].
  pose proof (one_year_accrual round34 round34_host oneYearMarket usdcToken 1731536000
                (usdcStore oneYearMarket) eq_refl eq_refl eq_refl eq_refl
                (usdcStore_token oneYearMarket eq_refl) eq_refl eq_refl eq_refl
                (usdcStore_keyed oneYearMarket)) as H.
  cbv zeta in H. destruct H as (_ & _ & _ & _ & _ & H).
  change (revenueCounters (usdcStore oneYearMarket))
    with (Qc_of_Z 200, Qc_of_Z 100, Qc_of_Z 300) in H.
  rewrite H. repeat f_equal; apply Qc_is_canon; vm_compute; reflexivity.
Defined.

Lemma zeroFactor_computes :
  accrualComputes round34 zeroFactorMarket (usdcStore zeroFactorMarket)
  = Some usdcToken.
Proof. vm_compute. reflexivity. Qed.

Lemma revenue_split_complete_witness :
  Market.lastRevenueCalculationTimestamp zeroFactorMarket < 1731536000
  /\ Market.reserveFactor zeroFactorMarket = 0
  /\ accrualProtocolRevenue round34 zeroFactorMarket
       (accrualPeriodRevenue round34 zeroFactorMarket usdcToken
          (1731536000 - Market.lastRevenueCalculationTimestamp zeroFactorMarket))
     = ZERO_BD.
Proof.
  assert (Hlt : Market.lastRevenueCalculationTimestamp zeroFactorMarket < 1731536000)
    by (simpl; lia).
  split; [exact Hlt|]. split; [reflexivity|].
  pose proof (revenue_split_complete round34 round34_host zeroFactorMarket usdcToken
                1731536000 (usdcStore zeroFactorMarket) Hlt zeroFactor_computes
                (usdcStore_keyed zeroFactorMarket)) as H.
  cbv zeta in H. destruct H as (_ & _ & H & _). exact (proj1 (H eq_refl)).
Defined.

(** On the hosts that keep 34 significant digits the split of [tieMarket]
    over 1971 seconds does not sum to the period revenue: the subtraction
    drops a digit 5 and so does the sum, which ends one unit in the last
    place from the period revenue, above or below it with the rounding
    mode. *)
Lemma revenue_split_rounds :
  let periodRevenue := accrualPeriodRevenue round34 tieMarket usdcToken 1971 in
  let protocolRevenue := accrualProtocolRevenue round34 tieMarket periodRevenue in
  let supplySideRevenue :=
    accrualSupplySideRevenue round34 periodRevenue protocolRevenue in
  accrualComputes round34 tieMarket (usdcStore tieMarket) = Some usdcToken
  /\ periodRevenue = dec 1875018750000000000000000062500625 (-40)
  /\ bd_plus round34 protocolRevenue supplySideRevenue
     = dec 1875018750000000000000000062500626 (-40)
  /\ (protocolRevenue + supplySideRevenue)%Qc
     = dec 18750187500000000000000000625006255 (-41)
  /\ bd_plus round34 protocolRevenue supplySideRevenue <> periodRevenue
  /\ (protocolRevenue + supplySideRevenue)%Qc <> periodRevenue
  /\ splitSum (roundTo HalfEven) tieMarket usdcToken 1971
     = (dec 1875018750000000000000000062500625 (-40),
        dec 1875018750000000000000000062500624 (-40))
  /\ splitSum (roundTo Down) tieMarket usdcToken 1971
     = (dec 1875018750000000000000000062500625 (-40),
        dec 1875018750000000000000000062500624 (-40))
  /\ splitSum (roundTo Up) tieMarket usdcToken 1971
     = (dec 1875018750000000000000000062500625 (-40),
        dec 1875018750000000000000000062500626 (-40)).
Proof.
  intros periodRevenue protocolRevenue supplySideRevenue.
  assert (HP : periodRevenue = dec 1875018750000000000000000062500625 (-40))
    by (apply Qc_is_canon; vm_compute; reflexivity).
  assert (HS : bd_plus round34 protocolRevenue supplySideRevenue
               = dec 1875018750000000000000000062500626 (-40))
    by (apply Qc_is_canon; vm_compute; reflexivity).
  assert (HE : (protocolRevenue + supplySideRevenue)%Qc
               = dec 18750187500000000000000000625006255 (-41))
    by (apply Qc_is_canon; vm_compute; reflexivity).
  split; [vm_compute; reflexivity|].
  split; [exact HP|]. split; [exact HS|]. split; [exact HE|].
  rewrite HS, HE, HP.
  split; [intros E; apply (f_equal this) in E; vm_compute in E; discriminate E|].
  split; [intros E; apply (f_equal this) in E; vm_compute in E; discriminate E|].
  repeat split; unfold splitSum; f_equal; apply Qc_is_canon; vm_compute; reflexivity.
Qed.

(** ** Accrual and the order of the steps of a handler *)

Section Ordering.

Variable norm : Qc -> Qc.

Lemma revenueCounters_ext (s s' : Store) :
  protocols s' = protocols s -> revenueCounters s' = revenueCounters s.
Proof.
  intros E. unfold revenueCounters, getOrCreateProtocol. rewrite E.
  destruct (protocols s !! PROTOCOL_ID); reflexivity.
Qed.

(** What an accrual leaves in the singleton depends on the store through its
    protocol and token records only. *)
Lemma accrue_protocols_ext (market : Market.t) (timestamp : Z) (s s' : Store) :
  protocols s' = protocols s -> tokens s' = tokens s ->
  protocols (snd (calculateAndAccumulateRevenue norm market timestamp s'))
  = protocols (snd (calculateAndAccumulateRevenue norm market timestamp s)).
Proof.
  intros Ep Et. unfold calculateAndAccumulateRevenue.
  pose proof (getOrCreateProtocol_frame s) as F. pose proof (getOrCreateProtocol_frame s') as F'.
  assert (E1 : fst (getOrCreateProtocol s') = fst (getOrCreateProtocol s)
               /\ protocols (snd (getOrCreateProtocol s'))
                  = protocols (snd (getOrCreateProtocol s))).
  { unfold getOrCreateProtocol. rewrite Ep.
    destruct (protocols s !! PROTOCOL_ID); simpl; [tauto|]. now rewrite Ep. }
  destruct (getOrCreateProtocol s) as [p s0], (getOrCreateProtocol s') as [p' s0'].
  simpl in *. destruct E1 as [-> E2].
  destruct (timestamp <=? Market.lastRevenueCalculationTimestamp market); simpl;
    [exact E2|].
  rewrite (accrualComputes_tokens norm market s0 s0') by (intuition congruence).
  destruct (accrualComputes norm market s0); simpl; now rewrite E2.
Qed.

Lemma recalculateProtocolTotals_counters (c : Chain) (s : Store) :
  revenueCounters (recalculateProtocolTotals norm c s) = revenueCounters s.
Proof.
  unfold recalculateProtocolTotals, revenueCounters at 2.
  pose proof (getOrCreateProtocol_exists s) as Hex.
  destruct (getOrCreateProtocol s) as [protocol s0]; simpl in Hex. simpl fst.
  assert (Hsave : forall x y s1, protocols s1 = protocols s0 ->
            revenueCounters
              (save_Protocol
                 (Protocol.set_totalBorrowUSD y (Protocol.set_totalSupplyUSD x protocol))
                 s1)
            = (Protocol.cumulativeSupplySideRevenueUSD protocol,
               Protocol.cumulativeProtocolSideRevenueUSD protocol,
               Protocol.totalRevenueUSD protocol)).
  { intros x y s1 E. unfold revenueCounters, getOrCreateProtocol. simpl.
    rewrite lookup_insert. case_decide; [reflexivity|]. now rewrite E, Hex. }
  destruct (try_getReservesList c) as [reserves|]; [|apply Hsave; reflexivity].
  pose proof (protocolTotalsLoop_frame norm c reserves (ZERO_BD, ZERO_BD, s0)) as H1.
  destruct (fold_left _ reserves _) as [[x y] s1]. simpl in H1.
  apply Hsave. tauto.
Qed.

Lemma settleEvent_counters (c : Chain) (event : Event) (type : string)
    (user : User.t) (market : Market.t) (s : Store) :
  revenueCounters (settleEvent norm c event type user market s) = revenueCounters s.
Proof.
  unfold settleEvent.
  match goal with |- context [recalculateUserTotals norm c ?u ?s0] =>
    pose proof (recalculateUserTotals_frame norm c u s0) as H1;
    destruct (recalculateUserTotals norm c u s0) as [user1 s1] end.
  simpl in H1.
  pose proof (recalculateProtocolTotals_counters c s1) as H2.
  match goal with |- context [updateHourlySnapshot ?m ?e ?t ?v ?s0] =>
    pose proof (updateHourlySnapshot_frame m e t v s0) as H3;
    destruct (updateHourlySnapshot m e t v s0) as [h s3] end.
  simpl in H3.
  match goal with |- context [updateDailySnapshot norm ?m ?e ?t ?v ?a ?u ?s0] =>
    pose proof (updateDailySnapshot_frame norm m e t v a u s0) as H4;
    destruct (updateDailySnapshot norm m e t v a u s0) as [d s4] end.
  simpl in H4.
  rewrite (revenueCounters_ext (recalculateProtocolTotals norm c s1) s4)
    by (intuition congruence).
  rewrite H2. apply revenueCounters_ext. destruct H1 as [-> _]. reflexivity.
Qed.

(** The store an event handler settles on carries the counters of the
    accrual on the market as [getOrCreateMarket] returned it. *)
Lemma openEvent_counters (c : Chain) (event : Event) (s : Store) :
  let timestamp := blockTimestamp (eventBlock event) in
  let ms := getOrCreateMarket norm c (reserve event) timestamp s in
  revenueCounters (snd (openEvent norm c event s))
  = revenueCounters (snd (calculateAndAccumulateRevenue norm (fst ms) timestamp (snd ms))).
Proof.
  cbv zeta. unfold openEvent.
  destruct (getOrCreateMarket norm c _ _ s) as [market s1]; simpl.
  pose proof (getOrCreateUser_frame (account event) s1) as H2.
  destruct (getOrCreateUser (account event) s1) as [user s2]; simpl in H2.
  pose proof (getOrCreateUserPosition_frame user market s2) as H3.
  destruct (getOrCreateUserPosition user market s2) as [position s3]; simpl in H3.
  pose proof (accrue_protocols_ext market (blockTimestamp (eventBlock event)) s1 s3)
    as H4.
  destruct (calculateAndAccumulateRevenue norm market _ s3) as [market' s4].
  simpl in *. apply revenueCounters_ext. apply H4; intuition congruence.
Qed.

Lemma eventHandlers_counters (c : Chain) (event : Event) (s : Store) :
  let timestamp := blockTimestamp (eventBlock event) in
  let ms := getOrCreateMarket norm c (reserve event) timestamp s in
  let accrued :=
    revenueCounters
      (snd (calculateAndAccumulateRevenue norm (fst ms) timestamp (snd ms))) in
  revenueCounters (handleSupply norm c event s) = accrued
  /\ revenueCounters (handleWithdraw norm c event s) = accrued
  /\ revenueCounters (handleBorrow norm c event s) = accrued
  /\ revenueCounters (handleRepay norm c event s) = accrued.
Proof.
  cbv zeta. pose proof (openEvent_counters c event s) as H. cbv zeta in H.
  unfold handleSupply, handleWithdraw, handleBorrow, handleRepay.
  destruct (openEvent norm c event s) as [[[market user] position] s1].
  simpl in H. rewrite <- H.
  repeat split; rewrite settleEvent_counters; apply revenueCounters_ext; reflexivity.
Qed.

Lemma handleReserveDataUpdated_counters (c : Chain) (event : RateEvent) (s : Store) :
  let timestamp := blockTimestamp (rateBlock event) in
  let ms := getOrCreateMarket norm c (rateReserve event) timestamp s in
  revenueCounters (handleReserveDataUpdated norm c event s)
  = revenueCounters
      (snd (calculateAndAccumulateRevenue norm (fst ms) timestamp (snd ms))).
Proof.
  cbv zeta. unfold handleReserveDataUpdated.
  destruct (getOrCreateMarket norm c _ _ s) as [market s1]; simpl.
  destruct (calculateAndAccumulateRevenue norm market _ s1) as [market' s2]; simpl.
  rewrite recalculateProtocolTotals_counters. apply revenueCounters_ext. reflexivity.
Qed.

(** The store and the market object on which the block handler runs the
    accrual for one market: the market after its resync from the chain, the
    store after the refresh of the token price. *)
Lemma processMarketInBlock_counters (c : Chain) (market : Market.t) (block : Block)
    (s : Store) :
  let resynced := updateMarketState norm c market in
  let refreshed :=
    match tokens s !! Market.inputToken resynced with
    | Some token =>
        save_Token
          (Token.set_lastPriceTimestamp (blockTimestamp block)
             (Token.set_lastPriceUSD (getTokenPriceUSD norm c (Token.id token)) token))
          s
    | None => s
    end in
  revenueCounters (processMarketInBlock norm c market block s)
  = revenueCounters
      (snd (calculateAndAccumulateRevenue norm resynced (blockTimestamp block)
              refreshed)).
Proof.
  cbv zeta. unfold processMarketInBlock.
  destruct (calculateAndAccumulateRevenue norm _ _ _) as [market' s1]; simpl.
  apply revenueCounters_ext. reflexivity.
Qed.

Lemma getOrCreateMarket_stored (c : Chain) (asset : Address) (t : Z) (s : Store)
    (market : Market.t) :
  markets s !! getTokenId asset = Some market ->
  getOrCreateMarket norm c asset t s = (market, s).
Proof. intros E. unfold getOrCreateMarket. now rewrite E. Qed.

Lemma accrue_guarded_counters (market : Market.t) (timestamp : Z) (s : Store) :
  timestamp <= Market.lastRevenueCalculationTimestamp market ->
  revenueCounters (snd (calculateAndAccumulateRevenue norm market timestamp s))
  = revenueCounters s.
Proof.
  intros Hle. rewrite accrue_guarded by exact Hle. simpl.
  unfold revenueCounters. now rewrite getOrCreateProtocol_again.
Qed.

Lemma updateMarketState_stamp (c : Chain) (market : Market.t) :
  Market.lastRevenueCalculationTimestamp (updateMarketState norm c market)
  = Market.lastRevenueCalculationTimestamp market.
Proof.
  unfold updateMarketState.
  destruct (try_getReserveData c (Market.asset market)); reflexivity.
Qed.


End Ordering.




(** ** The position ledger *)

Section Positions.

Variable norm : Qc -> Qc.

Lemma updateUserPositionFromChain_kept (c : Chain) (position : UserPosition.t)
    (user : Address) (market : Market.t) :
  let position' := updateUserPositionFromChain c position user market in
  UserPosition.id position' = UserPosition.id position
  /\ UserPosition.principal position' = UserPosition.principal position
  /\ UserPosition.totalDeposited position' = UserPosition.totalDeposited position
  /\ UserPosition.totalWithdrawn position' = UserPosition.totalWithdrawn position
  /\ UserPosition.realizedPnL position' = UserPosition.realizedPnL position.
Proof.
  unfold updateUserPositionFromChain.
  destruct (try_getUserReserveData c (Market.asset market) user); simpl; tauto.
Qed.

Lemma supplyToPosition_spec (c : Chain) (event : Event) (market : Market.t)
    (position : UserPosition.t) :
  let position' := supplyToPosition c event market position in
  UserPosition.id position' = UserPosition.id position
  /\ UserPosition.principal position' = UserPosition.principal position + amount event
  /\ UserPosition.totalDeposited position'
     = UserPosition.totalDeposited position + amount event
  /\ UserPosition.totalWithdrawn position' = UserPosition.totalWithdrawn position
  /\ UserPosition.realizedPnL position' = UserPosition.realizedPnL position.
Proof.
  pose proof (updateUserPositionFromChain_kept c position (account event) market) as H.
  cbv zeta in *. unfold supplyToPosition. simpl.
  destruct H as (-> & -> & -> & -> & ->). tauto.
Qed.

Lemma resyncPosition_spec (c : Chain) (event : Event) (market : Market.t)
    (position : UserPosition.t) :
  let position' := resyncPosition c event market position in
  UserPosition.id position' = UserPosition.id position
  /\ UserPosition.principal position' = UserPosition.principal position
  /\ UserPosition.totalDeposited position' = UserPosition.totalDeposited position
  /\ UserPosition.totalWithdrawn position' = UserPosition.totalWithdrawn position
  /\ UserPosition.realizedPnL position' = UserPosition.realizedPnL position.
Proof.
  pose proof (updateUserPositionFromChain_kept c position (account event) market) as H.
  cbv zeta in *. unfold resyncPosition. simpl. exact H.
Qed.

Lemma withdrawFromPosition_spec (c : Chain) (event : Event) (market : Market.t)
    (position : UserPosition.t) (s : Store) :
  let position' := withdrawFromPosition norm c event market position s in
  let withdrawn := UserPosition.totalWithdrawn position + amount event in
  UserPosition.id position' = UserPosition.id position
  /\ UserPosition.principal position'
     = (if amount event <=? UserPosition.principal position
        then UserPosition.principal position - amount event else 0)
  /\ UserPosition.totalDeposited position' = UserPosition.totalDeposited position
  /\ UserPosition.totalWithdrawn position' = withdrawn
  /\ UserPosition.realizedPnL position'
     = (if UserPosition.totalDeposited position <=? withdrawn then
          match tokens s !! Market.inputToken market with
          | Some token =>
              convertTokenToDecimal norm
                (withdrawn - UserPosition.totalDeposited position)
                (fromI32 (Token.decimals token))
          | None => UserPosition.realizedPnL position
          end
        else UserPosition.realizedPnL position).
Proof.
  pose proof (updateUserPositionFromChain_kept c position (account event) market) as H.
  cbv zeta in *. unfold withdrawFromPosition.
  set (p1 := updateUserPositionFromChain c position (account event) market) in *.
  destruct H as (Hid & Hp & Hd & Hw & Hr). simpl.
  rewrite Hd, Hw.
  destruct (UserPosition.totalDeposited position
            <=? UserPosition.totalWithdrawn position + amount event);
    [destruct (tokens s !! Market.inputToken market)|]; simpl; rewrite ?Hp;
    destruct (amount event <=? UserPosition.principal position); simpl;
    rewrite ?Hid, ?Hp, ?Hd, ?Hw, ?Hr; tauto.
Qed.

Lemma settleEvent_positions (c : Chain) (event : Event) (type : string)
    (user : User.t) (market : Market.t) (s : Store) :
  userPositions (settleEvent norm c event type user market s) = userPositions s.
Proof.
  unfold settleEvent.
  match goal with |- context [recalculateUserTotals norm c ?u ?s0] =>
    pose proof (recalculateUserTotals_frame norm c u s0) as H1;
    destruct (recalculateUserTotals norm c u s0) as [user1 s1] end.
  simpl in H1.
  pose proof (recalculateProtocolTotals_frame norm c s1) as H2. cbv zeta in H2.
  match goal with |- context [updateHourlySnapshot ?m ?e ?t ?v ?s0] =>
    pose proof (updateHourlySnapshot_frame m e t v s0) as H3;
    destruct (updateHourlySnapshot m e t v s0) as [h s3] end.
  simpl in H3.
  match goal with |- context [updateDailySnapshot norm ?m ?e ?t ?v ?a ?u ?s0] =>
    pose proof (updateDailySnapshot_frame norm m e t v a u s0) as H4;
    destruct (updateDailySnapshot norm m e t v a u s0) as [d s4] end.
  simpl in H4. intuition congruence.
Qed.

(** The position an event handler works on: it is on record under its id
    once the handler has opened the event, no other record has changed, and
    it is either the record the store had or a new one with all figures at
    zero. *)
Lemma openEvent_position (c : Chain) (event : Event) (s : Store) :
  Keyed UserPosition.id (userPositions s) ->
  let '(market, user, position, s1) := openEvent norm c event s in
  userPositions s1 !! UserPosition.id position = Some position
  /\ (forall k, k <> UserPosition.id position ->
        userPositions s1 !! k = userPositions s !! k)
  /\ match userPositions s !! UserPosition.id position with
     | Some stored => stored = position
     | None =>
         UserPosition.principal position = 0
         /\ UserPosition.totalDeposited position = 0
         /\ UserPosition.totalWithdrawn position = 0
         /\ UserPosition.realizedPnL position = ZERO_BD
     end.
Proof.
  intros Hk. unfold openEvent.
  pose proof (getOrCreateMarket_frame norm c (reserve event)
                (blockTimestamp (eventBlock event)) s) as H1.
  destruct (getOrCreateMarket norm c _ _ s) as [market s1]; simpl in H1.
  pose proof (getOrCreateUser_frame (account event) s1) as H2.
  destruct (getOrCreateUser (account event) s1) as [user s2]; simpl in H2.
  assert (E2 : userPositions s2 = userPositions s) by (intuition congruence).
  pose proof (calculateAndAccumulateRevenue_frame norm market
                (blockTimestamp (eventBlock event))) as H4.
  unfold getOrCreateUserPosition.
  destruct (userPositions s2 !! (User.id user +:+ "-" +:+ Market.id market))
    as [stored|] eqn:E.
  - specialize (H4 s2).
    destruct (calculateAndAccumulateRevenue norm market _ s2) as [market' s4].
    simpl in H4. destruct H4 as (_ & _ & H4 & _). rewrite H4, E2.
    rewrite E2 in E. pose proof (Hk _ _ E) as Hid. rewrite Hid, E. auto.
  - match goal with |- context [save_UserPosition ?p s2] =>
      specialize (H4 (save_UserPosition p s2)) end.
    destruct (calculateAndAccumulateRevenue norm market _ _) as [market' s4].
    simpl in H4. destruct H4 as (_ & _ & H4 & _). rewrite H4. simpl.
    rewrite E2 in *. rewrite E, lookup_insert_eq.
    split; [reflexivity|]. split; [|auto].
    intros k Hne. now rewrite lookup_insert_ne.
Qed.

Lemma processMarketInBlock_positions (c : Chain) (market : Market.t) (block : Block)
    (s : Store) :
  userPositions (processMarketInBlock norm c market block s) = userPositions s.
Proof.
  unfold processMarketInBlock.
  match goal with |- context [calculateAndAccumulateRevenue norm ?m ?t ?s0] =>
    pose proof (calculateAndAccumulateRevenue_frame norm m t s0) as H1;
    assert (H0 : userPositions s0 = userPositions s)
      by (destruct (tokens s !! _); reflexivity);
    destruct (calculateAndAccumulateRevenue norm m t s0) as [m1 s1] end.
  simpl in *. intuition congruence.
Qed.

Lemma handleBlock_positions (c : Chain) (block : Block) (s : Store) :
  userPositions (handleBlock norm c block s) = userPositions s.
Proof.
  unfold handleBlock.
  pose proof (getOrCreateProtocol_frame s) as H0.
  destruct (getOrCreateProtocol s) as [protocol s0]; simpl in H0.
  destruct (try_getReservesList c) as [reserves|]; [|tauto].
  pose proof (recalculateProtocolTotals_frame norm c
                (fold_left (handleBlockStep norm c block) reserves s0)) as H1.
  cbv zeta in H1. destruct H1 as (_ & _ & -> & _).
  transitivity (userPositions s0); [|tauto].
  apply (fold_left_invariant (fun a => userPositions a = userPositions s0));
    [|reflexivity].
  intros a r Ha. unfold handleBlockStep.
  destruct (markets a !! toLowerCase r) as [m|].
  - now rewrite processMarketInBlock_positions.
  - pose proof (getOrCreateMarket_frame norm c r (blockTimestamp block) a) as H2.
    destruct (getOrCreateMarket norm c r _ a) as [m s1]. simpl in H2.
    rewrite processMarketInBlock_positions. intuition congruence.
Qed.

Lemma handleReserveDataUpdated_positions (c : Chain) (event : RateEvent) (s : Store) :
  userPositions (handleReserveDataUpdated norm c event s) = userPositions s.
Proof.
  unfold handleReserveDataUpdated.
  pose proof (getOrCreateMarket_frame norm c (rateReserve event)
                (blockTimestamp (rateBlock event)) s) as H1.
  destruct (getOrCreateMarket norm c _ _ s) as [market s1]; simpl in H1.
  pose proof (calculateAndAccumulateRevenue_frame norm market
                (blockTimestamp (rateBlock event)) s1) as H2.
  destruct (calculateAndAccumulateRevenue norm market _ s1) as [market' s2].
  simpl in H2.
  match goal with |- context [recalculateProtocolTotals norm c ?s0] =>
    pose proof (recalculateProtocolTotals_frame norm c s0) as H3 end.
  cbv zeta in H3. simpl in H3. intuition congruence.
Qed.

Lemma openEvent_principal (c : Chain) (event : Event) (s : Store) :
  PrincipalInvariant s ->
  let '(market, user, position, s1) := openEvent norm c event s in
  PrincipalInvariant s1 /\ 0 <= UserPosition.principal position.
Proof.
  intros Hs. unfold openEvent.
  pose proof (getOrCreateMarket_frame norm c (reserve event)
                (blockTimestamp (eventBlock event)) s) as H1.
  destruct (getOrCreateMarket norm c _ _ s) as [market s1]; simpl in H1.
  pose proof (getOrCreateUser_frame (account event) s1) as H2.
  destruct (getOrCreateUser (account event) s1) as [user s2]; simpl in H2.
  assert (E2 : userPositions s2 = userPositions s) by (intuition congruence).
  pose proof (calculateAndAccumulateRevenue_frame norm market
                (blockTimestamp (eventBlock event))) as H4.
  unfold getOrCreateUserPosition.
  destruct (userPositions s2 !! (User.id user +:+ "-" +:+ Market.id market))
    as [stored|] eqn:E.
  - specialize (H4 s2).
    destruct (calculateAndAccumulateRevenue norm market _ s2) as [market' s4].
    simpl in H4. destruct H4 as (_ & _ & H4 & _). rewrite E2 in E. split.
    + intros k p. rewrite H4, E2. apply Hs.
    + exact (Hs _ _ E).
  - match goal with |- context [save_UserPosition ?p s2] =>
      specialize (H4 (save_UserPosition p s2)) end.
    destruct (calculateAndAccumulateRevenue norm market _ _) as [market' s4].
    simpl in H4. destruct H4 as (_ & _ & H4 & _). split; [|simpl; unfold ZERO_BI; lia].
    intros k p. rewrite H4. simpl. rewrite lookup_insert. case_decide.
    + intros [= <-]. simpl. unfold ZERO_BI. lia.
    + rewrite E2. apply Hs.
Qed.

Lemma PrincipalInvariant_save (position : UserPosition.t) (s : Store) :
  0 <= UserPosition.principal position -> PrincipalInvariant s ->
  PrincipalInvariant (save_UserPosition position s).
Proof.
  intros Hp Hs k q. simpl. rewrite lookup_insert. case_decide.
  - intros [= <-]. exact Hp.
  - apply Hs.
Qed.

Lemma PrincipalInvariant_ext (s s' : Store) :
  userPositions s' = userPositions s -> PrincipalInvariant s -> PrincipalInvariant s'.
Proof. unfold PrincipalInvariant. intros ->. auto. Qed.

Lemma handle_principal (trigger : Trigger) (s : Store) :
  amountIsUnsigned trigger -> PrincipalInvariant s ->
  PrincipalInvariant (handle norm trigger s).
Proof.
  intros Ha Hs.
  destruct trigger as [c event|c event|c event|c event|c event|c block]; simpl in *.
  1-4: unfold handleSupply, handleWithdraw, handleBorrow, handleRepay;
       pose proof (openEvent_principal c event s Hs) as H1;
       destruct (openEvent norm c event s) as [[[market user] position] s1];
       destruct H1 as [H1 Hp];
       eapply PrincipalInvariant_ext; [apply settleEvent_positions|];
       apply PrincipalInvariant_save; [|exact H1].
  - destruct (supplyToPosition_spec c event market position) as (_ & -> & _). lia.
  - destruct (withdrawFromPosition_spec c event market position s1) as (_ & -> & _).
    destruct (Z.leb_spec (amount event) (UserPosition.principal position)); lia.
  - destruct (resyncPosition_spec c event market position) as (_ & -> & _). exact Hp.
  - destruct (resyncPosition_spec c event market position) as (_ & -> & _). exact Hp.
  - eapply PrincipalInvariant_ext; [apply handleReserveDataUpdated_positions|exact Hs].
  - eapply PrincipalInvariant_ext; [apply handleBlock_positions|exact Hs].
Qed.

(** What an event handler leaves on record as realized P&L, given the
    position it saves. *)
Lemma savedPosition_pnl (c : Chain) (event : Event) (type : string) (s : Store)
    (update : Market.t -> UserPosition.t -> Store -> UserPosition.t) :
  Keyed UserPosition.id (userPositions s) ->
  (forall market position s1,
      UserPosition.id (update market position s1) = UserPosition.id position) ->
  let '(market, user, position, s1) := openEvent norm c event s in
  let s' :=
    settleEvent norm c event type user market
      (save_UserPosition (update market position s1) s1) in
  userPositions s' !! UserPosition.id position = Some (update market position s1)
  /\ (forall k, k <> UserPosition.id position ->
        userPositions s' !! k = userPositions s !! k)
  /\ realizedPnLOf s (UserPosition.id position) = UserPosition.realizedPnL position.
Proof.
  intros Hk Hid. pose proof (openEvent_position c event s Hk) as H.
  destruct (openEvent norm c event s) as [[[market user] position] s1].
  destruct H as (H1 & H2 & H3). cbv zeta. rewrite settleEvent_positions. simpl.
  rewrite Hid. split; [apply lookup_insert_eq|]. split.
  - intros k Hne. rewrite lookup_insert_ne by congruence. now apply H2.
  - unfold realizedPnLOf.
    destruct (userPositions s !! UserPosition.id position) as [stored|].
    + now subst stored.
    + symmetry. tauto.
Qed.

Lemma unchanged_pnl (c : Chain) (event : Event) (type : string) (s : Store)
    (update : Market.t -> UserPosition.t -> Store -> UserPosition.t) :
  Keyed UserPosition.id (userPositions s) ->
  (forall market position s1,
      UserPosition.id (update market position s1) = UserPosition.id position
      /\ UserPosition.realizedPnL (update market position s1)
         = UserPosition.realizedPnL position) ->
  forall k,
    realizedPnLOf
      (let '(market, user, position, s1) := openEvent norm c event s in
       settleEvent norm c event type user market
         (save_UserPosition (update market position s1) s1)) k
    = realizedPnLOf s k.
Proof.
  intros Hk Hu k.
  pose proof (savedPosition_pnl c event type s update Hk (fun m p s1 => proj1 (Hu m p s1)))
    as H.
  destruct (openEvent norm c event s) as [[[market user] position] s1].
  cbv zeta in H. destruct H as (H1 & H2 & H3).
  destruct (decide (k = UserPosition.id position)) as [-> | Hne].
  - rewrite H3. unfold realizedPnLOf at 1. rewrite H1. apply Hu.
  - unfold realizedPnLOf. now rewrite (H2 k Hne).
Qed.

End Positions.

(** C8. The realized P&L on record changes in the withdraw handler only:
    the handlers of the other events and of the block tick leave it as it
    was for every position.  A withdrawal leaves it as it was for every
    other position, and for its own position when the total withdrawn, the
    amount of the event included, is below the total deposited or the input
    token of the market is not on record; otherwise it sets it to the
    difference of the two totals in token decimals.  On the USDC market,
    after a deposit of 100 and a withdrawal of 60 the position has principal
    40, deposited 100, withdrawn 60 and its realized P&L still at its initial
    zero; a further withdrawal of 50 brings withdrawn to 110 and sets the
    realized P&L to 10. *)
Theorem realized_pnl_on_withdraw (norm : Qc -> Qc) (c : Chain) (s : Store) :
  Keyed UserPosition.id (userPositions s) ->
  (forall trigger k,
      match trigger with OnWithdraw _ _ => False | _ => True end ->
      realizedPnLOf (handle norm trigger s) k = realizedPnLOf s k)
  /\ (forall event,
         let '(market, user, position, s1) := openEvent norm c event s in
         let withdrawn := UserPosition.totalWithdrawn position + amount event in
         (forall k, k <> UserPosition.id position ->
            realizedPnLOf (handleWithdraw norm c event s) k = realizedPnLOf s k)
         /\ realizedPnLOf (handleWithdraw norm c event s) (UserPosition.id position)
            = (if UserPosition.totalDeposited position <=? withdrawn then
                 match tokens s1 !! Market.inputToken market with
                 | Some token =>
                     convertTokenToDecimal norm
                       (withdrawn - UserPosition.totalDeposited position)
                       (fromI32 (Token.decimals token))
                 | None => realizedPnLOf s (UserPosition.id position)
                 end
               else realizedPnLOf s (UserPosition.id position)))
  /\ positionFigures
       (run round34 [OnSupply baseChain depositEvent; OnWithdraw baseChain withdraw60Event]
          (usdcStore oneYearMarket)) alicePositionId
     = Some (40 * 10 ^ 6, 100 * 10 ^ 6, 60 * 10 ^ 6, 0%Q)
  /\ positionFigures
       (run round34
          [OnSupply baseChain depositEvent; OnWithdraw baseChain withdraw60Event;
           OnWithdraw baseChain withdraw50Event]
          (usdcStore oneYearMarket)) alicePositionId
     = Some (0, 100 * 10 ^ 6, 110 * 10 ^ 6, 10%Q).
Proof.
  intros Hk. split; [|split; [|split]].
  - intros trigger k Hnot.
    destruct trigger as [c' event|c' event|c' event|c' event|c' event|c' block];
      simpl in *; try contradiction.
    + apply (unchanged_pnl norm c' event "SUPPLY" s
               (fun market position _ => supplyToPosition c' event market position) Hk).
      intros market position _.
      destruct (supplyToPosition_spec c' event market position) as (H1 & _ & _ & _ & H2).
      tauto.
    + apply (unchanged_pnl norm c' event "BORROW" s
               (fun market position _ => resyncPosition c' event market position) Hk).
      intros market position _.
      destruct (resyncPosition_spec c' event market position) as (H1 & _ & _ & _ & H2).
      tauto.
    + apply (unchanged_pnl norm c' event "REPAY" s
               (fun market position _ => resyncPosition c' event market position) Hk).
      intros market position _.
      destruct (resyncPosition_spec c' event market position) as (H1 & _ & _ & _ & H2).
      tauto.
    + unfold realizedPnLOf. now rewrite handleReserveDataUpdated_positions.
    + unfold realizedPnLOf. now rewrite handleBlock_positions.
  - intros event.
    pose proof (savedPosition_pnl norm c event "WITHDRAW" s
                  (withdrawFromPosition norm c event) Hk) as H.
    unfold handleWithdraw.
    destruct (openEvent norm c event s) as [[[market user] position] s1].
    cbv zeta in *.
    destruct H as (H1 & H2 & H3).
    { intros m p s2. apply (withdrawFromPosition_spec norm c event m p s2). }
    split.
    + intros k Hne. unfold realizedPnLOf. now rewrite (H2 k Hne).
    + rewrite H3. unfold realizedPnLOf at 1. rewrite H1.
      apply (withdrawFromPosition_spec norm c event market position s1).
  - vm_compute. reflexivity.
  - vm_compute. reflexivity.
Qed.

Lemma aliceStore_keyed : Keyed UserPosition.id (userPositions aliceStore).
Proof.
  intros k e. simpl. rewrite lookup_insert. case_decide as Hk.
  - intros [= <-]. exact Hk.
  - rewrite lookup_empty. discriminate.
Qed.

Lemma realized_pnl_on_withdraw_witness :
  Keyed UserPosition.id (userPositions aliceStore)
  /\ realizedPnLOf (handle round34 (OnSupply baseChain depositEvent) aliceStore)
       alicePositionId
     = realizedPnLOf aliceStore alicePositionId.
Proof.
  split; [exact aliceStore_keyed|].
  exact (proj1 (realized_pnl_on_withdraw round34 baseChain aliceStore aliceStore_keyed)
           (OnSupply baseChain depositEvent) alicePositionId I).
Defined.

(** ** Daily active users *)

Section ActiveUsers.

Variable norm : Qc -> Qc.



(** The update of a daily snapshot, cut at the active-user step: the id
    and the counter of the snapshot it returns, and the stores it leaves. *)
Lemma updateDailySnapshot_counter (market : Market.t) (event : Event)
    (type : string) (volume : Z) (amountUSD : Qc) (userId : string) (s : Store) :
  let timestamp := blockTimestamp (eventBlock event) in
  let key := activeUserId (getDayId timestamp) userId in
  let before := loadOrNewDailySnapshot market timestamp s in
  let r := updateDailySnapshot norm market event type volume amountUSD userId s in
  DailySnapshot.id (fst r) = DailySnapshot.id before
  /\ dailySnapshots (snd r) = <[DailySnapshot.id (fst r) := fst r]> (dailySnapshots s)
  /\ match dailyActiveUsers s !! key with
     | None =>
         DailySnapshot.dailyActiveUsers (fst r)
         = i32_add (DailySnapshot.dailyActiveUsers before) 1
         /\ dailyActiveUsers (snd r)
            = <[key := DailyActiveUser.mk key (getDayId timestamp) userId]>
                (dailyActiveUsers s)
     | Some _ =>
         DailySnapshot.dailyActiveUsers (fst r) = DailySnapshot.dailyActiveUsers before
         /\ dailyActiveUsers (snd r) = dailyActiveUsers s
     end.
Proof.
  cbv zeta. unfold updateDailySnapshot.
  set (before := loadOrNewDailySnapshot market (blockTimestamp (eventBlock event)) s).
  set (key := activeUserId (getDayId (blockTimestamp (eventBlock event))) userId).
  set (typed :=
         if decide (type = "SUPPLY") then _
         else if decide (type = "WITHDRAW") then _
         else if decide (type = "BORROW") then _
         else if decide (type = "REPAY") then _ else before).
  assert (Ht : DailySnapshot.id typed = DailySnapshot.id before
               /\ DailySnapshot.dailyActiveUsers typed
                  = DailySnapshot.dailyActiveUsers before).
  { subst typed. repeat case_decide; simpl; tauto. }
  destruct Ht as [Hid Hc].
  destruct (dailyActiveUsers s !! key) eqn:E.
  - destruct (accrualComputes norm market s); simpl; rewrite ?Hid, ?Hc; tauto.
  - match goal with |- context [accrualComputes norm market ?s0] =>
      destruct (accrualComputes norm market s0) end;
      simpl; rewrite ?Hid, ?Hc; tauto.
Qed.

End ActiveUsers.


(** ** Aggregation when market discovery fails *)

(** C10. When the call to [getReservesList] reverts, [recalculateUserTotals]
    still writes the user with a total supply and a total borrow of zero, and
    [recalculateProtocolTotals] still writes the singleton with a total
    supply and a total borrow of zero and its revenue fields as they were:
    the aggregates are overwritten, not kept. *)
Theorem totals_zeroed_without_reserves (norm : Qc -> Qc) (c : Chain) (s : Store) :
  try_getReservesList c = None ->
  (forall user : User.t,
      let r := recalculateUserTotals norm c user s in
      User.totalSupplyUSD (fst r) = ZERO_BD
      /\ User.totalBorrowUSD (fst r) = ZERO_BD
      /\ User.id (fst r) = User.id user
      /\ User.transactionCount (fst r) = User.transactionCount user
      /\ users (snd r) !! User.id user = Some (fst r))
  /\ (Keyed Protocol.id (protocols s) ->
      exists protocol : Protocol.t,
        protocols (recalculateProtocolTotals norm c s) !! PROTOCOL_ID = Some protocol
        /\ Protocol.totalSupplyUSD protocol = ZERO_BD
        /\ Protocol.totalBorrowUSD protocol = ZERO_BD
        /\ revenueCounters (recalculateProtocolTotals norm c s) = revenueCounters s).
Proof.
  intros Hnone. split.
  - intros user. cbv zeta. unfold recalculateUserTotals. rewrite Hnone. simpl.
    repeat split; try reflexivity. apply lookup_insert_eq.
  - intros Hk.
    pose proof (recalculateProtocolTotals_counters norm c s) as Hc.
    unfold recalculateProtocolTotals in *. rewrite Hnone in *.
    assert (Hid : Protocol.id (fst (getOrCreateProtocol s)) = PROTOCOL_ID).
    { unfold getOrCreateProtocol.
      destruct (protocols s !! PROTOCOL_ID) as [p|] eqn:E; simpl; [|reflexivity].
      exact (Hk _ _ E). }
    destruct (getOrCreateProtocol s) as [protocol s0]. simpl in Hid.
    eexists. split; [|split; [|split]]; [| | |exact Hc].
    + simpl. rewrite Hid. apply lookup_insert_eq.
    + reflexivity.
    + reflexivity.
Qed.


Lemma totals_zeroed_without_reserves_witness :
  try_getReservesList noListChain = None
  /\ User.totalSupplyUSD aliceUser = Qc_of_Z 40
  /\ User.totalSupplyUSD
       (fst (recalculateUserTotals round34 noListChain aliceUser aliceStore))
     = ZERO_BD.
Proof.
  split; [reflexivity|]. split; [reflexivity|].
  exact (proj1 (proj1 (totals_zeroed_without_reserves round34 noListChain aliceStore
                         eq_refl) aliceUser)).
Defined.

(** ** Every store the indexer reaches files its entities under their ids *)

Section KeyedStores.

Variable norm : Qc -> Qc.

Lemma Keyed_insert {E : Type} (id : E -> string) (x : E) (m : gmap string E) :
  Keyed id m -> Keyed id (<[id x := x]> m).
Proof.
  intros Hm k e. rewrite lookup_insert. case_decide as Hk.
  - intros [= <-]. exact Hk.
  - apply Hm.
Qed.

Lemma Keyed_empty {E : Type} (id : E -> string) : Keyed id (∅ : gmap string E).
Proof. intros k e. rewrite lookup_empty. discriminate. Qed.

Lemma emptyStore_keyed : StoreKeyed emptyStore.
Proof. repeat split; apply Keyed_empty. Qed.

Ltac keyed_save :=
  intros (? & ? & ? & ? & ? & ? & ? & ? & ?);
  repeat split; simpl; try assumption; apply Keyed_insert; assumption.

Lemma save_Protocol_keyed x s : StoreKeyed s -> StoreKeyed (save_Protocol x s).
Proof. keyed_save. Qed.
Lemma save_Market_keyed x s : StoreKeyed s -> StoreKeyed (save_Market x s).
Proof. keyed_save. Qed.
Lemma save_Token_keyed x s : StoreKeyed s -> StoreKeyed (save_Token x s).
Proof. keyed_save. Qed.
Lemma save_User_keyed x s : StoreKeyed s -> StoreKeyed (save_User x s).
Proof. keyed_save. Qed.
Lemma save_UserPosition_keyed x s : StoreKeyed s -> StoreKeyed (save_UserPosition x s).
Proof. keyed_save. Qed.
Lemma save_Transaction_keyed x s : StoreKeyed s -> StoreKeyed (save_Transaction x s).
Proof. keyed_save. Qed.
Lemma save_HourlySnapshot_keyed x s :
  StoreKeyed s -> StoreKeyed (save_HourlySnapshot x s).
Proof. keyed_save. Qed.
Lemma save_DailySnapshot_keyed x s :
  StoreKeyed s -> StoreKeyed (save_DailySnapshot x s).
Proof. keyed_save. Qed.
Lemma save_DailyActiveUser_keyed x s :
  StoreKeyed s -> StoreKeyed (save_DailyActiveUser x s).
Proof. keyed_save. Qed.

Create HintDb keyed.
#[local] Hint Resolve save_Protocol_keyed save_Market_keyed save_Token_keyed
  save_User_keyed save_UserPosition_keyed save_Transaction_keyed
  save_HourlySnapshot_keyed save_DailySnapshot_keyed save_DailyActiveUser_keyed
  : keyed.

Lemma getOrCreateProtocol_keyed s :
  StoreKeyed s -> StoreKeyed (snd (getOrCreateProtocol s)).
Proof.
  intros Hs. unfold getOrCreateProtocol.
  destruct (protocols s !! PROTOCOL_ID); simpl; auto with keyed.
Qed.

Lemma getOrCreateToken_keyed c a s :
  StoreKeyed s -> StoreKeyed (snd (getOrCreateToken norm c a s)).
Proof.
  intros Hs. unfold getOrCreateToken.
  destruct (tokens s !! getTokenId a); simpl; auto with keyed.
Qed.

Lemma getOrCreateMarket_keyed c a t s :
  StoreKeyed s -> StoreKeyed (snd (getOrCreateMarket norm c a t s)).
Proof.
  intros Hs. unfold getOrCreateMarket.
  destruct (markets s !! getTokenId a); simpl; [exact Hs|].
  pose proof (getOrCreateToken_keyed c a s Hs) as H1.
  destruct (getOrCreateToken norm c a s) as [t1 s1]; simpl in H1.
  match goal with |- context [getOrCreateToken norm c ?b s1] =>
    pose proof (getOrCreateToken_keyed c b s1 H1) as H2;
    destruct (getOrCreateToken norm c b s1) as [t2 s2] end.
  simpl in *. auto with keyed.
Qed.

Lemma getOrCreateUser_keyed a s :
  StoreKeyed s -> StoreKeyed (snd (getOrCreateUser a s)).
Proof.
  intros Hs. unfold getOrCreateUser.
  destruct (users s !! getTokenId a); simpl; auto with keyed.
Qed.

Lemma getOrCreateUserPosition_keyed u m s :
  StoreKeyed s -> StoreKeyed (snd (getOrCreateUserPosition u m s)).
Proof.
  intros Hs. unfold getOrCreateUserPosition.
  destruct (userPositions s !! _); simpl; auto with keyed.
Qed.

Lemma calculateAndAccumulateRevenue_keyed m t s :
  StoreKeyed s -> StoreKeyed (snd (calculateAndAccumulateRevenue norm m t s)).
Proof.
  intros Hs. unfold calculateAndAccumulateRevenue.
  pose proof (getOrCreateProtocol_keyed s Hs) as H0.
  destruct (getOrCreateProtocol s) as [p s0]; simpl in H0.
  destruct (t <=? Market.lastRevenueCalculationTimestamp m); simpl; [exact H0|].
  destruct (accrualComputes norm m s0); auto with keyed.
Qed.

Lemma recalculateUserTotals_keyed c u s :
  StoreKeyed s -> StoreKeyed (snd (recalculateUserTotals norm c u s)).
Proof.
  intros Hs. unfold recalculateUserTotals.
  destruct (match try_getReservesList c with Some _ => _ | None => _ end) as [a b].
  simpl. auto with keyed.
Qed.

Lemma recalculateProtocolTotals_keyed c s :
  StoreKeyed s -> StoreKeyed (recalculateProtocolTotals norm c s).
Proof.
  intros Hs. unfold recalculateProtocolTotals.
  pose proof (getOrCreateProtocol_keyed s Hs) as H0.
  destruct (getOrCreateProtocol s) as [p s0]; simpl in H0.
  destruct (try_getReservesList c) as [reserves|]; [|auto with keyed].
  assert (H1 : StoreKeyed (snd (fold_left (protocolTotalsStep norm c) reserves
                                  (ZERO_BD, ZERO_BD, s0)))).
  { apply (fold_left_invariant (fun a => StoreKeyed (snd a))); [|exact H0].
    intros [[x y] s1] r H. unfold protocolTotalsStep.
    destruct (markets s1 !! toLowerCase r) as [m|]; [|exact H].
    destruct (tokens s1 !! Market.inputToken m); [|exact H].
    simpl in *. auto with keyed. }
  destruct (fold_left _ reserves _) as [[x y] s1]. simpl in H1. auto with keyed.
Qed.

Lemma updateHourlySnapshot_keyed m e t v s :
  StoreKeyed s -> StoreKeyed (snd (updateHourlySnapshot m e t v s)).
Proof. intros Hs. unfold updateHourlySnapshot. simpl. auto with keyed. Qed.

Lemma updateDailySnapshot_keyed m e t v a u s :
  StoreKeyed s -> StoreKeyed (snd (updateDailySnapshot norm m e t v a u s)).
Proof.
  intros Hs. unfold updateDailySnapshot.
  destruct (dailyActiveUsers s !! _); simpl; auto with keyed.
Qed.

Lemma settleEvent_keyed c e t u m s :
  StoreKeyed s -> StoreKeyed (settleEvent norm c e t u m s).
Proof.
  intros Hs. unfold settleEvent.
  match goal with |- context [recalculateUserTotals norm c ?u0 ?s0] =>
    assert (H0 : StoreKeyed s0) by (unfold createTransaction; auto with keyed);
    pose proof (recalculateUserTotals_keyed c u0 s0 H0) as H1;
    destruct (recalculateUserTotals norm c u0 s0) as [user1 s1] end.
  simpl in H1.
  pose proof (recalculateProtocolTotals_keyed c s1 H1) as H2.
  match goal with |- context [updateHourlySnapshot ?m0 ?e0 ?t0 ?v0 ?s0] =>
    pose proof (updateHourlySnapshot_keyed m0 e0 t0 v0 s0 H2) as H3;
    destruct (updateHourlySnapshot m0 e0 t0 v0 s0) as [h s3] end.
  simpl in H3.
  match goal with |- context [updateDailySnapshot norm ?m0 ?e0 ?t0 ?v0 ?a0 ?u0 ?s0] =>
    pose proof (updateDailySnapshot_keyed m0 e0 t0 v0 a0 u0 s0 H3) as H4;
    destruct (updateDailySnapshot norm m0 e0 t0 v0 a0 u0 s0) as [d s4] end.
  exact H4.
Qed.

Lemma openEvent_keyed c e s :
  StoreKeyed s -> StoreKeyed (snd (openEvent norm c e s)).
Proof.
  intros Hs. unfold openEvent.
  pose proof (getOrCreateMarket_keyed c (reserve e) (blockTimestamp (eventBlock e)) s Hs)
    as H1.
  destruct (getOrCreateMarket norm c _ _ s) as [market s1]; simpl in H1.
  pose proof (getOrCreateUser_keyed (account e) s1 H1) as H2.
  destruct (getOrCreateUser (account e) s1) as [user s2]; simpl in H2.
  pose proof (getOrCreateUserPosition_keyed user market s2 H2) as H3.
  destruct (getOrCreateUserPosition user market s2) as [position s3]; simpl in H3.
  pose proof (calculateAndAccumulateRevenue_keyed market
                (blockTimestamp (eventBlock e)) s3 H3) as H4.
  destruct (calculateAndAccumulateRevenue norm market _ s3) as [market' s4].
  exact H4.
Qed.

Lemma processMarketInBlock_keyed c m b s :
  StoreKeyed s -> StoreKeyed (processMarketInBlock norm c m b s).
Proof.
  intros Hs. unfold processMarketInBlock.
  match goal with |- context [calculateAndAccumulateRevenue norm ?m0 ?t0 ?s0] =>
    assert (H0 : StoreKeyed s0) by (destruct (tokens s !! _); auto with keyed);
    pose proof (calculateAndAccumulateRevenue_keyed m0 t0 s0 H0) as H1;
    destruct (calculateAndAccumulateRevenue norm m0 t0 s0) as [m1 s1] end.
  simpl in H1. auto with keyed.
Qed.

Lemma handle_keyed (trigger : Trigger) (s : Store) :
  StoreKeyed s -> StoreKeyed (handle norm trigger s).
Proof.
  intros Hs.
  destruct trigger as [c event|c event|c event|c event|c event|c block]; simpl.
  1-4: unfold handleSupply, handleWithdraw, handleBorrow, handleRepay;
       pose proof (openEvent_keyed c event s Hs) as H1;
       destruct (openEvent norm c event s) as [[[market user] position] s1];
       apply settleEvent_keyed; simpl in H1; auto with keyed.
  - unfold handleReserveDataUpdated.
    pose proof (getOrCreateMarket_keyed c (rateReserve event)
                  (blockTimestamp (rateBlock event)) s Hs) as H1.
    destruct (getOrCreateMarket norm c _ _ s) as [market s1]; simpl in H1.
    pose proof (calculateAndAccumulateRevenue_keyed market
                  (blockTimestamp (rateBlock event)) s1 H1) as H2.
    destruct (calculateAndAccumulateRevenue norm market _ s1) as [market' s2].
    simpl in H2. apply recalculateProtocolTotals_keyed. auto with keyed.
  - unfold handleBlock.
    pose proof (getOrCreateProtocol_keyed s Hs) as H0.
    destruct (getOrCreateProtocol s) as [protocol s0]; simpl in H0.
    destruct (try_getReservesList c) as [reserves|]; [|exact H0].
    apply recalculateProtocolTotals_keyed.
    apply fold_left_invariant; [|exact H0].
    intros a r Ha. unfold handleBlockStep.
    destruct (markets a !! toLowerCase r) as [m|].
    + apply processMarketInBlock_keyed, Ha.
    + pose proof (getOrCreateMarket_keyed c r (blockTimestamp block) a Ha) as H1.
      destruct (getOrCreateMarket norm c r _ a) as [m s1].
      apply processMarketInBlock_keyed, H1.
Qed.

(** Every write is a [save] under the id of the entity, so every store
    reached from the empty one is keyed. *)
Lemma run_keyed (triggers : list Trigger) : StoreKeyed (run norm triggers emptyStore).
Proof.
  unfold run. apply fold_left_invariant; [|exact emptyStore_keyed].
  intros a b Ha. apply handle_keyed, Ha.
Qed.

End KeyedStores.

(** ** The accrual timestamp of a stored market never goes back *)

Section Stamps.

Variable norm : Qc -> Qc.

Lemma StampsAdvance_refl (s : Store) : StampsAdvance s s.
Proof. intros k m E. exists m. split; [exact E | lia]. Qed.

Lemma StampsAdvance_trans (s1 s2 s3 : Store) :
  StampsAdvance s1 s2 -> StampsAdvance s2 s3 -> StampsAdvance s1 s3.
Proof.
  intros H12 H23 k m E. destruct (H12 k m E) as (m2 & E2 & L2).
  destruct (H23 k m2 E2) as (m3 & E3 & L3). exists m3. split; [exact E3 | lia].
Qed.

Lemma StampsAdvance_ext (s s' : Store) : markets s' = markets s -> StampsAdvance s s'.
Proof. intros E k m Hm. exists m. rewrite E. split; [exact Hm | lia]. Qed.

Lemma save_Market_advance (market : Market.t) (s : Store) :
  NotBehind market s -> StampsAdvance s (save_Market market s).
Proof.
  intros Hn k m E. simpl. rewrite lookup_insert. case_decide as Hk.
  - subst k. exists market. split; [reflexivity | exact (Hn m E)].
  - exists m. split; [exact E | lia].
Qed.

Lemma NotBehind_saved (market : Market.t) (s : Store) :
  NotBehind market (save_Market market s).
Proof. intros stored. simpl. rewrite lookup_insert_eq. intros [= <-]. lia. Qed.

Lemma NotBehind_ext (market market' : Market.t) (s s' : Store) :
  markets s' = markets s -> Market.id market' = Market.id market ->
  Market.lastRevenueCalculationTimestamp market
  <= Market.lastRevenueCalculationTimestamp market' ->
  NotBehind market s -> NotBehind market' s'.
Proof.
  intros Es Ei Hl Hn stored. rewrite Es, Ei. intros E. specialize (Hn stored E). lia.
Qed.

Lemma updateMarketState_id (c : Chain) (market : Market.t) :
  Market.id (updateMarketState norm c market) = Market.id market.
Proof.
  unfold updateMarketState.
  destruct (try_getReserveData c (Market.asset market)); reflexivity.
Qed.

Lemma getOrCreateMarket_advance (c : Chain) (asset : Address) (t : Z) (s : Store) :
  Keyed Market.id (markets s) ->
  let ms := getOrCreateMarket norm c asset t s in
  StampsAdvance s (snd ms) /\ NotBehind (fst ms) (snd ms).
Proof.
  intros Hk. cbv zeta. unfold getOrCreateMarket.
  destruct (markets s !! getTokenId asset) as [m|] eqn:E; simpl.
  - split; [apply StampsAdvance_refl|].
    intros stored. rewrite (Hk _ _ E), E. intros [= <-]. lia.
  - pose proof (getOrCreateToken_frame norm c asset s) as F1.
    destruct (getOrCreateToken norm c asset s) as [t1 s1]; simpl in F1.
    match goal with |- context [getOrCreateToken norm c ?a s1] =>
      pose proof (getOrCreateToken_frame norm c a s1) as F2;
      destruct (getOrCreateToken norm c a s1) as [t2 s2] end.
    simpl in *. split; [|apply NotBehind_saved].
    assert (E2 : markets s2 = markets s).
    { destruct F1 as (_ & F1 & _), F2 as (_ & F2 & _). congruence. }
    eapply StampsAdvance_trans; [apply (StampsAdvance_ext s s2 E2)|].
    apply save_Market_advance. intros stored.
    rewrite updateMarketState_id, E2. simpl. rewrite E. discriminate.
Qed.

Lemma accrue_advance (market : Market.t) (t : Z) (s : Store) :
  NotBehind market s ->
  let ms := calculateAndAccumulateRevenue norm market t s in
  StampsAdvance s (snd ms) /\ NotBehind (fst ms) (snd ms)
  /\ Market.id (fst ms) = Market.id market
  /\ Market.lastRevenueCalculationTimestamp market
     <= Market.lastRevenueCalculationTimestamp (fst ms).
Proof.
  intros Hn. cbv zeta.
  pose proof (accrue_monotone norm market t s) as Hmono.
  unfold calculateAndAccumulateRevenue in *.
  pose proof (getOrCreateProtocol_frame s) as F.
  destruct (getOrCreateProtocol s) as [p s0]; simpl in F.
  destruct (t <=? Market.lastRevenueCalculationTimestamp market); simpl in *.
  - split; [apply StampsAdvance_ext; tauto|]. split; [|split; [reflexivity | lia]].
    apply (NotBehind_ext market _ s); [tauto | reflexivity | lia | exact Hn].
  - split; [|split; [apply NotBehind_saved | split; [reflexivity | exact Hmono]]].
    eapply StampsAdvance_trans; [apply (StampsAdvance_ext s s0); tauto|].
    match goal with |- StampsAdvance s0 (save_Market ?m ?s1) =>
      apply (StampsAdvance_trans s0 s1);
        [apply StampsAdvance_ext; destruct (accrualComputes norm market s0); reflexivity|];
      apply save_Market_advance end.
    apply (NotBehind_ext market _ s); [| reflexivity | exact Hmono | exact Hn].
    destruct (accrualComputes norm market s0); simpl; tauto.
Qed.

Lemma settleEvent_advance (c : Chain) (event : Event) (type : string)
    (user : User.t) (market : Market.t) (s : Store) :
  NotBehind market s -> StampsAdvance s (settleEvent norm c event type user market s).
Proof.
  intros Hn. unfold settleEvent.
  set (market1 :=
         Market.set_lastUpdateBlock (blockNumber (eventBlock event))
           (Market.set_lastUpdateTimestamp (blockTimestamp (eventBlock event))
              (updateMarketState norm c market))).
  set (s0 := save_Market market1 s).
  apply (StampsAdvance_trans s s0).
  - apply save_Market_advance.
    apply (NotBehind_ext market _ s); [reflexivity | | | exact Hn]; simpl.
    + apply updateMarketState_id.
    + rewrite updateMarketState_stamp. lia.
  - apply StampsAdvance_ext.
    match goal with |- context [recalculateUserTotals norm c ?u ?s1] =>
      pose proof (recalculateUserTotals_frame norm c u s1) as H1;
      destruct (recalculateUserTotals norm c u s1) as [user1 s2] end.
    simpl in H1.
    pose proof (recalculateProtocolTotals_frame norm c s2) as H2. cbv zeta in H2.
    match goal with |- context [updateHourlySnapshot ?m ?e ?t ?v ?s1] =>
      pose proof (updateHourlySnapshot_frame m e t v s1) as H3;
      destruct (updateHourlySnapshot m e t v s1) as [h s3] end.
    simpl in H3.
    match goal with |- context [updateDailySnapshot norm ?m ?e ?t ?v ?a ?u ?s1] =>
      pose proof (updateDailySnapshot_frame norm m e t v a u s1) as H4;
      destruct (updateDailySnapshot norm m e t v a u s1) as [d s4] end.
    cbv zeta in H4. simpl in H4. unfold s0. simpl. intuition congruence.
Qed.

Lemma openEvent_advance (c : Chain) (event : Event) (s : Store) :
  Keyed Market.id (markets s) ->
  let '(market, user, position, s1) := openEvent norm c event s in
  StampsAdvance s s1 /\ NotBehind market s1.
Proof.
  intros Hk. unfold openEvent.
  pose proof (getOrCreateMarket_advance c (reserve event)
                (blockTimestamp (eventBlock event)) s Hk) as H1. cbv zeta in H1.
  destruct (getOrCreateMarket norm c _ _ s) as [market s1]; simpl in H1.
  pose proof (getOrCreateUser_frame (account event) s1) as H2.
  destruct (getOrCreateUser (account event) s1) as [user s2]; simpl in H2.
  pose proof (getOrCreateUserPosition_frame user market s2) as H3.
  destruct (getOrCreateUserPosition user market s2) as [position s3]; simpl in H3.
  assert (E3 : markets s3 = markets s1) by (intuition congruence).
  assert (Hn3 : NotBehind market s3).
  { apply (NotBehind_ext market _ s1); [exact E3 | reflexivity | lia | tauto]. }
  pose proof (accrue_advance market (blockTimestamp (eventBlock event)) s3 Hn3) as H4.
  cbv zeta in H4.
  destruct (calculateAndAccumulateRevenue norm market _ s3) as [market' s4].
  simpl in H4. split; [|tauto].
  eapply StampsAdvance_trans; [apply H1|].
  eapply StampsAdvance_trans; [apply (StampsAdvance_ext s1 s3 E3)|]. tauto.
Qed.

Lemma processMarketInBlock_advance (c : Chain) (market : Market.t) (block : Block)
    (s : Store) :
  NotBehind market s -> StampsAdvance s (processMarketInBlock norm c market block s).
Proof.
  intros Hn. unfold processMarketInBlock.
  match goal with |- context [calculateAndAccumulateRevenue norm ?m ?t ?s0] =>
    assert (E0 : markets s0 = markets s) by (destruct (tokens s !! _); reflexivity);
    assert (Hn0 : NotBehind m s0)
      by (apply (NotBehind_ext market _ s);
          [exact E0 | apply updateMarketState_id
          | rewrite updateMarketState_stamp; lia | exact Hn]);
    pose proof (accrue_advance m t s0 Hn0) as H1;
    destruct (calculateAndAccumulateRevenue norm m t s0) as [m1 s1] end.
  cbv zeta in H1. simpl in H1. destruct H1 as (Ha & Hb & _).
  eapply StampsAdvance_trans; [apply (StampsAdvance_ext s _ E0)|].
  eapply StampsAdvance_trans; [exact Ha|].
  apply save_Market_advance.
  apply (NotBehind_ext m1 _ s1); [reflexivity | reflexivity | | exact Hb]. simpl. lia.
Qed.

Lemma recalculateProtocolTotals_advance (c : Chain) (s : Store) :
  StampsAdvance s (recalculateProtocolTotals norm c s).
Proof.
  apply StampsAdvance_ext. apply (recalculateProtocolTotals_frame norm c s).
Qed.

Lemma handle_advance (trigger : Trigger) (s : Store) :
  StoreKeyed s -> StampsAdvance s (handle norm trigger s).
Proof.
  intros Hs. assert (Hk : Keyed Market.id (markets s)) by apply Hs.
  destruct trigger as [c event|c event|c event|c event|c event|c block]; simpl.
  1-4: unfold handleSupply, handleWithdraw, handleBorrow, handleRepay;
       pose proof (openEvent_advance c event s Hk) as H1;
       destruct (openEvent norm c event s) as [[[market user] position] s1];
       destruct H1 as [H1 Hn];
       (eapply StampsAdvance_trans; [exact H1|]);
       match goal with |- StampsAdvance s1 (settleEvent _ _ _ _ _ _ ?s2) =>
         apply (StampsAdvance_trans s1 s2); [apply StampsAdvance_ext; reflexivity|];
         apply settleEvent_advance;
         (apply (NotBehind_ext market _ s1); [reflexivity | reflexivity | lia | exact Hn])
       end.
  - unfold handleReserveDataUpdated.
    pose proof (getOrCreateMarket_advance c (rateReserve event)
                  (blockTimestamp (rateBlock event)) s Hk) as H1. cbv zeta in H1.
    destruct (getOrCreateMarket norm c _ _ s) as [market s1]; simpl in H1.
    pose proof (accrue_advance market (blockTimestamp (rateBlock event)) s1
                  (proj2 H1)) as H2. cbv zeta in H2.
    destruct (calculateAndAccumulateRevenue norm market _ s1) as [market' s2].
    simpl in H2. destruct H2 as (Ha & Hb & _).
    eapply StampsAdvance_trans; [apply H1|].
    eapply StampsAdvance_trans; [exact Ha|].
    eapply StampsAdvance_trans; [|apply recalculateProtocolTotals_advance].
    apply save_Market_advance.
    apply (NotBehind_ext market' _ s2); [reflexivity | | | exact Hb].
    + rewrite updateMarketState_id. reflexivity.
    + rewrite updateMarketState_stamp. simpl. lia.
  - unfold handleBlock.
    pose proof (getOrCreateProtocol_frame s) as F0.
    pose proof (getOrCreateProtocol_keyed s Hs) as K0.
    destruct (getOrCreateProtocol s) as [protocol s0]; simpl in F0, K0.
    assert (H0 : StampsAdvance s s0) by (apply StampsAdvance_ext; tauto).
    destruct (try_getReservesList c) as [reserves|]; [|exact H0].
    eapply StampsAdvance_trans; [|apply recalculateProtocolTotals_advance].
    apply (fold_left_invariant (fun a => StoreKeyed a /\ StampsAdvance s a));
      [|split; assumption].
    intros a r [Ka Ha]. unfold handleBlockStep.
    destruct (markets a !! toLowerCase r) as [m|] eqn:E.
    + split; [apply processMarketInBlock_keyed, Ka|].
      eapply StampsAdvance_trans; [exact Ha|].
      apply processMarketInBlock_advance.
      intros stored. destruct Ka as (_ & Km & _). rewrite (Km _ _ E), E.
      intros [= <-]. lia.
    + pose proof (getOrCreateMarket_advance c r (blockTimestamp block) a
                    ltac:(apply Ka)) as H1. cbv zeta in H1.
      pose proof (getOrCreateMarket_keyed norm c r (blockTimestamp block) a Ka) as K1.
      destruct (getOrCreateMarket norm c r _ a) as [m s1]. simpl in H1, K1.
      split; [apply processMarketInBlock_keyed, K1|].
      eapply StampsAdvance_trans; [exact Ha|].
      eapply StampsAdvance_trans; [apply H1|].
      apply processMarketInBlock_advance. tauto.
Qed.

(** Across any sequence of triggers the accrual timestamp of every market on
    record only moves forward. *)
Lemma run_advance (triggers : list Trigger) (s : Store) :
  StoreKeyed s -> StampsAdvance s (run norm triggers s).
Proof.
  unfold run. revert s. induction triggers as [|t ts IH]; intros s Hs; simpl.
  - apply StampsAdvance_refl.
  - eapply StampsAdvance_trans; [apply handle_advance, Hs|].
    apply IH. apply handle_keyed, Hs.
Qed.

End Stamps.

(** C3. [lastRevenueCalculationTimestamp] never decreases, in one accrual
    and across any sequence of accruals whatever the timestamps and their
    order; past the guard it is set to the timestamp of the call, in the
    returned object and in the store, also when no revenue is computed.
    Nor does the timestamp of a stored market decrease across any sequence
    of events and block ticks. *)
Theorem accrual_timestamp_monotone (norm : Qc -> Qc) :
  (forall (timestamps : list Z) (market : Market.t) (s : Store),
      Market.lastRevenueCalculationTimestamp market
      <= Market.lastRevenueCalculationTimestamp
           (fst (accrueAll norm timestamps (market, s))))
  /\ (forall (market : Market.t) (timestamp : Z) (s : Store),
         Market.lastRevenueCalculationTimestamp market < timestamp ->
         let ms := calculateAndAccumulateRevenue norm market timestamp s in
         Market.lastRevenueCalculationTimestamp (fst ms) = timestamp
         /\ markets (snd ms) !! Market.id market = Some (fst ms))
  /\ (forall (triggers : list Trigger) (s : Store),
         StoreKeyed s -> StampsAdvance s (run norm triggers s)).
Proof.
  split; [|split].
  - induction timestamps as [|t ts IH]; intros market s; simpl; [lia|].
    destruct (calculateAndAccumulateRevenue norm market t s) as [m1 s1] eqn:E.
    specialize (IH m1 s1). simpl.
    pose proof (accrue_monotone norm market t s) as Hm. rewrite E in Hm. simpl in Hm.
    lia.
  - intros market timestamp s Hlt. cbv zeta.
    rewrite accrue_stamps by exact Hlt. split; [reflexivity|].
    unfold calculateAndAccumulateRevenue.
    destruct (getOrCreateProtocol s) as [protocol s0].
    destruct (Z.leb_spec timestamp (Market.lastRevenueCalculationTimestamp market));
      [lia|].
    simpl. apply lookup_insert_eq.
  - intros triggers s. apply run_advance.
Qed.

Lemma accrual_timestamp_monotone_witness :
  Market.lastRevenueCalculationTimestamp oneYearMarket < 1731536000
  /\ Market.lastRevenueCalculationTimestamp
       (fst (calculateAndAccumulateRevenue round34 oneYearMarket 1731536000
               (usdcStore oneYearMarket)))
     = 1731536000.
Proof.
  assert (Hlt : Market.lastRevenueCalculationTimestamp oneYearMarket < 1731536000)
    by (simpl; lia).
  split; [exact Hlt|].
  destruct (accrual_timestamp_monotone round34) as (_ & H & _).
  exact (proj1 (H oneYearMarket 1731536000 (usdcStore oneYearMarket) Hlt)).
Defined.

(** ** Fixed-point conversions *)

(** The value of a [Qc] operation as a rational. *)
Lemma this_plus (x y : Qc) : ((x + y)%Qc == x + y)%Q.
Proof. cbn [this Qcplus Q2Qc]. apply Qred_correct. Qed.

Lemma this_mult (x y : Qc) : ((x * y)%Qc == x * y)%Q.
Proof. cbn [this Qcmult Q2Qc]. apply Qred_correct. Qed.

Lemma this_opp (x : Qc) : ((- x)%Qc == - x)%Q.
Proof. cbn [this Qcopp Q2Qc]. apply Qred_correct. Qed.

Lemma this_minus (x y : Qc) : ((x - y)%Qc == x - y)%Q.
Proof. unfold Qcminus. rewrite this_plus, this_opp. reflexivity. Qed.

Lemma this_inv (x : Qc) : ((/ x)%Qc == / x)%Q.
Proof. cbn [this Qcinv Q2Qc]. apply Qred_correct. Qed.

Lemma this_div (x y : Qc) : ((x / y)%Qc == x / y)%Q.
Proof. unfold Qcdiv. rewrite this_mult, this_inv. reflexivity. Qed.

Lemma this_zero : this 0%Qc = 0%Q.
Proof. reflexivity. Qed.

Lemma this_one : (1%Qc == 1)%Q.
Proof. cbn [this Q2Qc]. apply Qred_correct. Qed.

Ltac qc_to_q :=
  unfold Qcle, Qclt in *;
  rewrite ?this_minus, ?this_div, ?this_plus, ?this_mult, ?this_opp, ?this_inv,
    ?this_zero in *.

Section Numbers.

Variable norm : Qc -> Qc.
Context `{!HostNorm norm}.

Lemma dec_eq (m e : Z) (q : Qc) : (q == inject_Z m * pow10 e)%Q -> q = dec m e.
Proof.
  intros E. apply Qc_is_canon. unfold dec. cbn [this Q2Qc]. rewrite Qred_correct.
  exact E.
Qed.

Lemma dec_this (m e : Z) : (dec m e == inject_Z m * pow10 e)%Q.
Proof. unfold dec. cbn [this Q2Qc]. apply Qred_correct. Qed.

Lemma Qc_of_Z_dec (z : Z) : Qc_of_Z z = dec z 0.
Proof.
  apply dec_eq. unfold Qc_of_Z. cbn [this Q2Qc]. rewrite ?Qred_correct.
  unfold pow10. simpl. ring.
Qed.

Lemma dec_mult (m e m' e' : Z) : (dec m e * dec m' e')%Qc = dec (m * m') (e + e').
Proof.
  apply dec_eq. cbn [this Qcmult Q2Qc]. rewrite Qred_correct, !dec_this.
  rewrite inject_Z_mult, pow10_add. ring.
Qed.

Lemma dec_div_pow10 (m e k : Z) : (dec m e / dec 1 k)%Qc = dec m (e - k).
Proof.
  apply dec_eq. unfold Qcdiv. cbn [this Qcmult Qcinv Q2Qc].
  rewrite !Qred_correct, !dec_this.
  rewrite <- pow10_sub. field. apply pow10_nonzero.
Qed.

Lemma dec_shift (m e : Z) : dec (10 * m) e = dec m (e + 1).
Proof.
  apply dec_eq. rewrite dec_this, inject_Z_mult, pow10_add. unfold pow10 at 3. simpl.
  ring.
Qed.

Lemma pow10_dec (k : Z) : 0 <= k -> Qc_of_Z (10 ^ k) = dec 1 k.
Proof.
  intros Hk. apply dec_eq. unfold Qc_of_Z. cbn [this Q2Qc]. rewrite ?Qred_correct.
  rewrite pow10_Z by exact Hk. ring.
Qed.

Lemma toBigDecimal_short (z : Z) :
  Z.abs z < 10 ^ PRECISION -> toBigDecimal norm z = dec z 0.
Proof.
  intros Hz. unfold toBigDecimal. rewrite Qc_of_Z_dec. apply norm_short, Hz.
Qed.

Lemma iter_times_ten (n : nat) :
  Nat.iter n (fun bd => bd_times norm bd TEN_BD) ONE_BD = dec 1 (Z.of_nat n).
Proof.
  induction n as [|n IH].
  - simpl. unfold ONE_BD. apply Qc_of_Z_dec.
  - rewrite Nat2Z.inj_succ. simpl. rewrite IH. unfold bd_times, TEN_BD.
    rewrite Qc_of_Z_dec, dec_mult.
    replace (1 * 10) with (10 * 1) by reflexivity.
    rewrite Z.add_0_r, dec_shift. unfold Z.succ.
    apply norm_short. unfold PRECISION. lia.
Qed.

Lemma exponentToBigDecimal_dec (decimals : Z) :
  exponentToBigDecimal norm decimals = dec 1 (Z.max decimals 0).
Proof.
  unfold exponentToBigDecimal. rewrite iter_times_ten. f_equal. lia.
Qed.

Lemma convertTokenToDecimal_short (tokenAmount decimals : Z) :
  Z.abs tokenAmount < 10 ^ PRECISION ->
  convertTokenToDecimal norm tokenAmount decimals
  = dec tokenAmount (- Z.max decimals 0).
Proof.
  intros Ha. unfold convertTokenToDecimal, ZERO_BI.
  destruct (Z.eqb_spec decimals 0) as [->|Hd].
  - apply (toBigDecimal_short _ Ha).
  - unfold bd_div. rewrite (toBigDecimal_short _ Ha), exponentToBigDecimal_dec.
    rewrite dec_div_pow10. apply norm_short, Ha.
Qed.

(** *** Signs: a host never changes the sign of a result *)

Lemma UNIT_ROUNDOFF_this : (UNIT_ROUNDOFF == 1 # 1000000000000000000000000000000000)%Q.
Proof. vm_compute. reflexivity. Qed.

Lemma norm_bounds (q : Qc) :
  (q - UNIT_ROUNDOFF * Qcabs q <= norm q)%Qc
  /\ (norm q <= q + UNIT_ROUNDOFF * Qcabs q)%Qc.
Proof.
  pose proof (norm_near q) as Hn.
  rewrite Qcabs_Qcminus in Hn. apply Qcabs_diff_Qcle_condition in Hn. exact Hn.
Qed.

Lemma norm_nonneg (q : Qc) : (0 <= q)%Qc -> (0 <= norm q)%Qc.
Proof.
  intros Hq. destruct (norm_bounds q) as [Hl _].
  rewrite (Qcabs_pos q Hq) in Hl.
  eapply Qcle_trans; [|exact Hl].
  unfold Qcle, Qcminus in *. cbn [this Qcplus Qcmult Qcopp Q2Qc] in *.
  rewrite !Qred_correct, UNIT_ROUNDOFF_this.
  change (Qred 0) with 0%Q in *. lra.
Qed.

Lemma norm_pos (q : Qc) : (0 < q)%Qc -> (0 < norm q)%Qc.
Proof.
  intros Hq. destruct (norm_bounds q) as [Hl _].
  rewrite (Qcabs_pos q (Qclt_le_weak _ _ Hq)) in Hl.
  eapply Qclt_le_trans; [|exact Hl].
  unfold Qclt, Qcminus in *. cbn [this Qcplus Qcmult Qcopp Q2Qc] in *.
  rewrite !Qred_correct, UNIT_ROUNDOFF_this.
  change (Qred 0) with 0%Q in *. lra.
Qed.

Lemma norm_nonpos (q : Qc) : (q <= 0)%Qc -> (norm q <= 0)%Qc.
Proof.
  intros Hq. destruct (norm_bounds q) as [_ Hu].
  rewrite (Qcabs_neg q Hq) in Hu.
  eapply Qcle_trans; [exact Hu|].
  unfold Qcle, Qcminus in *. cbn [this Qcplus Qcmult Qcopp Q2Qc] in *.
  rewrite !Qred_correct, UNIT_ROUNDOFF_this.
  change (Qred 0) with 0%Q in *. lra.
Qed.

End Numbers.

(** X1. [exponentToBigDecimal] is the power of ten of its argument on every
    host, whatever the number of digits it keeps: a power of ten has one
    significant digit, so no multiplication of the loop rounds.  A negative
    argument runs the loop zero times and gives one. *)
Theorem exponentToBigDecimal_power (norm : Qc -> Qc) (H : HostNorm norm)
    (decimals : Z) :
  exponentToBigDecimal norm decimals = Qc_of_Z (10 ^ Z.max decimals 0)
  /\ (decimals <= 0 -> exponentToBigDecimal norm decimals = ONE_BD).
Proof.
  split.
  - rewrite (exponentToBigDecimal_dec norm), pow10_dec by lia. reflexivity.
  - intros Hd. rewrite (exponentToBigDecimal_dec norm).
    replace (Z.max decimals 0) with 0 by lia. unfold ONE_BD.
    symmetry. apply Qc_of_Z_dec.
Qed.

Lemma exponentToBigDecimal_power_witness :
  exponentToBigDecimal round34 40 = Qc_of_Z (10 ^ 40)
  /\ exponentToBigDecimal round34 (-2) = ONE_BD.
Proof.
  split.
  - exact (proj1 (exponentToBigDecimal_power round34 round34_host 40)).
  - apply (proj2 (exponentToBigDecimal_power round34 round34_host (-2))). lia.
Defined.

(** X2. Amounts of fewer than 35 digits convert without rounding on every
    host: [convertTokenToDecimal] moves the decimal point by [decimals]
    places (by none for [decimals <= 0]), [rayToDecimal] by 27 and
    [wadToDecimal] by 18, and scaling the converted amount back by
    [exponentToBigDecimal] gives the amount again.  The bound is sharp: a
    host of 34 digits already rounds the amount [10^34 + 1]. *)
Theorem conversions_exact_below_precision (norm : Qc -> Qc) (H : HostNorm norm)
    (tokenAmount decimals : Z) :
  Z.abs tokenAmount < 10 ^ 34 ->
  convertTokenToDecimal norm tokenAmount decimals
  = dec tokenAmount (- Z.max decimals 0)
  /\ bd_times norm (convertTokenToDecimal norm tokenAmount decimals)
       (exponentToBigDecimal norm decimals)
     = Qc_of_Z tokenAmount
  /\ rayToDecimal norm tokenAmount = dec tokenAmount (-27)
  /\ wadToDecimal norm tokenAmount = dec tokenAmount (-18)
  /\ convertTokenToDecimal round34 (10 ^ 34 + 1) 0 = Qc_of_Z (10 ^ 34).
Proof.
  intros Ha. split; [|split; [|split; [|split]]].
  - apply (convertTokenToDecimal_short norm _ _ Ha).
  - rewrite (convertTokenToDecimal_short norm _ _ Ha), (exponentToBigDecimal_dec norm).
    unfold bd_times. rewrite dec_mult, Z.mul_1_r.
    replace (- Z.max decimals 0 + Z.max decimals 0) with 0 by lia.
    rewrite Qc_of_Z_dec. apply norm_short, Ha.
  - unfold rayToDecimal, bd_div, RAY_BD.
    rewrite (toBigDecimal_short norm _ Ha), pow10_dec, dec_div_pow10 by lia.
    apply norm_short, Ha.
  - unfold wadToDecimal, bd_div, WAD_BD.
    rewrite (toBigDecimal_short norm _ Ha), pow10_dec, dec_div_pow10 by lia.
    apply norm_short, Ha.
  - apply Qc_is_canon. vm_compute. reflexivity.
Qed.

Lemma conversions_exact_below_precision_witness :
  Z.abs 1234567 < 10 ^ 34
  /\ convertTokenToDecimal round34 1234567 6 = dec 1234567 (-6)
  /\ rayToDecimal round34 (5 * 10 ^ 25) = dec (5 * 10 ^ 25) (-27).
Proof.
  assert (H1 : Z.abs 1234567 < 10 ^ 34) by (vm_compute; reflexivity).
  assert (H2 : Z.abs (5 * 10 ^ 25) < 10 ^ 34) by (vm_compute; reflexivity).
  split; [exact H1|]. split.
  - exact (proj1 (conversions_exact_below_precision round34 round34_host 1234567 6 H1)).
  - exact (proj1 (proj2 (proj2
             (conversions_exact_below_precision round34 round34_host (5 * 10 ^ 25) 0
                H2)))).
Defined.

(** ** Prices *)

Section Prices.

Variable norm : Qc -> Qc.
Context `{!HostNorm norm}.

Lemma Qc_of_Z_nonneg (z : Z) : 0 <= z -> (0 <= Qc_of_Z z)%Qc.
Proof.
  intros Hz. unfold Qcle, Qc_of_Z. cbn [this Q2Qc]. rewrite ?Qred_correct.
  change 0%Q with (inject_Z 0). rewrite <- Zle_Qle. exact Hz.
Qed.

Lemma Qc_of_Z_pos (z : Z) : 0 < z -> (0 < Qc_of_Z z)%Qc.
Proof.
  intros Hz. unfold Qclt, Qc_of_Z. cbn [this Q2Qc]. rewrite ?Qred_correct.
  change 0%Q with (inject_Z 0). rewrite <- Zlt_Qlt. exact Hz.
Qed.

Lemma Qc_of_Z_nonpos (z : Z) : z <= 0 -> (Qc_of_Z z <= 0)%Qc.
Proof.
  intros Hz. unfold Qcle, Qc_of_Z. cbn [this Q2Qc]. rewrite ?Qred_correct.
  change 0%Q with (inject_Z 0). rewrite <- Zle_Qle. exact Hz.
Qed.

Lemma Qcdiv_nonneg (x y : Qc) : (0 <= x)%Qc -> (0 < y)%Qc -> (0 <= x / y)%Qc.
Proof.
  intros Hx Hy. unfold Qcdiv. apply Qcmult_nonneg_nonneg; [exact Hx|].
  qc_to_q. apply Qinv_le_0_compat, Qlt_le_weak, Hy.
Qed.

Lemma Qcdiv_pos (x y : Qc) : (0 < x)%Qc -> (0 < y)%Qc -> (0 < x / y)%Qc.
Proof.
  intros Hx Hy. unfold Qcdiv. apply Qcmult_pos_pos; [exact Hx|].
  qc_to_q. apply Qinv_lt_0_compat, Hy.
Qed.

Lemma Qcdiv_nonpos (x y : Qc) : (x <= 0)%Qc -> (0 < y)%Qc -> (x / y <= 0)%Qc.
Proof.
  intros Hx Hy.
  assert (Hn : (0 <= (- x) / y)%Qc).
  { apply Qcdiv_nonneg; [|exact Hy]. qc_to_q. lra. }
  qc_to_q. unfold Qdiv in *. lra.
Qed.

Lemma toBigDecimal_nonneg (z : Z) : 0 <= z -> (0 <= toBigDecimal norm z)%Qc.
Proof. intros Hz. apply (norm_nonneg norm), Qc_of_Z_nonneg, Hz. Qed.

Lemma toBigDecimal_pos (z : Z) : 0 < z -> (0 < toBigDecimal norm z)%Qc.
Proof. intros Hz. apply (norm_pos norm), Qc_of_Z_pos, Hz. Qed.

Lemma toBigDecimal_nonpos (z : Z) : z <= 0 -> (toBigDecimal norm z <= 0)%Qc.
Proof. intros Hz. apply (norm_nonpos norm), Qc_of_Z_nonpos, Hz. Qed.

Lemma bd_div_nonneg (x y : Qc) : (0 <= x)%Qc -> (0 < y)%Qc -> (0 <= bd_div norm x y)%Qc.
Proof. intros Hx Hy. apply (norm_nonneg norm), Qcdiv_nonneg; assumption. Qed.

Lemma bd_div_pos (x y : Qc) : (0 < x)%Qc -> (0 < y)%Qc -> (0 < bd_div norm x y)%Qc.
Proof. intros Hx Hy. apply (norm_pos norm), Qcdiv_pos; assumption. Qed.

Lemma bd_times_nonneg (x y : Qc) :
  (0 <= x)%Qc -> (0 <= y)%Qc -> (0 <= bd_times norm x y)%Qc.
Proof. intros Hx Hy. apply (norm_nonneg norm), Qcmult_nonneg_nonneg; assumption. Qed.


Lemma exponentToBigDecimal_pos (decimals : Z) :
  (0 < exponentToBigDecimal norm decimals)%Qc.
Proof.
  rewrite (exponentToBigDecimal_dec norm). unfold Qclt. rewrite dec_this.
  change (this 0%Qc) with 0%Q. pose proof (pow10_pos (Z.max decimals 0)).
  change (inject_Z 1) with 1%Q. lra.
Qed.

Lemma convertTokenToDecimal_nonneg (tokenAmount decimals : Z) :
  0 <= tokenAmount -> (0 <= convertTokenToDecimal norm tokenAmount decimals)%Qc.
Proof.
  intros Ha. unfold convertTokenToDecimal.
  destruct (decimals =? ZERO_BI); [apply toBigDecimal_nonneg, Ha|].
  apply bd_div_nonneg; [apply toBigDecimal_nonneg, Ha | apply exponentToBigDecimal_pos].
Qed.

(** The base currency unit the oracle reports, or the default. *)
Lemma getTokenPriceUSD_nonneg (c : Chain) (tokenAddress : Address) :
  match try_getAssetPrice c tokenAddress with Some p => 0 <= p | None => True end ->
  match try_BASE_CURRENCY_UNIT c with Some u => 0 < u | None => True end ->
  (0 <= getTokenPriceUSD norm c tokenAddress)%Qc.
Proof.
  intros Hp Hu. unfold getTokenPriceUSD.
  destruct (try_getAssetPrice c tokenAddress) as [p|];
    [|unfold ZERO_BD; rewrite Qc_of_Z_zero; apply Qcle_refl].
  apply bd_div_nonneg; [apply toBigDecimal_nonneg, Hp|].
  apply toBigDecimal_pos. destruct (try_BASE_CURRENCY_UNIT c); lia.
Qed.

Lemma bd_div_zero (y : Qc) : bd_div norm ZERO_BD y = ZERO_BD.
Proof.
  unfold bd_div, ZERO_BD. replace (Qc_of_Z 0 / y)%Qc with (Qc_of_Z 0).
  - apply (norm_zero norm).
  - rewrite Qc_of_Z_zero. unfold Qcdiv. ring.
Qed.

Lemma toBigDecimal_zero : toBigDecimal norm 0 = ZERO_BD.
Proof. apply (norm_zero norm). Qed.

Lemma getTokenPriceUSD_pos (c : Chain) (tokenAddress : Address) (p : Z) :
  try_getAssetPrice c tokenAddress = Some p -> 0 < p ->
  match try_BASE_CURRENCY_UNIT c with Some u => 0 < u | None => True end ->
  (0 < getTokenPriceUSD norm c tokenAddress)%Qc.
Proof.
  intros Ep Hp Hu. unfold getTokenPriceUSD. rewrite Ep.
  apply bd_div_pos; apply toBigDecimal_pos; [exact Hp|].
  destruct (try_BASE_CURRENCY_UNIT c); lia.
Qed.

Lemma getTokenPriceUSD_nonpos (c : Chain) (tokenAddress : Address) (p : Z) :
  try_getAssetPrice c tokenAddress = Some p -> p <= 0 ->
  match try_BASE_CURRENCY_UNIT c with Some u => 0 < u | None => True end ->
  (getTokenPriceUSD norm c tokenAddress <= 0)%Qc.
Proof.
  intros Ep Hp Hu. unfold getTokenPriceUSD. rewrite Ep.
  apply (norm_nonpos norm), Qcdiv_nonpos; [apply toBigDecimal_nonpos, Hp|].
  apply toBigDecimal_pos. destruct (try_BASE_CURRENCY_UNIT c); lia.
Qed.

Lemma bd_gt_zero (x : Qc) : bd_gt x ZERO_BD = bool_decide (0 < x)%Qc.
Proof. unfold bd_gt, ZERO_BD. rewrite Qc_of_Z_zero. reflexivity. Qed.

End Prices.

(** X3. What [getTokenPriceUSD] and [calculateUSDValue] give when the oracle
    does not answer as expected.  A reverted [getAssetPrice] is a price of
    zero, and so is a price of zero units; [calculateUSDValue] is then zero
    for every amount.  A reverted [BASE_CURRENCY_UNIT] is taken as [10^8]:
    the price is the oracle's figure with the decimal point moved by eight
    places, exactly.  With a positive unit the price has the sign of the
    oracle's figure, on every host; and the USD value of a non-negative
    amount at a non-negative price is not negative. *)
Theorem oracle_price_fallbacks (norm : Qc -> Qc) (H : HostNorm norm) (c : Chain)
    (tokenAddress : Address) :
  (try_getAssetPrice c tokenAddress = None ->
   getTokenPriceUSD norm c tokenAddress = ZERO_BD
   /\ forall amount decimals,
        calculateUSDValue norm c amount tokenAddress decimals = ZERO_BD)
  /\ (forall p,
         try_getAssetPrice c tokenAddress = Some p ->
         try_BASE_CURRENCY_UNIT c = None -> Z.abs p < 10 ^ 34 ->
         getTokenPriceUSD norm c tokenAddress = dec p (-8))
  /\ (forall p u,
         try_getAssetPrice c tokenAddress = Some p ->
         try_BASE_CURRENCY_UNIT c = Some u -> 0 < u ->
         (0 <= p -> (0 <= getTokenPriceUSD norm c tokenAddress)%Qc)
         /\ (0 < p -> (0 < getTokenPriceUSD norm c tokenAddress)%Qc)
         /\ (p = 0 ->
             getTokenPriceUSD norm c tokenAddress = ZERO_BD
             /\ forall amount decimals,
                  calculateUSDValue norm c amount tokenAddress decimals = ZERO_BD))
  /\ (forall amount decimals,
         0 <= amount -> (0 <= getTokenPriceUSD norm c tokenAddress)%Qc ->
         (0 <= calculateUSDValue norm c amount tokenAddress decimals)%Qc).
Proof.
  assert (Hzero : getTokenPriceUSD norm c tokenAddress = ZERO_BD ->
                  forall amount decimals,
                    calculateUSDValue norm c amount tokenAddress decimals = ZERO_BD).
  { intros E amount decimals. unfold calculateUSDValue, bd_equals. rewrite E.
    rewrite bool_decide_eq_true_2 by reflexivity. reflexivity. }
  split; [|split; [|split]].
  - intros Ep.
    assert (E : getTokenPriceUSD norm c tokenAddress = ZERO_BD)
      by (unfold getTokenPriceUSD; rewrite Ep; reflexivity).
    split; [exact E | exact (Hzero E)].
  - intros p Ep Eu Hp. unfold getTokenPriceUSD. rewrite Ep, Eu.
    unfold bd_div. rewrite (toBigDecimal_short norm p) by exact Hp.
    unfold toBigDecimal. rewrite (pow10_dec 8) by lia.
    rewrite (norm_short 1 8) by (unfold PRECISION; lia).
    rewrite dec_div_pow10. apply norm_short, Hp.
  - intros p u Ep Eu Hu. split; [|split].
    + intros Hp. apply (getTokenPriceUSD_nonneg norm); rewrite ?Ep, ?Eu; assumption.
    + intros Hp. apply (getTokenPriceUSD_pos norm c tokenAddress p Ep Hp).
      rewrite Eu. exact Hu.
    + intros ->.
      assert (E : getTokenPriceUSD norm c tokenAddress = ZERO_BD).
      { unfold getTokenPriceUSD. rewrite Ep, (toBigDecimal_zero norm).
        apply (bd_div_zero norm). }
      split; [exact E | exact (Hzero E)].
  - intros amount decimals Ha Hp. unfold calculateUSDValue.
    destruct (bd_equals _ ZERO_BD);
      [unfold ZERO_BD; rewrite Qc_of_Z_zero; apply Qcle_refl|].
    apply (bd_times_nonneg norm); [|exact Hp].
    apply (bd_div_nonneg norm);
      [apply (toBigDecimal_nonneg norm), Ha | apply (exponentToBigDecimal_pos norm)].
Qed.

Lemma oracle_price_fallbacks_witness :
  try_getAssetPrice noListChain USDC = Some (10 ^ 8)
  /\ try_BASE_CURRENCY_UNIT noListChain = Some (10 ^ 8)
  /\ (0 < getTokenPriceUSD round34 noListChain USDC)%Qc.
Proof.
  split; [reflexivity|]. split; [reflexivity|].
  destruct (oracle_price_fallbacks round34 round34_host noListChain USDC)
    as (_ & _ & Hs & _).
  apply (Hs (10 ^ 8) (10 ^ 8) eq_refl eq_refl); reflexivity.
Defined.

(** X4. [updateTokenPrice] replaces the price of the token only by a
    positive one: when the oracle call reverts, or gives zero or less, the
    token object is returned as it was, with its last price; a positive
    oracle figure becomes the new price and the price timestamp is reset to
    zero.  The identity and the metadata of the token are never touched. *)
Theorem updateTokenPrice_keeps_last_price (norm : Qc -> Qc) (H : HostNorm norm)
    (c : Chain) (token : Token.t) :
  match try_BASE_CURRENCY_UNIT c with Some u => 0 < u | None => True end ->
  let token' := updateTokenPrice norm c token in
  match try_getAssetPrice c (Token.id token) with
  | None => token' = token
  | Some p =>
      if 0 <? p then
        Token.lastPriceUSD token' = getTokenPriceUSD norm c (Token.id token)
        /\ (0 < Token.lastPriceUSD token')%Qc
        /\ Token.lastPriceTimestamp token' = 0
      else token' = token
  end
  /\ Token.id token' = Token.id token
  /\ Token.symbol token' = Token.symbol token
  /\ Token.name token' = Token.name token
  /\ Token.decimals token' = Token.decimals token
  /\ Token.totalSupply token' = Token.totalSupply token.
Proof.
  intros Hu. cbv zeta. unfold updateTokenPrice. rewrite bd_gt_zero. split.
  - destruct (try_getAssetPrice c (Token.id token)) as [p|] eqn:Ep.
    + destruct (Z.ltb_spec 0 p) as [Hp|Hp].
      * pose proof (getTokenPriceUSD_pos norm c _ p Ep Hp Hu) as Hpos.
        rewrite bool_decide_eq_true_2 by exact Hpos. simpl. auto.
      * pose proof (getTokenPriceUSD_nonpos norm c _ p Ep Hp Hu) as Hneg.
        rewrite bool_decide_eq_false_2; [reflexivity|].
        apply Qcle_not_lt, Hneg.
    + rewrite bool_decide_eq_false_2; [reflexivity|].
      unfold getTokenPriceUSD. rewrite Ep. unfold ZERO_BD. rewrite Qc_of_Z_zero.
      apply Qcle_not_lt, Qcle_refl.
  - destruct (bool_decide _); simpl; auto.
Qed.

Lemma updateTokenPrice_keeps_last_price_witness :
  updateTokenPrice round34
    (mkChain None (fun _ => None) (fun _ => None) (fun _ => None) (fun _ _ => None)
       (fun _ => None) None (fun _ => None) (fun _ => None) (fun _ => None)
       (fun _ => None))
    usdcToken
  = usdcToken.
Proof.
  exact (proj1 (updateTokenPrice_keeps_last_price round34 round34_host
                  (mkChain None (fun _ => None) (fun _ => None) (fun _ => None)
                     (fun _ _ => None) (fun _ => None) None (fun _ => None)
                     (fun _ => None) (fun _ => None) (fun _ => None))
                  usdcToken I)).
Defined.

(** ** Rounding keeps the order *)

Lemma roundInt_mono (mode : Rounding) (x y : Q) :
  (x <= y)%Q -> roundInt mode x <= roundInt mode y.
Proof.
  intros Hxy. destruct mode; unfold roundInt.
  - apply Qfloor_resp_le. lra.
  - pose proof (Qfloor_resp_le _ _ Hxy) as Hf.
    pose proof (Qfloor_le x) as Hx1. pose proof (Qlt_floor x) as Hx2.
    pose proof (Qfloor_le y) as Hy1. pose proof (Qlt_floor y) as Hy2.
    destruct (Z.eq_dec (Qfloor x) (Qfloor y)) as [E|N].
    + rewrite <- E in *.
      destruct (Qcompare_spec (x - inject_Z (Qfloor x)) (1 # 2)) as [Ex|Lx|Gx];
        destruct (Qcompare_spec (y - inject_Z (Qfloor x)) (1 # 2)) as [Ey|Ly|Gy];
        try lia; try lra; destruct (Z.even (Qfloor x)); lia.
    + assert (Hlt : Qfloor x + 1 <= Qfloor y) by lia.
      destruct (Qcompare_spec (x - inject_Z (Qfloor x)) (1 # 2));
        destruct (Qcompare_spec (y - inject_Z (Qfloor y)) (1 # 2));
        repeat match goal with |- context [Z.even ?z] => destruct (Z.even z) end; lia.
  - apply Qfloor_resp_le, Hxy.
  - apply Qceiling_resp_le, Hxy.
Qed.

Lemma magnitude_mono (p q : Q) :
  Qnum p <> 0 -> Qnum q <> 0 -> (Qabs p <= Qabs q)%Q -> magnitude p <= magnitude q.
Proof.
  intros Hp Hq Hpq.
  destruct (magnitude_spec p Hp) as [Hp1 _]. destruct (magnitude_spec q Hq) as [_ Hq2].
  destruct (Z_le_gt_dec (magnitude p) (magnitude q)) as [Hle|Hgt]; [exact Hle|].
  pose proof (pow10_le (magnitude q) (magnitude p - 1) ltac:(lia)). lra.
Qed.

Lemma roundedAbs_bounds (mode : Rounding) (q : Q) :
  Qnum q <> 0 ->
  (pow10 (magnitude q - 1) <= roundedAbs mode q)%Q
  /\ (roundedAbs mode q <= pow10 (magnitude q))%Q.
Proof.
  intros Hq. destruct (mantissa_bounds mode q Hq) as [[Hlo Hhi] _]. cbv zeta in Hlo, Hhi.
  unfold roundedAbs. set (e := magnitude q - PRECISION) in *.
  set (M := roundInt mode (Qabs q / pow10 e)) in *.
  pose proof (pow10_pos e) as He.
  assert (E1 : (pow10 (magnitude q - 1) == inject_Z (10 ^ 33) * pow10 e)%Q).
  { rewrite <- (pow10_Z 33), <- pow10_add by lia. unfold e, PRECISION.
    replace (33 + (magnitude q - 34)) with (magnitude q - 1) by lia. reflexivity. }
  assert (E2 : (pow10 (magnitude q) == inject_Z (10 ^ 34) * pow10 e)%Q).
  { rewrite <- (pow10_Z 34), <- pow10_add by lia. unfold e, PRECISION.
    replace (34 + (magnitude q - 34)) with (magnitude q) by lia. reflexivity. }
  rewrite E1, E2. split; apply Qmult_le_compat_r;
    try (apply Qlt_le_weak; exact He); rewrite <- Zle_Qle; assumption.
Qed.

Lemma roundedAbs_mono (mode : Rounding) (p q : Q) :
  Qnum p <> 0 -> Qnum q <> 0 -> (Qabs p <= Qabs q)%Q ->
  (roundedAbs mode p <= roundedAbs mode q)%Q.
Proof.
  intros Hp Hq Hpq. pose proof (magnitude_mono p q Hp Hq Hpq) as Hm.
  destruct (Z.eq_dec (magnitude p) (magnitude q)) as [E|N].
  - unfold roundedAbs. rewrite E. set (e := magnitude q - PRECISION).
    pose proof (pow10_pos e) as He.
    apply Qmult_le_compat_r; [|apply Qlt_le_weak; exact He].
    rewrite <- Zle_Qle. apply roundInt_mono.
    unfold Qdiv. apply Qmult_le_compat_r; [exact Hpq|].
    apply Qinv_le_0_compat, Qlt_le_weak, He.
  - destruct (roundedAbs_bounds mode p Hp) as [_ H1].
    destruct (roundedAbs_bounds mode q Hq) as [H2 _].
    pose proof (pow10_le (magnitude p) (magnitude q - 1) ltac:(lia)). lra.
Qed.

Lemma roundedAbs_pos (mode : Rounding) (q : Q) :
  Qnum q <> 0 -> (0 < roundedAbs mode q)%Q.
Proof.
  intros Hq. destruct (roundedAbs_bounds mode q Hq) as [H1 _].
  pose proof (pow10_pos (magnitude q - 1)). lra.
Qed.

Lemma roundQ_signed (mode : Rounding) (q : Q) :
  Qnum q <> 0 ->
  (roundQ mode q == inject_Z (Z.sgn (Qnum q)) * roundedAbs mode q)%Q.
Proof.
  intros Hq. unfold roundQ, roundedAbs.
  destruct (Z.eqb_spec (Qnum q) 0) as [E|_]; [contradiction|].
  rewrite inject_Z_mult. ring.
Qed.

Lemma roundQ_of_pos (mode : Rounding) (q : Q) :
  (0 < q)%Q -> (roundQ mode q == roundedAbs mode q)%Q.
Proof.
  intros Hq. apply Qnum_pos in Hq.
  rewrite roundQ_signed by lia. rewrite Z.sgn_pos by exact Hq.
  change (inject_Z 1) with 1%Q. ring.
Qed.

Lemma roundQ_of_neg (mode : Rounding) (q : Q) :
  (q < 0)%Q -> (roundQ mode q == - roundedAbs mode q)%Q.
Proof.
  intros Hq. apply Qnum_neg in Hq.
  rewrite roundQ_signed by lia. rewrite Z.sgn_neg by exact Hq.
  change (inject_Z (-1)) with (-1)%Q. ring.
Qed.

Lemma roundQ_of_zero (mode : Rounding) (q : Q) : (q == 0)%Q -> (roundQ mode q == 0)%Q.
Proof.
  intros Hq. unfold roundQ. apply Qnum_zero in Hq as Hz. rewrite Hz. simpl. exact Hq.
Qed.

Lemma roundQ_mono (mode : Rounding) (p q : Q) :
  (p <= q)%Q -> (roundQ mode p <= roundQ mode q)%Q.
Proof.
  intros Hpq.
  destruct (Q_dec p 0) as [[Hp|Hp]|Hp]; destruct (Q_dec q 0) as [[Hq|Hq]|Hq].
  - rewrite (roundQ_of_neg mode p Hp), (roundQ_of_neg mode q Hq).
    assert (H : (roundedAbs mode q <= roundedAbs mode p)%Q).
    { apply roundedAbs_mono.
      - apply Qnum_neg in Hq. lia.
      - apply Qnum_neg in Hp. lia.
      - rewrite (Qabs_neg p), (Qabs_neg q) by lra. lra. }
    lra.
  - rewrite (roundQ_of_neg mode p Hp), (roundQ_of_pos mode q Hq).
    pose proof (roundedAbs_pos mode p ltac:(apply Qnum_neg in Hp; lia)).
    pose proof (roundedAbs_pos mode q ltac:(apply Qnum_pos in Hq; lia)). lra.
  - rewrite (roundQ_of_neg mode p Hp), (roundQ_of_zero mode q Hq).
    pose proof (roundedAbs_pos mode p ltac:(apply Qnum_neg in Hp; lia)). lra.
  - lra.
  - rewrite (roundQ_of_pos mode p Hp), (roundQ_of_pos mode q Hq).
    apply roundedAbs_mono.
    + apply Qnum_pos in Hp. lia.
    + apply Qnum_pos in Hq. lia.
    + rewrite (Qabs_pos p), (Qabs_pos q) by lra. exact Hpq.
  - lra.
  - lra.
  - rewrite (roundQ_of_zero mode p Hp), (roundQ_of_pos mode q Hq).
    pose proof (roundedAbs_pos mode q ltac:(apply Qnum_pos in Hq; lia)). lra.
  - rewrite (roundQ_of_zero mode p Hp), (roundQ_of_zero mode q Hq). lra.
Qed.

#[export] Instance exact_order : HostOrder exact.
Proof. split. intros p q Hpq. exact Hpq. Qed.

#[export] Instance roundTo_order (mode : Rounding) : HostOrder (roundTo mode).
Proof.
  split. intros p q Hpq. unfold roundTo, Qcle in *. cbn [this Q2Qc].
  rewrite !Qred_correct. apply roundQ_mono, Hpq.
Qed.

#[export] Instance round34_order : HostOrder round34.
Proof. exact (roundTo_order HalfUp). Qed.

(** ** Utilization *)

Section Utilization.

Variable norm : Qc -> Qc.
Context `{!HostNorm norm}.

Lemma norm_Z (z : Z) : Z.abs z < 10 ^ PRECISION -> norm (Qc_of_Z z) = Qc_of_Z z.
Proof. intros Hz. rewrite Qc_of_Z_dec. apply norm_short, Hz. Qed.

Lemma Qc_of_Z_le (a b : Z) : a <= b -> (Qc_of_Z a <= Qc_of_Z b)%Qc.
Proof.
  intros Hab. unfold Qcle, Qc_of_Z. cbn [this Q2Qc]. rewrite ?Qred_correct.
  rewrite <- Zle_Qle. exact Hab.
Qed.

Lemma Qcdiv_le_one (x y : Qc) : (0 < y)%Qc -> (x <= y)%Qc -> (x / y <= 1)%Qc.
Proof.
  intros Hy Hxy. qc_to_q.
  apply Qle_shift_div_r; [exact Hy|]. rewrite this_one. lra.
Qed.

Lemma calculateUtilizationRate_le (totalBorrow totalSupply : Z) :
  HostOrder norm -> 0 < totalSupply -> totalBorrow <= totalSupply ->
  (calculateUtilizationRate norm totalBorrow totalSupply <= HUNDRED_BD)%Qc.
Proof.
  intros Ho Hs Hbs. unfold calculateUtilizationRate, ZERO_BI.
  destruct (Z.eqb_spec totalSupply 0) as [E|_]; [lia|].
  unfold bd_times, bd_div, HUNDRED_BD.
  rewrite <- (norm_Z 100) at 2 by (unfold PRECISION; lia).
  apply norm_mono.
  replace (Qc_of_Z 100) with (1 * Qc_of_Z 100)%Qc at 2 by ring.
  apply Qcmult_le_compat_r; [|apply (Qc_of_Z_nonneg 100); lia].
  replace 1%Qc with (Qc_of_Z 1) by (apply Qc_is_canon; reflexivity).
  rewrite <- (norm_Z 1) by (unfold PRECISION; lia).
  apply norm_mono. replace (Qc_of_Z 1) with 1%Qc by (apply Qc_is_canon; reflexivity).
  apply Qcdiv_le_one.
  - apply (toBigDecimal_pos norm), Hs.
  - unfold toBigDecimal. apply norm_mono, Qc_of_Z_le, Hbs.
Qed.

Lemma calculateUtilizationRate_full (totalSupply : Z) :
  0 < totalSupply ->
  calculateUtilizationRate norm totalSupply totalSupply = HUNDRED_BD.
Proof.
  intros Hs. unfold calculateUtilizationRate, ZERO_BI.
  destruct (Z.eqb_spec totalSupply 0) as [E|_]; [lia|].
  unfold bd_times, bd_div, HUNDRED_BD.
  pose proof (toBigDecimal_pos norm totalSupply Hs) as Hpos.
  replace (toBigDecimal norm totalSupply / toBigDecimal norm totalSupply)%Qc
    with (Qc_of_Z 1).
  - rewrite (norm_Z 1) by (unfold PRECISION; lia).
    replace (Qc_of_Z 1 * Qc_of_Z 100)%Qc with (Qc_of_Z 100) by (apply Qc_is_canon; reflexivity).
    apply norm_Z. unfold PRECISION. lia.
  - unfold Qcdiv. rewrite Qcmult_inv_r; [apply Qc_is_canon; reflexivity|].
    intros E. rewrite E in Hpos. exact (Qclt_not_le _ _ Hpos (Qcle_refl _)).
Qed.

Lemma calculateUtilizationRate_idle (totalSupply : Z) :
  calculateUtilizationRate norm 0 totalSupply = ZERO_BD.
Proof.
  unfold calculateUtilizationRate. destruct (totalSupply =? ZERO_BI); [reflexivity|].
  rewrite (toBigDecimal_zero norm), (bd_div_zero norm).
  unfold bd_times, ZERO_BD, HUNDRED_BD.
  replace (Qc_of_Z 0 * Qc_of_Z 100)%Qc with (Qc_of_Z 0) by (apply Qc_is_canon; reflexivity).
  apply (norm_zero norm).
Qed.

Lemma calculateUtilizationRate_nonneg (totalBorrow totalSupply : Z) :
  0 <= totalBorrow -> 0 <= totalSupply ->
  (0 <= calculateUtilizationRate norm totalBorrow totalSupply)%Qc.
Proof.
  intros Hb Hs. unfold calculateUtilizationRate, ZERO_BI.
  destruct (Z.eqb_spec totalSupply 0) as [E|N].
  - unfold ZERO_BD. rewrite Qc_of_Z_zero. apply Qcle_refl.
  - apply (bd_times_nonneg norm); [|apply (Qc_of_Z_nonneg 100); lia].
    apply (bd_div_nonneg norm); [apply (toBigDecimal_nonneg norm), Hb|].
    apply (toBigDecimal_pos norm). lia.
Qed.

End Utilization.

(** X5. [calculateUtilizationRate] is a percentage of the supply: zero when
    there is no supply (whatever the borrow) or no borrow, exactly one
    hundred when everything is borrowed, never negative for unsigned totals
    and, on a host whose rounding keeps the order, at most one hundred as
    long as the borrow does not exceed the supply.  It is not capped: a
    borrow of 3 on a supply of 2 gives 150. *)
Theorem utilization_rate_range (norm : Qc -> Qc) (H : HostNorm norm)
    (totalBorrow totalSupply : Z) :
  calculateUtilizationRate norm totalBorrow 0 = ZERO_BD
  /\ calculateUtilizationRate norm 0 totalSupply = ZERO_BD
  /\ (0 < totalSupply ->
      calculateUtilizationRate norm totalSupply totalSupply = HUNDRED_BD
      /\ (0 <= totalBorrow ->
          (0 <= calculateUtilizationRate norm totalBorrow totalSupply)%Qc)
      /\ (HostOrder norm -> totalBorrow <= totalSupply ->
          (calculateUtilizationRate norm totalBorrow totalSupply <= HUNDRED_BD)%Qc))
  /\ calculateUtilizationRate round34 3 2 = Qc_of_Z 150.
Proof.
  split; [reflexivity|]. split; [apply (calculateUtilizationRate_idle norm)|].
  split.
  - intros Hs. split; [apply (calculateUtilizationRate_full norm _ Hs)|]. split.
    + intros Hb. apply (calculateUtilizationRate_nonneg norm); lia.
    + intros Ho Hbs. apply (calculateUtilizationRate_le norm _ _ Ho Hs Hbs).
  - apply Qc_is_canon. vm_compute. reflexivity.
Qed.

Lemma utilization_rate_range_witness :
  0 < 3000000 * 10 ^ 6
  /\ (calculateUtilizationRate round34 (1000000 * 10 ^ 6) (3000000 * 10 ^ 6)
      <= HUNDRED_BD)%Qc.
Proof.
  assert (Hs : 0 < 3000000 * 10 ^ 6) by lia. split; [exact Hs|].
  destruct (utilization_rate_range round34 round34_host (1000000 * 10 ^ 6)
              (3000000 * 10 ^ 6)) as (_ & _ & Hr & _).
  destruct (Hr Hs) as (_ & _ & Hle). apply (Hle round34_order). lia.
Defined.

(** ** Entities are created once *)

Section Creation.

Variable norm : Qc -> Qc.

Lemma getOrCreateToken_again (c c' : Chain) (address : Address) (s : Store) :
  let r := getOrCreateToken norm c address s in
  getOrCreateToken norm c' address (snd r) = r.
Proof.
  cbv zeta. unfold getOrCreateToken.
  destruct (tokens s !! getTokenId address) as [token|] eqn:E; cbn [fst snd].
  - rewrite E. reflexivity.
  - cbn [save_Token tokens Token.id]. rewrite lookup_insert_eq. reflexivity.
Qed.

Lemma getOrCreateMarket_again (c c' : Chain) (asset : Address) (t t' : Z) (s : Store) :
  let r := getOrCreateMarket norm c asset t s in
  getOrCreateMarket norm c' asset t' (snd r) = r.
Proof.
  cbv zeta.
  destruct (markets s !! getTokenId asset) as [market|] eqn:E.
  - rewrite (getOrCreateMarket_stored norm c asset t s market E). cbn [snd].
    apply (getOrCreateMarket_stored norm c' asset t' s market E).
  - assert (Hs : exists market s2,
               getOrCreateMarket norm c asset t s = (market, save_Market market s2)
               /\ Market.id market = getTokenId asset).
    { unfold getOrCreateMarket. rewrite E.
      destruct (getOrCreateToken norm c asset s) as [t1 s1].
      destruct (getOrCreateToken norm c _ s1) as [t2 s2].
      eexists _, s2. split; [reflexivity|].
      rewrite updateMarketState_id. reflexivity. }
    destruct Hs as (market & s2 & -> & Hid). cbn [snd].
    apply getOrCreateMarket_stored. cbn [save_Market markets].
    rewrite Hid. apply lookup_insert_eq.
Qed.

Lemma getOrCreateUser_again (address : Address) (s : Store) :
  let r := getOrCreateUser address s in
  getOrCreateUser address (snd r) = r.
Proof.
  cbv zeta. unfold getOrCreateUser.
  destruct (users s !! getTokenId address) as [user|] eqn:E; cbn [fst snd].
  - rewrite E. reflexivity.
  - cbn [save_User users User.id]. rewrite lookup_insert_eq. reflexivity.
Qed.

Lemma getOrCreateUserPosition_again (user : User.t) (market : Market.t) (s : Store) :
  let r := getOrCreateUserPosition user market s in
  getOrCreateUserPosition user market (snd r) = r.
Proof.
  cbv zeta. unfold getOrCreateUserPosition.
  destruct (userPositions s !! _) as [position|] eqn:E; cbn [fst snd].
  - rewrite E. reflexivity.
  - cbn [save_UserPosition userPositions UserPosition.id].
    rewrite lookup_insert_eq. reflexivity.
Qed.

Lemma getOrCreateToken_filed (c : Chain) (address : Address) (s : Store) :
  Keyed Token.id (tokens s) ->
  let r := getOrCreateToken norm c address s in
  Token.id (fst r) = getTokenId address
  /\ tokens (snd r) !! getTokenId address = Some (fst r)
  /\ Keyed Token.id (tokens (snd r))
  /\ (forall k, is_Some (tokens s !! k) -> is_Some (tokens (snd r) !! k)).
Proof.
  intros Hk. cbv zeta. unfold getOrCreateToken.
  destruct (tokens s !! getTokenId address) as [token|] eqn:E; cbn [fst snd].
  - split; [exact (Hk _ _ E)|]. split; [exact E|]. split; [exact Hk | auto].
  - cbn [save_Token tokens Token.id]. split; [reflexivity|].
    split; [apply lookup_insert_eq|]. split.
    + apply (Keyed_insert Token.id (Token.mk _ _ _ _ _ _ _)), Hk.
    + intros k Hs. rewrite lookup_insert. case_decide; eauto.
Qed.

End Creation.

(** X6. The five get-or-create functions read the chain once per entity: a
    second call for the same address (or the same user and market) returns
    the entity of the first call and leaves the store as the first call left
    it, also when the chain and the timestamp have changed in between.  The
    symbol, name, decimals and supply of a token, and the token addresses and
    the configuration of a market, are those of the block that created
    them. *)
Theorem entities_are_created_once (norm : Qc -> Qc) (c c' : Chain) (s : Store) :
  (forall address,
      let r := getOrCreateToken norm c address s in
      getOrCreateToken norm c' address (snd r) = r)
  /\ (forall asset t t',
         let r := getOrCreateMarket norm c asset t s in
         getOrCreateMarket norm c' asset t' (snd r) = r)
  /\ (forall address,
         let r := getOrCreateUser address s in
         getOrCreateUser address (snd r) = r)
  /\ (forall user market,
         let r := getOrCreateUserPosition user market s in
         getOrCreateUserPosition user market (snd r) = r)
  /\ (let r := getOrCreateProtocol s in getOrCreateProtocol (snd r) = r).
Proof.
  split; [|split; [|split; [|split]]].
  - intros address. apply getOrCreateToken_again.
  - intros asset t t'. apply getOrCreateMarket_again.
  - intros address. apply getOrCreateUser_again.
  - intros user market. apply getOrCreateUserPosition_again.
  - cbv zeta. rewrite getOrCreateProtocol_again.
    destruct (getOrCreateProtocol s); reflexivity.
Qed.

(** X7. A market is created also when every call about it reverts: the three
    token addresses are the zero address, the configuration is zero, the
    totals and rates are zero, both timestamps are the creation timestamp,
    and the output token is a [Token] entity filed under the zero address.
    A token whose ERC20 calls and price call revert is created as
    "unknown"/"unknown" with 18 decimals, no supply and a price of zero. *)
Theorem creation_defaults_on_revert (norm : Qc -> Qc) (c : Chain) (asset : Address)
    (currentTimestamp : Z) (s : Store) :
  (tokens s !! getTokenId asset = None ->
   try_symbol c asset = None -> try_name c asset = None ->
   try_decimals c asset = None -> try_totalSupply c asset = None ->
   try_getAssetPrice c asset = None ->
   getOrCreateToken norm c asset s
   = (Token.mk (getTokenId asset) "unknown" "unknown" 18 0 ZERO_BD 0,
      save_Token (Token.mk (getTokenId asset) "unknown" "unknown" 18 0 ZERO_BD 0) s))
  /\ (Keyed Token.id (tokens s) ->
      markets s !! getTokenId asset = None ->
      try_getReserveTokensAddresses c asset = None ->
      try_getReserveConfigurationData c asset = None ->
      try_getReserveData c asset = None ->
      let r := getOrCreateMarket norm c asset currentTimestamp s in
      fst r
      = Market.mk (getTokenId asset) PROTOCOL_ID asset ZERO_ADDRESS ZERO_ADDRESS
          ZERO_ADDRESS (getTokenId asset) ZERO_ADDRESS 0 0 0 0 0 0 ZERO_BD ZERO_BD
          ZERO_BD 0 0 0 0 currentTimestamp 0 currentTimestamp
      /\ markets (snd r) !! getTokenId asset = Some (fst r)
      /\ is_Some (tokens (snd r) !! getTokenId asset)
      /\ is_Some (tokens (snd r) !! ZERO_ADDRESS)).
Proof.
  split.
  - intros E Es En Ed Et Ep. unfold getOrCreateToken. rewrite E.
    unfold fetchTokenSymbol, fetchTokenName, fetchTokenDecimals, fetchTokenTotalSupply,
      getTokenPriceUSD.
    rewrite Es, En, Ed, Et, Ep. reflexivity.
  - intros Hk E Ea Ec Ed. cbv zeta. unfold getOrCreateMarket. rewrite E, Ea, Ec.
    cbn [getATokenAddress getStableDebtTokenAddress getVariableDebtTokenAddress
         getLtv getLiquidationThreshold getLiquidationBonus getReserveFactor].
    pose proof (getOrCreateToken_filed norm c asset s Hk) as H1. cbv zeta in H1.
    destruct (getOrCreateToken norm c asset s) as [t1 s1]. cbn [fst snd] in H1.
    destruct H1 as (I1 & L1 & K1 & P1).
    pose proof (getOrCreateToken_filed norm c ZERO_ADDRESS s1 K1) as H2.
    cbv zeta in H2.
    destruct (getOrCreateToken norm c ZERO_ADDRESS s1) as [t2 s2]. cbn [fst snd] in H2.
    destruct H2 as (I2 & L2 & K2 & P2).
    unfold updateMarketState. cbn [Market.asset]. rewrite Ed. cbn [fst snd].
    rewrite I1, I2. change (getTokenId ZERO_ADDRESS) with ZERO_ADDRESS in *.
    split; [reflexivity|]. split; [apply lookup_insert_eq|]. split.
    + apply P2. eauto.
    + cbn [save_Market tokens]. eauto.
Qed.

Lemma creation_defaults_on_revert_witness :
  let dead :=
    mkChain None (fun _ => None) (fun _ => None) (fun _ => None) (fun _ _ => None)
      (fun _ => None) None (fun _ => None) (fun _ => None) (fun _ => None)
      (fun _ => None) in
  Market.outputToken (fst (getOrCreateMarket round34 dead USDC 1700000000 emptyStore))
  = ZERO_ADDRESS
  /\ Token.decimals (fst (getOrCreateToken round34 dead USDC emptyStore)) = 18.
Proof.
  cbv zeta.
  destruct (creation_defaults_on_revert round34
              (mkChain None (fun _ => None) (fun _ => None) (fun _ => None)
                 (fun _ _ => None) (fun _ => None) None (fun _ => None)
                 (fun _ => None) (fun _ => None) (fun _ => None))
              USDC 1700000000 emptyStore) as [Ht Hm].
  split.
  - destruct (Hm (Keyed_empty Token.id) eq_refl eq_refl eq_refl eq_refl) as (E & _).
    rewrite E. reflexivity.
  - rewrite (Ht eq_refl eq_refl eq_refl eq_refl eq_refl eq_refl). reflexivity.
Defined.

(** ** Invariants of the positions on record *)

Section PositionInvariant.

Variable norm : Qc -> Qc.
Variable P : UserPosition.t -> Prop.

Hypothesis P_new :
  forall id user market,
    P (UserPosition.mk id user market ZERO_BI ZERO_BI ZERO_BI ZERO_BI ZERO_BI ZERO_BI
         ZERO_BD ZERO_BD false ZERO_BI).
Hypothesis P_supply :
  forall c event market position,
    0 <= amount event -> P position -> P (supplyToPosition c event market position).
Hypothesis P_withdraw :
  forall c event market position s,
    0 <= amount event -> P position ->
    P (withdrawFromPosition norm c event market position s).
Hypothesis P_resync :
  forall c event market position,
    P position -> P (resyncPosition c event market position).

Lemma AllPositions_save (position : UserPosition.t) (s : Store) :
  P position -> AllPositions P s -> AllPositions P (save_UserPosition position s).
Proof.
  intros Hp Hs k q. simpl. rewrite lookup_insert. case_decide.
  - intros [= <-]. exact Hp.
  - apply Hs.
Qed.

Lemma AllPositions_ext (s s' : Store) :
  userPositions s' = userPositions s -> AllPositions P s -> AllPositions P s'.
Proof. unfold AllPositions. intros ->. auto. Qed.

Lemma openEvent_all_positions (c : Chain) (event : Event) (s : Store) :
  AllPositions P s ->
  let '(market, user, position, s1) := openEvent norm c event s in
  AllPositions P s1 /\ P position.
Proof.
  intros Hs. unfold openEvent.
  pose proof (getOrCreateMarket_frame norm c (reserve event)
                (blockTimestamp (eventBlock event)) s) as H1.
  destruct (getOrCreateMarket norm c _ _ s) as [market s1]; simpl in H1.
  pose proof (getOrCreateUser_frame (account event) s1) as H2.
  destruct (getOrCreateUser (account event) s1) as [user s2]; simpl in H2.
  assert (E2 : userPositions s2 = userPositions s) by (intuition congruence).
  pose proof (calculateAndAccumulateRevenue_frame norm market
                (blockTimestamp (eventBlock event))) as H4.
  unfold getOrCreateUserPosition.
  destruct (userPositions s2 !! (User.id user +:+ "-" +:+ Market.id market))
    as [stored|] eqn:E.
  - specialize (H4 s2).
    destruct (calculateAndAccumulateRevenue norm market _ s2) as [market' s4].
    simpl in H4. destruct H4 as (_ & _ & H4 & _). rewrite E2 in E. split.
    + intros k p. rewrite H4, E2. apply Hs.
    + exact (Hs _ _ E).
  - match goal with |- context [save_UserPosition ?p s2] =>
      specialize (H4 (save_UserPosition p s2)) end.
    destruct (calculateAndAccumulateRevenue norm market _ _) as [market' s4].
    simpl in H4. destruct H4 as (_ & _ & H4 & _). split; [|apply P_new].
    intros k p. rewrite H4. simpl. rewrite lookup_insert. case_decide.
    + intros [= <-]. apply P_new.
    + rewrite E2. apply Hs.
Qed.

Lemma handle_all_positions (trigger : Trigger) (s : Store) :
  amountIsUnsigned trigger -> AllPositions P s ->
  AllPositions P (handle norm trigger s).
Proof.
  intros Ha Hs.
  destruct trigger as [c event|c event|c event|c event|c event|c block]; simpl in *.
  1-4: unfold handleSupply, handleWithdraw, handleBorrow, handleRepay;
       pose proof (openEvent_all_positions c event s Hs) as H1;
       destruct (openEvent norm c event s) as [[[market user] position] s1];
       destruct H1 as [H1 Hp];
       eapply AllPositions_ext; [apply settleEvent_positions|];
       apply AllPositions_save; [|exact H1]; auto.
  - eapply AllPositions_ext; [apply handleReserveDataUpdated_positions|exact Hs].
  - eapply AllPositions_ext; [apply handleBlock_positions|exact Hs].
Qed.

Lemma run_all_positions (triggers : list Trigger) (s : Store) :
  Forall amountIsUnsigned triggers -> AllPositions P s ->
  AllPositions P (run norm triggers s).
Proof.
  unfold run. revert s. induction triggers as [|t ts IH]; intros s Ha Hs; simpl.
  - exact Hs.
  - inversion Ha; subst. apply IH; [assumption|].
    apply handle_all_positions; assumption.
Qed.

End PositionInvariant.

Lemma AllPositions_empty (P : UserPosition.t -> Prop) : AllPositions P emptyStore.
Proof. intros k p. simpl. rewrite lookup_empty. discriminate. Qed.

(** X8. The ledger of every position stays consistent: the principal is
    never negative and never exceeds the total deposited, and the total
    withdrawn is never negative.  Every handler keeps this, for event
    amounts that are unsigned, and so does any sequence of triggers from the
    empty store. *)
Theorem position_ledger_consistent (norm : Qc -> Qc) :
  (forall (trigger : Trigger) (s : Store),
      amountIsUnsigned trigger -> AllPositions ledgerConsistent s ->
      AllPositions ledgerConsistent (handle norm trigger s))
  /\ (forall triggers : list Trigger,
         Forall amountIsUnsigned triggers ->
         AllPositions ledgerConsistent (run norm triggers emptyStore)).
Proof.
  assert (P_new : forall id user market,
             ledgerConsistent
               (UserPosition.mk id user market ZERO_BI ZERO_BI ZERO_BI ZERO_BI ZERO_BI
                  ZERO_BI ZERO_BD ZERO_BD false ZERO_BI)).
  { intros. unfold ledgerConsistent, ZERO_BI. simpl. lia. }
  assert (P_supply : forall c event market position,
             0 <= amount event -> ledgerConsistent position ->
             ledgerConsistent (supplyToPosition c event market position)).
  { intros c event market position Ha [Hp Hw]. unfold ledgerConsistent.
    destruct (supplyToPosition_spec c event market position) as (_ & -> & -> & -> & _).
    lia. }
  assert (P_withdraw : forall c event market position s,
             0 <= amount event -> ledgerConsistent position ->
             ledgerConsistent (withdrawFromPosition norm c event market position s)).
  { intros c event market position s Ha [Hp Hw]. unfold ledgerConsistent.
    destruct (withdrawFromPosition_spec norm c event market position s)
      as (_ & -> & -> & -> & _).
    destruct (Z.leb_spec (amount event) (UserPosition.principal position)); lia. }
  assert (P_resync : forall c event market position,
             ledgerConsistent position ->
             ledgerConsistent (resyncPosition c event market position)).
  { intros c event market position [Hp Hw]. unfold ledgerConsistent.
    destruct (resyncPosition_spec c event market position) as (_ & -> & -> & -> & _).
    lia. }
  split.
  - intros trigger s. apply handle_all_positions; assumption.
  - intros triggers Ha. apply run_all_positions; try assumption.
    apply AllPositions_empty.
Qed.

Lemma position_ledger_consistent_witness :
  Forall amountIsUnsigned
    [OnSupply baseChain depositEvent; OnWithdraw baseChain withdraw60Event;
     OnWithdraw baseChain withdraw50Event]
  /\ AllPositions ledgerConsistent
       (run round34
          [OnSupply baseChain depositEvent; OnWithdraw baseChain withdraw60Event;
           OnWithdraw baseChain withdraw50Event] emptyStore).
Proof.
  assert (Ha : Forall amountIsUnsigned
                 [OnSupply baseChain depositEvent; OnWithdraw baseChain withdraw60Event;
                  OnWithdraw baseChain withdraw50Event])
    by (repeat constructor; simpl; lia).
  split; [exact Ha|].
  exact (proj2 (position_ledger_consistent round34) _ Ha).
Defined.

Section Unrealized.

Variable norm : Qc -> Qc.

Lemma updateUserPositionFromChain_unrealized (c : Chain) (position : UserPosition.t)
    (user : Address) (market : Market.t) :
  UserPosition.unrealizedPnL (updateUserPositionFromChain c position user market)
  = UserPosition.unrealizedPnL position.
Proof.
  unfold updateUserPositionFromChain.
  destruct (try_getUserReserveData c (Market.asset market) user); reflexivity.
Qed.

Lemma supplyToPosition_unrealized (c : Chain) (event : Event) (market : Market.t)
    (position : UserPosition.t) :
  UserPosition.unrealizedPnL (supplyToPosition c event market position)
  = UserPosition.unrealizedPnL position.
Proof. unfold supplyToPosition. simpl. apply updateUserPositionFromChain_unrealized. Qed.

Lemma resyncPosition_unrealized (c : Chain) (event : Event) (market : Market.t)
    (position : UserPosition.t) :
  UserPosition.unrealizedPnL (resyncPosition c event market position)
  = UserPosition.unrealizedPnL position.
Proof. unfold resyncPosition. simpl. apply updateUserPositionFromChain_unrealized. Qed.

Lemma withdrawFromPosition_unrealized (c : Chain) (event : Event) (market : Market.t)
    (position : UserPosition.t) (s : Store) :
  UserPosition.unrealizedPnL (withdrawFromPosition norm c event market position s)
  = UserPosition.unrealizedPnL position.
Proof.
  unfold withdrawFromPosition.
  repeat match goal with
         | |- context [if ?b then _ else _] => destruct b
         | |- context [match tokens s !! ?k with Some _ => _ | None => _ end] =>
             destruct (tokens s !! k)
         end; simpl; apply updateUserPositionFromChain_unrealized.
Qed.

End Unrealized.

(** X9. No position ever carries a negative realized P&L, and none carries an
    unrealized P&L at all: [realizedPnL] is only ever assigned the converted
    excess of the withdrawals over the deposits, when there is one, and
    [unrealizedPnL] is set to zero at creation and never assigned again by
    any handler. *)
Theorem pnl_never_negative_unrealized_never_set (norm : Qc -> Qc) (H : HostNorm norm) :
  (forall (trigger : Trigger) (s : Store),
      amountIsUnsigned trigger -> AllPositions pnlBooked s ->
      AllPositions pnlBooked (handle norm trigger s))
  /\ (forall triggers : list Trigger,
         Forall amountIsUnsigned triggers ->
         AllPositions pnlBooked (run norm triggers emptyStore)).
Proof.
  assert (P_new : forall id user market,
             pnlBooked
               (UserPosition.mk id user market ZERO_BI ZERO_BI ZERO_BI ZERO_BI ZERO_BI
                  ZERO_BI ZERO_BD ZERO_BD false ZERO_BI)).
  { intros. split; [|reflexivity]. simpl. unfold ZERO_BD. rewrite Qc_of_Z_zero.
    apply Qcle_refl. }
  assert (P_supply : forall c event market position,
             0 <= amount event -> pnlBooked position ->
             pnlBooked (supplyToPosition c event market position)).
  { intros c event market position _ [Hr Hu]. unfold pnlBooked.
    rewrite supplyToPosition_unrealized.
    destruct (supplyToPosition_spec c event market position) as (_ & _ & _ & _ & ->).
    split; assumption. }
  assert (P_withdraw : forall c event market position s,
             0 <= amount event -> pnlBooked position ->
             pnlBooked (withdrawFromPosition norm c event market position s)).
  { intros c event market position s _ [Hr Hu]. unfold pnlBooked.
    rewrite withdrawFromPosition_unrealized. split; [|exact Hu].
    destruct (withdrawFromPosition_spec norm c event market position s)
      as (_ & _ & _ & _ & ->).
    destruct (Z.leb_spec (UserPosition.totalDeposited position)
                (UserPosition.totalWithdrawn position + amount event)); [|exact Hr].
    destruct (tokens s !! Market.inputToken market); [|exact Hr].
    apply (convertTokenToDecimal_nonneg norm). lia. }
  assert (P_resync : forall c event market position,
             pnlBooked position -> pnlBooked (resyncPosition c event market position)).
  { intros c event market position [Hr Hu]. unfold pnlBooked.
    rewrite resyncPosition_unrealized.
    destruct (resyncPosition_spec c event market position) as (_ & _ & _ & _ & ->).
    split; assumption. }
  split.
  - intros trigger s. apply handle_all_positions; assumption.
  - intros triggers Ha. apply run_all_positions; try assumption.
    apply AllPositions_empty.
Qed.

Lemma pnl_never_negative_unrealized_never_set_witness :
  AllPositions pnlBooked
    (run round34
       [OnSupply baseChain depositEvent; OnWithdraw baseChain withdraw60Event;
        OnWithdraw baseChain withdraw50Event] emptyStore).
Proof.
  apply (proj2 (pnl_never_negative_unrealized_never_set round34 round34_host)).
  repeat constructor; simpl; lia.
Defined.

(** ** Cumulative deposits and withdrawals *)

Section Ledgers.

Variable norm : Qc -> Qc.

Lemma LedgersGrow_refl (s : Store) : LedgersGrow s s.
Proof. intros k p E. exists p. repeat split; [exact E | lia | lia]. Qed.

Lemma LedgersGrow_trans (s1 s2 s3 : Store) :
  LedgersGrow s1 s2 -> LedgersGrow s2 s3 -> LedgersGrow s1 s3.
Proof.
  intros H12 H23 k p E. destruct (H12 k p E) as (p2 & E2 & U2 & M2 & D2 & W2).
  destruct (H23 k p2 E2) as (p3 & E3 & U3 & M3 & D3 & W3). exists p3.
  repeat split; [exact E3 | congruence | congruence | lia | lia].
Qed.

Lemma LedgersGrow_ext (s s' : Store) :
  userPositions s' = userPositions s -> LedgersGrow s s'.
Proof. intros E k p Hp. exists p. rewrite E. repeat split; [exact Hp | lia | lia]. Qed.

Lemma updateUserPositionFromChain_owner (c : Chain) (position : UserPosition.t)
    (user : Address) (market : Market.t) :
  let position' := updateUserPositionFromChain c position user market in
  UserPosition.user position' = UserPosition.user position
  /\ UserPosition.market position' = UserPosition.market position.
Proof.
  cbv zeta. unfold updateUserPositionFromChain.
  destruct (try_getUserReserveData c (Market.asset market) user); split; reflexivity.
Qed.

Lemma supplyToPosition_owner (c : Chain) (event : Event) (market : Market.t)
    (position : UserPosition.t) :
  let position' := supplyToPosition c event market position in
  UserPosition.user position' = UserPosition.user position
  /\ UserPosition.market position' = UserPosition.market position.
Proof. cbv zeta. unfold supplyToPosition. simpl. apply updateUserPositionFromChain_owner. Qed.

Lemma resyncPosition_owner (c : Chain) (event : Event) (market : Market.t)
    (position : UserPosition.t) :
  let position' := resyncPosition c event market position in
  UserPosition.user position' = UserPosition.user position
  /\ UserPosition.market position' = UserPosition.market position.
Proof. cbv zeta. unfold resyncPosition. simpl. apply updateUserPositionFromChain_owner. Qed.

Lemma withdrawFromPosition_owner (c : Chain) (event : Event) (market : Market.t)
    (position : UserPosition.t) (s : Store) :
  let position' := withdrawFromPosition norm c event market position s in
  UserPosition.user position' = UserPosition.user position
  /\ UserPosition.market position' = UserPosition.market position.
Proof.
  cbv zeta. unfold withdrawFromPosition.
  repeat match goal with
         | |- context [if ?b then _ else _] => destruct b
         | |- context [match tokens s !! ?k with Some _ => _ | None => _ end] =>
             destruct (tokens s !! k)
         end; simpl; apply updateUserPositionFromChain_owner.
Qed.

(** What an event handler does to the ledgers, given the update it applies
    to the position of the event. *)
Lemma eventHandler_ledgers (c : Chain) (event : Event) (type : string) (s : Store)
    (update : Market.t -> UserPosition.t -> Store -> UserPosition.t) :
  Keyed UserPosition.id (userPositions s) ->
  (forall market position s1,
      let position' := update market position s1 in
      UserPosition.id position' = UserPosition.id position
      /\ UserPosition.user position' = UserPosition.user position
      /\ UserPosition.market position' = UserPosition.market position
      /\ UserPosition.totalDeposited position <= UserPosition.totalDeposited position'
      /\ UserPosition.totalWithdrawn position
         <= UserPosition.totalWithdrawn position') ->
  LedgersGrow s
    (let '(market, user, position, s1) := openEvent norm c event s in
     settleEvent norm c event type user market
       (save_UserPosition (update market position s1) s1)).
Proof.
  intros Hk Hu.
  pose proof (savedPosition_pnl norm c event type s update Hk
                (fun m p s1 => proj1 (Hu m p s1))) as H1.
  pose proof (openEvent_position norm c event s Hk) as H2.
  destruct (openEvent norm c event s) as [[[market user] position] s1].
  cbv zeta in H1. destruct H1 as (Hsaved & Hother & _).
  destruct H2 as (_ & _ & Hstored).
  intros k p E.
  destruct (decide (k = UserPosition.id position)) as [->|Hne].
  - rewrite E in Hstored. subst p.
    exists (update market position s1). split; [exact Hsaved|].
    destruct (Hu market position s1) as (_ & U & M & D & W). auto.
  - exists p. rewrite (Hother k Hne). repeat split; [exact E | lia | lia].
Qed.

Lemma handle_ledgers (trigger : Trigger) (s : Store) :
  Keyed UserPosition.id (userPositions s) -> amountIsUnsigned trigger ->
  LedgersGrow s (handle norm trigger s).
Proof.
  intros Hk Ha.
  destruct trigger as [c event|c event|c event|c event|c event|c block]; simpl in *.
  - apply (eventHandler_ledgers c event "SUPPLY" s
             (fun market position _ => supplyToPosition c event market position) Hk).
    intros market position _. cbv zeta.
    destruct (supplyToPosition_spec c event market position) as (-> & _ & -> & -> & _).
    destruct (supplyToPosition_owner c event market position) as (-> & ->).
    repeat split; lia.
  - apply (eventHandler_ledgers c event "WITHDRAW" s
             (fun market position s1 =>
                withdrawFromPosition norm c event market position s1) Hk).
    intros market position s1. cbv zeta.
    destruct (withdrawFromPosition_spec norm c event market position s1)
      as (-> & _ & -> & -> & _).
    destruct (withdrawFromPosition_owner c event market position s1) as (-> & ->).
    repeat split; lia.
  - apply (eventHandler_ledgers c event "BORROW" s
             (fun market position _ => resyncPosition c event market position) Hk).
    intros market position _. cbv zeta.
    destruct (resyncPosition_spec c event market position) as (-> & _ & -> & -> & _).
    destruct (resyncPosition_owner c event market position) as (-> & ->).
    repeat split; lia.
  - apply (eventHandler_ledgers c event "REPAY" s
             (fun market position _ => resyncPosition c event market position) Hk).
    intros market position _. cbv zeta.
    destruct (resyncPosition_spec c event market position) as (-> & _ & -> & -> & _).
    destruct (resyncPosition_owner c event market position) as (-> & ->).
    repeat split; lia.
  - apply LedgersGrow_ext, handleReserveDataUpdated_positions.
  - apply LedgersGrow_ext, handleBlock_positions.
Qed.

Lemma run_ledgers (triggers : list Trigger) (s : Store) :
  StoreKeyed s -> Forall amountIsUnsigned triggers ->
  LedgersGrow s (run norm triggers s).
Proof.
  unfold run. revert s. induction triggers as [|t ts IH]; intros s Hs Ha; simpl.
  - apply LedgersGrow_refl.
  - inversion Ha as [|t0 ts0 Ht Hts]; subst.
    assert (Hp : Keyed UserPosition.id (userPositions s)) by apply Hs.
    eapply LedgersGrow_trans; [exact (handle_ledgers t s Hp Ht)|].
    apply IH; [apply handle_keyed, Hs | exact Hts].
Qed.

End Ledgers.

(** X10. A position is never removed and never changes hands, and its
    cumulative figures only grow: across any sequence of triggers with
    unsigned amounts, every position on record stays on record under the
    same id, for the same user and market, with a total deposited and a
    total withdrawn that are not smaller. *)
Theorem position_totals_only_grow (norm : Qc -> Qc) (triggers : list Trigger)
    (s : Store) :
  StoreKeyed s -> Forall amountIsUnsigned triggers ->
  LedgersGrow s (run norm triggers s).
Proof. apply run_ledgers. Qed.

Lemma position_totals_only_grow_witness :
  StoreKeyed (run round34 [OnSupply baseChain depositEvent] emptyStore)
  /\ LedgersGrow (run round34 [OnSupply baseChain depositEvent] emptyStore)
       (run round34 [OnWithdraw baseChain withdraw60Event]
          (run round34 [OnSupply baseChain depositEvent] emptyStore)).
Proof.
  assert (Hk : StoreKeyed (run round34 [OnSupply baseChain depositEvent] emptyStore))
    by apply run_keyed.
  split; [exact Hk|].
  apply (position_totals_only_grow round34 [OnWithdraw baseChain withdraw60Event] _ Hk).
  repeat constructor; simpl; lia.
Defined.

(** ** Where the markets on record come from *)

Section Descent.

Variable norm : Qc -> Qc.
Variable G : Chain -> Prop.

Lemma MarketStep_trans (m1 m2 m3 : Market.t) :
  MarketStep norm G m1 m2 -> MarketStep norm G m2 m3 -> MarketStep norm G m1 m3.
Proof.
  intros H12 H23. induction H23; [exact H12| | | | | | | | |];
    constructor; auto.
Qed.

Lemma MarketStep_id (m m' : Market.t) :
  MarketStep norm G m m' -> Market.id m' = Market.id m.
Proof.
  induction 1; try assumption; try reflexivity.
  rewrite updateMarketState_id. assumption.
Qed.

Lemma marketDescends_refl (o : option Market.t) : marketDescends norm G o o.
Proof. destruct o; simpl; [apply step_none | exact I]. Qed.

Lemma marketDescends_trans (o1 o2 o3 : option Market.t) :
  marketDescends norm G o1 o2 -> marketDescends norm G o2 o3 ->
  marketDescends norm G o1 o3.
Proof.
  destruct o1 as [m1|], o2 as [m2|], o3 as [m3|]; simpl; try tauto.
  - apply MarketStep_trans.
  - intros (c & a & t & i & o & Hc & H1) H2. exists c, a, t, i, o.
    split; [exact Hc|]. eapply MarketStep_trans; eassumption.
Qed.

Lemma MarketsDescend_refl (s : Store) : MarketsDescend norm G s s.
Proof. intros k. apply marketDescends_refl. Qed.

Lemma MarketsDescend_trans (s1 s2 s3 : Store) :
  MarketsDescend norm G s1 s2 -> MarketsDescend norm G s2 s3 ->
  MarketsDescend norm G s1 s3.
Proof. intros H12 H23 k. eapply marketDescends_trans; [apply H12 | apply H23]. Qed.

Lemma MarketsDescend_ext (s s' : Store) :
  markets s' = markets s -> MarketsDescend norm G s s'.
Proof. intros E k. rewrite E. apply marketDescends_refl. Qed.

Lemma save_Market_descend (market : Market.t) (s : Store) :
  InHand norm G market s -> MarketsDescend norm G s (save_Market market s).
Proof.
  intros Hm k. simpl. rewrite lookup_insert. case_decide as Hk.
  - subst k. exact Hm.
  - apply marketDescends_refl.
Qed.

Lemma InHand_saved (market : Market.t) (s : Store) :
  InHand norm G market (save_Market market s).
Proof. unfold InHand. simpl. rewrite lookup_insert_eq. apply step_none. Qed.

Lemma InHand_step (m m' : Market.t) (s : Store) :
  InHand norm G m s -> MarketStep norm G m m' -> InHand norm G m' s.
Proof.
  unfold InHand. intros Hm Hs. rewrite (MarketStep_id _ _ Hs).
  eapply marketDescends_trans; [exact Hm|]. exact Hs.
Qed.

Lemma InHand_ext (m : Market.t) (s s' : Store) :
  markets s' = markets s -> InHand norm G m s -> InHand norm G m s'.
Proof. unfold InHand. intros ->. auto. Qed.

Lemma InHand_stored (k : string) (m : Market.t) (s : Store) :
  Keyed Market.id (markets s) -> markets s !! k = Some m -> InHand norm G m s.
Proof.
  intros Hk E. unfold InHand. rewrite (Hk _ _ E), E. apply step_none.
Qed.

Lemma getOrCreateMarket_fresh (c : Chain) (asset : Address) (t : Z) (s : Store) :
  markets s !! getTokenId asset = None ->
  exists i o s2,
    getOrCreateMarket norm c asset t s
    = (updateMarketState norm c (freshMarket c asset t i o),
       save_Market (updateMarketState norm c (freshMarket c asset t i o)) s2)
    /\ markets s2 = markets s.
Proof.
  intros E. unfold getOrCreateMarket. rewrite E.
  pose proof (getOrCreateToken_frame norm c asset s) as F1.
  destruct (getOrCreateToken norm c asset s) as [t1 s1]; simpl in F1.
  match goal with |- context [getOrCreateToken norm c ?a s1] =>
    pose proof (getOrCreateToken_frame norm c a s1) as F2;
    destruct (getOrCreateToken norm c a s1) as [t2 s2] end.
  simpl in F2. exists (Token.id t1), (Token.id t2), s2.
  split; [reflexivity|]. destruct F1 as (_ & F1 & _), F2 as (_ & F2 & _). congruence.
Qed.

Lemma getOrCreateMarket_descend (c : Chain) (asset : Address) (t : Z) (s : Store) :
  Keyed Market.id (markets s) -> G c ->
  let ms := getOrCreateMarket norm c asset t s in
  MarketsDescend norm G s (snd ms) /\ InHand norm G (fst ms) (snd ms).
Proof.
  intros Hk Hc. cbv zeta.
  destruct (markets s !! getTokenId asset) as [m|] eqn:E.
  - rewrite (getOrCreateMarket_stored norm c asset t s m E). simpl.
    split; [apply MarketsDescend_refl | exact (InHand_stored _ _ _ Hk E)].
  - destruct (getOrCreateMarket_fresh c asset t s E) as (i & o & s2 & -> & E2).
    simpl. split; [|apply InHand_saved].
    eapply MarketsDescend_trans; [apply (MarketsDescend_ext s s2 E2)|].
    apply save_Market_descend. unfold InHand.
    rewrite updateMarketState_id, E2. simpl. rewrite E.
    exists c, asset, t, i, o. split; [exact Hc|].
    apply step_resync; [exact Hc | apply step_none].
Qed.

Lemma accrue_descend (market : Market.t) (t : Z) (s : Store) :
  InHand norm G market s ->
  let ms := calculateAndAccumulateRevenue norm market t s in
  MarketsDescend norm G s (snd ms) /\ InHand norm G (fst ms) (snd ms)
  /\ MarketStep norm G market (fst ms).
Proof.
  intros Hm. cbv zeta. unfold calculateAndAccumulateRevenue.
  pose proof (getOrCreateProtocol_frame s) as F.
  destruct (getOrCreateProtocol s) as [p s0]; simpl in F.
  assert (E0 : markets s0 = markets s) by tauto.
  destruct (t <=? Market.lastRevenueCalculationTimestamp market); simpl.
  - split; [apply MarketsDescend_ext, E0|].
    split; [apply (InHand_ext market s s0 E0 Hm) | apply step_none].
  - split; [|split; [apply InHand_saved | apply step_accrued, step_none]].
    match goal with |- MarketsDescend norm G s (save_Market ?m ?s1) =>
      assert (E1 : markets s1 = markets s)
        by (destruct (accrualComputes norm market s0); simpl; exact E0);
      apply (MarketsDescend_trans s s1); [apply MarketsDescend_ext, E1|];
      apply save_Market_descend;
      apply (InHand_step market); [apply (InHand_ext market s s1 E1 Hm)|]
    end.
    apply step_accrued, step_none.
Qed.

Lemma settleEvent_markets (c : Chain) (event : Event) (type : string)
    (user : User.t) (market : Market.t) (s : Store) :
  markets (settleEvent norm c event type user market s)
  = markets
      (save_Market
         (Market.set_lastUpdateBlock (blockNumber (eventBlock event))
            (Market.set_lastUpdateTimestamp (blockTimestamp (eventBlock event))
               (updateMarketState norm c market))) s).
Proof.
  unfold settleEvent.
  match goal with |- context [recalculateUserTotals norm c ?u ?s1] =>
    pose proof (recalculateUserTotals_frame norm c u s1) as H1;
    destruct (recalculateUserTotals norm c u s1) as [user1 s2] end.
  simpl in H1.
  pose proof (recalculateProtocolTotals_frame norm c s2) as H2. cbv zeta in H2.
  match goal with |- context [updateHourlySnapshot ?m ?e ?t ?v ?s1] =>
    pose proof (updateHourlySnapshot_frame m e t v s1) as H3;
    destruct (updateHourlySnapshot m e t v s1) as [h s3] end.
  simpl in H3.
  match goal with |- context [updateDailySnapshot norm ?m ?e ?t ?v ?a ?u ?s1] =>
    pose proof (updateDailySnapshot_frame norm m e t v a u s1) as H4;
    destruct (updateDailySnapshot norm m e t v a u s1) as [d s4] end.
  cbv zeta in H4. simpl in H4. simpl. intuition congruence.
Qed.

Lemma settleEvent_descend (c : Chain) (event : Event) (type : string)
    (user : User.t) (market : Market.t) (s : Store) :
  G c -> InHand norm G market s ->
  MarketsDescend norm G s (settleEvent norm c event type user market s).
Proof.
  intros Hc Hm.
  eapply MarketsDescend_trans; [|apply MarketsDescend_ext, settleEvent_markets].
  apply save_Market_descend. apply (InHand_step market); [exact Hm|].
  apply step_block, step_seen, step_resync; [exact Hc | apply step_none].
Qed.

Lemma openEvent_descend (c : Chain) (event : Event) (s : Store) :
  Keyed Market.id (markets s) -> G c ->
  let '(market, user, position, s1) := openEvent norm c event s in
  MarketsDescend norm G s s1 /\ InHand norm G market s1.
Proof.
  intros Hk Hc. unfold openEvent.
  pose proof (getOrCreateMarket_descend c (reserve event)
                (blockTimestamp (eventBlock event)) s Hk Hc) as H1. cbv zeta in H1.
  destruct (getOrCreateMarket norm c _ _ s) as [market s1]; simpl in H1.
  pose proof (getOrCreateUser_frame (account event) s1) as H2.
  destruct (getOrCreateUser (account event) s1) as [user s2]; simpl in H2.
  pose proof (getOrCreateUserPosition_frame user market s2) as H3.
  destruct (getOrCreateUserPosition user market s2) as [position s3]; simpl in H3.
  assert (E3 : markets s3 = markets s1) by (intuition congruence).
  pose proof (accrue_descend market (blockTimestamp (eventBlock event)) s3
                (InHand_ext market s1 s3 E3 (proj2 H1))) as H4.
  cbv zeta in H4.
  destruct (calculateAndAccumulateRevenue norm market _ s3) as [market' s4].
  simpl in H4. split; [|tauto].
  eapply MarketsDescend_trans; [apply H1|].
  eapply MarketsDescend_trans; [apply (MarketsDescend_ext s1 s3 E3)|]. tauto.
Qed.

Lemma processMarketInBlock_descend (c : Chain) (market : Market.t) (block : Block)
    (s : Store) :
  G c -> InHand norm G market s ->
  MarketsDescend norm G s (processMarketInBlock norm c market block s).
Proof.
  intros Hc Hm. unfold processMarketInBlock.
  match goal with |- context [calculateAndAccumulateRevenue norm ?m ?t ?s0] =>
    assert (E0 : markets s0 = markets s) by (destruct (tokens s !! _); reflexivity);
    assert (Hm0 : InHand norm G m s0)
      by (apply (InHand_ext m s s0 E0), (InHand_step market); [exact Hm|];
          apply step_resync; [exact Hc | apply step_none]);
    pose proof (accrue_descend m t s0 Hm0) as H1;
    destruct (calculateAndAccumulateRevenue norm m t s0) as [m1 s1] end.
  cbv zeta in H1. simpl in H1. destruct H1 as (Ha & Hb & _).
  eapply MarketsDescend_trans; [apply (MarketsDescend_ext s _ E0)|].
  eapply MarketsDescend_trans; [exact Ha|].
  apply save_Market_descend. apply (InHand_step m1); [exact Hb|].
  apply step_block, step_seen, step_variableBorrowAPY, step_supplyAPY, step_none.
Qed.

Lemma recalculateProtocolTotals_descend (c : Chain) (s : Store) :
  MarketsDescend norm G s (recalculateProtocolTotals norm c s).
Proof.
  apply MarketsDescend_ext. apply (recalculateProtocolTotals_frame norm c s).
Qed.

Lemma handle_descend (trigger : Trigger) (s : Store) :
  StoreKeyed s -> G (chainOf trigger) ->
  MarketsDescend norm G s (handle norm trigger s).
Proof.
  intros Hs Hc. assert (Hk : Keyed Market.id (markets s)) by apply Hs.
  destruct trigger as [c event|c event|c event|c event|c event|c block];
    simpl in Hc; simpl.
  1-4: unfold handleSupply, handleWithdraw, handleBorrow, handleRepay;
       pose proof (openEvent_descend c event s Hk Hc) as H1;
       destruct (openEvent norm c event s) as [[[market user] position] s1];
       destruct H1 as [H1 Hn];
       (eapply MarketsDescend_trans; [exact H1|]);
       match goal with |- MarketsDescend _ _ s1 (settleEvent _ _ _ _ _ _ ?s2) =>
         apply (MarketsDescend_trans s1 s2); [apply MarketsDescend_ext; reflexivity|];
         apply settleEvent_descend; [exact Hc|];
         apply (InHand_ext market s1 s2); [reflexivity | exact Hn]
       end.
  - unfold handleReserveDataUpdated.
    pose proof (getOrCreateMarket_descend c (rateReserve event)
                  (blockTimestamp (rateBlock event)) s Hk Hc) as H1. cbv zeta in H1.
    destruct (getOrCreateMarket norm c _ _ s) as [market s1]; simpl in H1.
    pose proof (accrue_descend market (blockTimestamp (rateBlock event)) s1
                  (proj2 H1)) as H2. cbv zeta in H2.
    destruct (calculateAndAccumulateRevenue norm market _ s1) as [market' s2].
    simpl in H2. destruct H2 as (Ha & Hb & _).
    eapply MarketsDescend_trans; [apply H1|].
    eapply MarketsDescend_trans; [exact Ha|].
    eapply MarketsDescend_trans; [|apply recalculateProtocolTotals_descend].
    apply save_Market_descend. apply (InHand_step market'); [exact Hb|].
    apply step_resync; [exact Hc|].
    apply step_block, step_seen, step_variableBorrowAPY, step_supplyAPY,
      step_stableBorrowRate, step_variableBorrowRate, step_liquidityRate, step_none.
  - unfold handleBlock.
    pose proof (getOrCreateProtocol_frame s) as F0.
    pose proof (getOrCreateProtocol_keyed s Hs) as K0.
    destruct (getOrCreateProtocol s) as [protocol s0]; simpl in F0, K0.
    assert (H0 : MarketsDescend norm G s s0) by (apply MarketsDescend_ext; tauto).
    destruct (try_getReservesList c) as [reserves|]; [|exact H0].
    eapply MarketsDescend_trans; [|apply recalculateProtocolTotals_descend].
    apply (fold_left_invariant (fun a => StoreKeyed a /\ MarketsDescend norm G s a));
      [|split; assumption].
    intros a r [Ka Ha]. unfold handleBlockStep.
    destruct (markets a !! toLowerCase r) as [m|] eqn:E.
    + split; [apply processMarketInBlock_keyed, Ka|].
      eapply MarketsDescend_trans; [exact Ha|].
      apply processMarketInBlock_descend; [exact Hc|].
      apply (InHand_stored _ _ _ ltac:(apply Ka) E).
    + pose proof (getOrCreateMarket_descend c r (blockTimestamp block) a
                    ltac:(apply Ka) Hc) as H1. cbv zeta in H1.
      pose proof (getOrCreateMarket_keyed norm c r (blockTimestamp block) a Ka) as K1.
      destruct (getOrCreateMarket norm c r _ a) as [m s1]. simpl in H1, K1.
      split; [apply processMarketInBlock_keyed, K1|].
      eapply MarketsDescend_trans; [exact Ha|].
      eapply MarketsDescend_trans; [apply H1|].
      apply processMarketInBlock_descend; tauto.
Qed.

Lemma run_descend (triggers : list Trigger) (s : Store) :
  StoreKeyed s -> Forall (fun trigger => G (chainOf trigger)) triggers ->
  MarketsDescend norm G s (run norm triggers s).
Proof.
  unfold run. revert s. induction triggers as [|t ts IH]; intros s Hs Hg; simpl.
  - apply MarketsDescend_refl.
  - inversion Hg as [|t0 ts0 Ht Hts]; subst.
    eapply MarketsDescend_trans; [exact (handle_descend t s Hs Ht)|].
    apply IH; [apply handle_keyed, Hs | exact Hts].
Qed.

(** A property that the steps keep and fresh markets have holds of every
    market on record once it holds of those that were. *)
Lemma descend_all (P : Market.t -> Prop) (s s' : Store) :
  (forall m m', MarketStep norm G m m' -> P m -> P m') ->
  (forall c asset t i o, G c -> P (freshMarket c asset t i o)) ->
  MarketsDescend norm G s s' -> AllMarkets P s -> AllMarkets P s'.
Proof.
  intros Hstep Hfresh Hd Hs k m' E. specialize (Hd k). rewrite E in Hd.
  destruct (markets s !! k) as [m|] eqn:E0; simpl in Hd.
  - exact (Hstep m m' Hd (Hs k m E0)).
  - destruct Hd as (c & a & t & i & o & Hc & Hd).
    exact (Hstep _ m' Hd (Hfresh c a t i o Hc)).
Qed.

End Descent.

Lemma MarketStep_config (norm : Qc -> Qc) (G : Chain -> Prop) (m m' : Market.t) :
  MarketStep norm G m m' -> marketConfig m' = marketConfig m.
Proof.
  induction 1; try assumption; try reflexivity.
  rewrite <- IHMarketStep. unfold updateMarketState.
  destruct (try_getReserveData c (Market.asset m')); reflexivity.
Qed.

Lemma MarketStep_derived (norm : Qc -> Qc) (G : Chain -> Prop) (m m' : Market.t) :
  MarketStep norm G m m' -> derivedFieldsAgree norm m -> derivedFieldsAgree norm m'.
Proof.
  induction 1; intros Hm; try (exact (IHMarketStep Hm)); [exact Hm|].
  specialize (IHMarketStep Hm). unfold updateMarketState.
  destruct (try_getReserveData c (Market.asset m')); [|exact IHMarketStep].
  split; reflexivity.
Qed.

Lemma all_chains (triggers : list Trigger) :
  Forall (fun trigger => (fun _ : Chain => True) (chainOf trigger)) triggers.
Proof. apply Forall_forall. intros. exact I. Qed.

(** X11. The identity, the token addresses and the risk configuration of a
    market (LTV, liquidation threshold, liquidation penalty, reserve factor)
    are those it was created with: across any sequence of triggers, whatever
    the chains report, a market on record stays on record under its key with
    these twelve fields unchanged.  In particular the reserve factor that
    splits the revenue is never read again from the chain. *)
Theorem market_configuration_is_frozen (norm : Qc -> Qc) (triggers : list Trigger)
    (s : Store) (k : string) (market : Market.t) :
  StoreKeyed s -> markets s !! k = Some market ->
  exists market' : Market.t,
    markets (run norm triggers s) !! k = Some market'
    /\ marketConfig market' = marketConfig market.
Proof.
  intros Hs E.
  pose proof (run_descend norm (fun _ => True) triggers s Hs (all_chains triggers) k)
    as Hd.
  rewrite E in Hd. destruct (markets (run norm triggers s) !! k) as [m'|]; simpl in Hd;
    [|contradiction].
  exists m'. split; [reflexivity|]. exact (MarketStep_config _ _ _ _ Hd).
Qed.

Lemma market_configuration_is_frozen_witness :
  exists market' : Market.t,
    markets (run round34 [OnBlock baseChain laterBlock] (usdcStore zeroFactorMarket))
      !! USDC = Some market'
    /\ Market.reserveFactor market' = 0.
Proof.
  assert (Hs : StoreKeyed (usdcStore zeroFactorMarket)).
  { unfold usdcStore. apply save_Protocol_keyed, save_Market_keyed, save_Token_keyed,
      emptyStore_keyed. }
  destruct (market_configuration_is_frozen round34 [OnBlock baseChain laterBlock]
              (usdcStore zeroFactorMarket) USDC zeroFactorMarket Hs eq_refl)
    as (m' & E & Hc).
  exists m'. split; [exact E|].
  exact (f_equal snd Hc).
Defined.

(** X12. On every market on record the available liquidity is the total
    supply less the total borrow (it is negative when the borrow exceeds the
    supply) and the utilization rate is the one [calculateUtilizationRate]
    gives for the two totals on record: the handlers write the totals only
    through [updateMarketState], which recomputes both.  This holds in every
    store reached from the empty one, and is kept from any store where it
    holds. *)
Theorem market_derived_fields_agree (norm : Qc -> Qc) (triggers : list Trigger) :
  (forall s : Store,
      StoreKeyed s -> AllMarkets (derivedFieldsAgree norm) s ->
      AllMarkets (derivedFieldsAgree norm) (run norm triggers s))
  /\ AllMarkets (derivedFieldsAgree norm) (run norm triggers emptyStore).
Proof.
  assert (Hrun : forall s : Store,
             StoreKeyed s -> AllMarkets (derivedFieldsAgree norm) s ->
             AllMarkets (derivedFieldsAgree norm) (run norm triggers s)).
  { intros s Hs Ha.
    apply (descend_all norm (fun _ => True) (derivedFieldsAgree norm) s).
    - apply MarketStep_derived.
    - intros c asset t i o _. split; reflexivity.
    - apply run_descend; [exact Hs | apply all_chains].
    - exact Ha. }
  split; [exact Hrun|].
  apply Hrun; [apply emptyStore_keyed|].
  intros k m. simpl. rewrite lookup_empty. discriminate.
Qed.

Lemma market_derived_fields_agree_witness :
  AllMarkets (derivedFieldsAgree round34)
    (run round34 [OnBlock baseChain laterBlock] (usdcStore idleMarket)).
Proof.
  apply (proj1 (market_derived_fields_agree round34 [OnBlock baseChain laterBlock])).
  - unfold usdcStore. apply save_Protocol_keyed, save_Market_keyed, save_Token_keyed,
      emptyStore_keyed.
  - intros k m. unfold usdcStore. simpl. rewrite lookup_insert. case_decide.
    + intros [= <-]. split; reflexivity.
    + rewrite lookup_empty. discriminate.
Defined.

(** ** Where the tokens on record come from *)

Section TokenDescent.

Variable norm : Qc -> Qc.
Variable G : Chain -> Prop.

Lemma TokenStep_trans (t1 t2 t3 : Token.t) :
  TokenStep norm G t1 t2 -> TokenStep norm G t2 t3 -> TokenStep norm G t1 t3.
Proof. intros H12 H23. induction H23; [exact H12| |]; constructor; auto. Qed.

Lemma TokenStep_metadata (t t' : Token.t) :
  TokenStep norm G t t' -> tokenMetadata t' = tokenMetadata t.
Proof. induction 1; try assumption; reflexivity. Qed.

Lemma tokenDescends_refl (o : option Token.t) : tokenDescends norm G o o.
Proof. destruct o; simpl; [apply tstep_none | exact I]. Qed.

Lemma tokenDescends_trans (o1 o2 o3 : option Token.t) :
  tokenDescends norm G o1 o2 -> tokenDescends norm G o2 o3 ->
  tokenDescends norm G o1 o3.
Proof.
  destruct o1 as [t1|], o2 as [t2|], o3 as [t3|]; simpl; try tauto.
  - apply TokenStep_trans.
  - intros (c & a & Hc & H1) H2. exists c, a.
    split; [exact Hc|]. eapply TokenStep_trans; eassumption.
Qed.

Lemma TokensDescend_refl (s : Store) : TokensDescend norm G s s.
Proof. intros k. apply tokenDescends_refl. Qed.

Lemma TokensDescend_trans (s1 s2 s3 : Store) :
  TokensDescend norm G s1 s2 -> TokensDescend norm G s2 s3 ->
  TokensDescend norm G s1 s3.
Proof. intros H12 H23 k. eapply tokenDescends_trans; [apply H12 | apply H23]. Qed.

Lemma TokensDescend_ext (s s' : Store) :
  tokens s' = tokens s -> TokensDescend norm G s s'.
Proof. intros E k. rewrite E. apply tokenDescends_refl. Qed.

(** A token that was loaded under its id, stepped and saved. *)
Lemma save_Token_descend (k : string) (token token' : Token.t) (s : Store) :
  tokens s !! k = Some token -> Token.id token = k ->
  TokenStep norm G token token' ->
  TokensDescend norm G s (save_Token token' s).
Proof.
  intros E Hid Hstep k'. simpl. rewrite lookup_insert.
  assert (Hid' : Token.id token' = k).
  { pose proof (TokenStep_metadata _ _ Hstep) as Hm. unfold tokenMetadata in Hm.
    rewrite <- Hid. congruence. }
  case_decide as Hk.
  - subst k'. rewrite Hid', E. exact Hstep.
  - apply tokenDescends_refl.
Qed.

Lemma getOrCreateToken_descend (c : Chain) (address : Address) (s : Store) :
  G c -> TokensDescend norm G s (snd (getOrCreateToken norm c address s)).
Proof.
  intros Hc. unfold getOrCreateToken.
  destruct (tokens s !! getTokenId address) as [token|] eqn:E; simpl.
  - apply TokensDescend_refl.
  - intros k. simpl. rewrite lookup_insert. case_decide as Hk.
    + subst k. rewrite E. exists c, address. split; [exact Hc | apply tstep_none].
    + apply tokenDescends_refl.
Qed.

Lemma getOrCreateMarket_tokens (c : Chain) (asset : Address) (t : Z) (s : Store) :
  G c -> TokensDescend norm G s (snd (getOrCreateMarket norm c asset t s)).
Proof.
  intros Hc. unfold getOrCreateMarket.
  destruct (markets s !! getTokenId asset); simpl; [apply TokensDescend_refl|].
  pose proof (getOrCreateToken_descend c asset s Hc) as H1.
  destruct (getOrCreateToken norm c asset s) as [t1 s1]; simpl in H1.
  match goal with |- context [getOrCreateToken norm c ?a s1] =>
    pose proof (getOrCreateToken_descend c a s1 Hc) as H2;
    destruct (getOrCreateToken norm c a s1) as [t2 s2] end.
  simpl in *. eapply TokensDescend_trans; [exact H1|].
  eapply TokensDescend_trans; [exact H2|]. apply TokensDescend_ext. reflexivity.
Qed.

Lemma protocolTotalsStep_tokens (c : Chain) (acc : Qc * Qc * Store) (r : Address) :
  G c -> Keyed Token.id (tokens (snd acc)) ->
  TokensDescend norm G (snd acc) (snd (protocolTotalsStep norm c acc r)).
Proof.
  intros Hc Hk. destruct acc as [[x y] s]. unfold protocolTotalsStep. simpl in Hk.
  destruct (markets s !! toLowerCase r) as [m|]; [|apply TokensDescend_refl].
  destruct (tokens s !! Market.inputToken m) as [token|] eqn:E;
    [|apply TokensDescend_refl].
  simpl. apply (save_Token_descend _ token _ s E (Hk _ _ E)).
  apply tstep_price; [exact Hc | apply tstep_none].
Qed.

Lemma recalculateProtocolTotals_tokens (c : Chain) (s : Store) :
  G c -> StoreKeyed s ->
  TokensDescend norm G s (recalculateProtocolTotals norm c s).
Proof.
  intros Hc Hs. unfold recalculateProtocolTotals.
  pose proof (getOrCreateProtocol_frame s) as F0.
  pose proof (getOrCreateProtocol_keyed s Hs) as K0.
  destruct (getOrCreateProtocol s) as [p s0]; simpl in F0, K0.
  assert (E0 : tokens s0 = tokens s) by tauto.
  destruct (try_getReservesList c) as [reserves|];
    [|apply TokensDescend_ext; simpl; exact E0].
  assert (H1 : StoreKeyed (snd (fold_left (protocolTotalsStep norm c) reserves
                                  (ZERO_BD, ZERO_BD, s0)))
               /\ TokensDescend norm G s
                    (snd (fold_left (protocolTotalsStep norm c) reserves
                            (ZERO_BD, ZERO_BD, s0)))).
  { apply (fold_left_invariant
             (fun a => StoreKeyed (snd a) /\ TokensDescend norm G s (snd a)));
      [|split; [exact K0 | apply TokensDescend_ext, E0]].
    intros a r [Ka Ha]. split.
    - destruct a as [[x y] s1]. unfold protocolTotalsStep.
      destruct (markets s1 !! toLowerCase r) as [m|]; [|exact Ka].
      destruct (tokens s1 !! Market.inputToken m); [|exact Ka].
      simpl in *. apply save_Token_keyed, Ka.
    - eapply TokensDescend_trans; [exact Ha|].
      apply protocolTotalsStep_tokens; [exact Hc | apply Ka]. }
  destruct (fold_left _ reserves _) as [[x y] s1]. simpl in H1.
  eapply TokensDescend_trans; [apply H1|]. apply TokensDescend_ext. reflexivity.
Qed.

Lemma settleEvent_tokens (c : Chain) (event : Event) (type : string)
    (user : User.t) (market : Market.t) (s : Store) :
  G c -> StoreKeyed s ->
  TokensDescend norm G s (settleEvent norm c event type user market s).
Proof.
  intros Hc Hs. unfold settleEvent.
  match goal with |- context [recalculateUserTotals norm c ?u ?s1] =>
    assert (K1 : StoreKeyed s1) by (unfold createTransaction; auto using
      save_User_keyed, save_Transaction_keyed, save_Market_keyed);
    assert (E1 : tokens s1 = tokens s) by reflexivity;
    pose proof (recalculateUserTotals_frame norm c u s1) as H1;
    pose proof (recalculateUserTotals_keyed norm c u s1 K1) as K2;
    destruct (recalculateUserTotals norm c u s1) as [user1 s2] end.
  simpl in H1, K2.
  pose proof (recalculateProtocolTotals_tokens c s2 Hc K2) as H2.
  match goal with |- context [updateHourlySnapshot ?m ?e ?t ?v ?s1] =>
    pose proof (updateHourlySnapshot_frame m e t v s1) as H3;
    destruct (updateHourlySnapshot m e t v s1) as [h s3] end.
  simpl in H3.
  match goal with |- context [updateDailySnapshot norm ?m ?e ?t ?v ?a ?u ?s1] =>
    pose proof (updateDailySnapshot_frame norm m e t v a u s1) as H4;
    destruct (updateDailySnapshot norm m e t v a u s1) as [d s4] end.
  cbv zeta in H4. simpl in H4.
  eapply TokensDescend_trans; [apply (TokensDescend_ext s s2); intuition congruence|].
  eapply TokensDescend_trans; [exact H2|].
  apply TokensDescend_ext. intuition congruence.
Qed.

Lemma openEvent_tokens (c : Chain) (event : Event) (s : Store) :
  G c -> TokensDescend norm G s (snd (openEvent norm c event s)).
Proof.
  intros Hc. unfold openEvent.
  pose proof (getOrCreateMarket_tokens c (reserve event)
                (blockTimestamp (eventBlock event)) s Hc) as H1.
  destruct (getOrCreateMarket norm c _ _ s) as [market s1]; simpl in H1.
  pose proof (getOrCreateUser_frame (account event) s1) as H2.
  destruct (getOrCreateUser (account event) s1) as [user s2]; simpl in H2.
  pose proof (getOrCreateUserPosition_frame user market s2) as H3.
  destruct (getOrCreateUserPosition user market s2) as [position s3]; simpl in H3.
  pose proof (calculateAndAccumulateRevenue_frame norm market
                (blockTimestamp (eventBlock event)) s3) as H4.
  destruct (calculateAndAccumulateRevenue norm market _ s3) as [market' s4].
  simpl in H4. simpl. eapply TokensDescend_trans; [exact H1|].
  apply TokensDescend_ext. intuition congruence.
Qed.

Lemma processMarketInBlock_tokens (c : Chain) (market : Market.t) (block : Block)
    (s : Store) :
  G c -> Keyed Token.id (tokens s) ->
  TokensDescend norm G s (processMarketInBlock norm c market block s).
Proof.
  intros Hc Hk. unfold processMarketInBlock.
  match goal with |- context [calculateAndAccumulateRevenue norm ?m ?t ?s0] =>
    assert (H0 : TokensDescend norm G s s0);
      [|pose proof (calculateAndAccumulateRevenue_frame norm m t s0) as H1;
        destruct (calculateAndAccumulateRevenue norm m t s0) as [m1 s1]] end.
  { destruct (tokens s !! _) as [token|] eqn:E; [|apply TokensDescend_refl].
    apply (save_Token_descend _ token _ s E (Hk _ _ E)).
    apply tstep_stamp, tstep_price; [exact Hc | apply tstep_none]. }
  simpl in H1. eapply TokensDescend_trans; [exact H0|].
  apply TokensDescend_ext. simpl. tauto.
Qed.

Lemma handle_tokens (trigger : Trigger) (s : Store) :
  StoreKeyed s -> G (chainOf trigger) ->
  TokensDescend norm G s (handle norm trigger s).
Proof.
  intros Hs Hc.
  destruct trigger as [c event|c event|c event|c event|c event|c block];
    simpl in Hc; simpl.
  1-4: unfold handleSupply, handleWithdraw, handleBorrow, handleRepay;
       pose proof (openEvent_tokens c event s Hc) as H1;
       pose proof (openEvent_keyed norm c event s Hs) as K1;
       destruct (openEvent norm c event s) as [[[market user] position] s1];
       simpl in H1, K1;
       (eapply TokensDescend_trans; [exact H1|]);
       match goal with |- TokensDescend _ _ s1 (settleEvent _ _ _ _ _ _ ?s2) =>
         apply (TokensDescend_trans s1 s2); [apply TokensDescend_ext; reflexivity|];
         apply settleEvent_tokens; [exact Hc | apply save_UserPosition_keyed, K1]
       end.
  - unfold handleReserveDataUpdated.
    pose proof (getOrCreateMarket_tokens c (rateReserve event)
                  (blockTimestamp (rateBlock event)) s Hc) as H1.
    pose proof (getOrCreateMarket_keyed norm c (rateReserve event)
                  (blockTimestamp (rateBlock event)) s Hs) as K1.
    destruct (getOrCreateMarket norm c _ _ s) as [market s1]; simpl in H1, K1.
    pose proof (calculateAndAccumulateRevenue_frame norm market
                  (blockTimestamp (rateBlock event)) s1) as H2.
    pose proof (calculateAndAccumulateRevenue_keyed norm market
                  (blockTimestamp (rateBlock event)) s1 K1) as K2.
    destruct (calculateAndAccumulateRevenue norm market _ s1) as [market' s2].
    simpl in H2, K2.
    eapply TokensDescend_trans; [exact H1|].
    eapply TokensDescend_trans; [apply (TokensDescend_ext s1 s2); tauto|].
    match goal with |- TokensDescend _ _ s2 (recalculateProtocolTotals _ _ ?s3) =>
      apply (TokensDescend_trans s2 s3); [apply TokensDescend_ext; reflexivity|];
      apply recalculateProtocolTotals_tokens; [exact Hc | apply save_Market_keyed, K2]
    end.
  - unfold handleBlock.
    pose proof (getOrCreateProtocol_frame s) as F0.
    pose proof (getOrCreateProtocol_keyed s Hs) as K0.
    destruct (getOrCreateProtocol s) as [protocol s0]; simpl in F0, K0.
    assert (H0 : TokensDescend norm G s s0) by (apply TokensDescend_ext; tauto).
    destruct (try_getReservesList c) as [reserves|]; [|exact H0].
    assert (H1 : StoreKeyed (fold_left (handleBlockStep norm c block) reserves s0)
                 /\ TokensDescend norm G s
                      (fold_left (handleBlockStep norm c block) reserves s0)).
    { apply (fold_left_invariant (fun a => StoreKeyed a /\ TokensDescend norm G s a));
        [|split; assumption].
      intros a r [Ka Ha]. unfold handleBlockStep.
      destruct (markets a !! toLowerCase r) as [m|] eqn:E.
      - split; [apply processMarketInBlock_keyed, Ka|].
        eapply TokensDescend_trans; [exact Ha|].
        apply processMarketInBlock_tokens; [exact Hc | apply Ka].
      - pose proof (getOrCreateMarket_tokens c r (blockTimestamp block) a Hc) as H1.
        pose proof (getOrCreateMarket_keyed norm c r (blockTimestamp block) a Ka) as K1.
        destruct (getOrCreateMarket norm c r _ a) as [m s1]. simpl in H1, K1.
        split; [apply processMarketInBlock_keyed, K1|].
        eapply TokensDescend_trans; [exact Ha|].
        eapply TokensDescend_trans; [exact H1|].
        apply processMarketInBlock_tokens; [exact Hc | apply K1]. }
    eapply TokensDescend_trans; [apply H1|].
    apply recalculateProtocolTotals_tokens; [exact Hc | apply H1].
Qed.

Lemma run_tokens (triggers : list Trigger) (s : Store) :
  StoreKeyed s -> Forall (fun trigger => G (chainOf trigger)) triggers ->
  TokensDescend norm G s (run norm triggers s).
Proof.
  unfold run. revert s. induction triggers as [|t ts IH]; intros s Hs Hg; simpl.
  - apply TokensDescend_refl.
  - inversion Hg as [|t0 ts0 Ht Hts]; subst.
    eapply TokensDescend_trans; [exact (handle_tokens t s Hs Ht)|].
    apply IH; [apply handle_keyed, Hs | exact Hts].
Qed.

Lemma descend_all_tokens (P : Token.t -> Prop) (s s' : Store) :
  (forall t t', TokenStep norm G t t' -> P t -> P t') ->
  (forall c address, G c -> P (freshToken norm c address)) ->
  TokensDescend norm G s s' -> AllTokens P s -> AllTokens P s'.
Proof.
  intros Hstep Hfresh Hd Hs k t' E. specialize (Hd k). rewrite E in Hd.
  destruct (tokens s !! k) as [t|] eqn:E0; simpl in Hd.
  - exact (Hstep t t' Hd (Hs k t E0)).
  - destruct Hd as (c & a & Hc & Hd). exact (Hstep _ t' Hd (Hfresh c a Hc)).
Qed.

End TokenDescent.

(** X13. The symbol, the name, the decimals and the total supply of a token
    are those read when the token was first seen: across any sequence of
    triggers a token on record stays on record under its key with these
    fields (and its id) unchanged -- the handlers assign only its price and
    price timestamp.  The total supply in particular is never refreshed. *)
Theorem token_metadata_is_frozen (norm : Qc -> Qc) (triggers : list Trigger)
    (s : Store) (k : string) (token : Token.t) :
  StoreKeyed s -> tokens s !! k = Some token ->
  exists token' : Token.t,
    tokens (run norm triggers s) !! k = Some token'
    /\ tokenMetadata token' = tokenMetadata token.
Proof.
  intros Hs E.
  pose proof (run_tokens norm (fun _ => True) triggers s Hs (all_chains triggers) k)
    as Hd.
  rewrite E in Hd. destruct (tokens (run norm triggers s) !! k) as [t'|]; simpl in Hd;
    [|contradiction].
  exists t'. split; [reflexivity|]. exact (TokenStep_metadata _ _ _ _ Hd).
Qed.

Lemma token_metadata_is_frozen_witness :
  exists token' : Token.t,
    tokens (run round34 [OnBlock baseChain laterBlock] (usdcStore idleMarket)) !! USDC
    = Some token'
    /\ Token.totalSupply token' = 0.
Proof.
  assert (Hs : StoreKeyed (usdcStore idleMarket)).
  { unfold usdcStore. apply save_Protocol_keyed, save_Market_keyed, save_Token_keyed,
      emptyStore_keyed. }
  destruct (token_metadata_is_frozen round34 [OnBlock baseChain laterBlock]
              (usdcStore idleMarket) USDC usdcToken Hs eq_refl) as (t' & E & Hm).
  exists t'. split; [exact E|]. exact (f_equal snd Hm).
Defined.

(** ** What block ticks and rate events leave alone *)

Section Logs.

Variable norm : Qc -> Qc.

Lemma getOrCreateToken_logs (c : Chain) (address : Address) (s : Store) :
  logs (snd (getOrCreateToken norm c address s)) = logs s.
Proof.
  unfold getOrCreateToken. destruct (tokens s !! getTokenId address); reflexivity.
Qed.

Lemma getOrCreateMarket_logs (c : Chain) (asset : Address) (t : Z) (s : Store) :
  logs (snd (getOrCreateMarket norm c asset t s)) = logs s.
Proof.
  unfold getOrCreateMarket. destruct (markets s !! getTokenId asset); [reflexivity|].
  pose proof (getOrCreateToken_logs c asset s) as H1.
  destruct (getOrCreateToken norm c asset s) as [t1 s1]; simpl in H1.
  match goal with |- context [getOrCreateToken norm c ?a s1] =>
    pose proof (getOrCreateToken_logs c a s1) as H2;
    destruct (getOrCreateToken norm c a s1) as [t2 s2] end.
  simpl in *. unfold logs in *. simpl. congruence.
Qed.

Lemma getOrCreateProtocol_logs (s : Store) : logs (snd (getOrCreateProtocol s)) = logs s.
Proof. unfold getOrCreateProtocol. destruct (protocols s !! PROTOCOL_ID); reflexivity. Qed.

Lemma getOrCreateUser_logs (address : Address) (s : Store) :
  logs (snd (getOrCreateUser address s)) = logs s.
Proof. unfold getOrCreateUser. destruct (users s !! getTokenId address); reflexivity. Qed.

Lemma getOrCreateUserPosition_logs (user : User.t) (market : Market.t) (s : Store) :
  logs (snd (getOrCreateUserPosition user market s)) = logs s.
Proof.
  unfold getOrCreateUserPosition. destruct (userPositions s !! _); reflexivity.
Qed.

Lemma calculateAndAccumulateRevenue_logs (market : Market.t) (t : Z) (s : Store) :
  logs (snd (calculateAndAccumulateRevenue norm market t s)) = logs s.
Proof.
  unfold calculateAndAccumulateRevenue.
  pose proof (getOrCreateProtocol_logs s) as H0.
  destruct (getOrCreateProtocol s) as [protocol s0]; simpl in H0.
  destruct (t <=? Market.lastRevenueCalculationTimestamp market); simpl; [exact H0|].
  destruct (accrualComputes norm market s0); exact H0.
Qed.

Lemma recalculateUserTotals_logs (c : Chain) (user : User.t) (s : Store) :
  logs (snd (recalculateUserTotals norm c user s)) = logs s.
Proof.
  unfold recalculateUserTotals.
  destruct (match try_getReservesList c with Some _ => _ | None => _ end) as [a b].
  reflexivity.
Qed.

Lemma recalculateProtocolTotals_logs (c : Chain) (s : Store) :
  logs (recalculateProtocolTotals norm c s) = logs s.
Proof.
  unfold recalculateProtocolTotals.
  pose proof (getOrCreateProtocol_logs s) as H0.
  destruct (getOrCreateProtocol s) as [protocol s0]; simpl in H0.
  destruct (try_getReservesList c) as [reserves|]; [|exact H0].
  assert (H1 : logs (snd (fold_left (protocolTotalsStep norm c) reserves
                            (ZERO_BD, ZERO_BD, s0))) = logs s).
  { apply (fold_left_invariant (fun a => logs (snd a) = logs s)); [|exact H0].
    intros [[x y] s1] r H. unfold protocolTotalsStep.
    destruct (markets s1 !! toLowerCase r) as [m|]; [|exact H].
    destruct (tokens s1 !! Market.inputToken m); exact H. }
  destruct (fold_left _ reserves _) as [[x y] s1]. exact H1.
Qed.

Lemma processMarketInBlock_journal (c : Chain) (market : Market.t) (block : Block)
    (s : Store) :
  journal (processMarketInBlock norm c market block s) = journal s.
Proof.
  unfold processMarketInBlock.
  match goal with |- context [calculateAndAccumulateRevenue norm ?m ?t ?s0] =>
    assert (E0 : journal s0 = journal s) by (destruct (tokens s !! _); reflexivity);
    pose proof (calculateAndAccumulateRevenue_frame norm m t s0) as H1;
    pose proof (calculateAndAccumulateRevenue_logs m t s0) as H2;
    destruct (calculateAndAccumulateRevenue norm m t s0) as [m1 s1] end.
  simpl in H1, H2. unfold journal, logs in *. simpl.
  destruct H1 as (_ & -> & -> & -> & ->). injection H2 as -> ->. exact E0.
Qed.

Lemma getOrCreateMarket_journal (c : Chain) (asset : Address) (t : Z) (s : Store) :
  journal (snd (getOrCreateMarket norm c asset t s)) = journal s.
Proof.
  pose proof (getOrCreateMarket_frame norm c asset t s) as H1.
  pose proof (getOrCreateMarket_logs c asset t s) as H2.
  destruct (getOrCreateMarket norm c asset t s) as [m s1]. simpl in *.
  unfold journal, logs in *.
  destruct H1 as (_ & -> & -> & -> & ->). injection H2 as -> ->. reflexivity.
Qed.

Lemma recalculateProtocolTotals_journal (c : Chain) (s : Store) :
  journal (recalculateProtocolTotals norm c s) = journal s.
Proof.
  pose proof (recalculateProtocolTotals_frame norm c s) as H1. cbv zeta in H1.
  pose proof (recalculateProtocolTotals_logs c s) as H2.
  unfold journal, logs in *.
  destruct H1 as (_ & -> & -> & -> & ->). injection H2 as -> ->. reflexivity.
Qed.

Lemma getOrCreateProtocol_journal (s : Store) :
  journal (snd (getOrCreateProtocol s)) = journal s.
Proof. unfold getOrCreateProtocol. destruct (protocols s !! PROTOCOL_ID); reflexivity. Qed.

Lemma calculateAndAccumulateRevenue_journal (market : Market.t) (t : Z) (s : Store) :
  journal (snd (calculateAndAccumulateRevenue norm market t s)) = journal s.
Proof.
  pose proof (calculateAndAccumulateRevenue_frame norm market t s) as H1.
  pose proof (calculateAndAccumulateRevenue_logs market t s) as H2.
  destruct (calculateAndAccumulateRevenue norm market t s) as [m s1]. simpl in *.
  unfold journal, logs in *.
  destruct H1 as (_ & -> & -> & -> & ->). injection H2 as -> ->. reflexivity.
Qed.

Lemma handleBlock_journal (c : Chain) (block : Block) (s : Store) :
  journal (handleBlock norm c block s) = journal s.
Proof.
  unfold handleBlock.
  pose proof (getOrCreateProtocol_journal s) as H0.
  destruct (getOrCreateProtocol s) as [protocol s0]; simpl in H0.
  destruct (try_getReservesList c) as [reserves|]; [|exact H0].
  rewrite recalculateProtocolTotals_journal.
  apply (fold_left_invariant (fun a => journal a = journal s)); [|exact H0].
  intros a r Ha. unfold handleBlockStep.
  destruct (markets a !! toLowerCase r) as [m|].
  - rewrite processMarketInBlock_journal. exact Ha.
  - pose proof (getOrCreateMarket_journal c r (blockTimestamp block) a) as H1.
    destruct (getOrCreateMarket norm c r _ a) as [m s1]. simpl in H1.
    rewrite processMarketInBlock_journal. congruence.
Qed.

Lemma handleReserveDataUpdated_journal (c : Chain) (event : RateEvent) (s : Store) :
  journal (handleReserveDataUpdated norm c event s) = journal s.
Proof.
  unfold handleReserveDataUpdated.
  pose proof (getOrCreateMarket_journal c (rateReserve event)
                (blockTimestamp (rateBlock event)) s) as H1.
  destruct (getOrCreateMarket norm c _ _ s) as [market s1]; simpl in H1.
  pose proof (calculateAndAccumulateRevenue_journal market
                (blockTimestamp (rateBlock event)) s1) as H2.
  destruct (calculateAndAccumulateRevenue norm market _ s1) as [market' s2].
  simpl in H2. rewrite recalculateProtocolTotals_journal.
  unfold journal in *. simpl. congruence.
Qed.

Lemma handle_journal (trigger : Trigger) (s : Store) :
  eventOf trigger = None -> journal (handle norm trigger s) = journal s.
Proof.
  destruct trigger; simpl; try discriminate; intros _.
  - apply handleReserveDataUpdated_journal.
  - apply handleBlock_journal.
Qed.

End Logs.

(** X14. A block tick and a rate update write the protocol, the markets and
    the tokens only: users, positions, transactions, hourly and daily
    snapshots and active-user records are exactly what they were.  In
    particular neither of the two creates or refreshes a snapshot. *)
Theorem ticks_and_rate_updates_keep_the_journal (norm : Qc -> Qc) (c : Chain)
    (s : Store) :
  (forall block : Block, journal (handleBlock norm c block s) = journal s)
  /\ (forall event : RateEvent,
         journal (handleReserveDataUpdated norm c event s) = journal s).
Proof.
  split.
  - intros block. apply handleBlock_journal.
  - intros event. apply handleReserveDataUpdated_journal.
Qed.

(** ** What an event leaves in the journal *)

Section Events.

Variable norm : Qc -> Qc.

Lemma accrue_id (market : Market.t) (t : Z) (s : Store) :
  Market.id (fst (calculateAndAccumulateRevenue norm market t s)) = Market.id market.
Proof.
  unfold calculateAndAccumulateRevenue. destruct (getOrCreateProtocol s) as [p s0].
  destruct (t <=? Market.lastRevenueCalculationTimestamp market); reflexivity.
Qed.

Lemma getOrCreateMarket_id (c : Chain) (asset : Address) (t : Z) (s : Store) :
  Keyed Market.id (markets s) ->
  Market.id (fst (getOrCreateMarket norm c asset t s)) = getTokenId asset.
Proof.
  intros Hk. destruct (markets s !! getTokenId asset) as [m|] eqn:E.
  - rewrite (getOrCreateMarket_stored norm c asset t s m E). exact (Hk _ _ E).
  - destruct (getOrCreateMarket_fresh norm c asset t s E) as (i & o & s2 & -> & _).
    simpl. rewrite updateMarketState_id. reflexivity.
Qed.

Lemma openEvent_journal (c : Chain) (event : Event) (s : Store) :
  Keyed Market.id (markets s) -> Keyed User.id (users s) ->
  let '(market, user, position, s1) := openEvent norm c event s in
  Market.id market = getTokenId (reserve event)
  /\ User.id user = getTokenId (account event)
  /\ users s1 !! User.id user = Some user
  /\ (forall k, k <> User.id user -> users s1 !! k = users s !! k)
  /\ match users s !! getTokenId (account event) with
     | Some before => before = user
     | None => User.transactionCount user = 0
     end
  /\ logs s1 = logs s.
Proof.
  intros Hm Hu. unfold openEvent.
  pose proof (getOrCreateMarket_id c (reserve event)
                (blockTimestamp (eventBlock event)) s Hm) as I1.
  pose proof (getOrCreateMarket_frame norm c (reserve event)
                (blockTimestamp (eventBlock event)) s) as F1.
  pose proof (getOrCreateMarket_logs norm c (reserve event)
                (blockTimestamp (eventBlock event)) s) as L1.
  destruct (getOrCreateMarket norm c _ _ s) as [market s1]; simpl in I1, F1, L1.
  assert (E1 : users s1 = users s) by tauto.
  assert (H2 : exists user s2,
             getOrCreateUser (account event) s1 = (user, s2)
             /\ User.id user = getTokenId (account event)
             /\ users s2 !! User.id user = Some user
             /\ (forall k, k <> User.id user -> users s2 !! k = users s !! k)
             /\ match users s !! getTokenId (account event) with
                | Some before => before = user
                | None => User.transactionCount user = 0
                end
             /\ logs s2 = logs s).
  { unfold getOrCreateUser. rewrite E1.
    destruct (users s !! getTokenId (account event)) as [u|] eqn:E.
    - exists u, s1. rewrite (Hu _ _ E), E1, E. repeat split; auto.
    - eexists _, _. split; [reflexivity|]. simpl. rewrite lookup_insert_eq.
      repeat split; try reflexivity.
      + intros k Hk. rewrite lookup_insert_ne by congruence. rewrite E1. reflexivity.
      + exact L1. }
  destruct H2 as (user & s2 & -> & I2 & U2 & O2 & B2 & L2).
  pose proof (getOrCreateUserPosition_frame user market s2) as F3.
  pose proof (getOrCreateUserPosition_logs user market s2) as L3.
  destruct (getOrCreateUserPosition user market s2) as [position s3].
  simpl in F3, L3.
  pose proof (calculateAndAccumulateRevenue_frame norm market
                (blockTimestamp (eventBlock event)) s3) as F4.
  pose proof (calculateAndAccumulateRevenue_logs norm market
                (blockTimestamp (eventBlock event)) s3) as L4.
  pose proof (accrue_id market (blockTimestamp (eventBlock event)) s3) as I4.
  destruct (calculateAndAccumulateRevenue norm market _ s3) as [market' s4].
  simpl in F4, L4, I4.
  assert (E4 : users s4 = users s2) by (intuition congruence).
  rewrite E4. repeat split; try assumption; congruence.
Qed.

Lemma updateDailySnapshot_logs (market : Market.t) (event : Event) (type : string)
    (volume : Z) (amountUSD : Qc) (userId : string) (s : Store) :
  logs (snd (updateDailySnapshot norm market event type volume amountUSD userId s))
  = logs s.
Proof. unfold updateDailySnapshot. destruct (dailyActiveUsers s !! _); reflexivity. Qed.

Lemma settleEvent_journal (c : Chain) (event : Event) (type : string)
    (user : User.t) (market : Market.t) (s : Store) :
  let s' := settleEvent norm c event type user market s in
  let txId := transactionHash event +:+ "-" +:+ toString (logIndex event) in
  (exists amountUSD,
      transactions s'
      = <[txId := Transaction.mk txId (transactionHash event)
                    (blockTimestamp (eventBlock event)) (blockNumber (eventBlock event))
                    (User.id user) (Market.id market) type (amount event) amountUSD]>
          (transactions s))
  /\ (exists user',
         users s' = <[User.id user := user']> (users s)
         /\ User.id user' = User.id user
         /\ User.transactionCount user' = i32_add (User.transactionCount user) 1).
Proof.
  cbv zeta. unfold settleEvent.
  set (market1 :=
         Market.set_lastUpdateBlock (blockNumber (eventBlock event))
           (Market.set_lastUpdateTimestamp (blockTimestamp (eventBlock event))
              (updateMarketState norm c market))).
  assert (Hid : Market.id market1 = Market.id market)
    by (unfold market1; simpl; apply updateMarketState_id).
  set (amountUSD :=
         match tokens (save_Market market1 s) !! Market.inputToken market1 with
         | Some token =>
             calculateUSDValue norm c (amount event) (Market.asset market1)
               (fromI32 (Token.decimals token))
         | None => ZERO_BD
         end).
  set (user1 := User.set_transactionCount (i32_add (User.transactionCount user) 1) user).
  set (sU := save_User user1
               (createTransaction event user market1 type (amount event) amountUSD
                  (save_Market market1 s))).
  assert (HU : exists user2 sR,
             recalculateUserTotals norm c user1 sU = (user2, sR)
             /\ users sR = <[User.id user := user2]> (users s)
             /\ User.id user2 = User.id user
             /\ User.transactionCount user2 = i32_add (User.transactionCount user) 1
             /\ transactions sR = transactions sU
             /\ hourlySnapshots sR = hourlySnapshots sU).
  { unfold recalculateUserTotals.
    destruct (match try_getReservesList c with Some _ => _ | None => _ end) as [a b].
    eexists _, _. split; [reflexivity|]. simpl.
    split; [apply insert_insert_eq|]. auto. }
  destruct HU as (user2 & sR & -> & EU & IU & CU & TU & _).
  pose proof (recalculateProtocolTotals_frame norm c sR) as F2. cbv zeta in F2.
  pose proof (recalculateProtocolTotals_logs norm c sR) as L2.
  match goal with |- context [updateHourlySnapshot ?m ?e ?t ?v ?s1] =>
    pose proof (updateHourlySnapshot_frame m e t v s1) as F3;
    assert (T3 : transactions (snd (updateHourlySnapshot m e t v s1)) = transactions s1)
      by reflexivity;
    destruct (updateHourlySnapshot m e t v s1) as [h s3] end.
  simpl in F3, T3.
  match goal with |- context [updateDailySnapshot norm ?m ?e ?t ?v ?a ?u ?s1] =>
    pose proof (updateDailySnapshot_frame norm m e t v a u s1) as F4;
    pose proof (updateDailySnapshot_logs m e t v a u s1) as L4;
    destruct (updateDailySnapshot norm m e t v a u s1) as [d s4] end.
  cbv zeta in F4. simpl in F4, L4.
  assert (ET : transactions s4 = transactions sU).
  { unfold logs in *. injection L4 as -> _. rewrite T3. injection L2 as -> _.
    exact TU. }
  assert (EUs : users s4 = users sR) by (intuition congruence).
  split.
  - exists amountUSD. rewrite ET. unfold sU. simpl. rewrite updateMarketState_id. reflexivity.
  - exists user2. rewrite EUs. auto.
Qed.

(** Any handler made of [openEvent], an update of the position and
    [settleEvent] journals the event. *)
Lemma eventHandler_journaled (c : Chain) (event : Event) (type : string) (s : Store)
    (update : Market.t -> UserPosition.t -> Store -> UserPosition.t) :
  StoreKeyed s ->
  journaled type c event s
    (let '(market, user, position, s1) := openEvent norm c event s in
     settleEvent norm c event type user market
       (save_UserPosition (update market position s1) s1)).
Proof.
  intros Hs.
  pose proof (openEvent_journal c event s ltac:(apply Hs) ltac:(apply Hs)) as H1.
  destruct (openEvent norm c event s) as [[[market user] position] s1].
  destruct H1 as (Im & Iu & Us & Uo & Ub & L1).
  set (s2 := save_UserPosition (update market position s1) s1).
  pose proof (settleEvent_journal c event type user market s2) as H2. cbv zeta in H2.
  destruct H2 as ((amountUSD & ET) & (user' & EU & IU & CU)).
  assert (T2 : transactions s2 = transactions s)
    by (unfold logs in L1; unfold s2; simpl; congruence).
  assert (U2 : users s2 = users s1) by reflexivity.
  unfold journaled. cbv zeta. rewrite ET, EU, T2, U2, Iu. split; [|split; [|split]].
  - eexists. rewrite lookup_insert_eq. split; [reflexivity|]. simpl.
    rewrite Im. repeat split; reflexivity.
  - intros k Hk. apply lookup_insert_ne. congruence.
  - exists user'. rewrite lookup_insert_eq. split; [reflexivity|].
    split; [congruence|]. rewrite CU.
    destruct (users s !! getTokenId (account event)) as [before|]; congruence.
  - intros k Hk. rewrite lookup_insert_ne by congruence. apply Uo. congruence.
Qed.

Lemma handle_journaled (trigger : Trigger) (event : Event) (s : Store) :
  StoreKeyed s -> eventOf trigger = Some event ->
  journaled (typeOf trigger) (chainOf trigger) event s (handle norm trigger s).
Proof.
  intros Hs E.
  destruct trigger as [c e|c e|c e|c e|c e|c b]; simpl in E; try discriminate;
    injection E as ->; simpl.
  - exact (eventHandler_journaled c event "SUPPLY" s
             (fun market position _ => supplyToPosition c event market position) Hs).
  - exact (eventHandler_journaled c event "WITHDRAW" s
             (fun market position s1 =>
                withdrawFromPosition norm c event market position s1) Hs).
  - exact (eventHandler_journaled c event "BORROW" s
             (fun market position _ => resyncPosition c event market position) Hs).
  - exact (eventHandler_journaled c event "REPAY" s
             (fun market position _ => resyncPosition c event market position) Hs).
Qed.

End Events.

(** X15. Each of the four event handlers leaves exactly one transaction,
    filed under the transaction hash and the log index of the event, that
    carries the type of the handler, the amount, the user and the market of
    the event and the timestamp and number of its block; no other
    transaction is touched.  It raises the transaction count of the user of
    the event by one (in [i32] arithmetic, from zero for a user not seen
    before) and touches no other user.  Two events with the same hash and
    log index therefore share one transaction record, the later one. *)
Theorem events_are_journaled (norm : Qc -> Qc) (c : Chain) (event : Event) (s : Store) :
  StoreKeyed s ->
  journaled "SUPPLY" c event s (handleSupply norm c event s)
  /\ journaled "WITHDRAW" c event s (handleWithdraw norm c event s)
  /\ journaled "BORROW" c event s (handleBorrow norm c event s)
  /\ journaled "REPAY" c event s (handleRepay norm c event s).
Proof.
  intros Hs. split; [|split; [|split]].
  - exact (eventHandler_journaled norm c event "SUPPLY" s
             (fun market position _ => supplyToPosition c event market position) Hs).
  - exact (eventHandler_journaled norm c event "WITHDRAW" s
             (fun market position s1 =>
                withdrawFromPosition norm c event market position s1) Hs).
  - exact (eventHandler_journaled norm c event "BORROW" s
             (fun market position _ => resyncPosition c event market position) Hs).
  - exact (eventHandler_journaled norm c event "REPAY" s
             (fun market position _ => resyncPosition c event market position) Hs).
Qed.

Lemma events_are_journaled_witness :
  journaled "SUPPLY" baseChain supplyEvent (usdcStore oneYearMarket)
    (handleSupply round34 baseChain supplyEvent (usdcStore oneYearMarket)).
Proof.
  assert (Hs : StoreKeyed (usdcStore oneYearMarket)).
  { unfold usdcStore. apply save_Protocol_keyed, save_Market_keyed, save_Token_keyed,
      emptyStore_keyed. }
  exact (proj1 (events_are_journaled round34 baseChain supplyEvent
                  (usdcStore oneYearMarket) Hs)).
Defined.

(** ** What an event leaves in the snapshots *)

Section SnapshotsOfEvents.

Variable norm : Qc -> Qc.

Lemma updateHourlySnapshot_spec (market : Market.t) (event : Event) (type : string)
    (volume : Z) (s : Store) :
  Keyed HourlySnapshot.id (hourlySnapshots s) ->
  let timestamp := blockTimestamp (eventBlock event) in
  let key := Market.id market +:+ "-" +:+ toString (getHourId timestamp) in
  let r := updateHourlySnapshot market event type volume s in
  hourlySnapshots (snd r) = <[key := fst r]> (hourlySnapshots s)
  /\ hourlyMirrors (fst r) market
  /\ match hourlySnapshots s !! key with
     | Some before =>
         hourlyVolumes (fst r) = addVolumes (hourlyVolumes before) (volumeOf type volume)
         /\ HourlySnapshot.timestamp (fst r) = HourlySnapshot.timestamp before
     | None =>
         hourlyVolumes (fst r) = volumeOf type volume
         /\ HourlySnapshot.timestamp (fst r) = timestamp
         /\ HourlySnapshot.hourId (fst r) = getHourId timestamp
         /\ HourlySnapshot.market (fst r) = Market.id market
     end.
Proof.
  intros Hk. cbv zeta. unfold updateHourlySnapshot, volumeOf.
  destruct (hourlySnapshots s !! _) as [before|] eqn:E.
  - pose proof (Hk _ _ E) as Hid.
    repeat case_decide; simpl; rewrite ?Hid;
      (split; [reflexivity|]); (split; [repeat split|]);
      unfold hourlyVolumes, addVolumes; simpl; split; try reflexivity;
      repeat f_equal; lia.
  - repeat case_decide; simpl;
      (split; [reflexivity|]); (split; [repeat split|]);
      unfold hourlyVolumes, ZERO_BI; simpl; repeat split; reflexivity.
Qed.

Lemma updateDailySnapshot_spec (market : Market.t) (event : Event) (type : string)
    (volume : Z) (amountUSD : Qc) (userId : string) (s : Store) :
  Keyed DailySnapshot.id (dailySnapshots s) ->
  let timestamp := blockTimestamp (eventBlock event) in
  let key := Market.id market +:+ "-" +:+ toString (getDayId timestamp) in
  let r := updateDailySnapshot norm market event type volume amountUSD userId s in
  dailySnapshots (snd r) = <[key := fst r]> (dailySnapshots s)
  /\ dailyMirrors (fst r) market
  /\ match dailySnapshots s !! key with
     | Some before =>
         dailyVolumes (fst r) = addVolumes (dailyVolumes before) (volumeOf type volume)
         /\ DailySnapshot.timestamp (fst r) = DailySnapshot.timestamp before
     | None =>
         dailyVolumes (fst r) = volumeOf type volume
         /\ DailySnapshot.timestamp (fst r) = timestamp
         /\ DailySnapshot.dayId (fst r) = getDayId timestamp
         /\ DailySnapshot.market (fst r) = Market.id market
     end.
Proof.
  intros Hk. cbv zeta. unfold updateDailySnapshot, loadOrNewDailySnapshot, volumeOf.
  destruct (dailySnapshots s !! _) as [before|] eqn:E.
  - pose proof (Hk _ _ E) as Hid.
    destruct (dailyActiveUsers s !! _);
      match goal with |- context [accrualComputes norm market ?s0] =>
        destruct (accrualComputes norm market s0) end;
      repeat case_decide; simpl; rewrite ?Hid;
      (split; [reflexivity|]); (split; [repeat split|]);
      unfold dailyVolumes, addVolumes; simpl; split; try reflexivity;
      repeat f_equal; lia.
  - destruct (dailyActiveUsers s !! _);
      match goal with |- context [accrualComputes norm market ?s0] =>
        destruct (accrualComputes norm market s0) end;
      repeat case_decide; simpl;
      (split; [reflexivity|]); (split; [repeat split|]);
      unfold dailyVolumes, ZERO_BI; simpl; repeat split; reflexivity.
Qed.

Lemma openEvent_daily (c : Chain) (event : Event) (s : Store) :
  dailySnapshots (snd (openEvent norm c event s)) = dailySnapshots s.
Proof.
  unfold openEvent.
  pose proof (getOrCreateMarket_frame norm c (reserve event)
                (blockTimestamp (eventBlock event)) s) as F1.
  destruct (getOrCreateMarket norm c _ _ s) as [market s1]; simpl in F1.
  pose proof (getOrCreateUser_frame (account event) s1) as F2.
  destruct (getOrCreateUser (account event) s1) as [user s2]; simpl in F2.
  pose proof (getOrCreateUserPosition_frame user market s2) as F3.
  destruct (getOrCreateUserPosition user market s2) as [position s3]; simpl in F3.
  pose proof (calculateAndAccumulateRevenue_frame norm market
                (blockTimestamp (eventBlock event)) s3) as F4.
  destruct (calculateAndAccumulateRevenue norm market _ s3) as [market' s4].
  simpl in F4. simpl. intuition congruence.
Qed.

Lemma settleEvent_snapshots (c : Chain) (event : Event) (type : string)
    (user : User.t) (market : Market.t) (s : Store) :
  Keyed HourlySnapshot.id (hourlySnapshots s) ->
  Keyed DailySnapshot.id (dailySnapshots s) ->
  let s' := settleEvent norm c event type user market s in
  let timestamp := blockTimestamp (eventBlock event) in
  let hourKey := Market.id market +:+ "-" +:+ toString (getHourId timestamp) in
  let dayKey := Market.id market +:+ "-" +:+ toString (getDayId timestamp) in
  let m :=
    Market.set_lastUpdateBlock (blockNumber (eventBlock event))
      (Market.set_lastUpdateTimestamp timestamp (updateMarketState norm c market)) in
  exists (h : HourlySnapshot.t) (d : DailySnapshot.t),
    hourlySnapshots s' = <[hourKey := h]> (hourlySnapshots s)
    /\ dailySnapshots s' = <[dayKey := d]> (dailySnapshots s)
    /\ hourlyMirrors h m /\ dailyMirrors d m
    /\ match hourlySnapshots s !! hourKey with
       | Some before =>
           hourlyVolumes h
           = addVolumes (hourlyVolumes before) (volumeOf type (amount event))
           /\ HourlySnapshot.timestamp h = HourlySnapshot.timestamp before
       | None =>
           hourlyVolumes h = volumeOf type (amount event)
           /\ HourlySnapshot.timestamp h = timestamp
           /\ HourlySnapshot.hourId h = getHourId timestamp
           /\ HourlySnapshot.market h = Market.id market
       end
    /\ match dailySnapshots s !! dayKey with
       | Some before =>
           dailyVolumes d
           = addVolumes (dailyVolumes before) (volumeOf type (amount event))
           /\ DailySnapshot.timestamp d = DailySnapshot.timestamp before
       | None =>
           dailyVolumes d = volumeOf type (amount event)
           /\ DailySnapshot.timestamp d = timestamp
           /\ DailySnapshot.dayId d = getDayId timestamp
           /\ DailySnapshot.market d = Market.id market
       end.
Proof.
  intros Kh Kd. cbv zeta. unfold settleEvent.
  set (market1 :=
         Market.set_lastUpdateBlock (blockNumber (eventBlock event))
           (Market.set_lastUpdateTimestamp (blockTimestamp (eventBlock event))
              (updateMarketState norm c market))) in *.
  assert (Hid : Market.id market1 = Market.id market)
    by (unfold market1; simpl; apply updateMarketState_id).
  match goal with |- context [recalculateUserTotals norm c ?u ?s1] =>
    assert (L0 : hourlySnapshots s1 = hourlySnapshots s) by reflexivity;
    assert (D0 : dailySnapshots s1 = dailySnapshots s) by reflexivity;
    pose proof (recalculateUserTotals_frame norm c u s1) as F1;
    pose proof (recalculateUserTotals_logs norm c u s1) as L1;
    destruct (recalculateUserTotals norm c u s1) as [user1 s2] end.
  simpl in F1, L1.
  pose proof (recalculateProtocolTotals_frame norm c s2) as F2. cbv zeta in F2.
  pose proof (recalculateProtocolTotals_logs norm c s2) as L2.
  set (s3 := recalculateProtocolTotals norm c s2) in *.
  assert (H3 : hourlySnapshots s3 = hourlySnapshots s).
  { apply (f_equal snd) in L1, L2. simpl in L1, L2. congruence. }
  assert (D3 : dailySnapshots s3 = dailySnapshots s) by (intuition congruence).
  pose proof (updateHourlySnapshot_spec market1 event type (amount event) s3
                ltac:(rewrite H3; exact Kh)) as SH. cbv zeta in SH.
  pose proof (updateHourlySnapshot_frame market1 event type (amount event) s3) as F4.
  destruct (updateHourlySnapshot market1 event type (amount event) s3) as [h s4].
  cbn [fst snd] in SH. simpl in F4. destruct SH as (EH & MH & VH).
  assert (D4 : dailySnapshots s4 = dailySnapshots s) by (intuition congruence).
  match goal with |- context [updateDailySnapshot norm market1 event type ?v ?a ?u s4] =>
    pose proof (updateDailySnapshot_spec market1 event type v a u s4
                  ltac:(rewrite D4; exact Kd)) as SD;
    pose proof (updateDailySnapshot_logs norm market1 event type v a u s4) as L5;
    destruct (updateDailySnapshot norm market1 event type v a u s4) as [d s5] end.
  cbv zeta in SD. cbn [fst snd] in SD. simpl in L5. destruct SD as (ED & MD & VD).
  apply (f_equal snd) in L5. simpl in L5.
  rewrite Hid, H3 in EH, VH. rewrite Hid, D4 in ED, VD.
  exists h, d. split; [rewrite L5; exact EH|]. split; [exact ED|]. tauto.
Qed.

Lemma eventHandler_snapshotted (c : Chain) (event : Event) (type : string) (s : Store)
    (update : Market.t -> UserPosition.t -> Store -> UserPosition.t) :
  StoreKeyed s ->
  snapshotted type event s
    (let '(market, user, position, s1) := openEvent norm c event s in
     settleEvent norm c event type user market
       (save_UserPosition (update market position s1) s1)).
Proof.
  intros Hs.
  pose proof (openEvent_journal norm c event s ltac:(apply Hs) ltac:(apply Hs)) as H1.
  pose proof (openEvent_daily c event s) as D1.
  destruct (openEvent norm c event s) as [[[market user] position] s1].
  destruct H1 as (Im & _ & _ & _ & _ & L1). simpl in D1.
  set (s2 := save_UserPosition (update market position s1) s1).
  assert (H2 : hourlySnapshots s2 = hourlySnapshots s)
    by (apply (f_equal snd) in L1; exact L1).
  assert (D2 : dailySnapshots s2 = dailySnapshots s) by exact D1.
  pose proof (settleEvent_snapshots c event type user market s2
                ltac:(rewrite H2; apply Hs) ltac:(rewrite D2; apply Hs)) as H3.
  cbv zeta in H3. rewrite Im, H2, D2 in H3.
  destruct H3 as (h & d & EH & ED & MH & MD & VH & VD).
  pose proof (settleEvent_markets norm (fun _ => True) c event type user market s2)
    as EM.
  unfold snapshotted. cbv zeta. eexists _, h, d. rewrite EH, ED, EM.
  rewrite !lookup_insert_eq. split.
  { simpl. rewrite updateMarketState_id, Im. apply lookup_insert_eq. }
  repeat split; try assumption; try apply MH; try apply MD.
  - intros k Hk. apply lookup_insert_ne. congruence.
  - intros k Hk. apply lookup_insert_ne. congruence.
Qed.

End SnapshotsOfEvents.

(** X16. After each of the four event handlers the snapshot of the hour and
    the snapshot of the day of the event, for the market of the event, show
    the market as it is on record after the event (totals, utilization and
    the two APYs); their volume of the type of the event has grown by the
    amount of the event and the three other volumes are unchanged; a
    snapshot created by the event starts from zero volumes and takes the
    timestamp of the event, a snapshot that existed keeps its timestamp.
    No other snapshot is touched. *)
Theorem snapshots_follow_events (norm : Qc -> Qc) (c : Chain) (event : Event)
    (s : Store) :
  StoreKeyed s ->
  snapshotted "SUPPLY" event s (handleSupply norm c event s)
  /\ snapshotted "WITHDRAW" event s (handleWithdraw norm c event s)
  /\ snapshotted "BORROW" event s (handleBorrow norm c event s)
  /\ snapshotted "REPAY" event s (handleRepay norm c event s).
Proof.
  intros Hs. split; [|split; [|split]].
  - exact (eventHandler_snapshotted norm c event "SUPPLY" s
             (fun market position _ => supplyToPosition c event market position) Hs).
  - exact (eventHandler_snapshotted norm c event "WITHDRAW" s
             (fun market position s1 =>
                withdrawFromPosition norm c event market position s1) Hs).
  - exact (eventHandler_snapshotted norm c event "BORROW" s
             (fun market position _ => resyncPosition c event market position) Hs).
  - exact (eventHandler_snapshotted norm c event "REPAY" s
             (fun market position _ => resyncPosition c event market position) Hs).
Qed.

Lemma snapshots_follow_events_witness :
  snapshotted "SUPPLY" supplyEvent (usdcStore oneYearMarket)
    (handleSupply round34 baseChain supplyEvent (usdcStore oneYearMarket)).
Proof.
  assert (Hs : StoreKeyed (usdcStore oneYearMarket)).
  { unfold usdcStore. apply save_Protocol_keyed, save_Market_keyed, save_Token_keyed,
      emptyStore_keyed. }
  exact (proj1 (snapshots_follow_events round34 baseChain supplyEvent
                  (usdcStore oneYearMarket) Hs)).
Defined.

(** ** Buckets and keys *)

Lemma toI32_fits (z : Z) : fitsI32 z -> toI32 z = z.
Proof.
  unfold fitsI32, toI32, wrap32. intros Hz.
  rewrite Z.mod_small by lia. lia.
Qed.

Lemma day_fits (t : Z) : fitsI32 (Z.quot t 3600) -> fitsI32 (Z.quot t 86400).
Proof.
  unfold fitsI32. intros Hz. Z.to_euclidean_division_equations. lia.
Qed.

(** X17. The hour and the day of a timestamp are consistent buckets as long
    as the hour fits an [i32]: the day is then the hour divided by 24; for a
    timestamp that is not negative the hour [h] covers
    [3600 h <= t < 3600 (h + 1)] and the day [d] covers
    [86400 d <= t < 86400 (d + 1)]; both grow with the timestamp, and two
    timestamps of the same hour are of the same day.  The division
    truncates towards zero, so the bucket 0 also takes the timestamps down
    to -3599 (hour) and -86399 (day).  Past the range the id wraps: the
    hour of the timestamp [3600 * 2^31] is [-2^31]. *)
Theorem time_buckets (t t' : Z) :
  fitsI32 (Z.quot t SECONDS_PER_HOUR) -> fitsI32 (Z.quot t' SECONDS_PER_HOUR) ->
  getDayId t = Z.quot (getHourId t) 24
  /\ (0 <= t ->
      3600 * getHourId t <= t < 3600 * (getHourId t + 1)
      /\ 86400 * getDayId t <= t < 86400 * (getDayId t + 1))
  /\ (t <= t' -> getHourId t <= getHourId t' /\ getDayId t <= getDayId t')
  /\ (getHourId t = getHourId t' -> getDayId t = getDayId t')
  /\ (getHourId t = 0 <-> -3600 < t < 3600)
  /\ (getDayId t = 0 <-> -86400 < t < 86400)
  /\ getHourId (3600 * 2 ^ 31) = - 2 ^ 31.
Proof.
  unfold getDayId, getHourId, SECONDS_PER_HOUR, SECONDS_PER_DAY. intros Ft Ft'.
  rewrite !(toI32_fits _ Ft), !(toI32_fits _ Ft'),
    !(toI32_fits _ (day_fits t Ft)), !(toI32_fits _ (day_fits t' Ft')).
  assert (Hd : forall x, Z.quot x 86400 = Z.quot (Z.quot x 3600) 24).
  { intros x. Z.to_euclidean_division_equations. lia. }
  split; [apply Hd|]. split; [|split; [|split; [|split; [|split]]]].
  - intros Ht. Z.to_euclidean_division_equations. lia.
  - intros Hle. split; apply Z.quot_le_mono; lia.
  - intros E. rewrite !Hd, E. reflexivity.
  - Z.to_euclidean_division_equations. lia.
  - Z.to_euclidean_division_equations. lia.
  - reflexivity.
Qed.

Lemma time_buckets_witness :
  fitsI32 (Z.quot 1731536000 SECONDS_PER_HOUR)
  /\ 3600 * getHourId 1731536000 <= 1731536000 < 3600 * (getHourId 1731536000 + 1).
Proof.
  assert (F : fitsI32 (Z.quot 1731536000 SECONDS_PER_HOUR))
    by (unfold fitsI32; vm_compute; split; [discriminate | reflexivity]).
  assert (F0 : fitsI32 (Z.quot 0 SECONDS_PER_HOUR))
    by (unfold fitsI32; vm_compute; split; [discriminate | reflexivity]).
  assert (H0 : 0 <= 1731536000) by lia. split; [exact F|].
  destruct (time_buckets 1731536000 0 F F0) as (_ & H & _).
  exact (proj1 (H H0)).
Defined.

Lemma append_inj_length (a a' b b' : string) :
  String.length a = String.length a' -> a +:+ b = a' +:+ b' -> a = a' /\ b = b'.
Proof.
  revert a'. induction a as [|x a IH]; intros [|x' a'] Hl E; simpl in *;
    try discriminate.
  - auto.
  - injection E as -> E. injection Hl as Hl. destruct (IH a' Hl E) as [-> ->]. auto.
Qed.

Lemma dash_key_inj (a a' b b' : string) :
  String.length a = String.length a' ->
  a +:+ "-" +:+ b = a' +:+ "-" +:+ b' -> a = a' /\ b = b'.
Proof.
  intros Hl E. destruct (append_inj_length a a' _ _ Hl E) as [-> E2].
  destruct (append_inj_length "-" "-" b b' eq_refl E2) as [_ ->]. auto.
Qed.

Lemma transactionKey_inj (event1 event2 : Event) :
  String.length (transactionHash event1) = String.length (transactionHash event2) ->
  transactionKey event1 = transactionKey event2 ->
  transactionHash event1 = transactionHash event2 /\ logIndex event1 = logIndex event2.
Proof.
  intros Hl E. destruct (dash_key_inj _ _ _ _ Hl E) as [E1 E2].
  split; [exact E1|]. apply (inj pretty) in E2. exact E2.
Qed.

(** X18. The transaction record of an event is not overwritten by another
    trigger: after an event, any later trigger that is a block tick, a rate
    update, or an event with another transaction hash (of the same length)
    or another log index leaves the record of the first event in place, with
    its type and amount. *)
Theorem transactions_are_not_overwritten (norm : Qc -> Qc) (first later : Trigger)
    (event : Event) (s : Store) :
  StoreKeyed s -> eventOf first = Some event ->
  match eventOf later with
  | Some event' =>
      String.length (transactionHash event) = String.length (transactionHash event')
      /\ (transactionHash event <> transactionHash event'
          \/ logIndex event <> logIndex event')
  | None => True
  end ->
  exists tx : Transaction.t,
    transactions (run norm [first; later] s) !! transactionKey event = Some tx
    /\ transactions (handle norm first s) !! transactionKey event = Some tx
    /\ Transaction.type tx = typeOf first
    /\ Transaction.amount tx = amount event.
Proof.
  intros Hs E1 Hl.
  pose proof (handle_journaled norm first event s Hs E1) as H1.
  destruct H1 as ((tx & Etx & _ & _ & _ & _ & _ & _ & Ty & Am) & _).
  exists tx. change (run norm [first; later] s)
    with (handle norm later (handle norm first s)).
  split; [|auto]. rewrite <- Etx.
  pose proof (handle_keyed norm first s Hs) as Hs1.
  set (s1 := handle norm first s) in *.
  destruct (eventOf later) as [event'|] eqn:E2.
  - pose proof (handle_journaled norm later event' s1 Hs1 E2) as H2.
    destruct H2 as (_ & Hother & _). apply Hother.
    intros E. destruct Hl as [Hlen Hne].
    destruct (transactionKey_inj event event' Hlen E) as [Eh Ei]. tauto.
  - pose proof (handle_journal norm later s1 E2) as H2.
    apply (f_equal (fun j => snd (fst (fst (fst j))))) in H2. simpl in H2.
    rewrite H2. reflexivity.
Qed.

Lemma transactions_are_not_overwritten_witness :
  exists tx : Transaction.t,
    transactions
      (run round34 [OnSupply baseChain depositEvent; OnWithdraw baseChain withdraw60Event]
         emptyStore) !! transactionKey depositEvent = Some tx
    /\ Transaction.type tx = "SUPPLY"
    /\ Transaction.amount tx = 100 * 10 ^ 6.
Proof.
  destruct (transactions_are_not_overwritten round34 (OnSupply baseChain depositEvent)
              (OnWithdraw baseChain withdraw60Event) depositEvent emptyStore
              emptyStore_keyed eq_refl)
    as (tx & E & _ & Ty & Am).
  - simpl. split; [reflexivity|]. left. discriminate.
  - exists tx. split; [exact E|]. split; [exact Ty | exact Am].
Defined.

(** ** What a rate update and a block tick leave on record *)

Section Sync.

Variable norm : Qc -> Qc.

Lemma accrue_fields (market : Market.t) (t : Z) (s : Store) :
  let m := fst (calculateAndAccumulateRevenue norm market t s) in
  t <= Market.lastRevenueCalculationTimestamp m
  /\ Market.set_lastRevenueCalculationTimestamp
       (Market.lastRevenueCalculationTimestamp market) m = market.
Proof.
  cbv zeta. unfold calculateAndAccumulateRevenue.
  destruct (getOrCreateProtocol s) as [p s0].
  destruct (Z.leb_spec t (Market.lastRevenueCalculationTimestamp market)); simpl.
  - split; [assumption|]. destruct market; reflexivity.
  - split; [lia|]. destruct market; reflexivity.
Qed.

Lemma accrue_saved_or_stored (market : Market.t) (t : Z) (s : Store) :
  let ms := calculateAndAccumulateRevenue norm market t s in
  forall k, k <> Market.id market -> markets (snd ms) !! k = markets s !! k.
Proof.
  cbv zeta. intros k Hk. unfold calculateAndAccumulateRevenue.
  pose proof (getOrCreateProtocol_frame s) as F.
  destruct (getOrCreateProtocol s) as [p s0]; simpl in F.
  destruct (t <=? Market.lastRevenueCalculationTimestamp market); simpl.
  - destruct F as (-> & _). reflexivity.
  - rewrite lookup_insert_ne by (simpl; congruence).
    destruct (accrualComputes norm market s0); simpl; destruct F as (-> & _);
      reflexivity.
Qed.

Lemma getOrCreateMarket_others (c : Chain) (asset : Address) (t : Z) (s : Store) :
  forall k, k <> getTokenId asset ->
    markets (snd (getOrCreateMarket norm c asset t s)) !! k = markets s !! k.
Proof.
  intros k Hk. destruct (markets s !! getTokenId asset) as [m|] eqn:E.
  - rewrite (getOrCreateMarket_stored norm c asset t s m E). reflexivity.
  - destruct (getOrCreateMarket_fresh norm c asset t s E) as (i & o & s2 & -> & E2).
    simpl. rewrite lookup_insert_ne; [rewrite E2; reflexivity|].
    rewrite updateMarketState_id. simpl. congruence.
Qed.

(** The rates of a market after a rate update. *)
Lemma handleReserveDataUpdated_market (c : Chain) (event : RateEvent) (s : Store) :
  Keyed Market.id (markets s) ->
  exists m : Market.t,
    markets (handleReserveDataUpdated norm c event s) !! getTokenId (rateReserve event)
    = Some m
    /\ Market.supplyAPY m
       = bd_times norm (rayToDecimal norm (rateLiquidityRate event)) HUNDRED_BD
    /\ Market.variableBorrowAPY m
       = bd_times norm (rayToDecimal norm (rateVariableBorrowRate event)) HUNDRED_BD
    /\ Market.lastUpdateTimestamp m = blockTimestamp (rateBlock event)
    /\ Market.lastUpdateBlock m = blockNumber (rateBlock event)
    /\ match try_getReserveData c (Market.asset m) with
       | Some reserveData =>
           Market.liquidityRate m = getLiquidityRate reserveData
           /\ Market.variableBorrowRate m = getVariableBorrowRate reserveData
           /\ Market.stableBorrowRate m = getStableBorrowRate reserveData
           /\ Market.totalSupply m = getTotalAToken reserveData
           /\ Market.totalBorrow m
              = getTotalVariableDebt reserveData + getTotalStableDebt reserveData
       | None =>
           Market.liquidityRate m = rateLiquidityRate event
           /\ Market.variableBorrowRate m = rateVariableBorrowRate event
           /\ Market.stableBorrowRate m = rateStableBorrowRate event
       end.
Proof.
  intros Hk. unfold handleReserveDataUpdated.
  pose proof (getOrCreateMarket_id norm c (rateReserve event)
                (blockTimestamp (rateBlock event)) s Hk) as I1.
  destruct (getOrCreateMarket norm c _ _ s) as [market s1]; simpl in I1.
  pose proof (accrue_id norm market (blockTimestamp (rateBlock event)) s1) as I2.
  destruct (calculateAndAccumulateRevenue norm market _ s1) as [market' s2].
  simpl in I2.
  match goal with |- context [save_Market ?m s2] => set (saved := m) end.
  assert (Hid : Market.id saved = getTokenId (rateReserve event)).
  { unfold saved. rewrite updateMarketState_id. simpl. congruence. }
  exists saved. split.
  - destruct (recalculateProtocolTotals_frame norm c (save_Market saved s2)) as (-> & _).
    simpl. rewrite Hid. apply lookup_insert_eq.
  - unfold saved, updateMarketState. simpl.
    destruct (try_getReserveData c (Market.asset market')) as [rd|] eqn:E; simpl;
      rewrite E; repeat split; reflexivity.
Qed.

End Sync.

(** X19. After a rate update the market of the event carries APYs computed
    from the rates of the event, and the timestamp and number of its block.
    The three rates on record, however, are those the data provider reports
    whenever [getReserveData] answers -- the handler assigns the rates of the
    event first and resyncs the market afterwards -- together with the
    totals of the chain; only when the call reverts are the rates on record
    those of the event. *)
Theorem rate_update_records_chain_rates (norm : Qc -> Qc) (c : Chain)
    (event : RateEvent) (s : Store) :
  Keyed Market.id (markets s) ->
  exists m : Market.t,
    markets (handleReserveDataUpdated norm c event s) !! getTokenId (rateReserve event)
    = Some m
    /\ Market.supplyAPY m
       = bd_times norm (rayToDecimal norm (rateLiquidityRate event)) HUNDRED_BD
    /\ Market.variableBorrowAPY m
       = bd_times norm (rayToDecimal norm (rateVariableBorrowRate event)) HUNDRED_BD
    /\ Market.lastUpdateTimestamp m = blockTimestamp (rateBlock event)
    /\ Market.lastUpdateBlock m = blockNumber (rateBlock event)
    /\ match try_getReserveData c (Market.asset m) with
       | Some reserveData =>
           Market.liquidityRate m = getLiquidityRate reserveData
           /\ Market.variableBorrowRate m = getVariableBorrowRate reserveData
           /\ Market.stableBorrowRate m = getStableBorrowRate reserveData
           /\ Market.totalSupply m = getTotalAToken reserveData
           /\ Market.totalBorrow m
              = getTotalVariableDebt reserveData + getTotalStableDebt reserveData
       | None =>
           Market.liquidityRate m = rateLiquidityRate event
           /\ Market.variableBorrowRate m = rateVariableBorrowRate event
           /\ Market.stableBorrowRate m = rateStableBorrowRate event
       end.
Proof. apply handleReserveDataUpdated_market. Qed.

Lemma usdcStore_fully_keyed (market : Market.t) : StoreKeyed (usdcStore market).
Proof.
  unfold usdcStore.
  apply save_Protocol_keyed, save_Market_keyed, save_Token_keyed, emptyStore_keyed.
Qed.

Lemma rate_update_records_chain_rates_witness :
  exists m : Market.t,
    markets
      (handleReserveDataUpdated round34 baseChain
         (mkRateEvent laterBlock USDC (4 * 10 ^ 25) 0 (6 * 10 ^ 25))
         (usdcStore oneYearMarket)) !! USDC = Some m
    /\ Market.liquidityRate m = 3 * 10 ^ 25
    /\ Market.supplyAPY m = Qc_of_Z 4.
Proof.
  assert (Hk : Keyed Market.id (markets (usdcStore oneYearMarket)))
    by apply (usdcStore_fully_keyed oneYearMarket).
  destruct (rate_update_records_chain_rates round34 baseChain
              (mkRateEvent laterBlock USDC (4 * 10 ^ 25) 0 (6 * 10 ^ 25))
              (usdcStore oneYearMarket) Hk)
    as (m & E & A & _ & _ & _ & R).
  exists m. split; [exact E|]. split.
  - change (try_getReserveData baseChain (Market.asset m))
      with (Some (mkReserveData (3000000 * 10 ^ 6) 0 (1000000 * 10 ^ 6)
                    (3 * 10 ^ 25) (5 * 10 ^ 25) 0)) in R.
    exact (proj1 R).
  - rewrite A. apply Qc_is_canon. vm_compute. reflexivity.
Defined.

Section BlockTick.

Variable norm : Qc -> Qc.

Lemma processMarketInBlock_synced (c : Chain) (market : Market.t) (block : Block)
    (s : Store) :
  let s' := processMarketInBlock norm c market block s in
  (exists m : Market.t,
      markets s' !! Market.id market = Some m /\ syncedAt norm c block m)
  /\ (forall k, k <> Market.id market -> markets s' !! k = markets s !! k).
Proof.
  cbv zeta. unfold processMarketInBlock.
  set (resynced := updateMarketState norm c market).
  assert (Hid0 : Market.id resynced = Market.id market) by apply updateMarketState_id.
  assert (Hasset : Market.asset resynced = Market.asset market).
  { unfold resynced, updateMarketState.
    destruct (try_getReserveData c (Market.asset market)); reflexivity. }
  assert (Hdata : match try_getReserveData c (Market.asset market) with
                  | Some reserveData =>
                      Market.totalSupply resynced = getTotalAToken reserveData
                      /\ Market.totalBorrow resynced
                         = getTotalVariableDebt reserveData
                           + getTotalStableDebt reserveData
                      /\ Market.liquidityRate resynced = getLiquidityRate reserveData
                      /\ Market.variableBorrowRate resynced
                         = getVariableBorrowRate reserveData
                      /\ Market.stableBorrowRate resynced
                         = getStableBorrowRate reserveData
                  | None => True
                  end).
  { unfold resynced, updateMarketState.
    destruct (try_getReserveData c (Market.asset market)); [|exact I].
    repeat split; reflexivity. }
  match goal with |- context [calculateAndAccumulateRevenue norm resynced ?t ?s0] =>
    assert (E0 : markets s0 = markets s)
      by (destruct (tokens s !! _); reflexivity);
    pose proof (accrue_fields norm resynced t s0) as HF;
    pose proof (accrue_id norm resynced t s0) as HI;
    pose proof (accrue_saved_or_stored norm resynced t s0) as HO;
    destruct (calculateAndAccumulateRevenue norm resynced t s0) as [m1 s1] end.
  cbv zeta in HF, HO. simpl in HF, HI, HO. destruct HF as [Hstamp Hsame].
  assert (Hm1 : Market.asset m1 = Market.asset market
                /\ Market.totalSupply m1 = Market.totalSupply resynced
                /\ Market.totalBorrow m1 = Market.totalBorrow resynced
                /\ Market.liquidityRate m1 = Market.liquidityRate resynced
                /\ Market.variableBorrowRate m1 = Market.variableBorrowRate resynced
                /\ Market.stableBorrowRate m1 = Market.stableBorrowRate resynced).
  { rewrite <- Hasset, <- Hsame. simpl. repeat split; reflexivity. }
  destruct Hm1 as (A1 & T1 & B1 & L1 & V1 & S1).
  split.
  - eexists. simpl. rewrite HI, Hid0, lookup_insert_eq. split; [reflexivity|].
    unfold syncedAt. simpl. rewrite A1.
    split; [reflexivity|]. split; [reflexivity|]. split; [exact Hstamp|].
    split; [reflexivity|]. split; [reflexivity|].
    destruct (try_getReserveData c (Market.asset market)); [|exact I].
    rewrite T1, B1, L1, V1, S1. exact Hdata.
  - intros k Hk. simpl. rewrite lookup_insert_ne by congruence.
    rewrite HO by congruence. rewrite E0. reflexivity.
Qed.

Lemma handleBlockStep_synced (c : Chain) (block : Block) (s : Store) (r : Address) :
  Keyed Market.id (markets s) ->
  let s' := handleBlockStep norm c block s r in
  (exists m : Market.t,
      markets s' !! toLowerCase r = Some m /\ syncedAt norm c block m)
  /\ (forall k, k <> toLowerCase r -> markets s' !! k = markets s !! k).
Proof.
  intros Hk. cbv zeta. unfold handleBlockStep.
  destruct (markets s !! toLowerCase r) as [m|] eqn:E.
  - pose proof (processMarketInBlock_synced c m block s) as H. cbv zeta in H.
    rewrite (Hk _ _ E) in H. exact H.
  - pose proof (getOrCreateMarket_id norm c r (blockTimestamp block) s Hk) as I1.
    pose proof (getOrCreateMarket_others norm c r (blockTimestamp block) s) as O1.
    destruct (getOrCreateMarket norm c r _ s) as [m s1]. simpl in I1, O1.
    pose proof (processMarketInBlock_synced c m block s1) as H. cbv zeta in H.
    rewrite I1 in H. change (getTokenId r) with (toLowerCase r) in *.
    destruct H as [H1 H2]. split; [exact H1|].
    intros k Hne. rewrite H2 by exact Hne. apply O1, Hne.
Qed.

Lemma handleBlockLoop_synced (c : Chain) (block : Block) (reserves : list Address) :
  forall s : Store,
    StoreKeyed s ->
    forall r,
      (In r reserves
       \/ exists m, markets s !! toLowerCase r = Some m /\ syncedAt norm c block m) ->
      exists m,
        markets (fold_left (handleBlockStep norm c block) reserves s) !! toLowerCase r
        = Some m
        /\ syncedAt norm c block m.
Proof.
  induction reserves as [|r0 l IH]; intros s Hs r Hr; simpl.
  - destruct Hr as [[]|Hr]. exact Hr.
  - assert (Hs1 : StoreKeyed (handleBlockStep norm c block s r0)).
    { unfold handleBlockStep. destruct (markets s !! toLowerCase r0).
      - apply processMarketInBlock_keyed, Hs.
      - pose proof (getOrCreateMarket_keyed norm c r0 (blockTimestamp block) s Hs) as K.
        destruct (getOrCreateMarket norm c r0 _ s). apply processMarketInBlock_keyed, K. }
    pose proof (handleBlockStep_synced c block s r0 ltac:(apply Hs)) as [H1 H2].
    apply (IH _ Hs1).
    destruct (decide (toLowerCase r = toLowerCase r0)) as [E|N].
    + right. rewrite E. exact H1.
    + destruct Hr as [[->|Hin]|Hr]; [congruence | left; exact Hin |].
      right. rewrite (H2 _ N). exact Hr.
Qed.

End BlockTick.

(** X20. After a block tick every reserve the pool lists has a market on
    record (a reserve seen for the first time gets its market then), stamped
    with the timestamp and number of the block, accrued up to the block,
    with APYs computed from the rates on record and, when the data provider
    answers for it, with the totals and rates of the chain. *)
Theorem block_tick_syncs_listed_markets (norm : Qc -> Qc) (c : Chain) (block : Block)
    (s : Store) (reserves : list Address) (reserve : Address) :
  StoreKeyed s -> try_getReservesList c = Some reserves -> In reserve reserves ->
  exists m : Market.t,
    markets (handleBlock norm c block s) !! toLowerCase reserve = Some m
    /\ syncedAt norm c block m.
Proof.
  intros Hs El Hin. unfold handleBlock.
  pose proof (getOrCreateProtocol_keyed s Hs) as K0.
  destruct (getOrCreateProtocol s) as [protocol s0]; simpl in K0. rewrite El.
  destruct (recalculateProtocolTotals_frame norm c
              (fold_left (handleBlockStep norm c block) reserves s0)) as (-> & _).
  apply (handleBlockLoop_synced norm c block reserves s0 K0). left. exact Hin.
Qed.

Lemma block_tick_syncs_listed_markets_witness :
  exists m : Market.t,
    markets (handleBlock round34 baseChain laterBlock emptyStore) !! toLowerCase USDC
    = Some m
    /\ syncedAt round34 baseChain laterBlock m.
Proof.
  apply (block_tick_syncs_listed_markets round34 baseChain laterBlock emptyStore [USDC]
           USDC emptyStore_keyed eq_refl).
  left. reflexivity.
Defined.
(** ** The prices the recomputation of the protocol totals writes *)

Section TotalsPrices.

Variable norm : Qc -> Qc.

Lemma set_lastPriceUSD_twice (v : Qc) (token : Token.t) :
  Token.set_lastPriceUSD v (Token.set_lastPriceUSD v token)
  = Token.set_lastPriceUSD v token.
Proof. destruct token; reflexivity. Qed.

Lemma listedInputToken_ext (reserves : list Address) (s s' : Store) (k : string) :
  markets s' = markets s -> listedInputToken reserves s' k = listedInputToken reserves s k.
Proof. intros E. unfold listedInputToken. rewrite E. reflexivity. Qed.

Lemma protocolTotalsLoop_prices (c : Chain) (reserves : list Address) :
  forall (acc : Qc * Qc * Store) (k : string),
    Keyed Token.id (tokens (snd acc)) ->
    tokens (snd (fold_left (protocolTotalsStep norm c) reserves acc)) !! k
    = match tokens (snd acc) !! k with
      | Some token =>
          Some (if listedInputToken reserves (snd acc) k
                then Token.set_lastPriceUSD (getTokenPriceUSD norm c k) token
                else token)
      | None => None
      end.
Proof.
  induction reserves as [|r l IH]; intros [[x y] s] k Hk; simpl in *.
  - destruct (tokens s !! k); reflexivity.
  - destruct (markets s !! toLowerCase r) as [market|] eqn:Em; simpl.
    + destruct (tokens s !! Market.inputToken market) as [token|] eqn:Et.
      * pose proof (Hk _ _ Et) as Hid.
        match goal with |- context [fold_left _ l (?a, ?b, ?s1)] =>
          rewrite (IH (a, b, s1) k) end.
        -- simpl. rewrite Hid.
           match goal with |- context [listedInputToken l ?s1 k] =>
             rewrite (listedInputToken_ext l s s1 k) by reflexivity end.
           rewrite lookup_insert. case_decide as Hd.
           ++ subst k. rewrite Et, bool_decide_eq_true_2 by reflexivity. simpl.
              destruct (listedInputToken l s (Market.inputToken market));
                [rewrite set_lastPriceUSD_twice|]; reflexivity.
           ++ rewrite bool_decide_eq_false_2 by exact Hd. reflexivity.
        -- simpl. intros k0 e. rewrite lookup_insert. case_decide as Hd.
           ++ intros [= <-]. simpl. exact Hd.
           ++ apply Hk.
      * rewrite (IH (x, y, s) k Hk). simpl.
        destruct (tokens s !! k) as [token|] eqn:E; [|reflexivity].
        rewrite bool_decide_eq_false_2; [reflexivity|]. congruence.
    + apply (IH (x, y, s) k Hk).
Qed.

Lemma recalculateProtocolTotals_prices (c : Chain) (s : Store) (k : string) :
  Keyed Token.id (tokens s) ->
  tokens (recalculateProtocolTotals norm c s) !! k
  = match try_getReservesList c, tokens s !! k with
    | Some reserves, Some token =>
        Some (if listedInputToken reserves s k
              then Token.set_lastPriceUSD (getTokenPriceUSD norm c k) token
              else token)
    | None, Some token => Some token
    | _, None => None
    end.
Proof.
  intros Hk. unfold recalculateProtocolTotals.
  pose proof (getOrCreateProtocol_frame s) as F.
  destruct (getOrCreateProtocol s) as [protocol s0]; simpl in F.
  destruct F as (Fm & Ft & _).
  destruct (try_getReservesList c) as [reserves|].
  - pose proof (protocolTotalsLoop_prices c reserves (ZERO_BD, ZERO_BD, s0) k) as H.
    simpl in H. rewrite Ft in H. specialize (H Hk).
    rewrite (listedInputToken_ext reserves s s0 k Fm) in H.
    destruct (fold_left _ reserves _) as [[x y] s1]. simpl in *. exact H.
  - simpl. rewrite Ft. destruct (tokens s !! k); reflexivity.
Qed.

End TotalsPrices.

(** X21. The recomputation of the protocol totals, which the handlers run
    after their own writes, rewrites token prices on its way: the token of
    each listed reserve that has a market and a token on record gets the
    price [getTokenPriceUSD] gives at that moment -- the zero of the
    fallback included, when the oracle call reverts -- and keeps its price
    timestamp; every other token is left as it was, and so are all of them
    when the reserves list cannot be read.  No token is added or dropped. *)
Theorem totals_recomputation_rewrites_prices (norm : Qc -> Qc) (c : Chain) (s : Store)
    (k : string) :
  Keyed Token.id (tokens s) ->
  tokens (recalculateProtocolTotals norm c s) !! k
  = match try_getReservesList c, tokens s !! k with
    | Some reserves, Some token =>
        Some (if listedInputToken reserves s k
              then Token.set_lastPriceUSD
                     (match try_getAssetPrice c k with
                      | Some price => getTokenPriceUSD norm c k
                      | None => ZERO_BD
                      end) token
              else token)
    | None, Some token => Some token
    | _, None => None
    end.
Proof.
  intros Hk. rewrite (recalculateProtocolTotals_prices norm c s k Hk).
  destruct (try_getReservesList c) as [reserves|]; [|reflexivity].
  destruct (tokens s !! k) as [token|]; [|reflexivity].
  destruct (listedInputToken reserves s k); [|reflexivity].
  unfold getTokenPriceUSD. destruct (try_getAssetPrice c k); reflexivity.
Qed.

Lemma totals_recomputation_rewrites_prices_witness :
  tokens (recalculateProtocolTotals round34 noOracleChain (usdcStore oneYearMarket))
    !! USDC
  = Some (Token.set_lastPriceUSD ZERO_BD usdcToken).
Proof.
  rewrite (totals_recomputation_rewrites_prices round34 noOracleChain
             (usdcStore oneYearMarket) USDC).
  - reflexivity.
  - apply (usdcStore_fully_keyed oneYearMarket).
Defined.
(** ** The cumulative revenue counters never decrease *)

Section ProtocolInvariant.

Variable norm : Qc -> Qc.
Variable P : Protocol.t -> Prop.

Hypothesis Pfresh : P (Protocol.mk PROTOCOL_ID ZERO_BD ZERO_BD ZERO_BD ZERO_BD ZERO_BD).

Hypothesis Ptotals :
  forall x y p, P p -> P (Protocol.set_totalBorrowUSD y (Protocol.set_totalSupplyUSD x p)).

Hypothesis Paccrued :
  forall a b p,
    P p ->
    P (Protocol.set_totalRevenueUSD
         (bd_plus norm (bd_plus norm (Protocol.cumulativeSupplySideRevenueUSD p) a)
            (bd_plus norm (Protocol.cumulativeProtocolSideRevenueUSD p) b))
         (Protocol.set_cumulativeProtocolSideRevenueUSD
            (bd_plus norm (Protocol.cumulativeProtocolSideRevenueUSD p) b)
            (Protocol.set_cumulativeSupplySideRevenueUSD
               (bd_plus norm (Protocol.cumulativeSupplySideRevenueUSD p) a) p))).

Lemma AllProtocols_ext (s s' : Store) :
  protocols s' = protocols s -> AllProtocols P s -> AllProtocols P s'.
Proof. unfold AllProtocols. intros ->. auto. Qed.

Lemma AllProtocols_save (protocol : Protocol.t) (s : Store) :
  P protocol -> AllProtocols P s -> AllProtocols P (save_Protocol protocol s).
Proof.
  intros Hp Hs k q. simpl. rewrite lookup_insert. case_decide.
  - intros [= <-]. exact Hp.
  - apply Hs.
Qed.

Lemma getOrCreateProtocol_all_protocols (s : Store) :
  AllProtocols P s ->
  P (fst (getOrCreateProtocol s)) /\ AllProtocols P (snd (getOrCreateProtocol s)).
Proof.
  intros Hs. unfold getOrCreateProtocol.
  destruct (protocols s !! PROTOCOL_ID) as [p|] eqn:E; simpl.
  - split; [exact (Hs _ _ E) | exact Hs].
  - split; [exact Pfresh | apply AllProtocols_save; [exact Pfresh | exact Hs]].
Qed.

Lemma accrue_all_protocols (market : Market.t) (timestamp : Z) (s : Store) :
  AllProtocols P s ->
  AllProtocols P (snd (calculateAndAccumulateRevenue norm market timestamp s)).
Proof.
  intros Hs. unfold calculateAndAccumulateRevenue.
  destruct (getOrCreateProtocol_all_protocols s Hs) as [Hp H0].
  destruct (getOrCreateProtocol s) as [protocol s0]; simpl in Hp, H0.
  destruct (timestamp <=? Market.lastRevenueCalculationTimestamp market); simpl;
    [exact H0|].
  eapply AllProtocols_ext; [reflexivity|].
  destruct (accrualComputes norm market s0); [|exact H0].
  apply AllProtocols_save; [|exact H0].
  apply Paccrued, Hp.
Qed.

Lemma recalculateProtocolTotals_all_protocols (c : Chain) (s : Store) :
  AllProtocols P s -> AllProtocols P (recalculateProtocolTotals norm c s).
Proof.
  intros Hs. unfold recalculateProtocolTotals.
  destruct (getOrCreateProtocol_all_protocols s Hs) as [Hp H0].
  destruct (getOrCreateProtocol s) as [protocol s0]; simpl in Hp, H0.
  assert (Hloop : forall x y s1, protocols s1 = protocols s0 ->
            AllProtocols P
              (save_Protocol
                 (Protocol.set_totalBorrowUSD y (Protocol.set_totalSupplyUSD x protocol))
                 s1)).
  { intros x y s1 E. apply AllProtocols_save.
    - apply Ptotals, Hp.
    - eapply AllProtocols_ext; eassumption. }
  destruct (try_getReservesList c) as [reserves|]; [|apply Hloop; reflexivity].
  pose proof (protocolTotalsLoop_frame norm c reserves (ZERO_BD, ZERO_BD, s0)) as H1.
  destruct (fold_left _ reserves _) as [[x y] s1]. simpl in H1.
  apply Hloop. tauto.
Qed.

Lemma getOrCreateMarket_all_protocols (c : Chain) (asset : Address) (t : Z)
    (s : Store) :
  AllProtocols P s -> AllProtocols P (snd (getOrCreateMarket norm c asset t s)).
Proof.
  apply AllProtocols_ext. apply (getOrCreateMarket_frame norm c asset t s).
Qed.

Lemma openEvent_all_protocols (c : Chain) (event : Event) (s : Store) :
  AllProtocols P s -> AllProtocols P (snd (openEvent norm c event s)).
Proof.
  intros Hs. unfold openEvent.
  pose proof (getOrCreateMarket_all_protocols c (reserve event)
                (blockTimestamp (eventBlock event)) s Hs) as H1.
  destruct (getOrCreateMarket norm c _ _ s) as [market s1]; simpl in H1.
  pose proof (getOrCreateUser_frame (account event) s1) as H2.
  destruct (getOrCreateUser (account event) s1) as [user s2]; simpl in H2.
  pose proof (getOrCreateUserPosition_frame user market s2) as H3.
  destruct (getOrCreateUserPosition user market s2) as [position s3]; simpl in H3.
  assert (Hs3 : AllProtocols P s3).
  { eapply AllProtocols_ext; [|exact H1]. intuition congruence. }
  pose proof (accrue_all_protocols market (blockTimestamp (eventBlock event)) s3 Hs3)
    as H4.
  destruct (calculateAndAccumulateRevenue norm market _ s3) as [market' s4].
  exact H4.
Qed.

Lemma settleEvent_all_protocols (c : Chain) (event : Event) (type : string)
    (user : User.t) (market : Market.t) (s : Store) :
  AllProtocols P s -> AllProtocols P (settleEvent norm c event type user market s).
Proof.
  intros Hs. unfold settleEvent.
  match goal with |- context [recalculateUserTotals norm c ?u ?s0] =>
    pose proof (recalculateUserTotals_frame norm c u s0) as H1;
    destruct (recalculateUserTotals norm c u s0) as [user1 s1] end.
  simpl in H1.
  assert (Hs1 : AllProtocols P s1).
  { eapply AllProtocols_ext; [|exact Hs]. destruct H1 as [-> _]. reflexivity. }
  pose proof (recalculateProtocolTotals_all_protocols c s1 Hs1) as H2.
  match goal with |- context [updateHourlySnapshot ?m ?e ?t ?v ?s0] =>
    pose proof (updateHourlySnapshot_frame m e t v s0) as H3;
    destruct (updateHourlySnapshot m e t v s0) as [h s3] end.
  simpl in H3.
  match goal with |- context [updateDailySnapshot norm ?m ?e ?t ?v ?a ?u ?s0] =>
    pose proof (updateDailySnapshot_frame norm m e t v a u s0) as H4;
    destruct (updateDailySnapshot norm m e t v a u s0) as [d s4] end.
  simpl in H4.
  eapply AllProtocols_ext; [|exact H2]. intuition congruence.
Qed.

Lemma processMarketInBlock_all_protocols (c : Chain) (market : Market.t)
    (block : Block) (s : Store) :
  AllProtocols P s -> AllProtocols P (processMarketInBlock norm c market block s).
Proof.
  intros Hs. unfold processMarketInBlock.
  match goal with |- context [calculateAndAccumulateRevenue norm ?m ?t ?s0] =>
    assert (H0 : AllProtocols P s0)
      by (destruct (tokens s !! _); [eapply AllProtocols_ext; [|exact Hs]|]; done);
    pose proof (accrue_all_protocols m t s0 H0) as H1;
    destruct (calculateAndAccumulateRevenue norm m t s0) as [m1 s1] end.
  simpl in H1. eapply AllProtocols_ext; [|exact H1]. reflexivity.
Qed.

Lemma handleBlockStep_all_protocols (c : Chain) (block : Block) (s : Store)
    (r : Address) :
  AllProtocols P s -> AllProtocols P (handleBlockStep norm c block s r).
Proof.
  intros Hs. unfold handleBlockStep.
  destruct (markets s !! toLowerCase r) as [m|].
  - apply processMarketInBlock_all_protocols, Hs.
  - pose proof (getOrCreateMarket_all_protocols c r (blockTimestamp block) s Hs) as H1.
    destruct (getOrCreateMarket norm c r _ s) as [m s1].
    apply processMarketInBlock_all_protocols, H1.
Qed.

Lemma handle_all_protocols (trigger : Trigger) (s : Store) :
  AllProtocols P s -> AllProtocols P (handle norm trigger s).
Proof.
  intros Hs.
  assert (Hposition : forall c event type position s0 market user,
            AllProtocols P s0 ->
            AllProtocols P
              (settleEvent norm c event type user market (save_UserPosition position s0))).
  { intros. apply settleEvent_all_protocols. eapply AllProtocols_ext; [|eassumption].
    reflexivity. }
  destruct trigger as [c event|c event|c event|c event|c event|c block]; simpl.
  1-4: unfold handleSupply, handleWithdraw, handleBorrow, handleRepay;
       pose proof (openEvent_all_protocols c event s Hs) as H1;
       destruct (openEvent norm c event s) as [[[market user] position] s1];
       apply Hposition; exact H1.
  - unfold handleReserveDataUpdated.
    pose proof (getOrCreateMarket_all_protocols c (rateReserve event)
                  (blockTimestamp (rateBlock event)) s Hs) as H1.
    destruct (getOrCreateMarket norm c _ _ s) as [market s1]; simpl in H1.
    pose proof (accrue_all_protocols market (blockTimestamp (rateBlock event)) s1 H1)
      as H2.
    destruct (calculateAndAccumulateRevenue norm market _ s1) as [market' s2].
    simpl in H2. apply recalculateProtocolTotals_all_protocols.
    eapply AllProtocols_ext; [|exact H2]. reflexivity.
  - unfold handleBlock.
    destruct (getOrCreateProtocol_all_protocols s Hs) as [_ H0].
    destruct (getOrCreateProtocol s) as [protocol s0]; simpl in H0.
    destruct (try_getReservesList c) as [reserves|]; [|exact H0].
    apply recalculateProtocolTotals_all_protocols.
    apply fold_left_invariant; [|exact H0].
    intros a r Ha. apply handleBlockStep_all_protocols, Ha.
Qed.

End ProtocolInvariant.

Section Revenue.

Variable norm : Qc -> Qc.
Context `{!HostNorm norm} `{!HostOrder norm}.

Lemma countersLe_refl (a : Qc * Qc * Qc) : countersLe a a.
Proof. unfold countersLe. repeat split; apply Qcle_refl. Qed.

Lemma countersLe_trans (a b c : Qc * Qc * Qc) :
  countersLe a b -> countersLe b c -> countersLe a c.
Proof.
  unfold countersLe. intros (A1 & A2 & A3) (B1 & B2 & B3).
  repeat split; eapply Qcle_trans; eassumption.
Qed.

Lemma Qcle_plus_nonneg (x r : Qc) : (0 <= r)%Qc -> (x <= x + r)%Qc.
Proof.
  intros Hr. rewrite <- (Qcplus_0_r x) at 1.
  apply Qcplus_le_compat; [apply Qcle_refl | exact Hr].
Qed.

Lemma bd_plus_grows (x r : Qc) : norm x = x -> (0 <= r)%Qc -> (x <= bd_plus norm x r)%Qc.
Proof.
  intros Hx Hr. unfold bd_plus. rewrite <- Hx at 1.
  apply norm_mono, Qcle_plus_nonneg, Hr.
Qed.

Lemma norm_one : norm 1%Qc = 1%Qc.
Proof.
  replace 1%Qc with (Qc_of_Z 1) by (apply Qc_is_canon; reflexivity).
  apply (norm_Z norm). unfold PRECISION. lia.
Qed.

Lemma reserveFactorDecimal_range (reserveFactor : Z) :
  0 <= reserveFactor <= 10000 ->
  let reserveFactorDecimal :=
    bd_div norm (toBigDecimal norm reserveFactor) (Qc_of_Z 10000) in
  (0 <= reserveFactorDecimal)%Qc /\ (reserveFactorDecimal <= 1)%Qc.
Proof.
  intros Hr. cbv zeta. split.
  - apply (bd_div_nonneg norm).
    + apply (toBigDecimal_nonneg norm). lia.
    + apply Qc_of_Z_pos. lia.
  - unfold bd_div. rewrite <- norm_one. apply norm_mono.
    apply Qcdiv_le_one; [apply Qc_of_Z_pos; lia|].
    unfold toBigDecimal. rewrite (norm_Z norm) by (unfold PRECISION; lia).
    apply Qc_of_Z_le. lia.
Qed.

Lemma accrualComputes_signs (market : Market.t) (s : Store) (token : Token.t) :
  accrualComputes norm market s = Some token ->
  0 < Market.totalBorrow market /\ (0 < accrualSpread norm market)%Qc
  /\ tokens s !! Market.inputToken market = Some token.
Proof.
  unfold accrualComputes. intros H.
  destruct (Z.ltb_spec 0 (Market.totalBorrow market)) as [Hb|]; [|discriminate].
  destruct (0 <? Market.variableBorrowRate market); [|discriminate]. simpl in H.
  rewrite bd_gt_zero in H.
  destruct (bool_decide (0 < accrualSpread norm market)%Qc) eqn:E; [|discriminate].
  apply bool_decide_eq_true in E. tauto.
Qed.

Lemma accrualPeriodRevenue_nonneg (market : Market.t) (token : Token.t) (elapsed : Z) :
  0 < Market.totalBorrow market -> (0 < accrualSpread norm market)%Qc ->
  priceUnsigned token -> 0 < elapsed ->
  (0 <= accrualPeriodRevenue norm market token elapsed)%Qc.
Proof.
  intros Hb Hs Hp He. unfold accrualPeriodRevenue.
  apply (bd_div_nonneg norm);
    [|apply (toBigDecimal_pos norm); unfold SECONDS_PER_YEAR; lia].
  apply (bd_times_nonneg norm); [|apply (toBigDecimal_nonneg norm); lia].
  apply (bd_times_nonneg norm); [apply Qclt_le_weak, Hs|].
  unfold accrualTotalBorrowUSD. apply (bd_times_nonneg norm); [|exact Hp].
  apply (convertTokenToDecimal_nonneg norm). lia.
Qed.

Lemma accrualProtocolRevenue_range (market : Market.t) (periodRevenue : Qc) :
  reserveFactorInRange market -> (0 <= periodRevenue)%Qc ->
  norm periodRevenue = periodRevenue ->
  (0 <= accrualProtocolRevenue norm market periodRevenue)%Qc
  /\ (accrualProtocolRevenue norm market periodRevenue <= periodRevenue)%Qc.
Proof.
  intros Hr Hp Hn. unfold accrualProtocolRevenue.
  destruct (reserveFactorDecimal_range (Market.reserveFactor market) Hr) as [H0 H1].
  cbv zeta in H0, H1. split.
  - apply (bd_times_nonneg norm); assumption.
  - unfold bd_times. rewrite <- Hn at 2. apply norm_mono.
    rewrite <- (Qcmult_1_r periodRevenue) at 2.
    rewrite !(Qcmult_comm periodRevenue).
    apply Qcmult_le_compat_r; assumption.
Qed.

Lemma accrualSupplySideRevenue_nonneg (periodRevenue protocolRevenue : Qc) :
  (protocolRevenue <= periodRevenue)%Qc ->
  (0 <= accrualSupplySideRevenue norm periodRevenue protocolRevenue)%Qc.
Proof.
  intros Hle. unfold accrualSupplySideRevenue, bd_minus.
  apply (norm_nonneg norm). unfold Qcminus. apply -> Qcle_minus_iff. exact Hle.
Qed.

Lemma getOrCreateProtocol_counters (s : Store) :
  revenueCounters (snd (getOrCreateProtocol s)) = revenueCounters s.
Proof. unfold revenueCounters. now rewrite getOrCreateProtocol_again. Qed.

Lemma accrue_idle_counters (market : Market.t) (timestamp : Z) (s : Store) :
  accrualComputes norm market s = None ->
  revenueCounters (snd (calculateAndAccumulateRevenue norm market timestamp s))
  = revenueCounters s.
Proof.
  intros Ec. rewrite <- (getOrCreateProtocol_counters s).
  unfold calculateAndAccumulateRevenue.
  pose proof (getOrCreateProtocol_frame s) as F.
  destruct (getOrCreateProtocol s) as [protocol s0]; simpl in F. simpl snd.
  destruct (timestamp <=? Market.lastRevenueCalculationTimestamp market);
    [reflexivity|].
  rewrite (accrualComputes_tokens norm market s s0), Ec by tauto.
  apply revenueCounters_ext. reflexivity.
Qed.

Lemma countersSettled_fresh :
  countersSettled norm (Protocol.mk PROTOCOL_ID ZERO_BD ZERO_BD ZERO_BD ZERO_BD ZERO_BD).
Proof.
  unfold countersSettled, revenueConsistent. simpl.
  split; [apply (norm_zero norm)|]. split; [apply (norm_zero norm)|].
  symmetry. apply (bd_plus_zero norm).
Qed.

Lemma countersSettled_totals (x y : Qc) (p : Protocol.t) :
  countersSettled norm p ->
  countersSettled norm (Protocol.set_totalBorrowUSD y (Protocol.set_totalSupplyUSD x p)).
Proof. intros H. exact H. Qed.

Lemma countersSettled_accrued (a b : Qc) (p : Protocol.t) :
  countersSettled norm p ->
  countersSettled norm
    (Protocol.set_totalRevenueUSD
       (bd_plus norm (bd_plus norm (Protocol.cumulativeSupplySideRevenueUSD p) a)
          (bd_plus norm (Protocol.cumulativeProtocolSideRevenueUSD p) b))
       (Protocol.set_cumulativeProtocolSideRevenueUSD
          (bd_plus norm (Protocol.cumulativeProtocolSideRevenueUSD p) b)
          (Protocol.set_cumulativeSupplySideRevenueUSD
             (bd_plus norm (Protocol.cumulativeSupplySideRevenueUSD p) a) p))).
Proof.
  intros _. unfold countersSettled, revenueConsistent. simpl.
  split; [unfold bd_plus; apply norm_idem|].
  split; [unfold bd_plus; apply norm_idem | reflexivity].
Qed.

(** One accrual never lowers a counter. *)
Lemma accrue_grows (market : Market.t) (timestamp : Z) (s : Store) :
  Keyed Protocol.id (protocols s) -> AllProtocols (countersSettled norm) s ->
  reserveFactorInRange market -> AllTokens priceUnsigned s ->
  countersLe (revenueCounters s)
    (revenueCounters (snd (calculateAndAccumulateRevenue norm market timestamp s))).
Proof.
  intros Hk Hp Hr Ht.
  destruct (Z.le_gt_cases timestamp (Market.lastRevenueCalculationTimestamp market))
    as [Hle|Hlt].
  { rewrite (accrue_guarded_counters norm) by exact Hle. apply countersLe_refl. }
  destruct (accrualComputes norm market s) as [token|] eqn:Ec;
    [|rewrite accrue_idle_counters by exact Ec; apply countersLe_refl].
  pose proof (accrue_accumulates norm market timestamp s token Hlt Ec Hk) as Ha.
  cbv zeta in Ha.
  destruct (getOrCreateProtocol_all_protocols (countersSettled norm)
              countersSettled_fresh s Hp) as [(Hss & Hps & Htot) _].
  destruct (accrualComputes_signs market s token Ec) as (Hb & Hsp & Et).
  set (elapsed := timestamp - Market.lastRevenueCalculationTimestamp market) in *.
  set (periodRevenue := accrualPeriodRevenue norm market token elapsed) in *.
  assert (H0 : (0 <= periodRevenue)%Qc).
  { apply accrualPeriodRevenue_nonneg; try assumption.
    - exact (Ht _ _ Et).
    - unfold elapsed. lia. }
  destruct (accrualProtocolRevenue_range market periodRevenue Hr H0
              (accrualPeriodRevenue_normal norm market token elapsed)) as [H1 H2].
  pose proof (accrualSupplySideRevenue_nonneg periodRevenue _ H2) as H3.
  unfold revenueCounters in Ha |- *.
  set (p := fst (getOrCreateProtocol s)) in *. cbv beta iota zeta in Ha. rewrite Ha.
  unfold countersLe. cbn [fst snd].
  split; [apply bd_plus_grows; assumption|].
  split; [apply bd_plus_grows; assumption|].
  unfold revenueConsistent in Htot. rewrite Htot. unfold bd_plus at 1 2.
  apply norm_mono, Qcplus_le_compat; apply bd_plus_grows; assumption.
Qed.

Lemma MarketStep_range (m m' : Market.t) :
  MarketStep norm chainInRange m m' -> reserveFactorInRange m -> reserveFactorInRange m'.
Proof.
  intros Hs. pose proof (MarketStep_config norm chainInRange m m' Hs) as Hc.
  apply (f_equal snd) in Hc. simpl in Hc. unfold reserveFactorInRange. now rewrite Hc.
Qed.

Lemma freshMarket_range (c : Chain) (asset : Address) (t : Z) (i o : string) :
  chainInRange c -> reserveFactorInRange (freshMarket c asset t i o).
Proof.
  intros (_ & _ & Hc). unfold reserveFactorInRange, freshMarket. simpl.
  destruct (try_getReserveConfigurationData c asset) as [config|] eqn:E.
  - exact (Hc _ _ E).
  - simpl. unfold ZERO_BI. lia.
Qed.

Lemma getTokenPriceUSD_unsigned (c : Chain) (address : Address) :
  chainInRange c -> (0 <= getTokenPriceUSD norm c address)%Qc.
Proof.
  intros (Hp & Hu & _). apply (getTokenPriceUSD_nonneg norm).
  - specialize (Hp address).
    destruct (try_getAssetPrice c address) as [price|]; [exact (Hp price eq_refl) | exact I].
  - destruct (try_BASE_CURRENCY_UNIT c) as [unit|]; [exact (Hu unit eq_refl) | exact I].
Qed.

Lemma TokenStep_unsigned (t t' : Token.t) :
  TokenStep norm chainInRange t t' -> priceUnsigned t -> priceUnsigned t'.
Proof.
  induction 1; intros Hp.
  - exact Hp.
  - unfold priceUnsigned. simpl. apply getTokenPriceUSD_unsigned. assumption.
  - exact (IHTokenStep Hp).
Qed.

Lemma freshToken_unsigned (c : Chain) (address : Address) :
  chainInRange c -> priceUnsigned (freshToken norm c address).
Proof. intros Hc. unfold priceUnsigned. simpl. apply getTokenPriceUSD_unsigned, Hc. Qed.

Lemma AllMarkets_range_descend (s s' : Store) :
  MarketsDescend norm chainInRange s s' ->
  AllMarkets reserveFactorInRange s -> AllMarkets reserveFactorInRange s'.
Proof.
  apply (descend_all norm chainInRange reserveFactorInRange).
  - apply MarketStep_range.
  - intros. apply freshMarket_range. assumption.
Qed.

Lemma AllTokens_unsigned_descend (s s' : Store) :
  TokensDescend norm chainInRange s s' ->
  AllTokens priceUnsigned s -> AllTokens priceUnsigned s'.
Proof.
  apply (descend_all_tokens norm chainInRange priceUnsigned).
  - apply TokenStep_unsigned.
  - intros. apply freshToken_unsigned. assumption.
Qed.

Lemma InHand_range (m : Market.t) (s : Store) :
  AllMarkets reserveFactorInRange s -> InHand norm chainInRange m s ->
  reserveFactorInRange m.
Proof.
  intros Hs Hh. unfold InHand, marketDescends in Hh.
  destruct (markets s !! Market.id m) as [m0|] eqn:E.
  - exact (MarketStep_range m0 m Hh (Hs _ _ E)).
  - destruct Hh as (c & a & t & i & o & Hc & Hstep).
    exact (MarketStep_range _ m Hstep (freshMarket_range c a t i o Hc)).
Qed.

Lemma getOrCreateProtocol_accounted (s : Store) :
  Accounted norm s -> Accounted norm (snd (getOrCreateProtocol s)).
Proof.
  intros (Hk & Hm & Ht & Hp).
  pose proof (getOrCreateProtocol_frame s) as F. cbv zeta in F.
  destruct F as (Fm & Ft & _).
  split; [apply getOrCreateProtocol_keyed, Hk|].
  split; [unfold AllMarkets; rewrite Fm; exact Hm|].
  split; [unfold AllTokens; rewrite Ft; exact Ht|].
  apply (getOrCreateProtocol_all_protocols (countersSettled norm)
           countersSettled_fresh s Hp).
Qed.

Lemma getOrCreateMarket_accounted (c : Chain) (asset : Address) (t : Z) (s : Store) :
  chainInRange c -> Accounted norm s ->
  let ms := getOrCreateMarket norm c asset t s in
  Accounted norm (snd ms) /\ InHand norm chainInRange (fst ms) (snd ms)
  /\ revenueCounters (snd ms) = revenueCounters s.
Proof.
  intros Hc (Hk & Hm & Ht & Hp). cbv zeta.
  pose proof (getOrCreateMarket_descend norm chainInRange c asset t s
                (proj1 (proj2 Hk)) Hc) as Hd.
  cbv zeta in Hd. destruct Hd as [Hd Hh].
  pose proof (getOrCreateMarket_frame norm c asset t s) as F. cbv zeta in F.
  destruct F as (Fp & _).
  split; [|split; [exact Hh | apply revenueCounters_ext, Fp]].
  split; [apply getOrCreateMarket_keyed, Hk|].
  split; [exact (AllMarkets_range_descend _ _ Hd Hm)|].
  split.
  - exact (AllTokens_unsigned_descend _ _
             (getOrCreateMarket_tokens norm chainInRange c asset t s Hc) Ht).
  - exact (AllProtocols_ext (countersSettled norm) _ _ Fp Hp).
Qed.

Lemma updateMarketState_range (c : Chain) (market : Market.t) :
  reserveFactorInRange market -> reserveFactorInRange (updateMarketState norm c market).
Proof.
  unfold reserveFactorInRange, updateMarketState.
  destruct (try_getReserveData c (Market.asset market)); simpl; auto.
Qed.

Lemma processMarketInBlock_grows (c : Chain) (market : Market.t) (block : Block)
    (s : Store) :
  chainInRange c -> Accounted norm s -> InHand norm chainInRange market s ->
  Accounted norm (processMarketInBlock norm c market block s)
  /\ countersLe (revenueCounters s)
       (revenueCounters (processMarketInBlock norm c market block s)).
Proof.
  intros Hc (Hk & Hm & Ht & Hp) Hh. split.
  - split; [apply processMarketInBlock_keyed, Hk|].
    split; [exact (AllMarkets_range_descend _ _
                     (processMarketInBlock_descend norm chainInRange c market block s
                        Hc Hh) Hm)|].
    split.
    + exact (AllTokens_unsigned_descend _ _
               (processMarketInBlock_tokens norm chainInRange c market block s Hc
                  (proj1 (proj2 (proj2 Hk)))) Ht).
    + apply (processMarketInBlock_all_protocols norm (countersSettled norm)
               countersSettled_fresh countersSettled_accrued), Hp.
  - pose proof (processMarketInBlock_counters norm c market block s) as E.
    cbv zeta in E. rewrite E. clear E.
    match goal with |- context [calculateAndAccumulateRevenue norm ?m ?t ?s0] =>
      set (refreshed := s0);
      assert (Ep : protocols refreshed = protocols s)
        by (unfold refreshed; destruct (tokens s !! _); reflexivity);
      assert (Htr : AllTokens priceUnsigned refreshed) end.
    { unfold refreshed.
      destruct (tokens s !! Market.inputToken (updateMarketState norm c market))
        as [token|]; [|exact Ht].
      intros k e. simpl. rewrite lookup_insert. case_decide.
      - intros [= <-]. unfold priceUnsigned. simpl.
        apply getTokenPriceUSD_unsigned, Hc.
      - apply Ht. }
    rewrite <- (revenueCounters_ext s refreshed Ep).
    apply accrue_grows.
    + rewrite Ep. apply Hk.
    + exact (AllProtocols_ext (countersSettled norm) _ _ Ep Hp).
    + apply updateMarketState_range. exact (InHand_range market s Hm Hh).
    + exact Htr.
Qed.

Lemma handleBlockStep_grows (c : Chain) (block : Block) (s : Store) (r : Address) :
  chainInRange c -> Accounted norm s ->
  Accounted norm (handleBlockStep norm c block s r)
  /\ countersLe (revenueCounters s) (revenueCounters (handleBlockStep norm c block s r)).
Proof.
  intros Hc Hs. unfold handleBlockStep.
  destruct (markets s !! toLowerCase r) as [m|] eqn:E.
  - apply processMarketInBlock_grows; [exact Hc | exact Hs|].
    exact (InHand_stored norm chainInRange _ m s (proj1 (proj2 (proj1 Hs))) E).
  - pose proof (getOrCreateMarket_accounted c r (blockTimestamp block) s Hc Hs) as H1.
    cbv zeta in H1.
    destruct (getOrCreateMarket norm c r _ s) as [m s1]. simpl in H1.
    destruct H1 as (Hs1 & Hh & Ec). rewrite <- Ec.
    apply processMarketInBlock_grows; assumption.
Qed.

Lemma fold_grows {B : Type} (f : Store -> B -> Store) (Q : B -> Prop) (l : list B) :
  (forall a b,
      Q b -> Accounted norm a ->
      Accounted norm (f a b) /\ countersLe (revenueCounters a) (revenueCounters (f a b))) ->
  Forall Q l ->
  forall s : Store,
    Accounted norm s ->
    Accounted norm (fold_left f l s)
    /\ countersLe (revenueCounters s) (revenueCounters (fold_left f l s)).
Proof.
  intros Hf Hl. induction Hl as [|b l Hb Hl IH]; intros s Hs; simpl.
  - split; [exact Hs | apply countersLe_refl].
  - destruct (Hf s b Hb Hs) as [H1 H2]. destruct (IH _ H1) as [H3 H4].
    split; [exact H3 | exact (countersLe_trans _ _ _ H2 H4)].
Qed.

Lemma accrue_after_market_grows (c : Chain) (asset : Address) (t : Z) (s : Store) :
  chainInRange c -> Accounted norm s ->
  let ms := getOrCreateMarket norm c asset t s in
  countersLe (revenueCounters s)
    (revenueCounters (snd (calculateAndAccumulateRevenue norm (fst ms) t (snd ms)))).
Proof.
  intros Hc Hs. cbv zeta.
  pose proof (getOrCreateMarket_accounted c asset t s Hc Hs) as H1. cbv zeta in H1.
  destruct (getOrCreateMarket norm c asset t s) as [m s1]. simpl in *.
  destruct H1 as ((Hk & Hm & Ht & Hp) & Hh & Ec). rewrite <- Ec.
  apply accrue_grows; [apply Hk | exact Hp | exact (InHand_range m s1 Hm Hh) | exact Ht].
Qed.

Lemma handle_grows (trigger : Trigger) (s : Store) :
  chainInRange (chainOf trigger) -> Accounted norm s ->
  Accounted norm (handle norm trigger s)
  /\ countersLe (revenueCounters s) (revenueCounters (handle norm trigger s)).
Proof.
  intros Hc Hs. split.
  - destruct Hs as (Hk & Hm & Ht & Hp).
    split; [apply handle_keyed, Hk|].
    split; [exact (AllMarkets_range_descend _ _
                     (handle_descend norm chainInRange trigger s Hk Hc) Hm)|].
    split; [exact (AllTokens_unsigned_descend _ _
                     (handle_tokens norm chainInRange trigger s Hk Hc) Ht)|].
    apply (handle_all_protocols norm (countersSettled norm)
             countersSettled_fresh countersSettled_totals countersSettled_accrued), Hp.
  - destruct trigger as [c event|c event|c event|c event|c event|c block];
      simpl in Hc |- *.
    1-4: pose proof (eventHandlers_counters norm c event s) as E; cbv zeta in E;
         destruct E as (E1 & E2 & E3 & E4);
         rewrite ?E1, ?E2, ?E3, ?E4;
         exact (accrue_after_market_grows c (reserve event)
                  (blockTimestamp (eventBlock event)) s Hc Hs).
    + pose proof (handleReserveDataUpdated_counters norm c event s) as E.
      cbv zeta in E. rewrite E.
      exact (accrue_after_market_grows c (rateReserve event)
               (blockTimestamp (rateBlock event)) s Hc Hs).
    + unfold handleBlock.
      pose proof (getOrCreateProtocol_accounted s Hs) as H0.
      pose proof (getOrCreateProtocol_counters s) as E0.
      destruct (getOrCreateProtocol s) as [protocol s0]. simpl in H0, E0.
      rewrite <- E0.
      destruct (try_getReservesList c) as [reserves|]; [|apply countersLe_refl].
      rewrite (recalculateProtocolTotals_counters norm).
      apply (fold_grows (handleBlockStep norm c block) (fun _ => True) reserves).
      * intros a b _ Ha. apply handleBlockStep_grows; assumption.
      * apply Forall_true. intros. exact I.
      * exact H0.
Qed.

Lemma run_grows (triggers : list Trigger) (s : Store) :
  Forall (fun trigger => chainInRange (chainOf trigger)) triggers ->
  Accounted norm s ->
  Accounted norm (run norm triggers s)
  /\ countersLe (revenueCounters s) (revenueCounters (run norm triggers s)).
Proof.
  intros Hl Hs. unfold run.
  apply (fold_grows (fun s trigger => handle norm trigger s)
           (fun trigger => chainInRange (chainOf trigger)) triggers); try assumption.
  intros a b Hb Ha. apply handle_grows; assumption.
Qed.

Lemma emptyStore_accounted : Accounted norm emptyStore.
Proof.
  split; [apply emptyStore_keyed|].
  split; [|split]; intros k e; simpl; rewrite lookup_empty; discriminate.
Qed.

End Revenue.

(** X22. The cumulative revenue counters never go down.  On a host whose
    rounding keeps the order, and against chains in range (oracle prices not
    negative, a positive base currency unit, reserve factors between 0 and
    10000 basis points), a store the handlers have left -- records under
    their ids, reserve factors in range, prices not negative, the two
    counters numbers of the host and the total their sum -- stays such a
    store through any sequence of triggers, and the supply-side counter, the
    protocol-side counter and the total revenue after the sequence are each
    at least what they were before it.  The empty store is such a store. *)
Theorem cumulative_revenue_never_decreases (norm : Qc -> Qc) (H : HostNorm norm)
    (O : HostOrder norm) (triggers : list Trigger) :
  Forall (fun trigger => chainInRange (chainOf trigger)) triggers ->
  (forall s : Store,
      Accounted norm s ->
      Accounted norm (run norm triggers s)
      /\ countersLe (revenueCounters s) (revenueCounters (run norm triggers s)))
  /\ Accounted norm emptyStore.
Proof.
  intros Hl. split.
  - intros s Hs. apply (run_grows norm triggers s Hl Hs).
  - apply (emptyStore_accounted norm).
Qed.

Lemma baseChain_in_range : chainInRange baseChain.
Proof.
  split; [|split].
  - intros asset price [= <-]. lia.
  - intros unit [= <-]. lia.
  - intros asset config [= <-]. simpl. lia.
Qed.

Lemma usdcStore_accounted : Accounted round34 (usdcStore oneYearMarket).
Proof.
  split; [apply usdcStore_fully_keyed|].
  split; [|split].
  - intros k m. simpl. rewrite lookup_insert. case_decide.
    + intros [= <-]. unfold reserveFactorInRange. simpl. lia.
    + rewrite lookup_empty. discriminate.
  - intros k t. simpl. rewrite lookup_insert. case_decide.
    + intros [= <-]. unfold priceUnsigned. simpl. apply Qc_of_Z_nonneg. lia.
    + rewrite lookup_empty. discriminate.
  - intros k p Hp. split; [|split].
    + revert Hp. simpl. rewrite lookup_insert. case_decide.
      * intros [= <-]. apply Qc_is_canon. vm_compute. reflexivity.
      * rewrite lookup_empty. discriminate.
    + revert Hp. simpl. rewrite lookup_insert. case_decide.
      * intros [= <-]. apply Qc_is_canon. vm_compute. reflexivity.
      * rewrite lookup_empty. discriminate.
    + exact (usdcStore_invariant oneYearMarket k p Hp).
Qed.

Lemma cumulative_revenue_never_decreases_witness :
  countersLe (revenueCounters (usdcStore oneYearMarket))
    (revenueCounters
       (run round34 [OnBlock baseChain laterBlock] (usdcStore oneYearMarket))).
Proof.
  assert (Hl : Forall (fun trigger => chainInRange (chainOf trigger))
                 [OnBlock baseChain laterBlock]).
  { constructor; [exact baseChain_in_range | constructor]. }
  exact (proj2 (proj1 (cumulative_revenue_never_decreases round34 round34_host
                         round34_order [OnBlock baseChain laterBlock] Hl)
                  (usdcStore oneYearMarket) usdcStore_accounted)).
Defined.
(** ** The balances of a position follow the chain *)

Section Balances.

Variable norm : Qc -> Qc.

Lemma updateUserPositionFromChain_balances (c : Chain) (position : UserPosition.t)
    (user : Address) (market : Market.t) :
  chainBalances (updateUserPositionFromChain c position user market)
  = match try_getUserReserveData c (Market.asset market) user with
    | Some userData =>
        (getCurrentATokenBalance userData, getCurrentVariableDebt userData,
         getCurrentStableDebt userData, getUsageAsCollateralEnabled userData)
    | None => chainBalances position
    end.
Proof.
  unfold updateUserPositionFromChain.
  destruct (try_getUserReserveData c (Market.asset market) user); reflexivity.
Qed.

Lemma accrue_asset (market : Market.t) (t : Z) (s : Store) :
  Market.asset (fst (calculateAndAccumulateRevenue norm market t s))
  = Market.asset market.
Proof.
  unfold calculateAndAccumulateRevenue. destruct (getOrCreateProtocol s) as [p s0].
  destruct (t <=? Market.lastRevenueCalculationTimestamp market); reflexivity.
Qed.

Lemma updateMarketState_asset (c : Chain) (market : Market.t) :
  Market.asset (updateMarketState norm c market) = Market.asset market.
Proof.
  unfold updateMarketState.
  destruct (try_getReserveData c (Market.asset market)); reflexivity.
Qed.

(** The market and the position an event handler works on. *)
Lemma openEvent_opened (c : Chain) (event : Event) (s : Store) :
  StoreKeyed s ->
  let '(market, user, position, s1) := openEvent norm c event s in
  let positionId :=
    getTokenId (account event) +:+ "-" +:+ getTokenId (reserve event) in
  Market.id market = getTokenId (reserve event)
  /\ UserPosition.id position = positionId
  /\ chainBalances position
     = match userPositions s !! positionId with
       | Some before => chainBalances before
       | None => (0, 0, 0, false)
       end.
Proof.
  intros (_ & Km & _ & Ku & Kp & _). unfold openEvent.
  pose proof (getOrCreateMarket_id norm c (reserve event)
                (blockTimestamp (eventBlock event)) s Km) as I1.
  pose proof (getOrCreateMarket_frame norm c (reserve event)
                (blockTimestamp (eventBlock event)) s) as F1.
  destruct (getOrCreateMarket norm c _ _ s) as [market s1]; simpl in I1, F1.
  destruct F1 as (_ & Eu & Ep & _).
  assert (H2 : User.id (fst (getOrCreateUser (account event) s1))
               = getTokenId (account event)).
  { unfold getOrCreateUser. rewrite Eu.
    destruct (users s !! getTokenId (account event)) as [u|] eqn:E; simpl;
      [exact (Ku _ _ E) | reflexivity]. }
  pose proof (getOrCreateUser_frame (account event) s1) as F2.
  destruct (getOrCreateUser (account event) s1) as [user s2]; simpl in H2, F2.
  destruct F2 as (_ & _ & _ & Ep2 & _).
  assert (H3 : let position := fst (getOrCreateUserPosition user market s2) in
               let positionId :=
                 getTokenId (account event) +:+ "-" +:+ getTokenId (reserve event) in
               UserPosition.id position = positionId
               /\ chainBalances position
                  = match userPositions s !! positionId with
                    | Some before => chainBalances before
                    | None => (0, 0, 0, false)
                    end).
  { cbv zeta. unfold getOrCreateUserPosition. rewrite H2, I1, Ep2, Ep.
    destruct (userPositions s !! _) as [stored|] eqn:E; simpl.
    - split; [exact (Kp _ _ E) | reflexivity].
    - split; reflexivity. }
  destruct (getOrCreateUserPosition user market s2) as [position s3].
  cbv zeta in H3. simpl in H3.
  pose proof (accrue_id norm market (blockTimestamp (eventBlock event)) s3) as I4.
  destruct (calculateAndAccumulateRevenue norm market _ s3) as [market' s4].
  simpl in I4. split; [congruence | exact H3].
Qed.

Lemma eventHandler_follows (c : Chain) (event : Event) (type : string) (s : Store)
    (update : Market.t -> UserPosition.t -> Store -> UserPosition.t) :
  StoreKeyed s ->
  (forall market position s1,
      UserPosition.id (update market position s1) = UserPosition.id position
      /\ UserPosition.lastUpdateTimestamp (update market position s1)
         = blockTimestamp (eventBlock event)
      /\ chainBalances (update market position s1)
         = chainBalances
             (updateUserPositionFromChain c position (account event) market)) ->
  positionFollowsChain c event s
    (let '(market, user, position, s1) := openEvent norm c event s in
     settleEvent norm c event type user market
       (save_UserPosition (update market position s1) s1)).
Proof.
  intros Hs Hu.
  pose proof (openEvent_opened c event s Hs) as Ho.
  pose proof (savedPosition_pnl norm c event type s update
                (proj1 (proj2 (proj2 (proj2 (proj2 Hs)))))
                (fun m p s1 => proj1 (Hu m p s1))) as Hp.
  destruct (openEvent norm c event s) as [[[market user] position] s1].
  cbv zeta in Ho, Hp. destruct Ho as (Im & Ip & Eb). destruct Hp as (Hp1 & Hp2 & _).
  destruct (Hu market position s1) as (_ & Ht & Hb).
  unfold positionFollowsChain. cbv zeta.
  set (market1 :=
         Market.set_lastUpdateBlock (blockNumber (eventBlock event))
           (Market.set_lastUpdateTimestamp (blockTimestamp (eventBlock event))
              (updateMarketState norm c market))).
  exists market1, (update market position s1).
  split.
  - rewrite (settleEvent_markets norm (fun _ => True)). fold market1. simpl.
    replace (getTokenId (reserve event)) with (Market.id market1).
    + apply lookup_insert_eq.
    + unfold market1. simpl. rewrite updateMarketState_id. exact Im.
  - rewrite <- Ip. split; [exact Hp1|].
    split; [apply (Hu market position s1)|]. split; [exact Ht|].
    split; [|exact Hp2].
    rewrite Hb, updateUserPositionFromChain_balances.
    replace (Market.asset market1) with (Market.asset market)
      by (unfold market1; simpl; symmetry; apply updateMarketState_asset).
    rewrite <- Ip in Eb. rewrite Eb. reflexivity.
Qed.

End Balances.

(** X23. Each of the four event handlers leaves the position of the account
    on the market of the event in step with the chain: the position is on
    record under the id made of the account and the market, stamped with the
    timestamp of the event, and its aToken balance, its two debts and its
    collateral flag are what [getUserReserveData] reports for the asset of
    the market and the account.  When that call reverts the four fields
    keep their earlier values -- zero and [false] for a position the event
    opened.  No other position is written. *)
Theorem position_balances_follow_chain (norm : Qc -> Qc) (c : Chain) (event : Event)
    (s : Store) :
  StoreKeyed s ->
  positionFollowsChain c event s (handleSupply norm c event s)
  /\ positionFollowsChain c event s (handleWithdraw norm c event s)
  /\ positionFollowsChain c event s (handleBorrow norm c event s)
  /\ positionFollowsChain c event s (handleRepay norm c event s).
Proof.
  intros Hs. split; [|split; [|split]].
  - apply (eventHandler_follows norm c event "SUPPLY" s
             (fun market position _ => supplyToPosition c event market position) Hs).
    intros market position _. unfold supplyToPosition. simpl.
    split; [apply updateUserPositionFromChain_kept|]. split; reflexivity.
  - apply (eventHandler_follows norm c event "WITHDRAW" s
             (fun market position s1 =>
                withdrawFromPosition norm c event market position s1) Hs).
    intros market position s1.
    split; [apply (withdrawFromPosition_spec norm)|].
    unfold withdrawFromPosition. cbv zeta.
    repeat match goal with
           | |- context [if ?b then _ else _] => destruct b
           | |- context [match tokens s1 !! ?k with _ => _ end] =>
               destruct (tokens s1 !! k)
           end; split; reflexivity.
  - apply (eventHandler_follows norm c event "BORROW" s
             (fun market position _ => resyncPosition c event market position) Hs).
    intros market position _. unfold resyncPosition. simpl.
    split; [apply updateUserPositionFromChain_kept|]. split; reflexivity.
  - apply (eventHandler_follows norm c event "REPAY" s
             (fun market position _ => resyncPosition c event market position) Hs).
    intros market position _. unfold resyncPosition. simpl.
    split; [apply updateUserPositionFromChain_kept|]. split; reflexivity.
Qed.

Lemma position_balances_follow_chain_witness :
  positionFollowsChain baseChain supplyEvent (usdcStore oneYearMarket)
    (handleSupply round34 baseChain supplyEvent (usdcStore oneYearMarket)).
Proof.
  exact (proj1 (position_balances_follow_chain round34 baseChain supplyEvent
                  (usdcStore oneYearMarket) (usdcStore_fully_keyed oneYearMarket))).
Defined.
(** ** The revenue figures of a daily snapshot *)

Section Projection.

Variable norm : Qc -> Qc.

(** The revenue a market would book in a day at its current spread and
    borrow total, as [updateDailySnapshot] computes it. *)
Lemma updateDailySnapshot_revenue (market : Market.t) (event : Event) (type : string)
    (volume : Z) (amountUSD : Qc) (userId : string) (s : Store) :
  let d := fst (updateDailySnapshot norm market event type volume amountUSD userId s) in
  let key :=
    Market.id market +:+ "-" +:+ toString (getDayId (blockTimestamp (eventBlock event))) in
  dailyRevenueFigures d
  = match accrualComputes norm market s with
    | Some token =>
        let dailyRevenue :=
          bd_div norm
            (bd_times norm (accrualSpread norm market)
               (accrualTotalBorrowUSD norm market token))
            (Qc_of_Z 365) in
        let protocolRevenue := accrualProtocolRevenue norm market dailyRevenue in
        (accrualSupplySideRevenue norm dailyRevenue protocolRevenue, protocolRevenue,
         dailyRevenue)
    | None =>
        match dailySnapshots s !! key with
        | Some before => dailyRevenueFigures before
        | None => (ZERO_BD, ZERO_BD, ZERO_BD)
        end
    end.
Proof.
  cbv zeta. unfold updateDailySnapshot, loadOrNewDailySnapshot.
  destruct (dailySnapshots s !! _) as [before|];
    destruct (dailyActiveUsers s !! _);
    match goal with |- context [accrualComputes norm market ?s0] =>
      replace (accrualComputes norm market s0) with (accrualComputes norm market s)
        by (apply (accrualComputes_tokens norm); reflexivity)
    end;
    destruct (accrualComputes norm market s);
    repeat case_decide; reflexivity.
Qed.

End Projection.

Lemma projection_is_one_day (market : Market.t) (token : Token.t) :
  bd_div exact
    (bd_times exact (accrualSpread exact market) (accrualTotalBorrowUSD exact market token))
    (Qc_of_Z 365)
  = accrualPeriodRevenue exact market token SECONDS_PER_DAY.
Proof.
  unfold accrualPeriodRevenue, bd_div, bd_times, toBigDecimal, exact,
    SECONDS_PER_DAY, SECONDS_PER_YEAR.
  set (x := (accrualSpread (fun q => q) market
             * accrualTotalBorrowUSD (fun q => q) market token)%Qc).
  replace (Qc_of_Z 31536000) with (Qc_of_Z 365 * Qc_of_Z 86400)%Qc
    by (apply Qc_is_canon; reflexivity).
  assert (H365 : Qc_of_Z 365 <> 0%Qc) by (intros E; discriminate E).
  assert (H864 : Qc_of_Z 86400 <> 0%Qc) by (intros E; discriminate E).
  field. split; assumption.
Qed.

(** X24. The revenue figures of a daily snapshot are a projection, not a
    sum of what accrued: when the market of the event computes revenue (a
    positive borrow total and variable rate, a positive spread, its token on
    record) [updateDailySnapshot] overwrites the total with
    [spread * totalBorrowUSD / 365] and splits it by the reserve factor as
    an accrual does, whatever the time since the last event and whatever the
    volume; with a price that is not negative and a reserve factor in range
    the protocol side lies between zero and the total and the supply side
    is not negative.  When the market computes no revenue the three figures
    stay what the snapshot of the day held -- zero on its first event.  On a
    host of unbounded precision the total is exactly what one accrual over
    86400 seconds books.  The snapshot that carries these figures is the one
    the call leaves on record, under the id made of the market and the day;
    no other snapshot is written. *)
Theorem daily_revenue_is_a_projection (norm : Qc -> Qc) (H : HostNorm norm)
    (O : HostOrder norm) (market : Market.t) (event : Event) (type : string)
    (volume : Z) (amountUSD : Qc) (userId : string) (s : Store) :
  let r := updateDailySnapshot norm market event type volume amountUSD userId s in
  let d := fst r in
  let key :=
    Market.id market +:+ "-" +:+ toString (getDayId (blockTimestamp (eventBlock event))) in
  match accrualComputes norm market s with
  | Some token =>
      DailySnapshot.dailyTotalRevenueUSD d
      = bd_div norm
          (bd_times norm (accrualSpread norm market)
             (accrualTotalBorrowUSD norm market token))
          (Qc_of_Z 365)
      /\ DailySnapshot.dailyProtocolSideRevenueUSD d
         = accrualProtocolRevenue norm market (DailySnapshot.dailyTotalRevenueUSD d)
      /\ DailySnapshot.dailySupplySideRevenueUSD d
         = accrualSupplySideRevenue norm (DailySnapshot.dailyTotalRevenueUSD d)
             (DailySnapshot.dailyProtocolSideRevenueUSD d)
      /\ (priceUnsigned token -> reserveFactorInRange market ->
          (0 <= DailySnapshot.dailyProtocolSideRevenueUSD d)%Qc
          /\ (DailySnapshot.dailyProtocolSideRevenueUSD d
              <= DailySnapshot.dailyTotalRevenueUSD d)%Qc
          /\ (0 <= DailySnapshot.dailySupplySideRevenueUSD d)%Qc)
  | None =>
      dailyRevenueFigures d
      = match dailySnapshots s !! key with
        | Some before => dailyRevenueFigures before
        | None => (ZERO_BD, ZERO_BD, ZERO_BD)
        end
  end
  /\ (forall token,
         accrualComputes exact market s = Some token ->
         let r' :=
           updateDailySnapshot exact market event type volume amountUSD userId s in
         DailySnapshot.dailyTotalRevenueUSD (fst r')
         = accrualPeriodRevenue exact market token SECONDS_PER_DAY
         /\ dailySnapshots (snd r') !! DailySnapshot.id (fst r') = Some (fst r'))
  /\ dailySnapshots (snd r) !! DailySnapshot.id d = Some d
  /\ (forall k, k <> DailySnapshot.id d ->
        dailySnapshots (snd r) !! k = dailySnapshots s !! k)
  /\ (Keyed DailySnapshot.id (dailySnapshots s) -> DailySnapshot.id d = key).
Proof.
  cbv zeta. split; [|split; [|split; [|split]]].
  - pose proof (updateDailySnapshot_revenue norm market event type volume amountUSD
                  userId s) as E.
    cbv zeta in E.
    destruct (accrualComputes norm market s) as [token|] eqn:Ec; [|exact E].
    unfold dailyRevenueFigures in E. injection E as E1 E2 E3.
    rewrite E1, E2, E3. clear E1 E2 E3.
    set (dailyRevenue :=
           bd_div norm
             (bd_times norm (accrualSpread norm market)
                (accrualTotalBorrowUSD norm market token))
             (Qc_of_Z 365)).
    split; [reflexivity|]. split; [reflexivity|]. split; [reflexivity|].
    intros Hp Hr.
    destruct (accrualComputes_signs norm market s token Ec) as (Hb & Hs & _).
    assert (H0 : (0 <= dailyRevenue)%Qc).
    { apply (bd_div_nonneg norm); [|apply Qc_of_Z_pos; lia].
      apply (bd_times_nonneg norm); [apply Qclt_le_weak, Hs|].
      unfold accrualTotalBorrowUSD.
      apply (bd_times_nonneg norm); [|exact Hp].
      apply (convertTokenToDecimal_nonneg norm). lia. }
    assert (Hn : norm dailyRevenue = dailyRevenue)
      by (unfold dailyRevenue, bd_div; apply norm_idem).
    destruct (accrualProtocolRevenue_range norm market dailyRevenue Hr H0 Hn)
      as [H1 H2].
    split; [exact H1|]. split; [exact H2|].
    apply (accrualSupplySideRevenue_nonneg norm). exact H2.
  - intros token Ec.
    pose proof (updateDailySnapshot_revenue exact market event type volume amountUSD
                  userId s) as E.
    cbv zeta in E. rewrite Ec in E. unfold dailyRevenueFigures in E.
    injection E as _ _ E3. split; [rewrite E3; apply projection_is_one_day|].
    destruct (updateDailySnapshot_counter exact market event type volume amountUSD
                userId s) as (_ & -> & _).
    apply lookup_insert_eq.
  - destruct (updateDailySnapshot_counter norm market event type volume amountUSD
                userId s) as (_ & -> & _).
    apply lookup_insert_eq.
  - intros k Hne.
    destruct (updateDailySnapshot_counter norm market event type volume amountUSD
                userId s) as (_ & -> & _).
    now rewrite lookup_insert_ne.
  - intros Hk.
    destruct (updateDailySnapshot_counter norm market event type volume amountUSD
                userId s) as (-> & _).
    unfold loadOrNewDailySnapshot.
    destruct (dailySnapshots s !! _) as [stored|] eqn:E; [exact (Hk _ _ E) | reflexivity].
Qed.

Lemma oneYear_computes_exactly :
  accrualComputes exact oneYearMarket (usdcStore oneYearMarket) = Some usdcToken.
Proof. vm_compute. reflexivity. Qed.

Lemma daily_revenue_is_a_projection_witness :
  let r :=
    updateDailySnapshot exact oneYearMarket supplyEvent "SUPPLY" (100 * 10 ^ 6)
      (Qc_of_Z 100) alice (usdcStore oneYearMarket) in
  DailySnapshot.dailyTotalRevenueUSD (fst r)
  = accrualPeriodRevenue exact oneYearMarket usdcToken SECONDS_PER_DAY
  /\ dailySnapshots (snd r) !! DailySnapshot.id (fst r) = Some (fst r).
Proof.
  pose proof (daily_revenue_is_a_projection exact exact_host exact_order oneYearMarket
                supplyEvent "SUPPLY" (100 * 10 ^ 6) (Qc_of_Z 100) alice
                (usdcStore oneYearMarket)) as T.
  cbv zeta in T. destruct T as (_ & T & _).
  exact (T usdcToken oneYear_computes_exactly).
Defined.
(** ** The totals of a user *)

Section UserTotals.

Variable norm : Qc -> Qc.
Context `{!HostNorm norm}.





End UserTotals.



(** ** Recomputing twice *)

Section Idempotent.

Variable norm : Qc -> Qc.

Lemma updateMarketState_resyncFrom (c : Chain) (market : Market.t) :
  updateMarketState norm c market
  = match try_getReserveData c (Market.asset market) with
    | Some reserveData => resyncFrom norm reserveData market
    | None => market
    end.
Proof. reflexivity. Qed.

Lemma resyncFrom_fields (reserveData : ReserveData) (market : Market.t) :
  resyncFrom norm reserveData market
  = let totalSupply := getTotalAToken reserveData in
    let totalBorrow :=
      getTotalVariableDebt reserveData + getTotalStableDebt reserveData in
    Market.mk (Market.id market) (Market.protocol market) (Market.asset market)
      (Market.aToken market) (Market.sToken market) (Market.vToken market)
      (Market.inputToken market) (Market.outputToken market)
      totalSupply totalBorrow (totalSupply - totalBorrow)
      (getLiquidityRate reserveData) (getVariableBorrowRate reserveData)
      (getStableBorrowRate reserveData)
      (Market.supplyAPY market) (Market.variableBorrowAPY market)
      (calculateUtilizationRate norm totalBorrow totalSupply)
      (Market.ltv market) (Market.liquidationThreshold market)
      (Market.liquidationPenalty market) (Market.reserveFactor market)
      (Market.lastUpdateTimestamp market) (Market.lastUpdateBlock market)
      (Market.lastRevenueCalculationTimestamp market).
Proof. destruct market. reflexivity. Qed.

Lemma resyncFrom_twice (reserveData : ReserveData) (market : Market.t) :
  resyncFrom norm reserveData (resyncFrom norm reserveData market)
  = resyncFrom norm reserveData market.
Proof.
  rewrite (resyncFrom_fields reserveData (resyncFrom norm reserveData market)).
  rewrite (resyncFrom_fields reserveData market). reflexivity.
Qed.

Lemma updateMarketState_twice (c : Chain) (market : Market.t) :
  updateMarketState norm c (updateMarketState norm c market)
  = updateMarketState norm c market.
Proof.
  rewrite (updateMarketState_resyncFrom c (updateMarketState norm c market)).
  rewrite (updateMarketState_asset norm).
  rewrite (updateMarketState_resyncFrom c market).
  destruct (try_getReserveData c (Market.asset market)) as [reserveData|];
    [apply resyncFrom_twice | reflexivity].
Qed.

Lemma fold_left_pointwise {A B : Type} (f g : A -> B -> A) (l : list B) :
  (forall a b, f a b = g a b) -> forall a, fold_left f l a = fold_left g l a.
Proof.
  intros H. induction l as [|b l IH]; intros a; simpl; [reflexivity|].
  rewrite H. apply IH.
Qed.

Lemma userTotalsStep_ext (user user' : User.t) (s s' : Store) :
  User.id user' = User.id user -> userPositions s' = userPositions s ->
  markets s' = markets s -> tokens s' = tokens s ->
  forall acc r, userTotalsStep norm user' s' acc r = userTotalsStep norm user s acc r.
Proof.
  intros Hi Hp Hm Ht acc r. unfold userTotalsStep. rewrite Hi, Hp, Hm, Ht. reflexivity.
Qed.

Lemma recalculateUserTotals_twice (c : Chain) (user : User.t) (s : Store) :
  let r := recalculateUserTotals norm c user s in
  recalculateUserTotals norm c (fst r) (snd r) = r.
Proof.
  cbv zeta. unfold recalculateUserTotals at 2 3 4.
  remember (match try_getReservesList c with
            | Some reserves =>
                fold_left (userTotalsStep norm user s) reserves (ZERO_BD, ZERO_BD)
            | None => (ZERO_BD, ZERO_BD)
            end) as sums eqn:E.
  destruct sums as [x y]. simpl fst. simpl snd.
  set (user' := User.set_totalBorrowUSD y (User.set_totalSupplyUSD x user)).
  unfold recalculateUserTotals.
  replace (match try_getReservesList c with
           | Some reserves =>
               fold_left (userTotalsStep norm user' (save_User user' s)) reserves
                 (ZERO_BD, ZERO_BD)
           | None => (ZERO_BD, ZERO_BD)
           end) with (x, y).
  replace (User.set_totalBorrowUSD y (User.set_totalSupplyUSD x user')) with user'
    by (unfold user'; destruct user; reflexivity).
  unfold save_User. simpl. rewrite insert_insert_eq. reflexivity.
Qed.

Lemma protocolTotalsLoop_shape (c : Chain) (reserves : list Address)
    (acc : Qc * Qc * Store) :
  let s := snd acc in
  let s' := snd (fold_left (protocolTotalsStep norm c) reserves acc) in
  s' = mkStore (protocols s) (markets s) (tokens s') (users s) (userPositions s)
         (transactions s) (hourlySnapshots s) (dailySnapshots s) (dailyActiveUsers s).
Proof.
  cbv zeta.
  apply (fold_left_invariant
           (fun a => snd a
                     = mkStore (protocols (snd acc)) (markets (snd acc)) (tokens (snd a))
                         (users (snd acc)) (userPositions (snd acc))
                         (transactions (snd acc)) (hourlySnapshots (snd acc))
                         (dailySnapshots (snd acc)) (dailyActiveUsers (snd acc)))).
  - intros [[x y] s] r H. unfold protocolTotalsStep.
    destruct (markets s !! toLowerCase r) as [m|]; [|exact H].
    destruct (tokens s !! Market.inputToken m); [|exact H].
    simpl in *. rewrite H. reflexivity.
  - destruct (snd acc). reflexivity.
Qed.

Lemma protocolTotalsLoop_alike (c : Chain) (reserves : list Address) :
  forall a b : Qc * Qc * Store,
    fst a = fst b -> sameButPrices (snd a) (snd b) ->
    fst (fold_left (protocolTotalsStep norm c) reserves a)
    = fst (fold_left (protocolTotalsStep norm c) reserves b).
Proof.
  induction reserves as [|r l IH]; intros [[x y] sa] [[x' y'] sb] E [Em Et];
    simpl in *; [exact E|].
  injection E as <- <-.
  apply IH; unfold protocolTotalsStep; rewrite Em;
    destruct (markets sa !! toLowerCase r) as [m|]; try reflexivity;
    try (split; assumption);
    pose proof (Et (Market.inputToken m)) as Hm;
    destruct (tokens sa !! Market.inputToken m) as [t|],
             (tokens sb !! Market.inputToken m) as [t'|];
    try contradiction; try reflexivity; try (split; assumption).
  - destruct Hm as [-> ->]. reflexivity.
  - destruct Hm as [Hid Hd]. split; [exact Em|]. intros k. simpl. rewrite Hid.
    rewrite !lookup_insert. case_decide; [simpl; split; [exact Hid | exact Hd]|].
    apply Et.
Qed.

Lemma sameButPrices_recalculated (c : Chain) (s : Store) :
  Keyed Token.id (tokens s) ->
  sameButPrices s (recalculateProtocolTotals norm c s).
Proof.
  intros Hk. split; [apply (recalculateProtocolTotals_frame norm c s)|].
  intros k. rewrite (recalculateProtocolTotals_prices norm c s k Hk).
  destruct (tokens s !! k) as [t|]; [|destruct (try_getReservesList c); exact I].
  destruct (try_getReservesList c) as [reserves|]; [|split; reflexivity].
  destruct (listedInputToken reserves s k); split; reflexivity.
Qed.

(** The store a recomputation leaves, field by field. *)
Lemma recalculateProtocolTotals_form (c : Chain) (s : Store) :
  Keyed Protocol.id (protocols s) ->
  let p :=
    match protocols s !! PROTOCOL_ID with
    | Some p => p
    | None => Protocol.mk PROTOCOL_ID ZERO_BD ZERO_BD ZERO_BD ZERO_BD ZERO_BD
    end in
  let sums :=
    match try_getReservesList c with
    | Some reserves =>
        fst (fold_left (protocolTotalsStep norm c) reserves (ZERO_BD, ZERO_BD, s))
    | None => (ZERO_BD, ZERO_BD)
    end in
  exists T : gmap string Token.t,
    recalculateProtocolTotals norm c s
    = mkStore
        (<[PROTOCOL_ID :=
             Protocol.set_totalBorrowUSD (snd sums)
               (Protocol.set_totalSupplyUSD (fst sums) p)]> (protocols s))
        (markets s) T (users s) (userPositions s) (transactions s)
        (hourlySnapshots s) (dailySnapshots s) (dailyActiveUsers s).
Proof.
  intros Hk. cbv zeta. unfold recalculateProtocolTotals, getOrCreateProtocol.
  destruct (protocols s !! PROTOCOL_ID) as [p|] eqn:E.
  - pose proof (Hk _ _ E) as Hid.
    destruct (try_getReservesList c) as [reserves|].
    + pose proof (protocolTotalsLoop_shape c reserves (ZERO_BD, ZERO_BD, s)) as Sh.
      cbv zeta in Sh.
      destruct (fold_left (protocolTotalsStep norm c) reserves (ZERO_BD, ZERO_BD, s))
        as [[x y] s1].
      simpl in Sh. exists (tokens s1). rewrite Sh at 1. unfold save_Protocol. simpl.
      rewrite Hid. reflexivity.
    + exists (tokens s). unfold save_Protocol. simpl. rewrite Hid. reflexivity.
  - set (fresh := Protocol.mk PROTOCOL_ID ZERO_BD ZERO_BD ZERO_BD ZERO_BD ZERO_BD).
    destruct (try_getReservesList c) as [reserves|].
    + pose proof (protocolTotalsLoop_shape c reserves
                    (ZERO_BD, ZERO_BD, save_Protocol fresh s)) as Sh.
      cbv zeta in Sh.
      pose proof (protocolTotalsLoop_alike c reserves
                    (ZERO_BD, ZERO_BD, save_Protocol fresh s) (ZERO_BD, ZERO_BD, s)
                    eq_refl) as Ha.
      rewrite <- Ha.
      * destruct (fold_left (protocolTotalsStep norm c) reserves
                    (ZERO_BD, ZERO_BD, save_Protocol fresh s)) as [[x y] s1].
        simpl in Sh. exists (tokens s1). rewrite Sh at 1. unfold save_Protocol. simpl.
        rewrite insert_insert_eq. reflexivity.
      * simpl. split; [reflexivity|]. intros k.
        change (tokens (save_Protocol fresh s)) with (tokens s).
        destruct (tokens s !! k); [split; reflexivity | exact I].
    + exists (tokens s). unfold save_Protocol. simpl.
      rewrite insert_insert_eq. reflexivity.
Qed.

Lemma recalculateProtocolTotals_twice (c : Chain) (s : Store) :
  StoreKeyed s ->
  recalculateProtocolTotals norm c (recalculateProtocolTotals norm c s)
  = recalculateProtocolTotals norm c s.
Proof.
  intros Hs.
  pose proof (recalculateProtocolTotals_keyed norm c s Hs) as Hs'.
  assert (Kt : Keyed Token.id (tokens s)) by apply Hs.
  assert (Kt' : Keyed Token.id (tokens (recalculateProtocolTotals norm c s)))
    by apply Hs'.
  pose proof (sameButPrices_recalculated c s Kt) as Hsame.
  assert (Etok : tokens (recalculateProtocolTotals norm c
                           (recalculateProtocolTotals norm c s))
                 = tokens (recalculateProtocolTotals norm c s)).
  { apply map_eq. intros k.
    rewrite (recalculateProtocolTotals_prices norm c _ k Kt').
    rewrite (recalculateProtocolTotals_prices norm c s k Kt).
    destruct (try_getReservesList c) as [reserves|];
      [|destruct (tokens s !! k); reflexivity].
    destruct (tokens s !! k) as [t|]; [|reflexivity].
    rewrite (listedInputToken_ext reserves s _ k (proj1 Hsame)).
    destruct (listedInputToken reserves s k); [|reflexivity].
    rewrite set_lastPriceUSD_twice. reflexivity. }
  destruct (recalculateProtocolTotals_form c s (proj1 Hs)) as (T & E1).
  destruct (recalculateProtocolTotals_form c _ (proj1 Hs')) as (T' & E2).
  cbv zeta in E1, E2.
  assert (Esums : forall reserves,
            fst (fold_left (protocolTotalsStep norm c) reserves
                   (ZERO_BD, ZERO_BD, recalculateProtocolTotals norm c s))
            = fst (fold_left (protocolTotalsStep norm c) reserves
                     (ZERO_BD, ZERO_BD, s))).
  { intros reserves. apply protocolTotalsLoop_alike; [reflexivity|].
    destruct Hsame as [Em Et]. split; [symmetry; exact Em|].
    intros k. specialize (Et k). cbn [snd].
    destruct (tokens s !! k), (tokens (recalculateProtocolTotals norm c s) !! k);
      try exact Et. destruct Et as [Ea Eb]. split; symmetry; assumption. }
  rewrite E2 in Etok. simpl in Etok.
  rewrite E2. clear E2. rewrite E1 in Etok |- *. simpl in Etok |- *. subst T'.
  rewrite lookup_insert_eq, insert_insert_eq.
  f_equal. f_equal.
  destruct (try_getReservesList c) as [reserves|].
  - rewrite <- E1, Esums.
    destruct (protocols s !! PROTOCOL_ID) as [p|]; reflexivity.
  - destruct (protocols s !! PROTOCOL_ID) as [p|]; reflexivity.
Qed.

End Idempotent.

(** X26. Recomputing twice is recomputing once.  Against the same chain a
    second [updateMarketState] leaves the market as the first left it, a
    second [recalculateUserTotals] returns the user and the store of the
    first, and a second [recalculateProtocolTotals] leaves the store as the
    first left it: the totals and the refreshed prices are functions of the
    records and of the chain, and nothing of what an earlier recomputation
    wrote enters the next one. *)
Theorem recomputations_are_idempotent (norm : Qc -> Qc) (c : Chain) (s : Store) :
  StoreKeyed s ->
  (forall market : Market.t,
      updateMarketState norm c (updateMarketState norm c market)
      = updateMarketState norm c market)
  /\ (forall user : User.t,
         let r := recalculateUserTotals norm c user s in
         recalculateUserTotals norm c (fst r) (snd r) = r)
  /\ recalculateProtocolTotals norm c (recalculateProtocolTotals norm c s)
     = recalculateProtocolTotals norm c s.
Proof.
  intros Hs. split; [|split].
  - intros market. apply updateMarketState_twice.
  - intros user. apply recalculateUserTotals_twice.
  - apply recalculateProtocolTotals_twice, Hs.
Qed.

Lemma recomputations_are_idempotent_witness :
  recalculateProtocolTotals round34 baseChain
    (recalculateProtocolTotals round34 baseChain (usdcStore oneYearMarket))
  = recalculateProtocolTotals round34 baseChain (usdcStore oneYearMarket).
Proof.
  pose proof (recomputations_are_idempotent round34 baseChain (usdcStore oneYearMarket)
                (usdcStore_fully_keyed oneYearMarket)) as T.
  destruct T as (_ & _ & T). exact T.
Defined.
(** ** The USD amount of a transaction *)

Section Valuation.

Variable norm : Qc -> Qc.

Lemma calculateUSDValue_reverted (c : Chain) (amount : Z) (tokenAddress : Address)
    (decimals : Z) :
  try_getAssetPrice c tokenAddress = None ->
  calculateUSDValue norm c amount tokenAddress decimals = ZERO_BD.
Proof.
  intros E. unfold calculateUSDValue, getTokenPriceUSD. rewrite E.
  unfold bd_equals. rewrite bool_decide_eq_true_2 by reflexivity. reflexivity.
Qed.

Lemma settleEvent_valued (c : Chain) (event : Event) (type : string)
    (user : User.t) (market : Market.t) (s : Store) :
  Keyed Token.id (tokens s) ->
  let s' := settleEvent norm c event type user market s in
  exists tx : Transaction.t,
    transactions s' !! transactionKey event = Some tx
    /\ Transaction.amountUSD tx
       = match tokens s' !! Market.inputToken market with
         | Some token =>
             calculateUSDValue norm c (amount event) (Market.asset market)
               (fromI32 (Token.decimals token))
         | None => ZERO_BD
         end.
Proof.
  intros Hk. cbv zeta. unfold settleEvent.
  set (market1 :=
         Market.set_lastUpdateBlock (blockNumber (eventBlock event))
           (Market.set_lastUpdateTimestamp (blockTimestamp (eventBlock event))
              (updateMarketState norm c market))).
  assert (Hin : Market.inputToken market1 = Market.inputToken market).
  { pose proof (MarketStep_config norm (fun _ => True) market
                  (updateMarketState norm c market)
                  (step_resync norm _ c market market I (step_none norm _ market)))
      as Hc.
    unfold marketConfig in Hc. unfold market1. simpl. congruence. }
  assert (Has : Market.asset market1 = Market.asset market)
    by (unfold market1; simpl; apply updateMarketState_asset).
  set (amountUSD :=
         match tokens (save_Market market1 s) !! Market.inputToken market1 with
         | Some token =>
             calculateUSDValue norm c (amount event) (Market.asset market1)
               (fromI32 (Token.decimals token))
         | None => ZERO_BD
         end).
  set (user1 := User.set_transactionCount (i32_add (User.transactionCount user) 1) user).
  set (sU := save_User user1
               (createTransaction event user market1 type (amount event) amountUSD
                  (save_Market market1 s))).
  pose proof (recalculateUserTotals_frame norm c user1 sU) as F1. cbv zeta in F1.
  pose proof (recalculateUserTotals_logs norm c user1 sU) as L1.
  destruct (recalculateUserTotals norm c user1 sU) as [user2 sR].
  simpl in F1, L1.
  assert (Et : tokens sR = tokens s) by (destruct F1 as (_ & _ & -> & _); reflexivity).
  pose proof (sameButPrices_recalculated norm c sR ltac:(rewrite Et; exact Hk)) as Hp.
  pose proof (recalculateProtocolTotals_logs norm c sR) as L2.
  match goal with |- context [updateHourlySnapshot ?m ?e ?t ?v ?s1] =>
    pose proof (updateHourlySnapshot_frame m e t v s1) as F3;
    assert (T3 : transactions (snd (updateHourlySnapshot m e t v s1)) = transactions s1)
      by reflexivity;
    destruct (updateHourlySnapshot m e t v s1) as [h s3] end.
  simpl in F3, T3.
  match goal with |- context [updateDailySnapshot norm ?m ?e ?t ?v ?a ?u ?s1] =>
    pose proof (updateDailySnapshot_frame norm m e t v a u s1) as F4;
    pose proof (updateDailySnapshot_logs norm m e t v a u s1) as L4;
    destruct (updateDailySnapshot norm m e t v a u s1) as [d s4] end.
  cbv zeta in F4. simpl in F4, L4.
  assert (ET : transactions s4 = transactions sU).
  { unfold logs in *. injection L4 as -> _. rewrite T3. injection L2 as -> _.
    injection L1 as -> _. reflexivity. }
  assert (Ek : tokens s4 = tokens (recalculateProtocolTotals norm c sR))
    by (intuition congruence).
  eexists. split.
  - rewrite ET. unfold sU, createTransaction, transactionKey. simpl.
    apply lookup_insert_eq.
  - simpl. unfold amountUSD. rewrite Ek, Hin, Has. simpl.
    destruct Hp as [_ Hp]. specialize (Hp (Market.inputToken market)).
    rewrite Et in Hp.
    destruct (tokens s !! Market.inputToken market) as [t|],
             (tokens (recalculateProtocolTotals norm c sR) !! Market.inputToken market)
               as [t'|]; try contradiction; [|reflexivity].
    destruct Hp as [_ ->]. reflexivity.
Qed.

Lemma eventHandler_valued (c : Chain) (event : Event) (type : string) (s : Store)
    (update : Market.t -> UserPosition.t -> Store -> UserPosition.t) :
  StoreKeyed s ->
  valuedAtOracle norm c event
    (let '(market, user, position, s1) := openEvent norm c event s in
     settleEvent norm c event type user market
       (save_UserPosition (update market position s1) s1)).
Proof.
  intros Hs.
  pose proof (openEvent_opened norm c event s Hs) as Ho.
  pose proof (openEvent_keyed norm c event s Hs) as Hk1.
  destruct (openEvent norm c event s) as [[[market user] position] s1].
  cbv zeta in Ho. destruct Ho as (Im & _). simpl in Hk1.
  set (s2 := save_UserPosition (update market position s1) s1).
  assert (Hk2 : Keyed Token.id (tokens s2)) by apply Hk1.
  destruct (settleEvent_valued c event type user market s2 Hk2) as (tx & Htx & Hv).
  set (market1 :=
         Market.set_lastUpdateBlock (blockNumber (eventBlock event))
           (Market.set_lastUpdateTimestamp (blockTimestamp (eventBlock event))
              (updateMarketState norm c market))).
  assert (Hin : Market.inputToken market1 = Market.inputToken market).
  { pose proof (MarketStep_config norm (fun _ => True) market
                  (updateMarketState norm c market)
                  (step_resync norm _ c market market I (step_none norm _ market)))
      as Hc.
    unfold marketConfig in Hc. unfold market1. simpl. congruence. }
  assert (Has : Market.asset market1 = Market.asset market)
    by (unfold market1; simpl; apply updateMarketState_asset).
  exists market1, tx. split; [|split; [exact Htx|]].
  - rewrite (settleEvent_markets norm (fun _ => True)). fold market1. simpl.
    replace (getTokenId (reserve event)) with (Market.id market1).
    + apply lookup_insert_eq.
    + unfold market1. simpl. rewrite updateMarketState_id. exact Im.
  - rewrite Hin, Has. split; [exact Hv|].
    intros E. rewrite Hv.
    destruct (tokens _ !! Market.inputToken market); [|reflexivity].
    apply calculateUSDValue_reverted, E.
Qed.

End Valuation.

(** X27. The USD amount on the transaction of an event is a valuation at
    the event: each of the four handlers converts the amount with the
    decimals of the input token of the market and values it at the price the
    oracle gives for the asset of the market when the event is handled --
    not at the price on record of the token.  The amount is zero when the
    market has no input token on record, and when the oracle call
    reverts. *)
Theorem transactions_are_valued_at_the_oracle (norm : Qc -> Qc) (c : Chain)
    (event : Event) (s : Store) :
  StoreKeyed s ->
  valuedAtOracle norm c event (handleSupply norm c event s)
  /\ valuedAtOracle norm c event (handleWithdraw norm c event s)
  /\ valuedAtOracle norm c event (handleBorrow norm c event s)
  /\ valuedAtOracle norm c event (handleRepay norm c event s).
Proof.
  intros Hs. split; [|split; [|split]].
  - exact (eventHandler_valued norm c event "SUPPLY" s
             (fun market position _ => supplyToPosition c event market position) Hs).
  - exact (eventHandler_valued norm c event "WITHDRAW" s
             (fun market position s1 =>
                withdrawFromPosition norm c event market position s1) Hs).
  - exact (eventHandler_valued norm c event "BORROW" s
             (fun market position _ => resyncPosition c event market position) Hs).
  - exact (eventHandler_valued norm c event "REPAY" s
             (fun market position _ => resyncPosition c event market position) Hs).
Qed.

Lemma transactions_are_valued_at_the_oracle_witness :
  valuedAtOracle round34 noOracleChain supplyEvent
    (handleSupply round34 noOracleChain supplyEvent (usdcStore oneYearMarket)).
Proof.
  pose proof (transactions_are_valued_at_the_oracle round34 noOracleChain supplyEvent
                (usdcStore oneYearMarket) (usdcStore_fully_keyed oneYearMarket)) as T.
  destruct T as (T & _). exact T.
Defined.
(** ** The principal of a position on record *)

Section StoredPrincipal.

Variable norm : Qc -> Qc.

(** The position an event handler works on is the one on record for the
    account and the market of the event, with its principal; a position the
    event opens starts from zero. *)
Lemma openEvent_principalOf (c : Chain) (event : Event) (s : Store) :
  StoreKeyed s ->
  let '(market, user, position, s1) := openEvent norm c event s in
  let positionId :=
    getTokenId (account event) +:+ "-" +:+ getTokenId (reserve event) in
  UserPosition.id position = positionId
  /\ UserPosition.principal position = principalOf s positionId.
Proof.
  intros Hs.
  pose proof (openEvent_opened norm c event s Hs) as Ho.
  pose proof (openEvent_position norm c event s
                (proj1 (proj2 (proj2 (proj2 (proj2 Hs)))))) as Hp.
  destruct (openEvent norm c event s) as [[[market user] position] s1].
  cbv zeta in Ho. destruct Ho as (_ & Ip & _). destruct Hp as (_ & _ & Hp).
  split; [exact Ip|]. unfold principalOf. rewrite <- Ip.
  destruct (userPositions s !! UserPosition.id position) as [stored|].
  - now subst stored.
  - tauto.
Qed.

Lemma handleWithdraw_principalOf (c : Chain) (event : Event) (s : Store) :
  StoreKeyed s ->
  let positionId :=
    getTokenId (account event) +:+ "-" +:+ getTokenId (reserve event) in
  let s' := handleWithdraw norm c event s in
  principalOf s' positionId
  = (if amount event <=? principalOf s positionId
     then principalOf s positionId - amount event else 0)
  /\ is_Some (userPositions s' !! positionId)
  /\ (forall k, k <> positionId -> userPositions s' !! k = userPositions s !! k).
Proof.
  intros Hs. cbv zeta. unfold handleWithdraw.
  pose proof (openEvent_principalOf c event s Hs) as Ho.
  pose proof (savedPosition_pnl norm c event "WITHDRAW" s
                (fun market position s1 =>
                   withdrawFromPosition norm c event market position s1)
                (proj1 (proj2 (proj2 (proj2 (proj2 Hs)))))
                (fun m p s1 => proj1 (withdrawFromPosition_spec norm c event m p s1)))
    as Hp.
  destruct (openEvent norm c event s) as [[[market user] position] s1].
  cbv zeta in Ho, Hp. destruct Ho as (Ip & Epr). destruct Hp as (H1 & H2 & _).
  rewrite Ip in H1, H2.
  destruct (withdrawFromPosition_spec norm c event market position s1)
    as (_ & Hpr & _).
  split; [|split; [rewrite H1; eauto | exact H2]].
  unfold principalOf at 1. rewrite H1, Hpr, Epr. reflexivity.
Qed.

End StoredPrincipal.

(** C7. A withdrawal leaves the principal of the position at the tracked
    principal less the amount of the event when the amount does not exceed
    it, and at zero when it does; it is not negative in either case.  The
    handlers of all events and of the block tick keep every stored principal
    non-negative (event amounts are unsigned), and so does every sequence of
    them from the empty store.  The tracked principal is the one on record:
    the position the handler works on is the stored position of the account
    on the market (principal zero when the event opens it), and after the
    withdrawal the principal on record is the one on record before less the
    amount, or zero, with every other position left as it was. *)
Theorem principal_floor (norm : Qc -> Qc) (c : Chain) (event : Event) (s : Store) :
  (let '(market, user, position, s1) := openEvent norm c event s in
   let position' := withdrawFromPosition norm c event market position s1 in
   userPositions (handleWithdraw norm c event s) !! UserPosition.id position
   = Some position'
   /\ UserPosition.principal position'
      = (if amount event <=? UserPosition.principal position
         then UserPosition.principal position - amount event else 0)
   /\ 0 <= UserPosition.principal position')
  /\ (forall trigger,
         amountIsUnsigned trigger -> PrincipalInvariant s ->
         PrincipalInvariant (handle norm trigger s))
  /\ (forall triggers,
         Forall amountIsUnsigned triggers ->
         PrincipalInvariant (run norm triggers emptyStore))
  /\ (StoreKeyed s ->
      let positionId :=
        getTokenId (account event) +:+ "-" +:+ getTokenId (reserve event) in
      let s' := handleWithdraw norm c event s in
      (let '(market, user, position, s1) := openEvent norm c event s in
       UserPosition.id position = positionId
       /\ UserPosition.principal position = principalOf s positionId)
      /\ principalOf s' positionId
         = (if amount event <=? principalOf s positionId
            then principalOf s positionId - amount event else 0)
      /\ is_Some (userPositions s' !! positionId)
      /\ (forall k, k <> positionId -> userPositions s' !! k = userPositions s !! k)).
Proof.
  split; [|split; [|split]].
  - unfold handleWithdraw.
    destruct (openEvent norm c event s) as [[[market user] position] s1].
    cbv zeta. rewrite settleEvent_positions. simpl.
    destruct (withdrawFromPosition_spec norm c event market position s1)
      as (Hid & Hp & _).
    rewrite Hid. split; [apply lookup_insert_eq|]. split; [exact Hp|].
    rewrite Hp. destruct (Z.leb_spec (amount event) (UserPosition.principal position));
      lia.
  - intros trigger. apply handle_principal.
  - intros triggers Hall. unfold run.
    assert (H0 : PrincipalInvariant emptyStore).
    { intros k p. simpl. rewrite lookup_empty. discriminate. }
    revert H0. generalize emptyStore.
    induction Hall as [|t ts Ht Hts IH]; intros s0 H0; simpl; [exact H0|].
    apply IH. apply handle_principal; assumption.
  - intros Hs. cbv zeta.
    split; [exact (openEvent_principalOf norm c event s Hs)|].
    exact (handleWithdraw_principalOf norm c event s Hs).
Qed.

Lemma aliceStore_fully_keyed : StoreKeyed aliceStore.
Proof.
  unfold aliceStore. apply save_UserPosition_keyed, usdcStore_fully_keyed.
Qed.

Lemma principal_floor_witness :
  amountIsUnsigned (OnWithdraw baseChain withdraw60Event)
  /\ PrincipalInvariant (run round34 [OnSupply baseChain depositEvent] emptyStore)
  /\ PrincipalInvariant
       (handle round34 (OnWithdraw baseChain withdraw60Event)
          (run round34 [OnSupply baseChain depositEvent] emptyStore))
  /\ principalOf aliceStore alicePositionId = 40 * 10 ^ 6
  /\ principalOf (handleWithdraw round34 baseChain withdraw30Event aliceStore)
       alicePositionId
     = 10 * 10 ^ 6
  /\ principalOf (handleWithdraw round34 baseChain withdraw60Event aliceStore)
       alicePositionId
     = 0.
Proof.
  assert (Ha : amountIsUnsigned (OnWithdraw baseChain withdraw60Event))
    by (simpl; lia).
  assert (Hs : PrincipalInvariant (run round34 [OnSupply baseChain depositEvent] emptyStore)).
  { apply (principal_floor round34 baseChain depositEvent emptyStore).
    constructor; [simpl; lia | constructor]. }
  split; [exact Ha|]. split; [exact Hs|].
  split;
    [exact (proj1 (proj2 (principal_floor round34 baseChain withdraw60Event _)) _ Ha Hs)|].
  split; [reflexivity|].
  pose proof (principal_floor round34 baseChain withdraw30Event aliceStore) as T30.
  destruct T30 as (_ & _ & _ & T30).
  destruct (T30 aliceStore_fully_keyed) as (_ & E30 & _).
  pose proof (principal_floor round34 baseChain withdraw60Event aliceStore) as T60.
  destruct T60 as (_ & _ & _ & T60).
  destruct (T60 aliceStore_fully_keyed) as (_ & E60 & _).
  split.
  - change alicePositionId
      with (getTokenId (account withdraw30Event) +:+ "-"
            +:+ getTokenId (reserve withdraw30Event)).
    rewrite E30. reflexivity.
  - change alicePositionId
      with (getTokenId (account withdraw60Event) +:+ "-"
            +:+ getTokenId (reserve withdraw60Event)).
    rewrite E60. reflexivity.
Defined.
